(* ===== verification/_CoqProject ===== *)
-Q . S2P
Prelude.v
Shared.v
Util.v
Printing.v
Bignum.v
Crypto.v
Unresolved.v
Transactions.v
Merkle.v
Blocks.v
Queue.v
Arrays.v
Store.v
Validation.v
Mempool.v
Lifetime.v
Limbo.v
Reach.v
Build.v
Network.v
Receive.v
Machine.v
Threads.v
Listen.v
Join.v
Retarget.v
Mine.v
Miner.v
Program.v
Node.v
Echo.v
Sketches.v
