(* ===== verification/Prelude.v ===== *)
(** * freecoin

    A model of the freecoin node (a cryptocurrency client in C) and the
    theorems about it.  This file documents the development and holds the
    notions every other file uses.

    ** The program

    A node keeps blocks, transactions and their chain in five Berkeley DB
    databases and the pending transactions in a mempool (src/data.c); it
    talks to peers over sockets, one thread per connection (src/network.c),
    with messages assembled by src/build.c; it serialises transactions and
    blocks into byte buffers (src/transactions.c, src/blocks.c), hashes them
    (src/crypto.c), computes targets (src/blockchain.c, src/bignum.c) and
    mines (src/mine/mine.c).  src/util.c converts integers and hexadecimal
    text, src/queue.c and src/array.c are containers, src/printing.c writes to
    the terminal, include/shared.h fixes sizes, positions and codes.  The
    repository also keeps an echo server and client (misc/net-testing) and a
    test program (src/testing).

    ** The files

    - Prelude: outcomes, machine integers, buffers, loops, [memcmp], tactics;
    - Shared: every numeric macro of include/shared.h, and the tables of
      fields of blocks and transactions;
    - Util: src/util.c, and the value of a byte string (reference);
    - Printing: src/printing.c, C strings, and computations with output;
    - Bignum: src/bignum.c;
    - Crypto: src/crypto.c, the hash of FIPS 180-4, and the refinement;
    - Unresolved: what the sources use and do not define, as type classes;
    - Transactions: src/transactions.c, the writers and [m_tx_gen];
    - Merkle: src/transactions.c, [compute_merkle_root] on a heap of nodes;
    - Blocks: src/blocks.c;
    - Queue: src/queue.c on a heap of nodes, and its FIFO specification;
    - Arrays: src/array.c;
    - Store: src/data.c, the databases, against an interface of Berkeley DB;
    - Validation: src/validation.c;
    - Mempool: src/data.c, the mempool;
    - Lifetime: src/data.c, the opening and closing of the databases and the
      life of the mempool; src/transactions.c, [m_tx_die];
    - Limbo: src/data.c, the blocks off the chain and the switch to them;
    - Reach: the reachable states of the databases;
    - Build: src/build.c;
    - Network: src/network.c, [sendto_peer] and the message loop;
    - Receive: src/network.c, received blocks and transactions;
    - Machine: threads that interleave the accesses of operations on a shared
      state, one mutex, and the class [Operations] of what a component offers;
    - Threads: the functions on the mempool of src/data.c, src/build.c and
      src/network.c as such operations, with the mutex and without;
    - Listen: src/network.c, [server_listener] and [start_client_conn];
    - Join: src/network.c, [join_network] as a transition system;
    - Retarget: src/blockchain.c;
    - Mine: src/mine/mine.c, [mine] and the arguments of [main];
    - Miner: src/mine/mine.c, the rest of [main], its loops as steps;
    - Program: src/mine/mine.c, the start of [main] with its output, its phases
      from the arguments to the loops, and [succeed];
    - Node: src/network.c, the main thread, the listener and the connections of
      a running node as one transition system;
    - Echo: misc/net-testing/old/server.c and client.c, each on its own;
    - Sketches: old/inet.c and peers.c, temp-net-send-example.c, testing.c.

    A definition has the name of the function, type or macro it models; a
    part of a long function is a definition of its own, named after what it
    does.  State is passed explicitly: a pointer into a buffer is the buffer
    and an offset, a function that stores through a pointer returns the new
    buffer, structures on the heap are finite maps from locations.

    ** What the theorems show

    - Crypto: any sequence of updates computes the FIPS hash value; the
      digest stored keeps one byte in four of it.
    - Merkle: the in-place loops with swapped pointers compute the root of
      the recursive definition, and free what they allocate; repeating an odd
      last transaction does not change the root.
    - Queue: every run of enqueues and dequeues equals the run of the FIFO
      list when [size] starts at 0; the destructor is always undefined.
    - Bignum: the product modulo [256^w]; operands must be [w] bytes long.
    - Util, Transactions, Blocks: the exact bytes written, round trips, and
      where the byte order of the host shows: the nonce of a little-endian
      host returns to 0 after 131071 increments.
    - Blocks: a transaction is appended when the size is right, and
      overwrites the body when the low byte of the address is 0.
    - Store, Mempool, Build: what each operation does to the records, to the
      pool and to the lists, on every branch; all keys are the empty string,
      because [new_dbt] does not set [size].  The pool answers every sequence
      of calls that deletes only last transactions as a list of bounded length;
      deleting another leaves a hole that the next search runs into.
    - Machine, Threads: under the mutex every interleaving of accesses is a
      sequence of whole operations in the order they took it, with the same
      answers (the mempool is linearizable), and nobody waits for ever;
      the addition of [data_blocks_revert], which does not take the mutex, can
      lose a transaction and leave a pointer that is not one in the pool.
    - Reach: no run of the operations of data.c ever stores a key or a
      record, so nothing is ever read back (rule induction on the steps).
    - Limbo: [data_limbo_scan] looks at the levels above the chain and
      switches at most once; adding to a level that is there stores nothing;
      [data_blocks_revert] does not return on blocks as they were stored.
    - Lifetime: when [db->close] releases the handle, closing what was opened
      is undefined; a failing call of the library ends the program.
    - Network, Receive: the bytes on the wire, version checks, the loops over
      requested hashes, the routing of blocks compared with the README.
      Join: [join_network] stops at its second lock and never returns.
    - Mine, Miner: the search ends, and has tried the nonces in order until
      one was accepted or the time was over; in every run of the loops of
      [main] the block that is mined has the height, previous hash and target
      of the variables of [main] and a Merkle root of zeros.
    - Program: what the start of [main] prints for any arguments, and that it
      ends in the exit of [fatal] or in undefined behaviour; no run that got
      past it would come to the loops.
    - Node: in every run of a node all that is ever sent is one request of two
      bytes; the first connection whose thread runs ends the program.
    - Printing, Echo, Sketches: what is printed and sent; the client of the
      echo server shows the ends of earlier replies behind shorter ones.

    ** Readings

    Part of the sources does not compile.  The model takes the code as it is
    written, with these readings.
    - A function or macro that is used and defined nowhere is a parameter (a
      field of [TxNames], [BlockNames], [TargetNames], [BerkeleyDB], ...); a
      variable that is used and not declared is an argument of the
      definition, except where its file says what it is read as.
    - A missing bracket or semicolon is supplied, a stray token dropped.
    - [malloc] succeeds (the two buffers of [handle_connection] apart) and
      leaves unknown bytes (class [Malloc]).  An integer that is never set is
      a parameter; a pointer that is never set must not be used.
    - [char] is signed; shifts of [int] that leave its range wrap, as gcc
      does; [int] counters stay below [2^31].
    - Printing has no effect on the state: it is left out of the functions of
      the node, where [fatal] is the outcome [Fatal], and kept in Printing,
      Program, Echo and Sketches.

    ** Fuel

    Loops bounded by a counter are structural ([for_range] and its kin).
    [merkle_loop] has the number of leaves as fuel, and every round lowers
    the count of nodes; [queue_fatal_loop] the number of nodes, and every
    round frees one; [mine_loop] any fuel above the number of rounds the
    clock allows.  The theorems about them give the result, so running out of
    fuel ([Hang]) is excluded.  For the first loop of [data_blocks_revert] the
    result is that it does not return, and the theorem is about every fuel.

    ** Not modelled

    docs/OLD, earlier classes in another language.  [big_div], [valid_block],
    [data_limbo_exists] and the two functions
    [data_limbo_scan_can_trace_back] have empty bodies: calls of them are
    arguments.  The prototypes of include/ are those of the definitions.  The
    mutex of the peers is modelled in Join.v and that of the mempool in
    Threads.v; elsewhere they are left out: a function takes and gives back one,
    and the model is the part in between.  In Node.v the thread of a connection
    is one step, as it ends the program before it touches what is shared.  Threads.v lets the accesses of threads alternate and does not
    model the weaker orders the hardware allows.  Of the socket library and of
    the file system only the results of the calls are there. *)
From Stdlib Require Export ZArith Lia.
From stdpp Require Export base numbers list gmap option.

#[global] Set Default Goal Selector "!".

#[global] Open Scope Z_scope.

(** ** Outcomes of C code *)

(** What a C function can do: return a value, call [fatal] (printing.c:
    print and [exit(1)]), run into undefined behaviour (an access outside
    an allocation, the use of a pointer that was never set or was freed), or
    run for ever. *)
Inductive outcome (A : Type) : Type :=
| Done (a : A)
| Fatal
| Undef
| Hang.
Arguments Done {A} a.
Arguments Fatal {A}.
Arguments Undef {A}.
Arguments Hang {A}.

#[export] Instance outcome_ret : MRet outcome := fun A a => Done a.
#[export] Instance outcome_bind : MBind outcome := fun A B f m =>
  match m with
  | Done a => f a | Fatal => Fatal | Undef => Undef | Hang => Hang
  end.
#[export] Instance outcome_fmap : FMap outcome := fun A B f m =>
  match m with
  | Done a => Done (f a) | Fatal => Fatal | Undef => Undef | Hang => Hang
  end.

#[export] Instance outcome_eq_dec {A} `{EqDecision A} : EqDecision (outcome A).
Proof. solve_decision. Defined.

Lemma outcome_bind_assoc {A B D} (m : outcome A) (f : A → outcome B)
    (g : B → outcome D) :
  (m ≫= f) ≫= g = m ≫= (λ a, f a ≫= g).
Proof. by destruct m. Qed.

Lemma bind_Done {A B} (a : A) (f : A → outcome B) : (Done a ≫= f) = f a.
Proof. done. Qed.

Lemma bind_Done_inv {A B} (m : outcome A) (f : A → outcome B) b :
  m ≫= f = Done b → ∃ a, m = Done a ∧ f a = Done b.
Proof. destruct m as [a| | |]; naive_solver. Qed.

(** Two computations agree: both end in the same way, with related values. *)
Definition outcome_rel {A B} (R : A → B → Prop) (m : outcome A) (n : outcome B) : Prop :=
  match m, n with
  | Done a, Done b => R a b
  | Fatal, Fatal | Undef, Undef | Hang, Hang => True
  | _, _ => False
  end.

Lemma outcome_rel_bind {A B A' B'} (R : A → B → Prop) (R' : A' → B' → Prop) m n f g :
  outcome_rel R m n → (∀ a b, R a b → outcome_rel R' (f a) (g b)) →
  outcome_rel R' (m ≫= f) (n ≫= g).
Proof. destruct m, n; naive_solver. Qed.

Lemma outcome_rel_eq {A} (m n : outcome A) : outcome_rel eq m n ↔ m = n.
Proof. destruct m, n; naive_solver. Qed.

Lemma outcome_rel_refl {A} (R : A → A → Prop) m :
  (∀ a, m = Done a → R a a) → outcome_rel R m m.
Proof. destruct m; naive_solver. Qed.

(** ** Machine integers *)

(** The widths of the program ([uchar], [ushort], [uint] of shared.h, and the
    signed [char] and [int] of the C compiler): conversion wraps. *)
Definition w8 (x : Z) : Z := x mod 2 ^ 8.
Definition w16 (x : Z) : Z := x mod 2 ^ 16.
Definition w32 (x : Z) : Z := x mod 2 ^ 32.
Definition s8 (x : Z) : Z := (x + 2 ^ 7) mod 2 ^ 8 - 2 ^ 7.
Definition s32 (x : Z) : Z := (x + 2 ^ 31) mod 2 ^ 32 - 2 ^ 31.

Definition is_byte (b : Z) : Prop := 0 ≤ b < 256.
#[export] Instance is_byte_dec b : Decision (is_byte b).
Proof. unfold is_byte. apply _. Defined.

Lemma w8_id x : 0 ≤ x < 256 → w8 x = x.
Proof. intros. unfold w8. apply Z.mod_small. lia. Qed.
Lemma w16_id x : 0 ≤ x < 2 ^ 16 → w16 x = x.
Proof. intros. unfold w16. by apply Z.mod_small. Qed.
Lemma w32_id x : 0 ≤ x < 2 ^ 32 → w32 x = x.
Proof. intros. unfold w32. by apply Z.mod_small. Qed.
Lemma s32_id x : - 2 ^ 31 ≤ x < 2 ^ 31 → s32 x = x.
Proof. intros. unfold s32. rewrite Z.mod_small; lia. Qed.
Lemma w8_range x : 0 ≤ w8 x < 256.
Proof. unfold w8. apply (Z.mod_pos_bound x 256). lia. Qed.
Lemma w16_range x : 0 ≤ w16 x < 2 ^ 16.
Proof. unfold w16. apply Z.mod_pos_bound. lia. Qed.
Lemma w32_range x : 0 ≤ w32 x < 2 ^ 32.
Proof. unfold w32. apply Z.mod_pos_bound. lia. Qed.
Lemma w8_is_byte x : is_byte (w8 x).
Proof. apply w8_range. Qed.
Lemma w32_w32 x : w32 (w32 x) = w32 x.
Proof. unfold w32. by rewrite Z.mod_mod. Qed.
Lemma w32_add_l x y : w32 (w32 x + y) = w32 (x + y).
Proof. unfold w32. by rewrite Zplus_mod_idemp_l. Qed.
Lemma w32_add_r x y : w32 (x + w32 y) = w32 (x + y).
Proof. unfold w32. by rewrite Zplus_mod_idemp_r. Qed.

Create HintDb word.
Create Rewrite HintDb word.
#[export] Hint Resolve w8_range w16_range w32_range w8_is_byte : word.
#[export] Hint Rewrite w32_w32 w32_add_l w32_add_r : word.

Lemma land_byte x : Z.land x 255 = x mod 256.
Proof. change 255 with (Z.ones 8). by rewrite Z.land_ones. Qed.

(** A left shift [or]-ed with a value that fits below it is a sum. *)
Lemma lor_shiftl_add a b n :
  0 ≤ n → 0 ≤ b < 2 ^ n → Z.lor (Z.shiftl a n) b = a * 2 ^ n + b.
Proof.
  intros Hn Hb. rewrite <- Z.shiftl_mul_pow2 by lia.
  symmetry. apply Z.add_nocarry_lor. apply Z.bits_inj'. intros i Hi.
  rewrite Z.land_spec, Z.shiftl_spec, Z.bits_0 by lia.
  destruct (decide (i < n)) as [Hlt|Hge].
  - by rewrite (Z.testbit_neg_r a) by lia.
  - rewrite <- (Z.mod_small b (2 ^ n)) by lia.
    rewrite Z.mod_pow2_bits_high by lia. apply andb_false_r.
Qed.

(** ** Buffers

    A pointer into a buffer is the buffer (a list of cells) and an offset;
    every access is checked, and one outside the buffer is [Undef]. *)
Section Buffers.
Context {A : Type}.
Implicit Types l : list A.

Definition rd l (i : Z) : outcome A :=
  if 0 <=? i then
    match l !! Z.to_nat i with Some x => Done x | None => Undef end
  else Undef.

Definition wr l (i : Z) (x : A) : outcome (list A) :=
  if (0 <=? i) && (i <? Z.of_nat (length l))
  then Done (<[Z.to_nat i := x]> l) else Undef.

(** the [n] cells a [memcpy] reads at [&l[off]] *)
Definition memread l (off n : Z) : outcome (list A) :=
  if (0 <=? off) && (0 <=? n) && (off + n <=? Z.of_nat (length l))
  then Done (take (Z.to_nat n) (drop (Z.to_nat off) l)) else Undef.

(** the cells [src] a [memcpy] or [memset] stores at [&l[off]] *)
Definition patch l (off : nat) (src : list A) : list A :=
  take off l ++ src ++ drop (off + length src) l.

Definition memwrite l (off : Z) (src : list A) : outcome (list A) :=
  if (0 <=? off) && (off + Z.of_nat (length src) <=? Z.of_nat (length l))
  then Done (patch l (Z.to_nat off) src) else Undef.

Definition memset l (off : Z) (x : A) (n : Z) : outcome (list A) :=
  memwrite l off (replicate (Z.to_nat n) x).

Lemma rd_Done l i x : 0 ≤ i → l !! Z.to_nat i = Some x → rd l i = Done x.
Proof.
  intros Hi Hl. unfold rd. rewrite (proj2 (Z.leb_le 0 i) Hi). by rewrite Hl.
Qed.

Lemma rd_nat l (i : nat) x : l !! i = Some x → rd l (Z.of_nat i) = Done x.
Proof. intros Hl. apply rd_Done; [lia|]. by rewrite Nat2Z.id. Qed.

Lemma rd_inv l i x : rd l i = Done x → 0 ≤ i ∧ l !! Z.to_nat i = Some x.
Proof.
  unfold rd. destruct (Z.leb_spec 0 i); [|done].
  destruct (l !! _); naive_solver.
Qed.

Lemma rd_lt l i : 0 ≤ i < Z.of_nat (length l) →
  ∃ x, l !! Z.to_nat i = Some x ∧ rd l i = Done x.
Proof.
  intros Hi. destruct (lookup_lt_is_Some_2 l (Z.to_nat i)) as [x Hx]; [lia|].
  exists x. split; [done|]. apply rd_Done; [lia|done].
Qed.

Lemma rd_oob l i : Z.of_nat (length l) ≤ i → rd l i = Undef.
Proof.
  intros Hi. unfold rd. destruct (Z.leb_spec 0 i); [|done].
  rewrite lookup_ge_None_2; [done|lia].
Qed.

Lemma wr_Done l i x : 0 ≤ i < Z.of_nat (length l) →
  wr l i x = Done (<[Z.to_nat i := x]> l).
Proof.
  intros [H1 H2]. unfold wr.
  by rewrite (proj2 (Z.leb_le _ _) H1), (proj2 (Z.ltb_lt _ _) H2).
Qed.

Lemma wr_length l i x l' : wr l i x = Done l' → length l' = length l.
Proof.
  unfold wr. destruct (_ && _); [|done]. intros [= <-]. apply length_insert.
Qed.

Lemma memread_Done l off n :
  0 ≤ off → 0 ≤ n → off + n ≤ Z.of_nat (length l) →
  memread l off n = Done (take (Z.to_nat n) (drop (Z.to_nat off) l)).
Proof.
  intros H1 H2 H3. unfold memread.
  by rewrite (proj2 (Z.leb_le _ _) H1), (proj2 (Z.leb_le _ _) H2),
    (proj2 (Z.leb_le _ _) H3).
Qed.

Lemma memread_oob l off n :
  Z.of_nat (length l) < off + n → memread l off n = Undef.
Proof.
  intros H. unfold memread. rewrite (proj2 (Z.leb_gt _ _) H).
  by rewrite andb_false_r.
Qed.

Lemma memwrite_Done l off src :
  0 ≤ off → off + Z.of_nat (length src) ≤ Z.of_nat (length l) →
  memwrite l off src = Done (patch l (Z.to_nat off) src).
Proof.
  intros H1 H2. unfold memwrite.
  by rewrite (proj2 (Z.leb_le _ _) H1), (proj2 (Z.leb_le _ _) H2).
Qed.

Lemma memwrite_inv l off src l' :
  memwrite l off src = Done l' →
  0 ≤ off ∧ off + Z.of_nat (length src) ≤ Z.of_nat (length l) ∧
  l' = patch l (Z.to_nat off) src.
Proof.
  unfold memwrite. destruct (Z.leb_spec 0 off); [|done].
  destruct (Z.leb_spec (off + Z.of_nat (length src)) (Z.of_nat (length l)));
    [|done]. cbn. intros [= <-]. done.
Qed.

Lemma memwrite_oob l off src :
  Z.of_nat (length l) < off + Z.of_nat (length src) → memwrite l off src = Undef.
Proof.
  intros H. unfold memwrite. rewrite (proj2 (Z.leb_gt _ _) H).
  by rewrite andb_false_r.
Qed.

Lemma memread_inv l off n x :
  memread l off n = Done x →
  0 ≤ off ∧ 0 ≤ n ∧ off + n ≤ Z.of_nat (length l) ∧
  x = take (Z.to_nat n) (drop (Z.to_nat off) l).
Proof.
  unfold memread. destruct (Z.leb_spec 0 off); [|done].
  destruct (Z.leb_spec 0 n); [|done].
  destruct (Z.leb_spec (off + n) (Z.of_nat (length l))); [|done].
  cbn. by intros [= <-].
Qed.

Lemma length_patch l off src :
  (off + length src ≤ length l)%nat → length (patch l off src) = length l.
Proof.
  intros H. unfold patch. rewrite !length_app, length_take, length_drop. lia.
Qed.

Lemma memwrite_length l off src l' :
  memwrite l off src = Done l' → length l' = length l.
Proof. intros (H1 & H2 & ->)%memwrite_inv. apply length_patch. lia. Qed.

Lemma Forall_snoc (P : A → Prop) l x :
  Forall P l → P x → Forall P (l ++ [x]).
Proof. intros Hl Hx. apply Forall_app. split; [done|]. by constructor. Qed.

Lemma patch_nil l off : patch l off [] = l.
Proof. unfold patch. cbn. rewrite Nat.add_0_r. apply take_drop. Qed.

Lemma patch_0 l src : patch l 0 src = src ++ drop (length src) l.
Proof. done. Qed.

Lemma patch_full l src : length src = length l → patch l 0 src = src.
Proof. intros H. rewrite patch_0, drop_ge by lia. apply app_nil_r. Qed.

Lemma patch_lookup l off src i :
  (off + length src ≤ length l)%nat →
  patch l off src !! i =
    if decide (off ≤ i < off + length src)%nat then src !! (i - off)%nat
    else l !! i.
Proof.
  intros H. unfold patch. case_decide as Hi.
  - rewrite lookup_app_r by (rewrite length_take; lia).
    rewrite length_take, Nat.min_l by lia. apply lookup_app_l. lia.
  - destruct (decide (i < off)%nat).
    + rewrite lookup_app_l by (rewrite length_take; lia).
      apply lookup_take_lt. lia.
    + rewrite lookup_app_r by (rewrite length_take; lia).
      rewrite length_take, Nat.min_l by lia.
      rewrite lookup_app_r by lia. rewrite lookup_drop. f_equal. lia.
Qed.

Lemma patch_cons l off x src :
  (off + length (x :: src) ≤ length l)%nat →
  patch l off (x :: src) = patch (<[off := x]> l) (S off) src.
Proof.
  intros H. cbn in H. apply list_eq. intros i.
  rewrite !patch_lookup by (rewrite ?length_insert; cbn; lia). cbn [length].
  destruct (decide (i = off)) as [->|Hne].
  - rewrite decide_True, decide_False, Nat.sub_diag by lia. cbn.
    by rewrite list_lookup_insert_eq by lia.
  - rewrite list_lookup_insert_ne by done.
    repeat case_decide; try lia; [|done].
    by replace (i - off)%nat with (S (i - S off)) by lia.
Qed.

Lemma memwrite_cons l off x src :
  0 ≤ off → off + Z.of_nat (length (x :: src)) ≤ Z.of_nat (length l) →
  memwrite l off (x :: src) = l' ← wr l off x; memwrite l' (off + 1) src.
Proof.
  intros H1 H2. cbn [length] in H2.
  rewrite wr_Done by lia. rewrite bind_Done.
  rewrite !memwrite_Done by (rewrite ?length_insert; cbn; lia).
  rewrite patch_cons by (cbn; lia). do 2 f_equal. lia.
Qed.

Lemma patch_snoc l off src x :
  (off + length src < length l)%nat →
  patch l off (src ++ [x]) = <[(off + length src)%nat := x]> (patch l off src).
Proof.
  intros H. apply list_eq. intros i.
  destruct (decide (i = off + length src)%nat) as [->|Hne].
  - rewrite list_lookup_insert_eq by (rewrite length_patch; lia).
    rewrite patch_lookup by (rewrite length_app; cbn; lia).
    rewrite decide_True by (rewrite length_app; cbn; lia).
    rewrite lookup_app_r by lia.
    by replace (off + length src - off - length src)%nat with 0%nat by lia.
  - rewrite list_lookup_insert_ne by done.
    rewrite !patch_lookup by (rewrite ?length_app; cbn; lia).
    rewrite length_app. cbn [length].
    repeat case_decide; try lia; [|done]. by rewrite lookup_app_l by lia.
Qed.

Lemma wr_patch_snoc l off src i x :
  (off + length src < length l)%nat → i = Z.of_nat (off + length src) →
  wr (patch l off src) i x = Done (patch l off (src ++ [x])).
Proof.
  intros H ->. rewrite wr_Done by (rewrite length_patch; lia).
  rewrite patch_snoc by done. by rewrite Nat2Z.id.
Qed.

(** Consecutive stores are one store. *)
Lemma patch_patch l off s1 s2 :
  (off + length s1 + length s2 ≤ length l)%nat →
  patch (patch l off s1) (off + length s1) s2 = patch l off (s1 ++ s2).
Proof.
  intros H. apply list_eq. intros i.
  rewrite !patch_lookup by (rewrite ?length_patch, ?length_app; lia).
  rewrite length_app. repeat (case_decide; try lia); try done.
  - rewrite lookup_app_r by lia. f_equal. lia.
  - by rewrite lookup_app_l by lia.
Qed.

Lemma memwrite_patch l off s1 p s2 :
  p = Z.of_nat off + Z.of_nat (length s1) →
  (off + length s1 + length s2 ≤ length l)%nat →
  memwrite (patch l off s1) p s2 = Done (patch l off (s1 ++ s2)).
Proof.
  intros -> H. rewrite memwrite_Done by (rewrite ?length_patch; lia).
  rewrite <- patch_patch by done. do 2 f_equal. lia.
Qed.

Lemma memset_patch l off s1 p x n :
  p = Z.of_nat off + Z.of_nat (length s1) → 0 ≤ n →
  (off + length s1 + Z.to_nat n ≤ length l)%nat →
  memset (patch l off s1) p x n =
    Done (patch l off (s1 ++ replicate (Z.to_nat n) x)).
Proof.
  intros Hp Hn Hl. unfold memset.
  apply memwrite_patch; [done|]. rewrite length_replicate. lia.
Qed.

Lemma memread_rd l off n src i :
  memread l off n = Done src → 0 ≤ i < n →
  ∃ x, src !! Z.to_nat i = Some x ∧ rd l (off + i) = Done x.
Proof.
  intros (H1 & H2 & H3 & ->)%memread_inv Hi.
  destruct (rd_lt l (off + i)) as (x & Hx & Hr); [lia|].
  exists x. split; [|done].
  rewrite lookup_take_lt, lookup_drop by lia. rewrite <- Hx. f_equal. lia.
Qed.

(** a read inside a read *)
Lemma memread_sub l off n src o m :
  memread l off n = Done src → 0 ≤ o → 0 ≤ m → o + m ≤ n →
  memread l (off + o) m = Done (take (Z.to_nat m) (drop (Z.to_nat o) src)).
Proof.
  intros (H1 & H2 & H3 & ->)%memread_inv Ho Hm Hom.
  rewrite memread_Done by lia. f_equal.
  rewrite Z2Nat.inj_add, skipn_firstn_comm, take_take, drop_drop by lia.
  f_equal. lia.
Qed.

(** The cells of a four- and of a two-cell read, one by one. *)
Lemma memread_4 l off src :
  memread l off 4 = Done src →
  ∃ x0 x1 x2 x3, src = [x0; x1; x2; x3] ∧ rd l off = Done x0 ∧
    rd l (off + 1) = Done x1 ∧ rd l (off + 2) = Done x2 ∧
    rd l (off + 3) = Done x3.
Proof.
  intros Hm.
  destruct (memread_rd _ _ _ _ 0 Hm) as (x0 & H0 & R0); [lia|].
  destruct (memread_rd _ _ _ _ 1 Hm) as (x1 & H1 & R1); [lia|].
  destruct (memread_rd _ _ _ _ 2 Hm) as (x2 & H2 & R2); [lia|].
  destruct (memread_rd _ _ _ _ 3 Hm) as (x3 & H3 & R3); [lia|].
  rewrite Z.add_0_r in R0. exists x0, x1, x2, x3. split; [|done].
  apply memread_inv in Hm as (? & ? & ? & ->).
  apply list_eq. intros [|[|[|[|i]]]]; [done..|].
  apply lookup_ge_None_2. rewrite length_take. cbn. lia.
Qed.

Lemma memread_2 l off src :
  memread l off 2 = Done src →
  ∃ x0 x1, src = [x0; x1] ∧ rd l off = Done x0 ∧ rd l (off + 1) = Done x1.
Proof.
  intros Hm.
  destruct (memread_rd _ _ _ _ 0 Hm) as (x0 & H0 & R0); [lia|].
  destruct (memread_rd _ _ _ _ 1 Hm) as (x1 & H1 & R1); [lia|].
  rewrite Z.add_0_r in R0. exists x0, x1. split; [|done].
  apply memread_inv in Hm as (? & ? & ? & ->).
  apply list_eq. intros [|[|i]]; [done..|].
  apply lookup_ge_None_2. rewrite length_take. cbn. lia.
Qed.

Lemma memwrite_nil l off :
  0 ≤ off ≤ Z.of_nat (length l) → memwrite l off [] = Done l.
Proof. intros H. rewrite memwrite_Done by (cbn; lia). by rewrite patch_nil. Qed.

(** Reading back what was stored, and reading elsewhere. *)
Lemma patch_read_same l off src :
  (off + length src ≤ length l)%nat →
  take (length src) (drop off (patch l off src)) = src.
Proof.
  intros H. unfold patch.
  rewrite drop_app_ge by (rewrite length_take; lia).
  rewrite length_take, Nat.min_l, Nat.sub_diag, drop_0 by lia.
  by rewrite take_app_length.
Qed.

Lemma patch_read_other l off src off' n :
  (off + length src ≤ length l)%nat →
  (off' + n ≤ off ∨ off + length src ≤ off')%nat →
  take n (drop off' (patch l off src)) = take n (drop off' l).
Proof.
  intros H Hd. apply list_eq. intros i.
  destruct (decide (i < n)%nat).
  - rewrite !lookup_take_lt, !lookup_drop, patch_lookup by lia.
    by rewrite decide_False by lia.
  - by rewrite !lookup_take_ge by lia.
Qed.

Lemma memread_patch_same l off src off' n :
  off' = Z.of_nat off → n = Z.of_nat (length src) →
  (off + length src ≤ length l)%nat →
  memread (patch l off src) off' n = Done src.
Proof.
  intros -> -> H. rewrite memread_Done by (rewrite ?length_patch; lia).
  by rewrite !Nat2Z.id, patch_read_same.
Qed.

(** the same of a part of what was written *)
Lemma memread_patch_in l off pre src post off' n :
  off' = Z.of_nat off + Z.of_nat (length pre) → n = Z.of_nat (length src) →
  (off + length (pre ++ src ++ post) ≤ length l)%nat →
  memread (patch l off (pre ++ src ++ post)) off' n = Done src.
Proof.
  intros -> -> H. rewrite memread_Done by (rewrite ?length_patch, ?length_app in *; lia).
  unfold patch. rewrite (Nat2Z.id (length src)).
  replace (Z.to_nat (Z.of_nat off + Z.of_nat (length pre)))
    with (length (take off l ++ pre)) by (rewrite !length_app, length_take in *; lia).
  rewrite <- (app_assoc pre), (app_assoc (take off l)), drop_app_length, <- app_assoc.
  by rewrite take_app_length.
Qed.

Lemma memread_patch_other l off src off' n :
  (off + length src ≤ length l)%nat →
  off' + n ≤ Z.of_nat off ∨ Z.of_nat off + Z.of_nat (length src) ≤ off' →
  memread (patch l off src) off' n = memread l off' n.
Proof.
  intros H Hd. unfold memread. rewrite length_patch by done.
  destruct (Z.leb_spec 0 off'); [|done]. destruct (Z.leb_spec 0 n); [|done].
  cbn. destruct (off' + n <=? _); [|done].
  rewrite patch_read_other; [done|done|lia].
Qed.

Lemma Forall_patch (P : A → Prop) l off src :
  Forall P l → Forall P src → Forall P (patch l off src).
Proof.
  intros Hl Hs. unfold patch. rewrite !Forall_app.
  auto using Forall_take, Forall_drop.
Qed.
End Buffers.

Lemma memset_zero (res : list Z) (n : Z) :
  0 ≤ n ≤ Z.of_nat (length res) →
  memset res 0 0 n = Done (replicate (Z.to_nat n) 0 ++ drop (Z.to_nat n) res).
Proof.
  intros Hn. unfold memset.
  rewrite memwrite_Done by (rewrite ?length_replicate; lia).
  by rewrite patch_0, length_replicate.
Qed.

(** ** Lists of consecutive integers *)

Lemma seqZ_snoc n : 0 ≤ n → seqZ 0 (n + 1) = seqZ 0 n ++ [n].
Proof. intros Hn. rewrite seqZ_app by lia. by rewrite Z.add_0_l. Qed.

Lemma length_seqZ_nat n : 0 ≤ n → Z.of_nat (length (seqZ 0 n)) = n.
Proof. intros. rewrite length_seqZ. lia. Qed.

(** a property of every byte, checked by evaluation *)
Lemma byte_forall (P : Z → bool) :
  forallb P (seqZ 0 256) = true → ∀ b, is_byte b → P b = true.
Proof.
  rewrite forallb_forall. intros H b Hb. apply H.
  apply list_elem_of_In, elem_of_seqZ. unfold is_byte in Hb. lia.
Qed.

(** ** Loops *)

Section Loops.
Context {S R : Type}.

(** [n] iterations of [body], the loop variable counting up from [i] *)
Fixpoint for_n (n : nat) (i : Z) (body : Z → S → outcome S) (s : S)
    : outcome S :=
  match n with
  | O => Done s
  | Datatypes.S n => s' ← body i s; for_n n (i + 1) body s'
  end.

(** the same with a body that may leave the loop ([return] or [break]) *)
Fixpoint for_ret (n : nat) (i : Z) (body : Z → S → outcome (S + R)) (s : S)
    : outcome (S + R) :=
  match n with
  | O => Done (inl s)
  | Datatypes.S n =>
      r ← body i s;
      match r with
      | inl s' => for_ret n (i + 1) body s'
      | inr v => Done (inr v)
      end
  end.

(** [for (i = lo; i < hi; i++) body] *)
Definition for_range (lo hi : Z) (body : Z → S → outcome S) (s : S) :=
  for_n (Z.to_nat (hi - lo)) lo body s.
Definition for_range_ret (lo hi : Z) (body : Z → S → outcome (S + R))
    (s : S) :=
  for_ret (Z.to_nat (hi - lo)) lo body s.

(** [for (i = lo; i < hi; i += step) body] *)
Definition for_step (lo hi step : Z) (body : Z → S → outcome S) (s : S) :=
  for_range 0 ((hi - lo + step - 1) / step) (λ k, body (lo + k * step)) s.

(** Total-correctness rule: an invariant every iteration establishes for
    the next index holds at the end, and the loop returns. *)
Lemma for_n_inv (P : Z → S → Prop) n i body s :
  P i s →
  (∀ k s, i ≤ k < i + Z.of_nat n → P k s →
     ∃ s', body k s = Done s' ∧ P (k + 1) s') →
  ∃ s', for_n n i body s = Done s' ∧ P (i + Z.of_nat n) s'.
Proof.
  revert i s. induction n as [|n IH]; intros i s HP Hb; cbn [for_n].
  { exists s. split; [done|]. by rewrite Z.add_0_r. }
  destruct (Hb i s) as (s1 & E1 & P1); [lia|done|].
  rewrite E1. cbn. destruct (IH (i + 1) s1) as (s2 & E2 & P2); [done| |].
  { intros k s0 Hk. apply Hb. lia. }
  exists s2. split; [done|].
  by replace (i + Z.of_nat (Datatypes.S n)) with (i + 1 + Z.of_nat n) by lia.
Qed.

Lemma for_range_inv (P : Z → S → Prop) lo hi body s :
  lo ≤ hi → P lo s →
  (∀ k s, lo ≤ k < hi → P k s → ∃ s', body k s = Done s' ∧ P (k + 1) s') →
  ∃ s', for_range lo hi body s = Done s' ∧ P hi s'.
Proof.
  intros Hle HP Hb. unfold for_range.
  destruct (for_n_inv P (Z.to_nat (hi - lo)) lo body s) as (s' & E & HP');
    [done| |].
  { intros k s0 Hk. apply Hb. lia. }
  exists s'. split; [done|]. by replace hi with (lo + Z.of_nat (Z.to_nat (hi - lo))) by lia.
Qed.

(** Partial correctness: what every iteration keeps holds if the loop
    ends. *)
Lemma for_range_keeps_at (P : Z → S → Prop) lo hi body s s' :
  lo ≤ hi → P lo s →
  (∀ k s s', lo ≤ k < hi → P k s → body k s = Done s' → P (k + 1) s') →
  for_range lo hi body s = Done s' → P hi s'.
Proof.
  intros Hle HP Hb. unfold for_range.
  remember (Z.to_nat (hi - lo)) as n eqn:En. revert lo s Hle HP Hb En.
  induction n as [|n IH]; intros lo s Hle HP Hb En; cbn [for_n].
  { intros [= <-]. by replace hi with lo by lia. }
  intros (s1 & E1 & E2)%bind_Done_inv. apply (IH (lo + 1) s1); [lia| | |lia|exact E2].
  - apply (Hb lo s); [lia|done|done].
  - intros k s2 s3 Hk. apply Hb. lia.
Qed.

Lemma for_range_keeps (P : S → Prop) lo hi body s s' :
  P s → (∀ k s s', P s → body k s = Done s' → P s') →
  for_range lo hi body s = Done s' → P s'.
Proof.
  intros HP Hb. unfold for_range. generalize (Z.to_nat (hi - lo)) as n.
  intros n. revert lo s HP. induction n as [|n IH]; intros lo s HP; cbn [for_n].
  { by intros [= <-]. }
  intros (s1 & E1 & E2)%bind_Done_inv. eapply IH; [|exact E2]. by eapply Hb.
Qed.

(** The same for a loop that may return: [Q] holds of the value returned. *)
Lemma for_range_ret_inv (P : Z → S → Prop) (Q : R → Prop) lo hi body s :
  lo ≤ hi → P lo s →
  (∀ k s, lo ≤ k < hi → P k s →
     ∃ r, body k s = Done r ∧
       match r with inl s' => P (k + 1) s' | inr v => Q v end) →
  ∃ r, for_range_ret lo hi body s = Done r ∧
    match r with inl s' => P hi s' | inr v => Q v end.
Proof.
  intros Hle HP Hb. unfold for_range_ret.
  assert (Hhi : hi = lo + Z.of_nat (Z.to_nat (hi - lo))) by lia.
  revert Hb Hhi. generalize (Z.to_nat (hi - lo)) as n. clear Hle. intros n Hb.
  revert lo s HP Hb. induction n as [|n IH]; intros lo s HP Hb ->; cbn [for_ret].
  { exists (inl s). split; [done|]. by rewrite Z.add_0_r. }
  destruct (Hb lo s) as (r & -> & Hr); [lia|done|]. cbn.
  destruct r as [s'|v]; [|by exists (inr v)].
  apply IH; [done| |lia]. intros k s0 Hk. apply Hb. lia.
Qed.

(** Partial-correctness rules for a loop with an exit; in the second the exit
    is never taken. *)
Lemma for_range_ret_part (P : S → Prop) (Q : R → Prop) lo hi
    (body : Z → S → outcome (S + R)) s r :
  P s →
  (∀ k s r, P s → body k s = Done r →
     match r with inl s' => P s' | inr v => Q v end) →
  for_range_ret lo hi body s = Done r →
  match r with inl s' => P s' | inr v => Q v end.
Proof.
  intros HP Hb. unfold for_range_ret. generalize (Z.to_nat (hi - lo)) as n.
  intros n. revert lo s HP. induction n as [|n IH]; intros lo s HP; cbn [for_ret].
  { by intros [= <-]. }
  intros (r1 & E1 & E2)%bind_Done_inv. specialize (Hb _ _ _ HP E1).
  destruct r1 as [s'|v]; cbn in E2; [exact (IH _ _ Hb E2)|by injection E2 as <-].
Qed.

Lemma for_range_ret_keeps (P : S → Prop) lo hi
    (body : Z → S → outcome (S + R)) s r :
  P s → (∀ k s r, P s → body k s = Done r → ∃ s', r = inl s' ∧ P s') →
  for_range_ret lo hi body s = Done r → ∃ s', r = inl s' ∧ P s'.
Proof.
  intros HP Hb Hr. apply (for_range_ret_part P (λ _, False)) in Hr; [|done|].
  - destruct r; naive_solver.
  - intros k s0 r0 H1 H2. by destruct (Hb _ _ _ H1 H2) as (s' & -> & ?).
Qed.

Lemma for_n_ext n i body1 body2 (s : S) :
  (∀ k s, i ≤ k < i + Z.of_nat n → body1 k s = body2 k s) →
  for_n n i body1 s = for_n n i body2 s.
Proof.
  revert i s. induction n as [|n IH]; intros i s H; [done|]. cbn [for_n].
  rewrite (H i s) by lia. destruct (body2 i s) as [s'| | |]; [|done..].
  cbn. apply IH. intros k s0 Hk. apply H. lia.
Qed.

Lemma for_n_app n m i body (s : S) :
  for_n (n + m) i body s =
    s' ← for_n n i body s; for_n m (i + Z.of_nat n) body s'.
Proof.
  revert i s. induction n as [|n IH]; intros i s; cbn [for_n Nat.add].
  { cbn. by rewrite Z.add_0_r. }
  rewrite outcome_bind_assoc.
  destruct (body i s) as [s'| | |]; [|done..]. cbn.
  rewrite IH. by replace (i + 1 + Z.of_nat n) with (i + Z.of_nat (Datatypes.S n)) by lia.
Qed.

(** A loop that may return and runs into undefined behaviour at [k]. *)
(** A loop whose iterations before [k] do nothing and that is left at [k]. *)
Lemma for_range_ret_at lo k hi (body : Z → S → outcome (S + R)) s :
  lo ≤ k < hi → (∀ i, lo ≤ i < k → body i s = Done (inl s)) →
  (∀ s', body k s ≠ Done (inl s')) →
  for_range_ret lo hi body s = body k s.
Proof.
  intros Hk Hb Hend. unfold for_range_ret.
  replace (Z.to_nat (hi - lo))
    with (Z.to_nat (k - lo) + Datatypes.S (Z.to_nat (hi - k - 1)))%nat by lia.
  assert (Hkl : k = lo + Z.of_nat (Z.to_nat (k - lo))) by lia.
  revert Hb Hkl. generalize (Z.to_nat (k - lo)) as n. clear Hk.
  intros n. revert lo. induction n as [|n IH]; intros lo Hb Hkl.
  - replace lo with k by lia. cbn [Nat.add for_ret].
    destruct (body k s) as [[s'|v]| | |] eqn:E; [|done..]. by destruct (Hend s').
  - cbn [Nat.add for_ret]. rewrite Hb by lia. cbn [mbind outcome_bind].
    apply IH; [|lia]. intros i Hi. apply Hb. lia.
Qed.

Lemma for_range_ret_undef (P : Z → S → Prop) lo k hi
    (body : Z → S → outcome (S + R)) s :
  lo ≤ k < hi → P lo s →
  (∀ i s, lo ≤ i < k → P i s → ∃ s', body i s = Done (inl s') ∧ P (i + 1) s') →
  (∀ s, P k s → body k s = Undef) →
  for_range_ret lo hi body s = Undef.
Proof.
  intros Hk HP Hb Hu. unfold for_range_ret.
  replace (Z.to_nat (hi - lo))
    with (Z.to_nat (k - lo) + Datatypes.S (Z.to_nat (hi - k - 1)))%nat by lia.
  assert (Hkl : k = lo + Z.of_nat (Z.to_nat (k - lo))) by lia.
  revert Hb Hkl. generalize (Z.to_nat (k - lo)) as n. clear Hk.
  intros n Hb. revert lo s HP Hb. induction n as [|n IH]; intros lo s HP Hb ->.
  - rewrite Z.add_0_r in *. cbn [Nat.add for_ret]. by rewrite Hu.
  - destruct (Hb lo s) as (s' & E & HP'); [lia|done|].
    cbn [Nat.add for_ret]. rewrite E. cbn.
    apply (IH (lo + 1) s' HP'); [|lia]. intros i s0 Hi. apply Hb. lia.
Qed.

(** The loop that runs into undefined behaviour at iteration [k]. *)
Lemma for_range_undef (P : Z → S → Prop) lo k hi body s :
  lo ≤ k < hi → P lo s →
  (∀ i s, lo ≤ i < k → P i s → ∃ s', body i s = Done s' ∧ P (i + 1) s') →
  (∀ s, P k s → body k s = Undef) →
  for_range lo hi body s = Undef.
Proof.
  intros Hk HP Hb Hu.
  destruct (for_range_inv P lo k body s) as (s' & E & HP'); [lia|done|done|].
  unfold for_range in *.
  replace (Z.to_nat (hi - lo))
    with (Z.to_nat (k - lo) + Datatypes.S (Z.to_nat (hi - k - 1)))%nat by lia.
  rewrite for_n_app, E. cbn [mbind outcome_bind for_n].
  replace (lo + Z.of_nat (Z.to_nat (k - lo))) with k by lia. by rewrite Hu.
Qed.
End Loops.

(** A loop that stores [f i] at index [i] of a buffer. *)
Lemma for_range_fill {A} (f : Z → A) body (l : list A) n :
  0 ≤ n ≤ Z.of_nat (length l) →
  (∀ i l', 0 ≤ i < n → length l' = length l → body i l' = wr l' i (f i)) →
  for_range 0 n body l = Done (patch l 0 (f <$> seqZ 0 n)).
Proof.
  intros Hn Hb.
  destruct (for_range_inv (λ k l', l' = patch l 0 (f <$> seqZ 0 k)) 0 n body l)
    as (l' & -> & ->); [lia|by rewrite seqZ_nil, fmap_nil, patch_nil by lia| |done].
  intros k l' Hk ->. exists (patch l 0 (f <$> seqZ 0 (k + 1))).
  rewrite Hb by (rewrite ?length_patch; rewrite ?length_fmap, ?length_seqZ; lia).
  split; [|done]. rewrite seqZ_snoc, fmap_app by lia.
  apply wr_patch_snoc; rewrite length_fmap, length_seqZ; lia.
Qed.

(** [Forall2_impl] with the first element known to be in the list *)
Lemma Forall2_impl_in {A B} (P Q : A → B → Prop) l k :
  Forall2 P l k → (∀ x y, x ∈ l → P x y → Q x y) → Forall2 Q l k.
Proof.
  induction 1 as [|x y l k Hxy Hlk IH]; intros HPQ; constructor.
  - apply HPQ; [set_solver|done].
  - apply IH. intros x' y' Hx'. apply HPQ. set_solver.
Qed.

Lemma elem_of_removelast {A} (l : list A) x : x ∈ removelast l → x ∈ l.
Proof.
  induction l as [|a [|b l] IH]; [done|set_solver|].
  change (removelast (a :: b :: l)) with (a :: removelast (b :: l)).
  set_solver.
Qed.

(** ** Tactics *)

(** [len] computes the lengths of updated buffers *)
Ltac len :=
  repeat first
    [ rewrite length_insert | rewrite length_app | rewrite length_replicate
    | rewrite length_take | rewrite length_drop | rewrite length_cons
    | rewrite length_fmap | rewrite length_nil
    | rewrite length_patch by (len; lia) ].
(** [wr_step] runs a store whose index is in range *)
Ltac wr_step := rewrite wr_Done by (len; lia); rewrite ?bind_Done; cbv beta.
(** [decided] settles a closed decidable proposition by evaluation *)
Ltac decided := apply (bool_decide_unpack _); vm_compute; exact I.

(** ** memcmp

    The difference of the first two bytes that differ, as a sign. *)
Fixpoint bytes_cmp (x y : list Z) : Z :=
  match x, y with
  | a :: x, b :: y => if a =? b then bytes_cmp x y else if a <? b then -1 else 1
  | _, _ => 0
  end.

Definition memcmp (l : list Z) (i : Z) (k : list Z) (j n : Z) : outcome Z :=
  x ← memread l i n;
  y ← memread k j n;
  Done (bytes_cmp x y).

Lemma bytes_cmp_0 x y : length x = length y → bytes_cmp x y = 0 ↔ x = y.
Proof.
  revert y. induction x as [|a x IH]; intros [|b y] Hl; try done.
  cbn [bytes_cmp]. injection Hl as Hl. specialize (IH y Hl).
  destruct (Z.eqb_spec a b) as [->|Hne].
  - rewrite IH. naive_solver.
  - destruct (a <? b); split; try done; congruence.
Qed.

Lemma memcmp_Done l i k j n x y :
  memread l i n = Done x → memread k j n = Done y →
  ∃ c, memcmp l i k j n = Done c ∧ (c = 0 ↔ x = y).
Proof.
  intros Hx Hy. unfold memcmp. rewrite Hx, Hy. cbn. eexists. split; [done|].
  apply bytes_cmp_0.
  apply memread_inv in Hx as (? & ? & ? & ->).
  apply memread_inv in Hy as (? & ? & ? & ->). len. lia.
Qed.
