(* ===== verification/Shared.v ===== *)
(** * include/shared.h: the configuration and layout constants

    One definition per object-like macro, under the name of the macro.  The
    type aliases [uchar], [ushort] and [uint] of the same file are the wraps
    [w8], [w16] and [w32] of [Prelude].  The theorems at the end state that
    the field tables of the serialised block header, transaction header and
    transaction input are exact partitions of their areas. *)
From S2P Require Import Prelude.

(** ** Shared Structs *)

(** ** Configuration *)

(** CLIENT OPTIONS *)
Definition TX_FEE_PER_1K : Z := 1.
Definition SERVER_PORT : Z := 30330.

(** DEVELOPER OPTIONS *)
Definition __VERSION : Z := 1.
Definition VERBOSE : Z := 1.
Definition MINING_REWARD : Z := 100.
Definition REASONABLE_CONFIRMATIONS : Z := 6.
Definition MAX_CONNECTED_PEERS : Z := 8.
Definition MAX_ADDR_LENGTH : Z := 80.
Definition TX_COUNT_SOFT_LIMIT : Z := 500.

(** ** Miscellaneous *)

(** Crypto sizes *)
Definition SIZE_SHA256 : Z := 32.
Definition SIZE_RSA1024 : Z := 128.

(** ** Transactions *)

(** Maximums *)
Definition MAX_TX_SIZE : Z := 1048576.

(** Tx general positions *)
Definition POS_TX_HEADER : Z := 0.

(** Tx general sizes *)
Definition SIZE_TX_HEADER : Z := 10.
Definition SIZE_TX_INPUT : Z := 290.
Definition SIZE_TX_OUTPUT : Z := 36.

(** Tx header element positions *)
Definition POS_TX_VERSION : Z := 0.
Definition POS_TX_IN_COUNT : Z := 2.
Definition POS_TX_OUT_COUNT : Z := 4.
Definition POS_TX_LOCK_TIME : Z := 6.
Definition POS_TX_BODY : Z := 10.

(** Tx header element sizes *)
Definition SIZE_TX_VERSION : Z := 2.
Definition SIZE_TX_IN_COUNT : Z := 2.
Definition SIZE_TX_OUT_COUNT : Z := 2.
Definition SIZE_TX_LOCK_TIME : Z := 4.

(** Tx-input positions *)
Definition POS_TX_INPUT_REF_TX : Z := 0.
Definition POS_TX_INPUT_OUT_INDEX : Z := 32.
Definition POS_TX_INPUT_PUBKEY : Z := 34.
Definition POS_TX_INPUT_SIG : Z := 162.

(** Tx-input sizes *)
Definition SIZE_TX_INPUT_REF_TX : Z := 32.
Definition SIZE_TX_INPUT_OUT_INDEX : Z := 2.
Definition SIZE_TX_INPUT_PUBKEY : Z := 128.
Definition SIZE_TX_INPUT_SIG : Z := 128.

(** Tx-output positions *)
Definition POS_TX_OUT_ADDRESS : Z := 0.
Definition POS_TX_OUT_AMOUNT : Z := 32.

(** Tx-output sizes *)
Definition SIZE_TX_OUT_ADDRESS : Z := 32.
Definition SIZE_TX_OUT_AMOUNT : Z := 4.

(** ** Blocks *)

(** Maximums *)
Definition MAX_BLOCK_SIZE : Z := 1048576.

(** Block general positions *)
Definition POS_BLOCK_HEADER : Z := 0.

(** Block general sizes *)
Definition SIZE_BLOCK_HEADER : Z := 83.

(** Block header element positions *)
Definition POS_BLOCK_VERSION : Z := 0.
Definition POS_BLOCK_TIME : Z := 2.
Definition POS_BLOCK_HEIGHT : Z := 6.
Definition POS_BLOCK_PREV_HASH : Z := 10.
Definition POS_BLOCK_MERKLE_ROOT : Z := 42.
Definition POS_BLOCK_TARGET : Z := 74.
Definition POS_BLOCK_NONCE : Z := 75.
Definition POS_BLOCK_TX_COUNT : Z := 79.

(** Block header element sizes *)
Definition SIZE_BLOCK_VERSION : Z := 2.
Definition SIZE_BLOCK_TIME : Z := 4.
Definition SIZE_BLOCK_HEIGHT : Z := 4.
Definition SIZE_BLOCK_PREV_HASH : Z := 32.
Definition SIZE_BLOCK_MERKLE_ROOT : Z := 32.
Definition SIZE_BLOCK_TARGET : Z := 1.
Definition SIZE_BLOCK_NONCE : Z := 4.
Definition SIZE_BLOCK_TX_COUNT : Z := 4.

(** ** Networking *)
Definition MAX_MSG_SIZE : Z := 2097152.
Definition TESTNET_EPOCH : Z := 1483228800.
Definition RECALC_TARGET_INTERVAL : Z := 144.
Definition BLOCK_SOLUTION_INTERVAL : Z := 600.

(** Times in seconds *)
Definition SECONDS_IN_20_MINUTES : Z := 1200.
Definition SECONDS_IN_HALF_WEEK : Z := 5040.
Definition SECONDS_IN_8_WEEKS : Z := 80640.

(** Content type codes *)
Definition CTYPE_REJECT : Z := 0.
Definition CTYPE_GETBLOCKS : Z := 1.
Definition CTYPE_MEMPOOL : Z := 2.
Definition CTYPE_INV : Z := 3.
Definition CTYPE_GETDATA : Z := 4.
Definition CTYPE_BLOCK : Z := 5.
Definition CTYPE_TX : Z := 6.
Definition CTYPE_PEER : Z := 7.
Definition CTYPE_ALERT : Z := 8.
Definition CTYPE_PING : Z := 9.
Definition CTYPE_PONG : Z := 10.

(** Data type codes *)
Definition DTYPE_BLOCK : Z := 0.
Definition DTYPE_TX : Z := 1.
Definition DTYPE_NODE : Z := 2.

(** Protocol message positions *)
Definition POS_MSG_VERSION : Z := 0.
Definition POS_MSG_CTYPE : Z := 2.

(** "Content type"-specific positions *)
Definition CTYPE_REJECT_POS_ERRORTYPE : Z := 0.
Definition CTYPE_REJECT_POS_INFO_SIZE : Z := 1.
Definition CTYPE_REJECT_POS_INFO : Z := 2.
Definition CTYPE_GETBLOCKS_POS_START_BLOCK : Z := 0.
Definition CTYPE_GETBLOCKS_POS_BLOCK_COUNT : Z := 32.
Definition CTYPE_INV_POS_DATATYPE : Z := 0.
Definition CTYPE_INV_POS_IDS_COUNT : Z := 1.
Definition CTYPE_INV_POS_IDS : Z := 2.
Definition CTYPE_GETDATA_POS_DATATYPE : Z := 0.
Definition CTYPE_GETDATA_POS_IDS_COUNT : Z := 1.
Definition CTYPE_GETDATA_POS_IDS : Z := 2.
Definition CTYPE_BLOCK_POS_SIZE : Z := 0.
Definition CTYPE_BLOCK_POS_BLOCK : Z := 4.
Definition CTYPE_TX_POS_SIZE : Z := 0.
Definition CTYPE_TX_POS_TX : Z := 4.
Definition CTYPE_PEER_POS_PORT : Z := 0.
Definition CTYPE_PEER_POS_ADDR_LEN : Z := 2.
Definition CTYPE_PEER_POS_ADDR : Z := 4.
Definition CTYPE_ALERT_POS_TYPE : Z := 0.
Definition CTYPE_ALERT_POS_COMMAND : Z := 1.
Definition CTYPE_ALERT_POS_TIME : Z := 2.
Definition CTYPE_ALERT_POS_SIG : Z := 6.
Definition CTYPE_ALERT_POS_MSG_LEN : Z := 38.
Definition CTYPE_ALERT_POS_MSG : Z := 39.

(** Error codes *)
Definition ERR_BAD_VERSION : Z := 1.
Definition ERR_MESSAGE_MALFORMED : Z := 2.
Definition ERR_UNKNOWN_CTYPE : Z := 3.
Definition ERR_BLOCK_CONFLICT : Z := 4.
Definition ERR_BLOCK_TIME_INVALID : Z := 5.
Definition ERR_BLOCK_ROOT_INVALID : Z := 6.
Definition ERR_BLOCK_TARGET_INVALID : Z := 7.
Definition ERR_BLOCK_BAD_HASH : Z := 8.
Definition ERR_BLOCK_BAD_BODY : Z := 9.
Definition ERR_BLOCK_OVERFLOW : Z := 10.
Definition ERR_BLOCK_EXISTS : Z := 11.
Definition ERR_TX_BAD_SIG : Z := 13.
Definition ERR_TX_BAD_REF : Z := 14.
Definition ERR_TX_REF_OVERSPEND : Z := 15.

(** ** The field tables *)

(** A field is its position and its size; a table is a partition of [lo,hi)
    when each field starts where the one before it ends. *)
Fixpoint partition (lo : Z) (fields : list (Z * Z)) (hi : Z) : bool :=
  match fields with
  | [] => lo =? hi
  | (pos, size) :: fields =>
      (pos =? lo) && (0 <? size) && partition (pos + size) fields hi
  end.

Definition block_header_fields : list (Z * Z) :=
  [ (POS_BLOCK_VERSION, SIZE_BLOCK_VERSION); (POS_BLOCK_TIME, SIZE_BLOCK_TIME);
    (POS_BLOCK_HEIGHT, SIZE_BLOCK_HEIGHT);
    (POS_BLOCK_PREV_HASH, SIZE_BLOCK_PREV_HASH);
    (POS_BLOCK_MERKLE_ROOT, SIZE_BLOCK_MERKLE_ROOT);
    (POS_BLOCK_TARGET, SIZE_BLOCK_TARGET); (POS_BLOCK_NONCE, SIZE_BLOCK_NONCE);
    (POS_BLOCK_TX_COUNT, SIZE_BLOCK_TX_COUNT) ].

Definition tx_header_fields : list (Z * Z) :=
  [ (POS_TX_VERSION, SIZE_TX_VERSION); (POS_TX_IN_COUNT, SIZE_TX_IN_COUNT);
    (POS_TX_OUT_COUNT, SIZE_TX_OUT_COUNT);
    (POS_TX_LOCK_TIME, SIZE_TX_LOCK_TIME) ].

Definition tx_input_fields : list (Z * Z) :=
  [ (POS_TX_INPUT_REF_TX, SIZE_TX_INPUT_REF_TX);
    (POS_TX_INPUT_OUT_INDEX, SIZE_TX_INPUT_OUT_INDEX);
    (POS_TX_INPUT_PUBKEY, SIZE_TX_INPUT_PUBKEY);
    (POS_TX_INPUT_SIG, SIZE_TX_INPUT_SIG) ].

Definition tx_output_fields : list (Z * Z) :=
  [ (POS_TX_OUT_ADDRESS, SIZE_TX_OUT_ADDRESS);
    (POS_TX_OUT_AMOUNT, SIZE_TX_OUT_AMOUNT) ].

(** In a partition two distinct fields never overlap, and no field leaves
    the area. *)
Lemma partition_bounds lo fields hi pos size :
  partition lo fields hi = true → (pos, size) ∈ fields →
  lo ≤ pos ∧ pos + size ≤ hi.
Proof.
  revert lo. induction fields as [|[p s] fs IH]; intros lo H Hin.
  { by apply not_elem_of_nil in Hin. }
  cbn in H. apply andb_prop in H as [[H1 H2]%andb_prop H3].
  apply Z.eqb_eq in H1. apply Z.ltb_lt in H2. subst p.
  assert (Hle : ∀ fs lo, partition lo fs hi = true → lo ≤ hi).
  { clear. induction fs as [|[p s] fs IH]; intros lo H; cbn in H; [lia|].
    apply andb_prop in H as [[H1 H2]%andb_prop H3]. specialize (IH _ H3). lia. }
  apply elem_of_cons in Hin as [[= -> ->]|Hin].
  - specialize (Hle _ _ H3). lia.
  - specialize (IH _ H3 Hin). lia.
Qed.

Lemma field_tables :
  partition 0 block_header_fields SIZE_BLOCK_HEADER = true ∧
  partition POS_TX_HEADER tx_header_fields SIZE_TX_HEADER = true ∧
  partition 0 tx_input_fields SIZE_TX_INPUT = true ∧
  partition 0 tx_output_fields SIZE_TX_OUTPUT = true.
Proof. done. Qed.
