(* ===== verification/Util.v ===== *)
(** * src/util.c: hexadecimal text and fixed-width integers in byte buffers

    The conversions every other file uses.  [ntohl] and [ntohs] are the
    functions of the C library: the identity on a big-endian host, the byte
    swap on a little-endian one; the host is the typeclass [Host], so a
    theorem that needs one order says so. *)
From S2P Require Import Prelude Shared.

(** ** Bytes and numbers (reference definitions) *)

(** value of a big-endian and of a little-endian byte string *)
Definition be_val (bs : list Z) : Z := fold_left (λ acc b, acc * 256 + b) bs 0.
Fixpoint le_val (bs : list Z) : Z :=
  match bs with [] => 0 | b :: bs => b + 256 * le_val bs end.

(** the [n] bytes of [x], most significant first *)
Fixpoint be_bytes (n : nat) (x : Z) : list Z :=
  match n with O => [] | S n => be_bytes n (x / 256) ++ [x mod 256] end.

Lemma be_val_app bs cs :
  be_val (bs ++ cs) = be_val bs * 256 ^ Z.of_nat (length cs) + be_val cs.
Proof.
  unfold be_val. rewrite fold_left_app.
  generalize (fold_left (λ acc b, acc * 256 + b) bs 0). intros x.
  revert x. induction cs as [|c cs IH] using rev_ind; intros x; cbn; [lia|].
  rewrite !fold_left_app. cbn. rewrite IH, length_app. cbn.
  rewrite Nat2Z.inj_add, Z.pow_add_r by lia. cbn. lia.
Qed.

Lemma length_be_bytes n x : length (be_bytes n x) = n.
Proof.
  revert x. induction n as [|n IH]; intros x; [done|].
  cbn. rewrite length_app, IH. cbn. lia.
Qed.

(** [len] also computes the lengths of the bytes of a number. *)
Ltac len ::=
  repeat first
    [ rewrite length_insert | rewrite length_app | rewrite length_replicate
    | rewrite length_take | rewrite length_drop | rewrite length_cons
    | rewrite length_fmap | rewrite length_nil | rewrite length_be_bytes
    | rewrite length_patch by (len; lia) ].

Lemma be_bytes_are_bytes n x : Forall is_byte (be_bytes n x).
Proof.
  revert x. induction n as [|n IH]; intros x; cbn; [constructor|].
  apply Forall_app. split; [done|]. constructor; [|constructor].
  apply Z.mod_pos_bound. lia.
Qed.

Lemma be_val_be_bytes n x : be_val (be_bytes n x) = x mod 256 ^ Z.of_nat n.
Proof.
  revert x. induction n as [|n IH]; intros x.
  { cbn. by rewrite Z.mod_1_r. }
  cbn [be_bytes]. rewrite be_val_app, IH. cbn [length].
  change (256 ^ Z.of_nat 1) with 256.
  change (be_val [x mod 256]) with (x mod 256).
  rewrite (Nat2Z.inj_succ n), Z.pow_succ_r by lia.
  rewrite (Z.rem_mul_r x 256) by lia. lia.
Qed.

Lemma be_val_range bs :
  Forall is_byte bs → 0 ≤ be_val bs < 256 ^ Z.of_nat (length bs).
Proof.
  induction bs as [|b bs IH] using rev_ind; intros H; [done|].
  apply Forall_app in H as [H1 H2]. inversion_clear H2 as [|?? Hb _].
  specialize (IH H1). rewrite be_val_app, length_app. cbn [length].
  rewrite Nat2Z.inj_add, Z.pow_add_r by lia. unfold is_byte in Hb.
  change (be_val [b]) with b. change (Z.of_nat 1) with 1. lia.
Qed.

Lemma be_bytes_be_val bs :
  Forall is_byte bs → be_bytes (length bs) (be_val bs) = bs.
Proof.
  induction bs as [|b bs IH] using rev_ind; intros H; [done|].
  apply Forall_app in H as [H1 H2]. inversion_clear H2 as [|?? Hb _].
  rewrite length_app, Nat.add_comm. cbn [length Nat.add be_bytes].
  rewrite be_val_app. change (be_val [b]) with b.
  change (256 ^ Z.of_nat (length [b])) with 256. unfold is_byte in Hb.
  rewrite Z.div_add_l, Z.div_small, Z.add_0_r, IH by (done || lia).
  by rewrite Z.add_comm, Z.mod_add, Z.mod_small by lia.
Qed.

Lemma be_bytes_add n m x :
  be_bytes (n + m) x = be_bytes n (x / 256 ^ Z.of_nat m) ++ be_bytes m x.
Proof.
  revert x. induction m as [|m IH]; intros x.
  { by rewrite Nat.add_0_r, Z.div_1_r, app_nil_r. }
  rewrite Nat.add_succ_r. cbn [be_bytes]. rewrite IH, Z.div_div by lia.
  by rewrite <- app_assoc, Nat2Z.inj_succ, Z.pow_succ_r by lia.
Qed.

Lemma be_bytes_mod n x : be_bytes n (x mod 256 ^ Z.of_nat n) = be_bytes n x.
Proof.
  rewrite <- be_val_be_bytes. rewrite <- (length_be_bytes n x) at 1.
  apply be_bytes_be_val, be_bytes_are_bytes.
Qed.

(** the four bytes of a word, taken with shifts *)
Lemma be_bytes_4 a :
  be_bytes 4 a =
    [w8 (Z.shiftr a 24); w8 (Z.shiftr a 16); w8 (Z.shiftr a 8); w8 a].
Proof.
  unfold w8. rewrite !Z.shiftr_div_pow2 by lia.
  change (2 ^ 24) with (256 * (256 * 256)). change (2 ^ 16) with (256 * 256).
  change (2 ^ 8) with 256. cbn [be_bytes app]. by rewrite !Z.div_div by lia.
Qed.

(** four bytes put together with shifts *)
Lemma lor_be_val b0 b1 b2 b3 :
  Forall is_byte [b0; b1; b2; b3] →
  w32 (Z.lor (Z.lor (Z.lor (Z.shiftl b0 24) (Z.shiftl b1 16))
                    (Z.shiftl b2 8)) b3) = be_val [b0; b1; b2; b3].
Proof.
  intros Hbs. rewrite !Forall_cons_iff in Hbs. unfold is_byte in Hbs.
  rewrite <- !Z.lor_assoc, (lor_shiftl_add b2), (lor_shiftl_add b1),
    (lor_shiftl_add b0), w32_id by lia.
  cbn. lia.
Qed.

(** ** The host byte order *)

Class Host := { little_endian : bool }.

Definition bswap32 (x : Z) : Z := le_val (be_bytes 4 x).
Definition bswap16 (x : Z) : Z := le_val (be_bytes 2 x).

Section Util.
Context `{Host}.

(** [ntohl] and [ntohs] of <arpa/inet.h> *)
Definition ntohl (x : Z) : Z := if little_endian then bswap32 x else x.
Definition ntohs (x : Z) : Z := if little_endian then bswap16 x else x.

(** ** Hexadecimal digits

    A [char] is its code as a signed 8-bit integer. *)

Definition hexc_to_nibble (c : Z) : Z :=
  if (48 <=? c) && (c <=? 57) then w8 (c - 48)            (* '0'..'9' *)
  else if (97 <=? c) && (c <=? 102) then w8 (c - 97 + 10)  (* 'a'..'f' *)
  else if (65 <=? c) && (c <=? 70) then w8 (c - 65 + 10)   (* 'A'..'F' *)
  else 255.

Definition nibble_to_hexc (n : Z) : Z :=
  if (0 <=? n) && (n <=? 9) then s8 (n + 48) else s8 (n + 97 - 10).

(** [str_pos] is [2 * byte_pos] throughout: both count up together. *)
Definition hexstr_to_bytes (bytearr string : list Z) (bytes : Z)
    : outcome (list Z) :=
  for_range 0 bytes (λ byte_pos bytearr,
    let str_pos := 2 * byte_pos in
    c0 ← rd string str_pos;
    c1 ← rd string (str_pos + 1);
    wr bytearr byte_pos
      (w8 (Z.lor (Z.shiftl (hexc_to_nibble c0) 4) (hexc_to_nibble c1))))
    bytearr.

Definition bytes_to_hexstr (string bytearr : list Z) (bytes : Z)
    : outcome (list Z) :=
  for_range 0 bytes (λ byte_pos string,
    let str_pos := 2 * byte_pos in
    b0 ← rd bytearr byte_pos;
    string ← wr string str_pos (nibble_to_hexc (Z.shiftr b0 4));
    b1 ← rd bytearr byte_pos;
    wr string (str_pos + 1) (nibble_to_hexc b1))
    string.

(** [time] is the result of [time(NULL)] *)
Definition get_curr_time (time : Z) : Z := w32 time.

(** ** Bytes-type conversion

    The pointer argument is a buffer and an offset into it. *)

Definition btoui (bytes : list Z) (p : Z) : outcome Z :=
  b0 ← rd bytes p;
  b1 ← rd bytes (p + 1);
  b2 ← rd bytes (p + 2);
  b3 ← rd bytes (p + 3);
  Done (ntohl (w32 (Z.lor (Z.lor (Z.lor (Z.shiftl b0 24) (Z.shiftl b1 16))
                                 (Z.shiftl b2 8)) b3))).

Definition btous (bytes : list Z) (p : Z) : outcome Z :=
  b0 ← rd bytes p;
  b1 ← rd bytes (p + 1);
  Done (ntohs (w16 (Z.lor (Z.shiftl b0 8) b1))).

Definition ustob (a : Z) (dest : list Z) (p : Z) : outcome (list Z) :=
  dest ← wr dest p (Z.land (Z.shiftr a 8) 255);
  wr dest (p + 1) (Z.land a 255).

Definition uitob (a : Z) (dest : list Z) (p : Z) : outcome (list Z) :=
  dest ← wr dest p (Z.land (Z.shiftr a 24) 255);
  dest ← wr dest (p + 1) (Z.land (Z.shiftr a 16) 255);
  dest ← wr dest (p + 2) (Z.land (Z.shiftr a 8) 255);
  wr dest (p + 3) (Z.land a 255).

Lemma ustob_length a dest p dest' : ustob a dest p = Done dest' → length dest' = length dest.
Proof. unfold ustob. by intros (d & <-%wr_length & <-%wr_length)%bind_Done_inv. Qed.

Lemma uitob_length a dest p dest' : uitob a dest p = Done dest' → length dest' = length dest.
Proof.
  unfold uitob.
  by intros (d1 & <-%wr_length & (d2 & <-%wr_length & (d3 & <-%wr_length &
    <-%wr_length)%bind_Done_inv)%bind_Done_inv)%bind_Done_inv.
Qed.

(** ** Writing an integer is a [memcpy] of its big-endian bytes *)

Lemma ustob_memwrite a dest p :
  0 ≤ p → p + 2 ≤ Z.of_nat (length dest) →
  ustob a dest p = memwrite dest p (be_bytes 2 a).
Proof.
  intros H1 H2. unfold ustob. cbn [be_bytes app].
  rewrite !land_byte, !Z.shiftr_div_pow2 by lia. change (2 ^ 8) with 256.
  rewrite memwrite_cons by (cbn; lia). wr_step.
  rewrite memwrite_cons by (len; cbn; lia). wr_step.
  by rewrite memwrite_nil by (len; lia).
Qed.

Lemma uitob_memwrite a dest p :
  0 ≤ p → p + 4 ≤ Z.of_nat (length dest) →
  uitob a dest p = memwrite dest p (be_bytes 4 a).
Proof.
  intros H1 H2. unfold uitob. cbn [be_bytes app].
  rewrite !land_byte, !Z.shiftr_div_pow2 by lia.
  change (2 ^ 8) with 256. change (2 ^ 16) with (256 * 256).
  change (2 ^ 24) with (256 * (256 * 256)). rewrite !Z.div_div by lia.
  rewrite memwrite_cons by (cbn; lia). wr_step.
  rewrite memwrite_cons by (len; cbn; lia). wr_step.
  replace (p + 1 + 1) with (p + 2) by lia.
  rewrite memwrite_cons by (len; cbn; lia). wr_step.
  replace (p + 2 + 1) with (p + 3) by lia.
  rewrite memwrite_cons by (len; cbn; lia). wr_step.
  by rewrite memwrite_nil by (len; lia).
Qed.
(** Reading four (two) bytes gives their value in the byte order of the
    host, not always the big-endian one. *)
Lemma btoui_spec bytes p bs :
  memread bytes p 4 = Done bs → Forall is_byte bs →
  btoui bytes p = Done (if little_endian then le_val bs else be_val bs).
Proof.
  intros (b0 & b1 & b2 & b3 & -> & R0 & R1 & R2 & R3)%memread_4 Hbs.
  unfold btoui. rewrite R0, R1, R2, R3. cbn [mbind outcome_bind]. f_equal.
  rewrite lor_be_val by done. unfold ntohl, bswap32.
  destruct little_endian; [|done].
  by apply f_equal, (be_bytes_be_val [b0; b1; b2; b3]).
Qed.

Lemma btous_spec bytes p bs :
  memread bytes p 2 = Done bs → Forall is_byte bs →
  btous bytes p = Done (if little_endian then le_val bs else be_val bs).
Proof.
  intros (b0 & b1 & -> & R0 & R1)%memread_2 Hbs.
  unfold btous. rewrite R0, R1. cbn [mbind outcome_bind]. f_equal.
  rewrite lor_shiftl_add, w16_id by (rewrite !Forall_cons_iff in Hbs; unfold is_byte in Hbs; lia).
  replace (b0 * 2 ^ 8 + b1) with (be_val [b0; b1]) by (cbn; lia).
  unfold ntohs, bswap16. destruct little_endian; [|done].
  by apply f_equal, (be_bytes_be_val [b0; b1]).
Qed.

(** ** Round trips *)

(** C21: uitob stores the four bytes of an integer most significant first, and
    btoui reads them back as the integer on a big-endian host and as its byte
    swap on a little-endian one. *)
Theorem btoui_uitob a dest p :
  0 ≤ p → p + 4 ≤ Z.of_nat (length dest) →
  ∃ dest', uitob a dest p = Done dest' ∧ length dest' = length dest ∧
    memread dest' p 4 = Done (be_bytes 4 a) ∧
    btoui dest' p =
      Done (if little_endian then bswap32 (w32 a) else w32 a).
Proof.
  intros H1 H2. rewrite uitob_memwrite by lia.
  rewrite memwrite_Done by (rewrite ?length_be_bytes; lia).
  exists (patch dest (Z.to_nat p) (be_bytes 4 a)).
  assert (Hr : memread (patch dest (Z.to_nat p) (be_bytes 4 a)) p 4
               = Done (be_bytes 4 a)).
  { apply memread_patch_same; rewrite ?length_be_bytes; lia. }
  split; [done|]. split; [apply length_patch; rewrite length_be_bytes; lia|].
  split; [done|].
  rewrite (btoui_spec _ _ _ Hr (be_bytes_are_bytes _ _)), be_val_be_bytes.
  f_equal. destruct little_endian; [|done]. unfold bswap32, w32.
  by rewrite <- (be_bytes_mod 4 a).
Qed.

(** ** Hexadecimal text *)

(** the byte [hexstr_to_bytes] makes of two characters *)
Definition hex_decode (c0 c1 : Z) : Z :=
  w8 (Z.lor (Z.shiftl (hexc_to_nibble c0) 4) (hexc_to_nibble c1)).

Lemma hexstr_to_bytes_decode bytearr string bytes :
  0 ≤ bytes ≤ Z.of_nat (length bytearr) →
  2 * bytes ≤ Z.of_nat (length string) →
  hexstr_to_bytes bytearr string bytes =
    Done (patch bytearr 0 ((λ i, hex_decode
      (string !!! Z.to_nat (2 * i)) (string !!! Z.to_nat (2 * i + 1)))
      <$> seqZ 0 bytes)).
Proof.
  intros H1 H2. unfold hexstr_to_bytes. apply for_range_fill; [done|].
  intros i l' Hi Hl.
  destruct (rd_lt string (2 * i)) as (c0 & L0 & ->); [lia|].
  destruct (rd_lt string (2 * i + 1)) as (c1 & L1 & ->); [lia|]. cbn.
  by rewrite (list_lookup_total_correct _ _ _ L0),
    (list_lookup_total_correct _ _ _ L1).
Qed.

(** the text of a byte string, in lower or upper case (reference printer) *)
Definition hex_digit (upper : bool) (v : Z) : Z :=
  if v <? 10 then 48 + v else (if upper then 65 else 97) + (v - 10).
Fixpoint pairs (f g : Z → Z) (bs : list Z) : list Z :=
  match bs with [] => [] | b :: bs => f b :: g b :: pairs f g bs end.
Definition hex_text (upper : bool) : list Z → list Z :=
  pairs (λ b, hex_digit upper (b / 16)) (λ b, hex_digit upper (b mod 16)).

Lemma length_pairs f g bs : length (pairs f g bs) = (2 * length bs)%nat.
Proof. induction bs as [|b bs IH]; cbn [pairs length]; lia. Qed.

Lemma pairs_app f g bs cs : pairs f g (bs ++ cs) = pairs f g bs ++ pairs f g cs.
Proof. induction bs as [|b bs IH]; [done|]. cbn. by rewrite IH. Qed.

Lemma pairs_lookup f g bs i b :
  bs !! i = Some b →
  pairs f g bs !! (2 * i)%nat = Some (f b) ∧
  pairs f g bs !! (2 * i + 1)%nat = Some (g b).
Proof.
  revert i. induction bs as [|b0 bs IH]; intros [|i] Hi; [done..| |].
  { by injection Hi as ->. }
  replace (2 * S i)%nat with (S (S (2 * i))) by lia. apply (IH i Hi).
Qed.

Lemma hex_decode_digits upper b :
  is_byte b → hex_decode (hex_digit upper (b / 16)) (hex_digit upper (b mod 16)) = b.
Proof.
  intros Hb. apply Z.eqb_eq. revert b Hb. apply byte_forall.
  destruct upper; vm_compute; reflexivity.
Qed.

Lemma hexstr_to_bytes_pairs bytearr f g bs rest :
  (length bs ≤ length bytearr)%nat →
  hexstr_to_bytes bytearr (pairs f g bs ++ rest) (Z.of_nat (length bs)) =
    Done (patch bytearr 0 ((λ b, hex_decode (f b) (g b)) <$> bs)).
Proof.
  intros Hlen. rewrite hexstr_to_bytes_decode
    by (rewrite ?length_app, ?length_pairs; lia).
  do 2 f_equal. apply list_eq. intros i. rewrite !list_lookup_fmap.
  destruct (bs !! i) as [b|] eqn:Hb.
  - pose proof (lookup_lt_Some _ _ _ Hb) as Hi.
    rewrite lookup_seqZ_lt by lia. cbn. f_equal.
    destruct (pairs_lookup f g bs i b Hb) as [L0 L1].
    f_equal; apply list_lookup_total_correct, lookup_app_l_Some.
    + rewrite <- L0. f_equal. lia.
    + rewrite <- L1. f_equal. lia.
  - apply lookup_ge_None in Hb. by rewrite lookup_seqZ_ge by lia.
Qed.

Lemma bytes_to_hexstr_pairs string bytearr n :
  (n ≤ length bytearr)%nat → (2 * n ≤ length string)%nat →
  bytes_to_hexstr string bytearr (Z.of_nat n) =
    Done (patch string 0
      (pairs (λ b, nibble_to_hexc (Z.shiftr b 4)) nibble_to_hexc
        (take n bytearr))).
Proof.
  intros H1 H2. unfold bytes_to_hexstr.
  set (text k := pairs (λ b, nibble_to_hexc (Z.shiftr b 4)) nibble_to_hexc
        (take (Z.to_nat k) bytearr)).
  destruct (for_range_inv (λ k s, s = patch string 0 (text k)) 0 (Z.of_nat n)
    (λ byte_pos string,
      b0 ← rd bytearr byte_pos;
      string ← wr string (2 * byte_pos) (nibble_to_hexc (Z.shiftr b0 4));
      b1 ← rd bytearr byte_pos;
      wr string (2 * byte_pos + 1) (nibble_to_hexc b1)) string)
    as (s' & E & ->); [lia|unfold text; change (Z.to_nat 0) with 0%nat; rewrite take_0; symmetry; apply patch_nil| |].
  { intros k s Hk ->.
    destruct (rd_lt bytearr k) as (b & Hb & Hr); [lia|]. rewrite Hr. cbn.
    assert (Ht : length (text k) = (2 * Z.to_nat k)%nat).
    { unfold text. rewrite length_pairs, length_take. lia. }
    rewrite wr_patch_snoc by lia. cbn.
    rewrite wr_patch_snoc by (rewrite ?length_app; cbn; lia).
    eexists. split; [done|]. f_equal. unfold text.
    replace (Z.to_nat (k + 1)) with (S (Z.to_nat k)) by lia.
    rewrite (take_S_r _ _ _ Hb), pairs_app, <- app_assoc. done. }
  cbn zeta in *. rewrite E. unfold text. by rewrite Nat2Z.id.
Qed.

Lemma hexstr_to_bytes_hex_text_run upper bs rest bytearr :
  Forall is_byte bs → (length bs ≤ length bytearr)%nat →
  hexstr_to_bytes bytearr (hex_text upper bs ++ rest) (Z.of_nat (length bs)) =
    Done (patch bytearr 0 bs).
Proof.
  intros Hbs Hlen. unfold hex_text. rewrite hexstr_to_bytes_pairs by done.
  do 2 f_equal. rewrite <- (list_fmap_id bs) at 2.
  eapply Forall_fmap_ext_1, Forall_impl; [|exact Hbs].
  intros b Hb. by apply hex_decode_digits.
Qed.


(** the bytes whose text survives [bytes_to_hexstr] *)
Definition hex_safe (b : Z) : bool :=
  (b <? 16) || ((234 <=? b) && (b <=? 239)) || (b =? 255).

Lemma hex_decode_nibbles b :
  is_byte b →
  hex_decode (nibble_to_hexc (Z.shiftr b 4)) (nibble_to_hexc b) = b ↔
  hex_safe b = true.
Proof.
  intros Hb.
  enough (Bool.eqb (hex_decode (nibble_to_hexc (Z.shiftr b 4))
            (nibble_to_hexc b) =? b) (hex_safe b) = true) as E%eqb_prop.
  { rewrite <- E. symmetry. apply Z.eqb_eq. }
  revert b Hb. apply byte_forall. vm_compute. reflexivity.
Qed.

(** C40: Decoding the text bytes_to_hexstr prints gives the bytes back exactly
    when every byte is below 16, from 234 to 239, or 255: the low digit is
    taken of the whole byte instead of its low nibble. *)
Theorem bytes_to_hexstr_roundtrip bs string bytearr :
  Forall is_byte bs → (2 * length bs ≤ length string)%nat →
  (length bs ≤ length bytearr)%nat →
  ∃ text bs',
    bytes_to_hexstr string bs (Z.of_nat (length bs)) = Done text ∧
    hexstr_to_bytes bytearr text (Z.of_nat (length bs)) = Done bs' ∧
    (take (length bs) bs' = bs ↔ Forall (λ b, hex_safe b = true) bs).
Proof.
  intros Hbs H1 H2. rewrite bytes_to_hexstr_pairs, take_ge by lia.
  eexists _, _. split; [done|]. rewrite patch_0.
  rewrite hexstr_to_bytes_pairs by done. split; [done|].
  set (dec := λ b, hex_decode _ _).
  assert (length (dec <$> bs) = length bs) as Hl by apply length_fmap.
  rewrite <- Hl at 1. rewrite <- (drop_0 (patch _ _ _)), patch_read_same by lia.
  clear - Hbs. induction Hbs as [|b bs Hb Hbs IH]; [done|].
  rewrite Forall_cons_iff, <- IH, <- (hex_decode_nibbles b Hb).
  fold dec. change (dec b :: (dec <$> bs) = b :: bs ↔ dec b = b ∧ dec <$> bs = bs).
  split; [by intros [= -> ->]|by intros [-> ->]].
Qed.
End Util.

(** ** Instances *)


Lemma bytes_to_hexstr_roundtrip_witness :
  ∃ text bs',
    bytes_to_hexstr [0; 0; 0; 0] [0x0f; 0xa0] 2 = Done text ∧
    hexstr_to_bytes [9; 9] text 2 = Done bs' ∧
    (take 2 bs' = [0x0f; 0xa0] ↔ Forall (λ b, hex_safe b = true) [0x0f; 0xa0]).
Proof.
  apply (bytes_to_hexstr_roundtrip [0x0f; 0xa0] [0; 0; 0; 0] [9; 9]);
    [decided|cbn; lia|cbn; lia].
Defined.

Lemma btoui_uitob_witness :
  ∃ dest', uitob 258 [9; 9; 9; 9; 9] 1 = Done dest' ∧ length dest' = 5%nat ∧
    memread dest' 1 4 = Done (be_bytes 4 258) ∧
    @btoui {| little_endian := true |} dest' 1 = Done (bswap32 (w32 258)).
Proof.
  apply (@btoui_uitob {| little_endian := true |} 258 [9; 9; 9; 9; 9] 1);
    cbn; lia.
Defined.
