(* ===== verification/Printing.v ===== *)
(** * src/printing.c and the output of the program

    What a computation printed, and how it ended: [io].  [printf] interprets
    the conversions the sources use: [%d], [%s] and
    [%02x].  [fatal] prints and ends the program, so its result is [Fatal],
    the outcome every other file uses.  C strings are byte lists up to their
    first zero. *)
From Stdlib Require Import String Ascii DecimalString HexadecimalString.
From S2P Require Import Prelude Shared Util.

Open Scope Z_scope.

(** ** C strings *)

(** the length of a C string: the index of its first zero *)
Fixpoint strlen (s : list Z) : outcome Z :=
  match s with
  | [] => Undef
  | c :: s => if c =? 0 then Done 0 else n ← strlen s; Done (n + 1)
  end.

(** the bytes before the first zero *)
Definition c_string (s : list Z) : outcome (list Z) :=
  n ← strlen s; Done (take (Z.to_nat n) s).

Lemma strlen_length s n : strlen s = Done n → n < Z.of_nat (length s).
Proof.
  revert n. induction s as [|c s IH]; intros n; [done|]. cbn [strlen length].
  destruct (c =? 0); [intros [= <-]; lia|].
  intros (m & Hm%IH & [= <-])%bind_Done_inv. lia.
Qed.

Definition no_zero (s : list Z) : Prop := Forall (λ c, c ≠ 0) s.

Lemma strlen_text t rest :
  no_zero t → strlen (t ++ 0 :: rest) = Done (Z.of_nat (length t)).
Proof.
  induction 1 as [|c t Hc Ht IH]; [done|]. cbn [strlen app length].
  rewrite (proj2 (Z.eqb_neq _ _) Hc), IH, bind_Done. f_equal. lia.
Qed.

Lemma c_string_text t rest : no_zero t → c_string (t ++ 0 :: rest) = Done t.
Proof.
  intros Ht. unfold c_string. rewrite strlen_text by done. rewrite bind_Done.
  by rewrite Nat2Z.id, take_app_length.
Qed.

Lemma strlen_no_zero s : no_zero s → strlen s = Undef.
Proof.
  induction 1 as [|c s Hc _ IH]; [done|]. cbn [strlen].
  by rewrite (proj2 (Z.eqb_neq _ _) Hc), IH.
Qed.

(** a C string is a text, its zero, and what is behind *)
Lemma strlen_inv s n :
  strlen s = Done n →
  ∃ t rest, s = t ++ 0 :: rest ∧ no_zero t ∧ n = Z.of_nat (length t).
Proof.
  revert n. induction s as [|c s IH]; intros n; [done|]. cbn [strlen].
  destruct (Z.eqb_spec c 0) as [->|Hc].
  - intros [= <-]. exists [], s. by repeat constructor.
  - intros (m & (t & rest & -> & Ht & ->)%IH & [= <-])%bind_Done_inv.
    exists (c :: t), rest. split; [done|]. split; [by constructor|]. cbn. lia.
Qed.

(** ** Output *)

(** the characters of a string literal *)
Definition chars (s : string) : list Z :=
  (λ c, Z.of_N (N_of_ascii c)) <$> list_ascii_of_string s.

Definition nl : list Z := [10].

Record io (A : Type) := mk_io {
  printed : list Z;
  ended : outcome A
}.
Arguments mk_io {A} printed ended.
Arguments printed {A} _.
Arguments ended {A} _.

#[export] Instance io_ret : MRet io := λ A a, mk_io [] (Done a).
#[export] Instance io_bind : MBind io := λ A B f m,
  match ended m with
  | Done a => mk_io (printed m ++ printed (f a)) (ended (f a))
  | Fatal => mk_io (printed m) Fatal
  | Undef => mk_io (printed m) Undef
  | Hang => mk_io (printed m) Hang
  end.

(** a computation that prints nothing *)
Definition quiet {A} (m : outcome A) : io A := mk_io [] m.

Lemma io_eq {A} (m n : io A) : printed m = printed n → ended m = ended n → m = n.
Proof. destruct m, n; cbn. by intros -> ->. Qed.

Lemma io_bind_assoc {A B C} (m : io A) (f : A → io B) (g : B → io C) :
  (m ≫= f) ≫= g = m ≫= (λ a, f a ≫= g).
Proof.
  destruct m as [t [a| | |]]; try done. unfold mbind, io_bind. cbn.
  destruct (ended (f a)); cbn; by rewrite ?app_assoc.
Qed.

(** Forgetting what was printed leaves the outcome. *)
Lemma ended_bind {A B} (m : io A) (f : A → io B) :
  ended (m ≫= f) = ended m ≫= (λ a, ended (f a)).
Proof. destruct m as [t [a| | |]]; done. Qed.

Lemma quiet_bind {A B} (a : A) (f : A → io B) : quiet (Done a) ≫= f = f a.
Proof. unfold mbind, io_bind. cbn. by destruct (f a). Qed.

Lemma mk_io_bind {A B} t (a : A) (f : A → io B) :
  mk_io t (Done a) ≫= f = mk_io (t ++ printed (f a)) (ended (f a)).
Proof. done. Qed.

Lemma quiet_Undef_bind {A B} (f : A → io B) : quiet Undef ≫= f = mk_io [] Undef.
Proof. done. Qed.

(** [for (int i = 0; i < n; i++)] around output *)
Fixpoint io_for (n : nat) (i : Z) (body : Z → io ()) : io () :=
  match n with
  | O => mret ()
  | S n => _ ← body i; io_for n (i + 1) body
  end.

(** ** printf *)

Inductive arg :=
| Int (z : Z)            (** passed as [int] *)
| Mem (s : list Z).      (** a [char *]: the memory from it on *)

Definition decimal (z : Z) : list Z :=
  chars (DecimalString.NilZero.string_of_int (Z.to_int (s32 z))).

(** [%02x] of an [unsigned int]: two digits at least *)
Definition hex (z : Z) : list Z :=
  if w32 z <? 256 then hex_text false [w32 z]
  else chars (HexadecimalString.NilZero.string_of_uint (N.to_hex_uint (Z.to_N (w32 z)))).

(** A conversion without an argument of its type is undefined; arguments left
    over are ignored. *)
Fixpoint format (fmt : list Z) (args : list arg) : outcome (list Z) :=
  match fmt with
  | [] => Done []
  | c :: fmt =>
      if c =? 37 (* % *) then
        match fmt with
        | d :: fmt =>
            if d =? 100 (* d *) then
              match args with
              | Int z :: args => rest ← format fmt args; Done (decimal z ++ rest)
              | _ => Undef
              end
            else if d =? 115 (* s *) then
              match args with
              | Mem s :: args =>
                  t ← c_string s; rest ← format fmt args; Done (t ++ rest)
              | _ => Undef
              end
            else if d =? 48 (* 0 *) then
              match fmt, args with
              | 50 :: 120 :: fmt (* 2x *), Int z :: args =>
                  rest ← format fmt args; Done (hex z ++ rest)
              | _, _ => Undef
              end
            else Undef
        | [] => Undef
        end
      else rest ← format fmt args; Done (c :: rest)
  end.

(** what was printed before an undefined conversion is not modelled *)
Definition printf (fmt : list Z) (args : list arg) : io () :=
  t ← quiet (format fmt args); mk_io t (Done ()).

Lemma format_literal_app lit fmt args :
  Forall (λ c, c ≠ 37) lit →
  format (lit ++ fmt) args = t ← format fmt args; Done (lit ++ t).
Proof.
  induction 1 as [|c lit Hc _ IH]; cbn [app format].
  - by destruct (format fmt args).
  - rewrite (proj2 (Z.eqb_neq _ _) Hc), IH. by destruct (format fmt args).
Qed.

Lemma format_literal fmt args : Forall (λ c, c ≠ 37) fmt → format fmt args = Done fmt.
Proof. intros H. by rewrite <- (app_nil_r fmt), format_literal_app. Qed.

Lemma format_s fmt s args :
  format (chars "%s" ++ fmt) (Mem s :: args) =
    t ← c_string s; rest ← format fmt args; Done (t ++ rest).
Proof. reflexivity. Qed.

Lemma printf_Done fmt args t :
  format fmt args = Done t → printf fmt args = mk_io t (Done ()).
Proof. unfold printf. by intros ->. Qed.

(** ** src/printing.c *)

Definition print_version : io () :=
  printf (chars "Version %d " ++ nl) [Int __VERSION].

Definition print_greeting : io () :=
  _ ← printf (chars "##############" ++ nl) [];
  _ ← printf (chars "## freecoin ##" ++ nl) [];
  _ ← printf (chars "##############" ++ nl) [];
  print_version.

(** The name [format] that [va_start] and [vfprintf] are given is read as the
    parameter [string]. *)
Definition v_printf (string : list Z) (args : list arg) : io () :=
  if negb (VERBOSE =? 0) then printf string args else mret ().

(** It does not return: the result is of any type. *)
Definition fatal {A} (string : list Z) (args : list arg) : io A :=
  _ ← printf (chars "Fatal: ") [];
  _ ← printf string args;
  _ ← printf nl [];
  quiet Fatal.

(** A buffer of [n] cells printed with [%02x] each, in a loop. *)
Definition print_hex (buf : list Z) (n : nat) : io () :=
  io_for n 0 (λ i, b ← quiet (rd buf i); printf (chars "%02x") [Int b]).

Lemma hex_byte b : is_byte b → hex b = hex_text false [b].
Proof.
  unfold is_byte, hex. intros Hb. rewrite w32_id by lia.
  by rewrite (proj2 (Z.ltb_lt _ _)) by lia.
Qed.

Lemma printf_hex b : is_byte b →
  printf (chars "%02x") [Int b] = mk_io (hex_text false [b]) (Done ()).
Proof. intros Hb. by rewrite (printf_Done _ _ (hex b ++ [])), hex_byte, app_nil_r. Qed.

Lemma print_hex_run buf n :
  (n ≤ length buf)%nat → Forall is_byte buf →
  print_hex buf n = mk_io (hex_text false (take n buf)) (Done ()).
Proof.
  intros Hn HB. unfold print_hex.
  enough (∀ k i, (i + k ≤ length buf)%nat →
    io_for k (Z.of_nat i) (λ i, b ← quiet (rd buf i); printf (chars "%02x") [Int b]) =
    mk_io (hex_text false (take k (drop i buf))) (Done ())) as Hk
    by exact (Hk n 0%nat Hn).
  induction k as [|k IH]; intros i Hi; [done|]. cbn [io_for].
  destruct (lookup_lt_is_Some_2 buf i) as [b Hb]; [lia|].
  rewrite (rd_nat _ _ _ Hb).
  pose proof (Forall_lookup_1 _ _ _ _ HB Hb) as Bb.
  replace (Z.of_nat i + 1) with (Z.of_nat (S i)) by lia.
  rewrite (IH (S i)) by lia. rewrite (drop_S _ _ _ Hb). cbn [take].
  rewrite quiet_bind, printf_hex by done. done.
Qed.
