(* ===== verification/Bignum.v ===== *)
(** * src/bignum.c: byte-array arithmetic

    [big_mult] is schoolbook multiplication on little-endian arrays, carries
    kept in 16 bits; [big_compare] walks from index 0.  [big_div] has an empty
    body.  The destination is a separate buffer from the operands, as at the
    only call site (blockchain.c). *)
From S2P Require Import Prelude Shared Util.

(** ** The operations *)

(** [n] is a [uint16_t]: the sum of the previous carry, the digit of [res] and
    the product is truncated to 16 bits. *)
Definition big_mult_step (a b : list Z) (j i : Z) (st : list Z * Z)
    : outcome (list Z * Z) :=
  let '(res, carry) := st in
  r ← rd res (i + j);
  aj ← rd a j;
  bi ← rd b i;
  let n := w16 (carry + r + aj * bi) in
  res ← wr res (i + j) (Z.land n 255);
  Done (res, Z.shiftr n 8).

Definition big_mult (a : list Z) (a_bytes : Z) (b : list Z) (b_bytes : Z)
    (res : list Z) : outcome (list Z) :=
  let w := s32 (a_bytes + b_bytes) in
  res ← memset res 0 0 (w mod 2 ^ 64);
  for_range 0 w (λ j res,
    st ← for_range 0 (w - j) (big_mult_step a b j) (res, 0);
    Done st.1) res.

Definition big_div (a b res : list Z) : outcome (list Z) := Done res.

Definition big_compare (a b : list Z) (bytes : Z) : outcome Z :=
  r ← for_range_ret 0 bytes (λ i _,
    ai ← rd a i;
    bi ← rd b i;
    if ai <? bi then Done (inr (-1))
    else if bi <? ai then Done (inr 1)
    else Done (inl ())) ();
  match r with inr v => Done v | inl _ => Done 0 end.

(** ** Little-endian values *)

Lemma le_val_app l k :
  le_val (l ++ k) = le_val l + 256 ^ Z.of_nat (length l) * le_val k.
Proof.
  induction l as [|x l IH]; cbn [app le_val length]; [lia|].
  rewrite IH, Nat2Z.inj_succ, Z.pow_succ_r by lia. lia.
Qed.

Lemma le_val_range l :
  Forall is_byte l → 0 ≤ le_val l < 256 ^ Z.of_nat (length l).
Proof.
  induction 1 as [|x l Hx Hl IH]; [done|].
  cbn [le_val length]. unfold is_byte in Hx.
  rewrite Nat2Z.inj_succ, Z.pow_succ_r by lia. lia.
Qed.

Lemma le_val_insert l i x y :
  l !! i = Some y →
  le_val (<[i := x]> l) = le_val l + (x - y) * 256 ^ Z.of_nat i.
Proof.
  revert i. induction l as [|z l IH]; intros [|i] Hi; [done..| |].
  - injection Hi as ->. cbn. lia.
  - change (<[S i := x]> (z :: l)) with (z :: <[i := x]> l). cbn [le_val].
    rewrite (IH i Hi), Nat2Z.inj_succ, Z.pow_succ_r by lia. lia.
Qed.

Lemma le_val_take_S l i x :
  l !! i = Some x →
  le_val (take (S i) l) = le_val (take i l) + x * 256 ^ Z.of_nat i.
Proof.
  intros Hx. pose proof (lookup_lt_Some _ _ _ Hx).
  rewrite (take_S_r _ _ _ Hx), le_val_app, length_take, Nat.min_l by lia.
  cbn. lia.
Qed.

Lemma le_val_replicate_0 n : le_val (replicate n 0) = 0.
Proof. induction n as [|n IH]; cbn; lia. Qed.

(** ** Multiplication *)

Section Mult.
Context (a b : list Z) (w : nat).
Context (Ha : Forall is_byte a) (Hb : Forall is_byte b).
Context (Hla : (w ≤ length a)%nat) (Hlb : (w ≤ length b)%nat).

(** The state of the inner loop after [i] of its rounds: the value of the
    first [w] digits together with the pending carry. *)
Definition mult_inner_inv (res0 : list Z) (j aj i : Z) (st : list Z * Z)
    : Prop :=
  let '(res, carry) := st in
  length res = length res0 ∧ Forall is_byte res ∧ is_byte carry ∧
  drop w res = drop w res0 ∧
  le_val (take w res) + carry * 256 ^ (i + j) =
    le_val (take w res0) + aj * 256 ^ j * le_val (take (Z.to_nat i) b).

Lemma mult_step_inv res0 j aj i st :
  0 ≤ j → 0 ≤ i → i + j < Z.of_nat w → (w ≤ length res0)%nat →
  a !! Z.to_nat j = Some aj →
  mult_inner_inv res0 j aj i st →
  ∃ st', big_mult_step a b j i st = Done st' ∧
    mult_inner_inv res0 j aj (i + 1) st'.
Proof.
  destruct st as [res carry]. intros Hj Hi Hij Hl Haj (L & B & C & D & V).
  destruct (rd_lt res (i + j)) as (r & Hr & Er); [lia|].
  destruct (rd_lt b i) as (bi & Hbi & Eb); [lia|].
  assert (is_byte r) as Br by exact (Forall_lookup_1 _ _ _ _ B Hr).
  assert (is_byte aj) as Baj by exact (Forall_lookup_1 _ _ _ _ Ha Haj).
  assert (is_byte bi) as Bbi by exact (Forall_lookup_1 _ _ _ _ Hb Hbi).
  unfold is_byte in Br, Baj, Bbi, C.
  assert (0 ≤ aj * bi ≤ 255 * 255) by nia.
  unfold big_mult_step. rewrite Er, (rd_Done a j aj Hj Haj), Eb.
  cbn [mbind outcome_bind]. rewrite w16_id by lia.
  remember (carry + r + aj * bi) as n eqn:En. rewrite wr_Done by lia.
  cbn [mbind outcome_bind]. rewrite land_byte, Z.shiftr_div_pow2 by lia.
  change (2 ^ 8) with 256. assert (0 ≤ n < 65536) as Hn by lia.
  pose proof (Z.div_mod n 256 ltac:(lia)) as Hdm.
  pose proof (Z.mod_pos_bound n 256 ltac:(lia)) as Hmod.
  eexists. split; [done|]. unfold mult_inner_inv. len.
  split; [done|]. split; [by apply Forall_insert|].
  split; [unfold is_byte; lia|].
  split; [by rewrite drop_insert_lt by lia|].
  rewrite take_insert_lt by lia.
  rewrite (le_val_insert _ _ _ r) by (rewrite lookup_take_lt by lia; done).
  replace (Z.to_nat (i + 1)) with (S (Z.to_nat i)) by lia.
  rewrite (le_val_take_S _ _ _ Hbi), !Z2Nat.id by lia.
  replace (i + 1 + j) with (1 + (i + j)) by lia.
  rewrite (Z.pow_add_r 256 1) by lia. rewrite Z.pow_add_r in V |- * by lia.
  nia.
Qed.

(** One round of the outer loop adds [a[j] * 256^j * b] modulo [256^w]. *)
Lemma mult_round res0 j :
  0 ≤ j < Z.of_nat w → (w ≤ length res0)%nat → Forall is_byte res0 →
  ∃ res' aj, a !! Z.to_nat j = Some aj ∧
    (st ← for_range 0 (Z.of_nat w - j) (big_mult_step a b j) (res0, 0);
     Done st.1) = Done res' ∧
    length res' = length res0 ∧ Forall is_byte res' ∧
    drop w res' = drop w res0 ∧
    (le_val (take w res')) mod 256 ^ Z.of_nat w =
    (le_val (take w res0) + aj * 256 ^ j * le_val (take w b))
      mod 256 ^ Z.of_nat w.
Proof.
  intros Hj Hl B. destruct (lookup_lt_is_Some_2 a (Z.to_nat j)) as [aj Haj]; [lia|].
  destruct (for_range_inv (mult_inner_inv res0 j aj) 0 (Z.of_nat w - j)
    (big_mult_step a b j) (res0, 0)) as ([res' carry] & E & L & B' & C & D & V);
    [lia| | |].
  { unfold mult_inner_inv, is_byte. rewrite Z2Nat.inj_0, take_0. cbn [le_val].
    repeat split; try done; lia. }
  { intros k st Hk. apply mult_step_inv; auto; lia. }
  exists res', aj. rewrite E. do 5 (split; [done|]).
  rewrite Z.sub_add in V.
  assert (∃ q, le_val (take w b) =
    le_val (take (Z.to_nat (Z.of_nat w - j)) b) + 256 ^ (Z.of_nat w - j) * q)
    as [q ->].
  { rewrite <- (take_drop (Z.to_nat (Z.of_nat w - j)) (take w b)), le_val_app.
    rewrite take_take, Nat.min_l, length_take, Nat.min_l by lia.
    rewrite Z2Nat.id by lia. eexists. reflexivity. }
  replace (256 ^ Z.of_nat w) with (256 ^ j * 256 ^ (Z.of_nat w - j)) in *
    by (rewrite <- Z.pow_add_r by lia; f_equal; lia).
  set (M := 256 ^ j * 256 ^ (Z.of_nat w - j)) in *.
  rewrite Z.mul_add_distr_l, Z.add_assoc, <- V.
  replace (_ + _ + _) with (le_val (take w res') + (carry + aj * q) * M)
    by (unfold M; ring).
  by rewrite Z.mod_add by (unfold M; apply Z.neq_mul_0; split; apply Z.pow_nonzero; lia).
Qed.
End Mult.

(** C4: With operands readable up to the width a_bytes + b_bytes, big_mult
    stores in res the product of the two little-endian numbers modulo
    256^(a_bytes + b_bytes); the 16-bit carries never overflow and the rest of
    res is untouched. *)
Theorem big_mult_correct a b res a_bytes b_bytes :
  Forall is_byte a → Forall is_byte b → Forall is_byte res →
  0 ≤ a_bytes + b_bytes < 2 ^ 31 →
  let w := Z.to_nat (a_bytes + b_bytes) in
  (w ≤ length a)%nat → (w ≤ length b)%nat → (w ≤ length res)%nat →
  ∃ res', big_mult a a_bytes b b_bytes res = Done res' ∧
    length res' = length res ∧ Forall is_byte res' ∧
    drop w res' = drop w res ∧
    le_val (take w res') =
      (le_val (take w a) * le_val (take w b)) mod 256 ^ Z.of_nat w.
Proof.
  intros Ha Hb Hr Hw w Hla Hlb Hlr. unfold big_mult.
  rewrite s32_id by lia. rewrite (Z.mod_small (_ + _)) by lia.
  rewrite memset_zero by lia. cbn [mbind outcome_bind]. fold w.
  replace (a_bytes + b_bytes) with (Z.of_nat w) by lia.
  set (res0 := replicate w 0 ++ drop w res).
  assert (L0 : length res0 = length res) by (unfold res0; len; lia).
  assert (T0 : take w res0 = replicate w 0).
  { unfold res0. rewrite take_app_le by (len; lia). apply take_ge. len. lia. }
  destruct (for_range_inv (λ j r, length r = length res ∧ Forall is_byte r ∧
      drop w r = drop w res ∧ le_val (take w r) mod 256 ^ Z.of_nat w =
        (le_val (take (Z.to_nat j) a) * le_val (take w b)) mod 256 ^ Z.of_nat w)
      0 (Z.of_nat w) (λ j res, st ← for_range 0 (Z.of_nat w - j)
        (big_mult_step a b j) (res, 0); Done st.1) res0)
    as (res' & E & L & B & D & V); [lia| | |].
  { rewrite T0, le_val_replicate_0. split; [done|]. split; [|split].
    - apply Forall_app. split; [by apply Forall_replicate|by apply Forall_drop].
    - unfold res0. rewrite drop_app_ge by (len; lia). len.
      by rewrite Nat.sub_diag.
    - done. }
  { intros j r Hj (L & B & D & V).
    destruct (mult_round a b w Ha Hb Hla Hlb r j)
      as (r' & aj & Haj & E & L' & B' & D' & V'); [lia|lia|done|].
    exists r'. split; [done|]. split; [lia|]. split; [done|].
    split; [congruence|]. rewrite V'.
    replace (Z.to_nat (j + 1)) with (S (Z.to_nat j)) by lia.
    rewrite (le_val_take_S _ _ _ Haj), Z2Nat.id by lia.
    rewrite Zplus_mod, V, <- Zplus_mod. f_equal. lia. }
  exists res'. split; [done|]. split; [lia|]. split; [done|]. split; [done|].
  rewrite Nat2Z.id in V. rewrite <- V. symmetry. apply Z.mod_small.
  pose proof (le_val_range (take w res') ltac:(by apply Forall_take)) as Hv.
  rewrite length_take, Nat.min_l in Hv by lia. done.
Qed.

(** On operands of exactly a_bytes and b_bytes bytes, as the declaration
    suggests, big_mult reads outside an operand: both loops run to a_bytes +
    b_bytes. *)
Theorem big_mult_exact_operands a b res a_bytes b_bytes :
  Z.of_nat (length a) = a_bytes → Z.of_nat (length b) = b_bytes →
  0 < a_bytes + b_bytes < 2 ^ 31 →
  a_bytes + b_bytes ≤ Z.of_nat (length res) →
  big_mult a a_bytes b b_bytes res = Undef.
Proof.
  intros Ha Hb Hw Hr. unfold big_mult.
  rewrite s32_id by lia. rewrite (Z.mod_small (_ + _)) by lia.
  rewrite memset_zero by lia. cbn [mbind outcome_bind].
  apply (for_range_undef (λ _ res', length res' = length res) 0 0);
    [lia|len; lia|lia|].
  intros r Lr. cbn [mbind outcome_bind]. rewrite Z.sub_0_r.
  enough (for_range 0 (a_bytes + b_bytes) (big_mult_step a b 0) (r, 0) = Undef)
    as -> by done.
  apply (for_range_undef (λ _ '(res', _), length res' = length res) 0
    (if decide (a_bytes = 0) then 0 else b_bytes)); [case_decide; lia|done| |].
  - intros i [r' c] Hi Lr'. case_decide; [lia|].
    destruct (rd_lt r' (i + 0)) as (x & _ & Ex); [lia|].
    destruct (rd_lt a 0) as (y & _ & Ey); [lia|].
    destruct (rd_lt b i) as (z & _ & Ez); [lia|].
    unfold big_mult_step. rewrite Ex, Ey, Ez. cbn [mbind outcome_bind].
    wr_step. eexists. split; [done|]. cbn. len. lia.
  - intros [r' c] Lr'. unfold big_mult_step.
    destruct (rd_lt r' ((if decide (a_bytes = 0) then 0 else b_bytes) + 0))
      as (x & _ & ->); [case_decide; lia|]. cbn [mbind outcome_bind].
    case_decide.
    + by rewrite (rd_oob a) by lia.
    + destruct (rd_lt a 0) as (y & _ & ->); [lia|]. cbn [mbind outcome_bind].
      by rewrite (rd_oob b) by lia.
Qed.

(** ** Comparison *)

(** lexicographic comparison of byte strings (reference) *)
Fixpoint lex (a b : list Z) : Z :=
  match a, b with
  | x :: a, y :: b => if x <? y then -1 else if y <? x then 1 else lex a b
  | _, _ => 0
  end.

Lemma big_compare_lex a b n :
  (n ≤ length a)%nat → (n ≤ length b)%nat →
  big_compare a b (Z.of_nat n) = Done (lex (take n a) (take n b)).
Proof.
  intros Ha Hb. unfold big_compare, for_range_ret.
  rewrite Z.sub_0_r, Nat2Z.id.
  enough (∀ k, (k + n ≤ length a)%nat → (k + n ≤ length b)%nat →
    (r ← for_ret n (Z.of_nat k) (λ i _, ai ← rd a i; bi ← rd b i;
       if ai <? bi then Done (inr (-1))
       else if bi <? ai then Done (inr 1) else Done (inl ())) ();
     match r with inr v => Done v | inl _ => Done 0 end)
    = Done (lex (take n (drop k a)) (take n (drop k b)))) as H by apply (H 0%nat Ha Hb).
  clear Ha Hb. induction n as [|n IH]; intros k Ha Hb; [done|].
  cbn [for_ret].
  destruct (rd_lt a (Z.of_nat k)) as (x & Hx & ->); [lia|].
  destruct (rd_lt b (Z.of_nat k)) as (y & Hy & ->); [lia|].
  rewrite Nat2Z.id in Hx, Hy. cbn [mbind outcome_bind].
  rewrite (drop_S _ _ _ Hx), (drop_S _ _ _ Hy). cbn [firstn lex].
  destruct (x <? y); [done|]. destruct (y <? x); [done|].
  cbn [mbind outcome_bind].
  replace (Z.of_nat k + 1) with (Z.of_nat (S k)) by lia. apply IH; lia.
Qed.

Lemma lex_be_val a b :
  Forall is_byte a → Forall is_byte b → length a = length b →
  lex a b = match be_val a ?= be_val b with Lt => -1 | Eq => 0 | Gt => 1 end.
Proof.
  intros Ha. revert b. induction Ha as [|x a Hx Ha IH]; intros [|y b] Hb Hl;
    [done..|].
  injection Hl as Hl. inversion_clear Hb as [|?? Hy Hb'].
  pose proof (be_val_range a Ha) as Ra. pose proof (be_val_range b Hb') as Rb.
  change (x :: a) with ([x] ++ a). change (y :: b) with ([y] ++ b).
  rewrite !be_val_app. change (be_val [x]) with x. change (be_val [y]) with y.
  rewrite Hl in Ra |- *. set (M := 256 ^ Z.of_nat (length b)) in *. cbn [app lex].
  destruct (Z.ltb_spec x y); [rewrite (proj2 (Z.compare_lt_iff _ _)); [done|nia]|].
  destruct (Z.ltb_spec y x); [rewrite (proj2 (Z.compare_gt_iff _ _)); [done|nia]|].
  assert (x = y) as -> by lia.
  by rewrite (IH b Hb' Hl), Z.add_compare_mono_l.
Qed.

(** C30: big_compare returns -1, 0 or 1 as the first n bytes of a are below,
    equal to or above those of b read as big-endian numbers, although the file
    says its numbers are little-endian. *)
Theorem big_compare_spec a b n :
  Forall is_byte a → Forall is_byte b →
  (n ≤ length a)%nat → (n ≤ length b)%nat →
  big_compare a b (Z.of_nat n) =
    Done (match be_val (take n a) ?= be_val (take n b) with
          | Lt => -1 | Eq => 0 | Gt => 1 end).
Proof.
  intros Ha Hb Hla Hlb. rewrite big_compare_lex by done.
  rewrite lex_be_val; [done|by apply Forall_take..|len; lia].
Qed.

(** The digits of [big_mult] are little-endian, so on its results
    [big_compare] does not order numbers: 1 against 256. *)
Example big_compare_on_products :
  big_compare [1; 0] [0; 1] 2 = Done 1 ∧ le_val [1; 0] < le_val [0; 1].
Proof. done. Qed.

(** ** Instances *)

Lemma big_mult_correct_witness :
  ∃ res', big_mult [200; 1; 0; 0] 2 [7; 250; 0; 0] 2 [5; 5; 5; 5; 9] = Done res' ∧
    length res' = 5%nat ∧ Forall is_byte res' ∧ drop 4 res' = [9] ∧
    le_val (take 4 res') = (456 * 64007) mod 256 ^ 4.
Proof.
  apply (big_mult_correct [200; 1; 0; 0] [7; 250; 0; 0] [5; 5; 5; 5; 9] 2 2);
    first [decided|cbn; lia].
Defined.

Lemma big_mult_exact_operands_witness :
  big_mult [200; 1] 2 [7; 250] 2 [5; 5; 5; 5] = Undef.
Proof.
  apply (big_mult_exact_operands [200; 1] [7; 250] [5; 5; 5; 5] 2 2);
    first [reflexivity|cbn; lia].
Defined.

Lemma big_compare_spec_witness :
  big_compare [3; 1; 9] [3; 2; 0] 3 =
    Done (match be_val [3; 1; 9] ?= be_val [3; 2; 0] with
          | Lt => -1 | Eq => 0 | Gt => 1 end).
Proof.
  apply (big_compare_spec [3; 1; 9] [3; 2; 0] 3); first [decided|cbn; lia].
Defined.
