(* ===== verification/Crypto.v ===== *)
(** * src/crypto.c: SHA-256

    The context, the compression function and the three entry points
    [sha256_init], [sha256_update] and [sha256_final], followed by the hash
    of FIPS 180-4 (Section [FIPS]) and the refinement between them: after
    [init], any sequence of [update]s and [final], the eight words of
    [ctx->state] are the FIPS hash value of the concatenated input.  The last
    loop of [sha256_final] stores the low byte of each word four times, so
    the digest it writes is not the FIPS digest. *)
From S2P Require Import Prelude Shared Util.

(** ** Macros *)

(** [a] and [b] are the low and high words of a 64-bit counter. *)
Definition DBL_INT_ADD (a b c : Z) : Z * Z :=
  (w32 (a + c), if w32 (0xffffffff - c) <? a then w32 (b + 1) else b).
Definition ROTLEFT (a b : Z) : Z :=
  Z.lor (w32 (Z.shiftl a b)) (Z.shiftr a (32 - b)).
Definition ROTRIGHT (a b : Z) : Z :=
  Z.lor (Z.shiftr a b) (w32 (Z.shiftl a (32 - b))).

Definition CH (x y z : Z) : Z :=
  Z.lxor (Z.land x y) (Z.land (w32 (Z.lnot x)) z).
Definition MAJ (x y z : Z) : Z :=
  Z.lxor (Z.lxor (Z.land x y) (Z.land x z)) (Z.land y z).
Definition EP0 (x : Z) : Z :=
  Z.lxor (Z.lxor (ROTRIGHT x 2) (ROTRIGHT x 13)) (ROTRIGHT x 22).
Definition EP1 (x : Z) : Z :=
  Z.lxor (Z.lxor (ROTRIGHT x 6) (ROTRIGHT x 11)) (ROTRIGHT x 25).
Definition SIG0 (x : Z) : Z :=
  Z.lxor (Z.lxor (ROTRIGHT x 7) (ROTRIGHT x 18)) (Z.shiftr x 3).
Definition SIG1 (x : Z) : Z :=
  Z.lxor (Z.lxor (ROTRIGHT x 17) (ROTRIGHT x 19)) (Z.shiftr x 10).

Definition k : list Z :=
  [ 0x428A2F98; 0x71374491; 0xB5C0FBCF; 0xE9B5DBA5; 0x3956C25B; 0x59F111F1; 0x923F82A4; 0xAB1C5ED5;
    0xD807AA98; 0x12835B01; 0x243185BE; 0x550C7DC3; 0x72BE5D74; 0x80DEB1FE; 0x9BDC06A7; 0xC19BF174;
    0xE49B69C1; 0xEFBE4786; 0x0FC19DC6; 0x240CA1CC; 0x2DE92C6F; 0x4A7484AA; 0x5CB0A9DC; 0x76F988DA;
    0x983E5152; 0xA831C66D; 0xB00327C8; 0xBF597FC7; 0xC6E00BF3; 0xD5A79147; 0x06CA6351; 0x14292967;
    0x27B70A85; 0x2E1B2138; 0x4D2C6DFC; 0x53380D13; 0x650A7354; 0x766A0ABB; 0x81C2C92E; 0x92722C85;
    0xA2BFE8A1; 0xA81A664B; 0xC24B8B70; 0xC76C51A3; 0xD192E819; 0xD6990624; 0xF40E3585; 0x106AA070;
    0x19A4C116; 0x1E376C08; 0x2748774C; 0x34B0BCB5; 0x391C0CB3; 0x4ED8AA4A; 0x5B9CCA4F; 0x682E6FF3;
    0x748F82EE; 0x78A5636F; 0x84C87814; 0x8CC70208; 0x90BEFFFA; 0xA4506CEB; 0xBEF9A3F7; 0xC67178F2 ].

(** ** The context *)

(** [bitlen] holds [bitlen[0]] and [bitlen[1]]. *)
Record SHA256_CTX := mk_ctx {
  ctx_data : list Z;
  ctx_datalen : Z;
  ctx_bitlen : Z * Z;
  ctx_state : list Z
}.

(** The working variables [a] to [h] of the transformation. *)
Record regs := mk_regs {
  ra : Z; rb : Z; rc : Z; rd' : Z; re : Z; rf : Z; rg : Z; rh : Z
}.

(** A cell of a local array that was not stored yet is [None]; reading it is
    undefined. *)
Definition rdi (m : list (option Z)) (i : Z) : outcome Z :=
  c ← rd m i; match c with Some x => Done x | None => Undef end.

(** ** sha256_transform *)

Definition transform_load (data : list Z) (m : list (option Z))
    : outcome (list (option Z)) :=
  for_range 0 16 (λ i m,
    let j := 4 * i in
    d0 ← rd data j; d1 ← rd data (j + 1);
    d2 ← rd data (j + 2); d3 ← rd data (j + 3);
    wr m i (Some (w32 (Z.lor (Z.lor (Z.lor (Z.shiftl d0 24) (Z.shiftl d1 16))
                                    (Z.shiftl d2 8)) d3)))) m.

Definition transform_schedule (m : list (option Z))
    : outcome (list (option Z)) :=
  for_range 16 64 (λ i m,
    m2 ← rdi m (i - 2); m7 ← rdi m (i - 7);
    m15 ← rdi m (i - 15); m16 ← rdi m (i - 16);
    wr m i (Some (w32 (SIG1 m2 + m7 + SIG0 m15 + m16)))) m.

Definition transform_round (m : list (option Z)) (i : Z) (r : regs)
    : outcome regs :=
  ki ← rd k i;
  mi ← rdi m i;
  let '(mk_regs a b c d e f g h) := r in
  let t1 := w32 (h + EP1 e + CH e f g + ki + mi) in
  let t2 := w32 (EP0 a + MAJ a b c) in
  let h := g in
  let g := f in
  let f := e in
  let e := w32 (d + t1) in
  let d := c in
  let c := b in
  let b := a in
  let a := w32 (t1 + t2) in
  Done (mk_regs a b c d e f g h).

Definition regs_of_state (state : list Z) : outcome regs :=
  a ← rd state 0; b ← rd state 1; c ← rd state 2; d ← rd state 3;
  e ← rd state 4; f ← rd state 5; g ← rd state 6; h ← rd state 7;
  Done (mk_regs a b c d e f g h).

(** [ctx->state[i] += x] *)
Definition state_add (state : list Z) (i x : Z) : outcome (list Z) :=
  s ← rd state i; wr state i (w32 (s + x)).

Definition sha256_transform (ctx : SHA256_CTX) (data : list Z)
    : outcome SHA256_CTX :=
  m ← transform_load data (replicate 64 None);
  m ← transform_schedule m;
  r ← regs_of_state (ctx_state ctx);
  r ← for_range 0 64 (transform_round m) r;
  s ← state_add (ctx_state ctx) 0 (ra r);
  s ← state_add s 1 (rb r);
  s ← state_add s 2 (rc r);
  s ← state_add s 3 (rd' r);
  s ← state_add s 4 (re r);
  s ← state_add s 5 (rf r);
  s ← state_add s 6 (rg r);
  s ← state_add s 7 (rh r);
  Done (mk_ctx (ctx_data ctx) (ctx_datalen ctx) (ctx_bitlen ctx) s).

(** ** sha256_init, sha256_update, sha256_final *)

(** [ctx->data] keeps what it held: nothing of it is initialised. *)
Definition sha256_init (ctx : SHA256_CTX) : outcome SHA256_CTX :=
  s ← wr (ctx_state ctx) 0 0x6a09e667;
  s ← wr s 1 0xbb67ae85;
  s ← wr s 2 0x3c6ef372;
  s ← wr s 3 0xa54ff53a;
  s ← wr s 4 0x510e527f;
  s ← wr s 5 0x9b05688c;
  s ← wr s 6 0x1f83d9ab;
  s ← wr s 7 0x5be0cd19;
  Done (mk_ctx (ctx_data ctx) 0 (0, 0) s).

(** One iteration of the loop of [sha256_update], on the byte [b]. *)
Definition update_byte (ctx : SHA256_CTX) (b : Z) : outcome SHA256_CTX :=
  data ← wr (ctx_data ctx) (ctx_datalen ctx) b;
  let datalen := w32 (ctx_datalen ctx + 1) in
  let ctx := mk_ctx data datalen (ctx_bitlen ctx) (ctx_state ctx) in
  if datalen =? 64 then
    ctx ← sha256_transform ctx (ctx_data ctx);
    Done (mk_ctx (ctx_data ctx) 0
      (DBL_INT_ADD (ctx_bitlen ctx).1 (ctx_bitlen ctx).2 512) (ctx_state ctx))
  else Done ctx.

(** The input is [len] bytes at [&data[p]].  The counter [i] is 32 bits wide
    and [len] is a [size_t]: from [2^32] on the loop never ends. *)
Definition sha256_update (ctx : SHA256_CTX) (data : list Z) (p len : Z)
    : outcome SHA256_CTX :=
  ctx ← for_range 0 (Z.min len (2 ^ 32))
    (λ i ctx, b ← rd data (p + i); update_byte ctx b) ctx;
  if 2 ^ 32 <=? len then Hang else Done ctx.

(** An empty body: neither the context nor [state] changes. *)
Definition sha256_state (ctx : SHA256_CTX) (state : list Z)
    : outcome (SHA256_CTX * list Z) := Done (ctx, state).

(** the padding of the last one or two blocks *)
Definition final_pad (ctx : SHA256_CTX) : outcome SHA256_CTX :=
  let i := ctx_datalen ctx in
  data ← wr (ctx_data ctx) i 0x80;
  if ctx_datalen ctx <? 56 then
    data ← for_range (i + 1) 56 (λ i data, wr data i 0) data;
    Done (mk_ctx data (ctx_datalen ctx) (ctx_bitlen ctx) (ctx_state ctx))
  else
    data ← for_range (i + 1) 64 (λ i data, wr data i 0) data;
    ctx ← sha256_transform
      (mk_ctx data (ctx_datalen ctx) (ctx_bitlen ctx) (ctx_state ctx)) data;
    data ← memset (ctx_data ctx) 0 0 56;
    Done (mk_ctx data (ctx_datalen ctx) (ctx_bitlen ctx) (ctx_state ctx)).

(** the bit count, most significant byte first, in [data[56..63]] *)
Definition final_length (ctx : SHA256_CTX) : outcome SHA256_CTX :=
  let bitlen := DBL_INT_ADD (ctx_bitlen ctx).1 (ctx_bitlen ctx).2
                  (w32 (ctx_datalen ctx * 8)) in
  data ← wr (ctx_data ctx) 63 (w8 bitlen.1);
  data ← wr data 62 (w8 (Z.shiftr bitlen.1 8));
  data ← wr data 61 (w8 (Z.shiftr bitlen.1 16));
  data ← wr data 60 (w8 (Z.shiftr bitlen.1 24));
  data ← wr data 59 (w8 bitlen.2);
  data ← wr data 58 (w8 (Z.shiftr bitlen.2 8));
  data ← wr data 57 (w8 (Z.shiftr bitlen.2 16));
  data ← wr data 56 (w8 (Z.shiftr bitlen.2 24));
  Done (mk_ctx data (ctx_datalen ctx) bitlen (ctx_state ctx)).

(** [hash[i + 4 w] = ctx->state[w]] for the eight words: the shift by
    [24 - 8 i] is commented out in the source. *)
Definition final_store (state hash : list Z) : outcome (list Z) :=
  for_range 0 4 (λ i hash,
    for_range 0 8 (λ w hash,
      s ← rd state w;
      wr hash (i + 4 * w) (w8 s)) hash) hash.

Definition sha256_final (ctx : SHA256_CTX) (hash : list Z)
    : outcome (SHA256_CTX * list Z) :=
  ctx ← final_pad ctx;
  ctx ← final_length ctx;
  ctx ← sha256_transform ctx (ctx_data ctx);
  hash ← final_store (ctx_state ctx) hash;
  Done (ctx, hash).

(** ** Evaluation *)

(** a context as [malloc] may leave it *)
Definition ctx_junk : SHA256_CTX :=
  mk_ctx (replicate 64 0xa5) 0xa5a5 (0xa5, 0xa5) (replicate 8 0xa5a5).

Definition sha256_run (msg : list Z) : outcome (SHA256_CTX * list Z) :=
  ctx ← sha256_init ctx_junk;
  ctx ← sha256_update ctx msg 0 (Z.of_nat (length msg));
  sha256_final ctx (replicate 32 0xa5).

(** FIPS 180-4 test vector, one block: the words of [state] for abc *)
Example sha256_abc_state :
  (λ r, ctx_state r.1) <$> sha256_run [97; 98; 99] = Done
    [ 0xba7816bf; 0x8f01cfea; 0x414140de; 0x5dae2223;
      0xb00361a3; 0x96177a9c; 0xb410ff61; 0xf20015ad ].
Proof. vm_compute. reflexivity. Qed.

Example sha256_two_blocks_state :
  (λ r, ctx_state r.1) <$> sha256_run
    (concat ((λ i, [97 + i; 98 + i; 99 + i; 100 + i]) <$> seqZ 0 14)) = Done
    [ 0x248d6a61; 0xd20638b8; 0xe5c02693; 0x0c3e6039;
      0xa33ce459; 0x64ff2167; 0xf6ecedd4; 0x19db06c1 ].
Proof. vm_compute. reflexivity. Qed.

(** ** FIPS 180-4 *)

Section FIPS.

(** Section 2.2.2, with the rotation as a permutation of the two parts of the
    number rather than with shifts. *)
Definition rotr (n x : Z) : Z := x / 2 ^ n + (x mod 2 ^ n) * 2 ^ (32 - n).
Definition shr (n x : Z) : Z := x / 2 ^ n.
Definition not32 (x : Z) : Z := 2 ^ 32 - 1 - x.

(** Section 4.1.2 *)
Definition Ch (x y z : Z) : Z := Z.lxor (Z.land x y) (Z.land (not32 x) z).
Definition Maj (x y z : Z) : Z :=
  Z.lxor (Z.lxor (Z.land x y) (Z.land x z)) (Z.land y z).
Definition Sigma0 (x : Z) : Z := Z.lxor (Z.lxor (rotr 2 x) (rotr 13 x)) (rotr 22 x).
Definition Sigma1 (x : Z) : Z := Z.lxor (Z.lxor (rotr 6 x) (rotr 11 x)) (rotr 25 x).
Definition sigma0 (x : Z) : Z := Z.lxor (Z.lxor (rotr 7 x) (rotr 18 x)) (shr 3 x).
Definition sigma1 (x : Z) : Z := Z.lxor (Z.lxor (rotr 17 x) (rotr 19 x)) (shr 10 x).

(** Section 5.3.3 *)
Definition H0 : list Z :=
  [ 0x6a09e667; 0xbb67ae85; 0x3c6ef372; 0xa54ff53a;
    0x510e527f; 0x9b05688c; 0x1f83d9ab; 0x5be0cd19 ].

(** Section 6.2.2, step 1: the message schedule, the first sixteen words read
    from the block, each further one computed from those before it. *)
Definition block_words (block : list Z) : list Z :=
  (λ t, be_val (take 4 (drop (4 * t) block))) <$> seq 0 16.
Definition next_word (W : list Z) : Z :=
  let t := length W in
  w32 (sigma1 (W !!! (t - 2)%nat) + W !!! (t - 7)%nat +
       sigma0 (W !!! (t - 15)%nat) + W !!! (t - 16)%nat).
Fixpoint schedule (n : nat) (W : list Z) : list Z :=
  match n with O => W | S n => schedule n (W ++ [next_word W]) end.

(** Section 6.2.2, steps 2 to 4 *)
Definition round (r : regs) (kw : Z * Z) : regs :=
  let '(mk_regs a b c d e f g h) := r in
  let T1 := w32 (h + Sigma1 e + Ch e f g + kw.1 + kw.2) in
  let T2 := w32 (Sigma0 a + Maj a b c) in
  mk_regs (w32 (T1 + T2)) a b c (w32 (d + T1)) e f g.

Definition regs_of (H : list Z) : regs :=
  mk_regs (H !!! 0%nat) (H !!! 1%nat) (H !!! 2%nat) (H !!! 3%nat)
          (H !!! 4%nat) (H !!! 5%nat) (H !!! 6%nat) (H !!! 7%nat).
Definition of_regs (r : regs) : list Z :=
  [ra r; rb r; rc r; rd' r; re r; rf r; rg r; rh r].

Definition compress (H block : list Z) : list Z :=
  zip_with (λ x y, w32 (x + y)) H
    (of_regs (fold_left round (zip k (schedule 48 (block_words block)))
       (regs_of H))).

(** Sections 5.1.1 and 5.2.1 *)
Definition pad (msg : list Z) : list Z :=
  let n := Z.of_nat (length msg) in
  msg ++ [0x80] ++ replicate (Z.to_nat ((55 - n) mod 64)) 0 ++ be_bytes 8 (8 * n).
Definition blocks (msg : list Z) : list (list Z) :=
  (λ i, take 64 (drop (64 * i) msg)) <$> seq 0 (length msg / 64).

(** Section 6.2: the hash value, as eight words and as bytes *)
Definition hash_words (msg : list Z) : list Z :=
  fold_left compress (blocks (pad msg)) H0.
Definition fips_sha256 (msg : list Z) : list Z := hash_words msg ≫= be_bytes 4.

End FIPS.

(** ** The compression function *)

Definition word (x : Z) : Prop := 0 ≤ x < 2 ^ 32.

Lemma ROTRIGHT_rotr x n : word x → 0 < n < 32 → ROTRIGHT x n = rotr n x.
Proof.
  intros Hx Hn. unfold ROTRIGHT, rotr, word in *.
  assert (E : w32 (Z.shiftl x (32 - n)) = Z.shiftl (x mod 2 ^ n) (32 - n)).
  { unfold w32. rewrite !Z.shiftl_mul_pow2 by lia.
    replace (2 ^ 32) with (2 ^ n * 2 ^ (32 - n))
      by (rewrite <- Z.pow_add_r by lia; f_equal; lia).
    apply Zmult_mod_distr_r. }
  rewrite E, Z.lor_comm, Z.shiftr_div_pow2 by lia.
  rewrite lor_shiftl_add; [lia|lia|].
  split; [apply Z.div_pos; lia|]. apply Z.div_lt_upper_bound; [lia|].
  rewrite <- Z.pow_add_r by lia. replace (n + (32 - n)) with 32 by lia. lia.
Qed.

Lemma SIG0_sigma0 x : word x → SIG0 x = sigma0 x.
Proof.
  intros Hx. unfold SIG0, sigma0, shr.
  by rewrite !ROTRIGHT_rotr, Z.shiftr_div_pow2 by (exact Hx || lia).
Qed.
Lemma SIG1_sigma1 x : word x → SIG1 x = sigma1 x.
Proof.
  intros Hx. unfold SIG1, sigma1, shr.
  by rewrite !ROTRIGHT_rotr, Z.shiftr_div_pow2 by (exact Hx || lia).
Qed.
Lemma EP0_Sigma0 x : word x → EP0 x = Sigma0 x.
Proof. intros Hx. unfold EP0. by rewrite !ROTRIGHT_rotr by (exact Hx || lia). Qed.
Lemma EP1_Sigma1 x : word x → EP1 x = Sigma1 x.
Proof. intros Hx. unfold EP1. by rewrite !ROTRIGHT_rotr by (exact Hx || lia). Qed.
Lemma CH_Ch x y z : word x → CH x y z = Ch x y z.
Proof.
  intros Hx. unfold CH, Ch, not32, w32, word in *. do 3 f_equal.
  unfold Z.lnot. rewrite <- (Z.mod_add _ 1) by lia. rewrite Z.mod_small; lia.
Qed.

Lemma rdi_Done (m : list Z) n rest i x :
  m !! i = Some x → n = Z.of_nat i → rdi ((Some <$> m) ++ rest) n = Done x.
Proof.
  intros Hx ->. unfold rdi. rewrite (rd_Done _ _ (Some x)); [done|lia|].
  rewrite Nat2Z.id. apply lookup_app_l_Some. by rewrite list_lookup_fmap, Hx.
Qed.

Lemma wr_app_None (m : list Z) n (x : Z) :
  wr ((Some <$> m) ++ replicate (S n) None) (Z.of_nat (length m)) (Some x) =
    Done ((Some <$> (m ++ [x])) ++ replicate n None).
Proof.
  rewrite wr_Done by (len; lia).
  rewrite Nat2Z.id, fmap_app, <- app_assoc. f_equal.
  rewrite insert_app_r_alt by (rewrite length_fmap; lia).
  by rewrite length_fmap, Nat.sub_diag.
Qed.

Lemma length_block_words block : length (block_words block) = 16%nat.
Proof. done. Qed.

Lemma block_words_lookup block t :
  (t < 16)%nat →
  block_words block !! t = Some (be_val (take 4 (drop (4 * t) block))).
Proof.
  intros Ht. unfold block_words. rewrite list_lookup_fmap.
  by rewrite lookup_seq_lt by lia.
Qed.

Lemma block_words_word block :
  Forall is_byte block → Forall word (block_words block).
Proof.
  intros Hb. apply Forall_fmap, Forall_forall. intros t _. unfold compose.
  pose proof (be_val_range (take 4 (drop (4 * t) block))
    ltac:(by apply Forall_take, Forall_drop)) as Hr.
  unfold word. rewrite length_take in Hr.
  assert (256 ^ Z.of_nat (4 `min` length (drop (4 * t) block)) ≤ 256 ^ 4)
    by (apply Z.pow_le_mono_r; lia). lia.
Qed.

Lemma transform_load_spec data :
  length data = 64%nat → Forall is_byte data →
  transform_load data (replicate 64 None) =
    Done ((Some <$> block_words data) ++ replicate 48 None).
Proof.
  intros Hl Hb.
  destruct (for_range_inv (λ i m, m =
      (Some <$> take (Z.to_nat i) (block_words data)) ++
      replicate (64 - Z.to_nat i) None) 0 16
    (λ i m, d0 ← rd data (4 * i); d1 ← rd data (4 * i + 1);
       d2 ← rd data (4 * i + 2); d3 ← rd data (4 * i + 3);
       wr m i (Some (w32 (Z.lor (Z.lor (Z.lor (Z.shiftl d0 24)
         (Z.shiftl d1 16)) (Z.shiftl d2 8)) d3)))) (replicate 64 None))
    as (m & E & ->); [lia|done| |exact E].
  intros i m Hi ->. eexists. split; [|done].
  assert (Hm : memread data (4 * i) 4 =
    Done (take 4 (drop (4 * Z.to_nat i) data))).
  { rewrite memread_Done by lia. by rewrite Z2Nat.inj_mul by lia. }
  assert (Hbs : Forall is_byte (take 4 (drop (4 * Z.to_nat i) data)))
    by by apply Forall_take, Forall_drop.
  pose proof (block_words_lookup data (Z.to_nat i) ltac:(lia)) as Hw.
  destruct (memread_4 _ _ _ Hm) as (d0 & d1 & d2 & d3 & E & -> & -> & -> & ->).
  cbn [mbind outcome_bind]. rewrite E in Hbs, Hw. rewrite lor_be_val by done.
  set (W := block_words data) in *.
  replace (Z.to_nat (i + 1)) with (S (Z.to_nat i)) by lia.
  rewrite (take_S_r _ _ _ Hw).
  replace (64 - Z.to_nat i)%nat with (S (64 - S (Z.to_nat i))) by lia.
  rewrite <- wr_app_None. f_equal. rewrite length_take.
  change (length W) with 16%nat. lia.
Qed.

Lemma next_word_spec (W : list Z) n :
  (16 ≤ length W)%nat → Forall word W →
  (m2 ← rdi ((Some <$> W) ++ n) (Z.of_nat (length W) - 2);
   m7 ← rdi ((Some <$> W) ++ n) (Z.of_nat (length W) - 7);
   m15 ← rdi ((Some <$> W) ++ n) (Z.of_nat (length W) - 15);
   m16 ← rdi ((Some <$> W) ++ n) (Z.of_nat (length W) - 16);
   Done (w32 (SIG1 m2 + m7 + SIG0 m15 + m16))) = Done (next_word W).
Proof.
  intros Hl HW.
  assert (Hrd : ∀ j, (0 < j ≤ 16)%nat →
    rdi ((Some <$> W) ++ n) (Z.of_nat (length W) - Z.of_nat j)
      = Done (W !!! (length W - j)%nat) ∧ word (W !!! (length W - j)%nat)).
  { intros j Hj.
    destruct (lookup_lt_is_Some_2 W (length W - j)) as [x Hx]; [lia|].
    rewrite (list_lookup_total_correct _ _ _ Hx). split.
    - eapply rdi_Done; [exact Hx|lia].
    - exact (Forall_lookup_1 _ _ _ _ HW Hx). }
  destruct (Hrd 2%nat) as [R2 W2]; [lia|]. destruct (Hrd 7%nat) as [R7 W7]; [lia|].
  destruct (Hrd 15%nat) as [R15 W15]; [lia|].
  destruct (Hrd 16%nat) as [R16 W16]; [lia|].
  change (Z.of_nat 2) with 2 in R2. change (Z.of_nat 7) with 7 in R7.
  change (Z.of_nat 15) with 15 in R15. change (Z.of_nat 16) with 16 in R16.
  rewrite R2, R7, R15, R16. cbn [mbind outcome_bind].
  by rewrite SIG1_sigma1, SIG0_sigma0.
Qed.

Lemma schedule_S n W :
  schedule (S n) W = schedule n W ++ [next_word (schedule n W)].
Proof.
  revert W. induction n as [|n IH]; intros W; [done|].
  change (schedule (S (S n)) W) with (schedule (S n) (W ++ [next_word W])).
  by rewrite IH.
Qed.

Lemma length_schedule n W : length (schedule n W) = (n + length W)%nat.
Proof.
  revert W. induction n as [|n IH]; intros W; [done|].
  cbn [schedule]. rewrite IH, length_app. cbn. lia.
Qed.

Lemma schedule_word n W : Forall word W → Forall word (schedule n W).
Proof.
  revert W. induction n as [|n IH]; intros W HW; [done|].
  cbn [schedule]. apply IH, Forall_app. split; [done|].
  constructor; [apply w32_range|constructor].
Qed.

Lemma transform_schedule_spec W :
  length W = 16%nat → Forall word W →
  transform_schedule ((Some <$> W) ++ replicate 48 None) =
    Done (Some <$> schedule 48 W).
Proof.
  intros Hl HW.
  destruct (for_range_inv (λ i m, m =
      (Some <$> schedule (Z.to_nat i - 16) W) ++
      replicate (64 - Z.to_nat i) None) 16 64
    (λ i m, m2 ← rdi m (i - 2); m7 ← rdi m (i - 7);
       m15 ← rdi m (i - 15); m16 ← rdi m (i - 16);
       wr m i (Some (w32 (SIG1 m2 + m7 + SIG0 m15 + m16))))
    ((Some <$> W) ++ replicate 48 None)) as (m & E & Em);
    [lia|done| |unfold transform_schedule; rewrite E, Em; cbn [replicate];
      by rewrite app_nil_r].
  intros i m Hi ->.
  set (V := schedule (Z.to_nat i - 16) W).
  assert (HV : Forall word V) by by apply schedule_word.
  assert (LV : length V = Z.to_nat i)
    by (unfold V; rewrite length_schedule; lia).
  replace i with (Z.of_nat (length V)) by lia.
  replace (64 - Z.to_nat (Z.of_nat (length V)))%nat
    with (S (64 - S (Z.to_nat i))) by lia.
  pose proof (next_word_spec V (replicate (S (64 - S (Z.to_nat i))) None)
    ltac:(lia) HV) as E.
  repeat (apply bind_Done_inv in E as (? & -> & E); cbn [mbind outcome_bind]).
  injection E as ->. rewrite wr_app_None. eexists. split; [done|].
  replace (Z.to_nat (Z.of_nat (length V) + 1) - 16)%nat
    with (S (Z.to_nat i - 16)) by lia.
  rewrite schedule_S. fold V. do 2 f_equal. lia.
Qed.

Definition regs_ok (r : regs) : Prop := Forall word (of_regs r).

Lemma round_ok r kw : regs_ok r → regs_ok (round r kw).
Proof.
  destruct r. unfold regs_ok, of_regs, round. cbn [ra rb rc rd' re rf rg rh].
  rewrite !Forall_cons_iff.
  intros Hr. repeat split; try apply w32_range; try (apply Hr); constructor.
Qed.

Lemma transform_round_spec (W : list Z) i r ki wi :
  0 ≤ i → k !! Z.to_nat i = Some ki → W !! Z.to_nat i = Some wi → regs_ok r →
  transform_round (Some <$> W) i r = Done (round r (ki, wi)).
Proof.
  intros Hi Hk Hw Hr. unfold transform_round.
  rewrite (rd_Done k i ki Hi Hk). cbn [mbind outcome_bind].
  rewrite <- (app_nil_r (Some <$> W)), (rdi_Done W i [] (Z.to_nat i) wi Hw)
    by lia.
  destruct r as [a b c d e f g h]. unfold regs_ok, of_regs in Hr.
  cbn [ra rb rc rd' re rf rg rh] in Hr.
  rewrite !Forall_cons_iff in Hr.
  cbn [mbind outcome_bind round fst snd].
  by rewrite EP0_Sigma0, EP1_Sigma1, CH_Ch by apply Hr.
Qed.

Lemma transform_rounds_spec (W : list Z) r :
  length W = 64%nat → regs_ok r →
  for_range 0 64 (transform_round (Some <$> W)) r =
    Done (fold_left round (zip k W) r).
Proof.
  intros Hl Hr.
  assert (Lz : length (zip k W) = 64%nat)
    by (rewrite length_zip_with, Hl; done).
  destruct (for_range_inv (λ i s,
      s = fold_left round (take (Z.to_nat i) (zip k W)) r ∧ regs_ok s) 0 64
    (transform_round (Some <$> W)) r) as (s & E & -> & _);
    [lia|done| |by rewrite E, take_ge by (rewrite Lz; done)].
  intros i s Hi [-> Hs].
  destruct (lookup_lt_is_Some_2 W (Z.to_nat i)) as [wi Hw]; [lia|].
  destruct (lookup_lt_is_Some_2 k (Z.to_nat i)) as [ki Hk];
    [change (length k) with 64%nat; lia|].
  eexists. split; [by apply transform_round_spec; [lia|done..]|].
  replace (Z.to_nat (i + 1)) with (S (Z.to_nat i)) by lia.
  rewrite (take_S_r _ _ (ki, wi)), fold_left_app
    by (rewrite lookup_zip_with, Hk, Hw; done).
  split; [done|by apply round_ok].
Qed.

(** A hash value: eight 32-bit words. *)
Definition hash_value (H : list Z) : Prop := length H = 8%nat ∧ Forall word H.

Lemma hash_value_inv H : hash_value H →
  ∃ a b c d e f g h, H = [a; b; c; d; e; f; g; h].
Proof.
  intros [L _]. do 8 (destruct H as [|? H]; [done|]). destruct H; [|done].
  by repeat eexists.
Qed.

Lemma compress_hash_value H block : hash_value H → hash_value (compress H block).
Proof.
  intros HH. destruct (hash_value_inv H HH) as (a & b & c & d & e & f & g & h & ->).
  split; [done|]. unfold compress.
  generalize (fold_left round (zip k (schedule 48 (block_words block)))
    (regs_of [a; b; c; d; e; f; g; h])). intros [].
  repeat (constructor; [apply w32_range|]). constructor.
Qed.

(** the eight additions at the end of the transformation *)
Lemma state_add_all {A} H r (ret : list Z → outcome A) :
  hash_value H →
  (s ← state_add H 0 (ra r); s ← state_add s 1 (rb r);
   s ← state_add s 2 (rc r); s ← state_add s 3 (rd' r);
   s ← state_add s 4 (re r); s ← state_add s 5 (rf r);
   s ← state_add s 6 (rg r); s ← state_add s 7 (rh r); ret s) =
    ret (zip_with (λ x y, w32 (x + y)) H (of_regs r)).
Proof.
  intros HH. destruct (hash_value_inv H HH) as (a & b & c & d & e & f & g & h & ->).
  done.
Qed.

Lemma regs_of_state_spec H :
  hash_value H → regs_of_state H = Done (regs_of H) ∧ regs_ok (regs_of H).
Proof.
  intros HH. destruct (hash_value_inv H HH) as (a & b & c & d & e & f & g & h & ->).
  split; [done|apply HH].
Qed.

(** One call of [sha256_transform] is one application of the FIPS compression
    function to the hash value. *)
Lemma sha256_transform_spec ctx data :
  length data = 64%nat → Forall is_byte data → hash_value (ctx_state ctx) →
  sha256_transform ctx data =
    Done (mk_ctx (ctx_data ctx) (ctx_datalen ctx) (ctx_bitlen ctx)
            (compress (ctx_state ctx) data)).
Proof.
  intros Hl Hb HH. unfold sha256_transform, compress.
  rewrite transform_load_spec by done. rewrite bind_Done.
  rewrite transform_schedule_spec by (done || by apply block_words_word).
  rewrite bind_Done.
  destruct (regs_of_state_spec _ HH) as [-> Hok]. rewrite bind_Done.
  rewrite transform_rounds_spec; [|by rewrite length_schedule|exact Hok].
  rewrite bind_Done.
  generalize (fold_left round (zip k (schedule 48 (block_words data)))
    (regs_of (ctx_state ctx))). intros r.
  by apply state_add_all.
Qed.

(** ** Blocks of a message *)

Lemma blocks_nil : blocks [] = [].
Proof. done. Qed.

Lemma blocks_app m1 m2 n :
  length m1 = (64 * n)%nat → blocks (m1 ++ m2) = blocks m1 ++ blocks m2.
Proof.
  intros Hn. unfold blocks. rewrite length_app.
  replace ((length m1 + length m2) / 64)%nat
    with (length m1 / 64 + length m2 / 64)%nat
    by (rewrite Hn, Nat.mul_comm, Nat.div_add_l, Nat.div_mul by lia; lia).
  rewrite seq_app, fmap_app. f_equal.
  - apply list_fmap_ext. intros i x Hx. apply lookup_seq in Hx as [-> Hx].
    assert (length m1 / 64 = n)%nat as En
      by (rewrite Hn, Nat.mul_comm; apply Nat.div_mul; lia).
    rewrite drop_app_le by lia. rewrite take_app_le by (len; lia). done.
  - rewrite Nat.add_0_l, <- (Nat.add_0_r (length m1 / 64)), <- fmap_add_seq.
    rewrite <- list_fmap_compose. apply list_fmap_ext. intros i x _. unfold compose.
    assert (length m1 / 64 = n)%nat as ->
      by (rewrite Hn, Nat.mul_comm; apply Nat.div_mul; lia).
    rewrite drop_app_ge by lia. do 2 f_equal. lia.
Qed.

Lemma blocks_single m : length m = 64%nat → blocks m = [m].
Proof.
  intros H. unfold blocks. rewrite H. change (seq 0 (64 / 64)) with [0%nat].
  rewrite fmap_cons, fmap_nil, Nat.mul_0_r, drop_0, take_ge by lia. done.
Qed.

(** ** The context while a message is being hashed *)

(** the 64-bit counter held in two words *)
Definition counter (c : Z * Z) : Z := c.1 + 2 ^ 32 * c.2.
Definition counter_ok (c : Z * Z) : Prop := word c.1 ∧ word c.2.

Lemma DBL_INT_ADD_spec a b c :
  word a → word b → word c →
  counter_ok (DBL_INT_ADD a b c) ∧
  counter (DBL_INT_ADD a b c) = (a + 2 ^ 32 * b + c) mod 2 ^ 64.
Proof.
  unfold word, counter_ok, counter, DBL_INT_ADD, word, w32. cbn [fst snd].
  intros Ha Hb Hc. rewrite (Z.mod_small (0xffffffff - c)) by lia.
  destruct (Z.ltb_spec (0xffffffff - c) a) as [Hlt|Hge].
  - split; [split; apply Z.mod_pos_bound; lia|].
    rewrite <- (Z.mod_add (a + c) (-1)), Z.mod_small by lia.
    destruct (decide (b = 2 ^ 32 - 1)) as [->|Hne].
    + change ((2 ^ 32 - 1 + 1) mod 2 ^ 32) with 0.
      rewrite <- (Z.mod_add _ (-1)), Z.mod_small; lia.
    + rewrite (Z.mod_small (b + 1)), Z.mod_small; lia.
  - rewrite !Z.mod_small by lia. lia.
Qed.

(** The state of [sha256_update] after the bytes [msg]: [full] are the whole
    blocks already compressed, [tail] waits in [ctx->data]. *)
Definition hashing (ctx : SHA256_CTX) (full tail : list Z) : Prop :=
  (∃ n, length full = (64 * n)%nat) ∧ (length tail < 64)%nat ∧
  Forall is_byte (full ++ tail) ∧
  length (ctx_data ctx) = 64%nat ∧
  ctx_datalen ctx = Z.of_nat (length tail) ∧
  take (length tail) (ctx_data ctx) = tail ∧
  counter_ok (ctx_bitlen ctx) ∧
  counter (ctx_bitlen ctx) = (8 * Z.of_nat (length full)) mod 2 ^ 64 ∧
  ctx_state ctx = fold_left compress (blocks full) H0.

Lemma H0_hash_value : hash_value H0.
Proof. split; [done|]. unfold H0, word. repeat constructor; lia. Qed.

Lemma fold_compress_hash_value bs H :
  hash_value H → hash_value (fold_left compress bs H).
Proof.
  revert H. induction bs as [|b bs IH]; intros H HH; [done|].
  by apply IH, compress_hash_value.
Qed.

Lemma sha256_init_hashing ctx :
  length (ctx_data ctx) = 64%nat → length (ctx_state ctx) = 8%nat →
  ∃ ctx', sha256_init ctx = Done ctx' ∧ hashing ctx' [] [].
Proof.
  destruct ctx as [data datalen bitlen state]. cbn [ctx_data ctx_state].
  intros Hd Hs. do 8 (destruct state as [|? state]; [done|]).
  destruct state; [|done]. eexists. split; [reflexivity|].
  unfold hashing, counter_ok, counter, word. cbn [ctx_data ctx_datalen ctx_bitlen ctx_state].
  split; [by exists 0%nat|]. cbn. repeat split; done || lia.
Qed.

(** One byte more. *)
Lemma update_byte_hashing ctx full tail b :
  hashing ctx full tail → is_byte b →
  ∃ ctx' full' tail', update_byte ctx b = Done ctx' ∧
    hashing ctx' full' tail' ∧ full' ++ tail' = full ++ tail ++ [b].
Proof.
  destruct ctx as [data datalen bitlen state].
  intros ([n Hn] & Ht & HB & Hd & El & Hp & Hc & Hv & Es) Hb.
  cbn [ctx_data ctx_datalen ctx_bitlen ctx_state] in *. subst datalen state.
  set (H := fold_left compress (blocks full) H0) in *.
  unfold update_byte. cbn [ctx_data ctx_datalen ctx_bitlen ctx_state].
  wr_step. rewrite Nat2Z.id, w32_id by lia.
  set (data' := <[length tail := b]> data).
  assert (Hp' : take (S (length tail)) data' = tail ++ [b]).
  { unfold data'. rewrite (take_S_r _ _ b) by (apply list_lookup_insert_eq; lia).
    by rewrite take_insert_ge, Hp by lia. }
  assert (Ld : length data' = 64%nat) by (unfold data'; len; done).
  assert (Hbs : Forall is_byte (tail ++ [b])).
  { apply Forall_app in HB as [_ HB]. by apply Forall_snoc. }
  destruct (Z.eqb_spec (Z.of_nat (length tail) + 1) 64) as [E|E].
  - assert (data' = tail ++ [b]) as Ed.
    { rewrite <- Hp', take_ge by lia. done. }
    rewrite sha256_transform_spec;
      [|done|by rewrite Ed|by apply fold_compress_hash_value, H0_hash_value].
    cbn [mbind outcome_bind ctx_data ctx_datalen ctx_bitlen ctx_state].
    destruct Hc as [Hc1 Hc2].
    destruct (DBL_INT_ADD_spec bitlen.1 bitlen.2 512 Hc1 Hc2 ltac:(unfold word; lia))
      as [Hok Hadd].
    eexists _, (full ++ tail ++ [b]), []. split; [done|].
    split; [|by rewrite app_nil_r].
    assert (length (tail ++ [b]) = 64%nat) as L64 by (len; cbn; lia).
    unfold hashing. cbn [ctx_data ctx_datalen ctx_bitlen ctx_state].
    split; [exists (n + 1)%nat; rewrite length_app; lia|].
    split; [cbn; lia|]. rewrite app_nil_r.
    split; [apply Forall_app; split; [by apply Forall_app in HB as [??]|done]|].
    do 4 (split; [done|]).
    split.
    + rewrite Hadd. fold (counter bitlen). rewrite Hv, length_app, L64.
      rewrite Zplus_mod_idemp_l. f_equal. lia.
    + by rewrite (blocks_app _ _ n Hn), fold_left_app, (blocks_single _ L64), <- Ed.
  - eexists _, full, (tail ++ [b]). split; [done|]. split; [|by rewrite app_assoc].
    unfold hashing. cbn [ctx_data ctx_datalen ctx_bitlen ctx_state]. len.
    cbn [length]. rewrite Nat.add_1_r.
    split; [by exists n|]. split; [lia|].
    split; [by apply Forall_app; split; [by apply Forall_app in HB as [??]|]|].
    split; [done|]. split; [lia|]. done.
Qed.

Lemma sha256_update_hashing ctx data p len bs full tail :
  hashing ctx full tail → memread data p len = Done bs → Forall is_byte bs →
  len < 2 ^ 32 →
  ∃ ctx' full' tail', sha256_update ctx data p len = Done ctx' ∧
    hashing ctx' full' tail' ∧ full' ++ tail' = full ++ tail ++ bs.
Proof.
  intros Hh Hm Hbs H32.
  pose proof (memread_inv _ _ _ _ Hm) as (Hp & Hn & Hl & Ebs).
  destruct (for_range_inv (λ i c, ∃ f t, hashing c f t ∧
      f ++ t = full ++ tail ++ take (Z.to_nat i) bs) 0 len
    (λ i ctx, b ← rd data (p + i); update_byte ctx b) ctx)
    as (ctx' & E & f & t & Hf & Eft); [lia| | |].
  { exists full, tail. split; [done|]. by rewrite app_nil_r. }
  { intros i c Hi (f & t & Hf & Eft).
    destruct (memread_rd _ _ _ _ i Hm Hi) as (b & Hb & ->).
    pose proof (Forall_lookup_1 _ _ _ _ Hbs Hb) as Bb.
    destruct (update_byte_hashing c f t b Hf Bb) as (c' & f' & t' & E & H' & E').
    exists c'. split; [exact E|]. exists f', t'. split; [done|].
    rewrite E', app_assoc, Eft.
    replace (Z.to_nat (i + 1)) with (S (Z.to_nat i)) by lia.
    by rewrite (take_S_r _ _ _ Hb), !app_assoc. }
  exists ctx', f, t. unfold sha256_update.
  rewrite Z.min_l, E by lia. cbn [mbind outcome_bind].
  rewrite (proj2 (Z.leb_gt _ _) H32). split; [done|]. split; [done|].
  rewrite take_ge in Eft; [done|]. subst bs. len. lia.
Qed.

(** ** Padding *)

Lemma fill_zero (l : list Z) lo hi :
  0 ≤ lo ≤ hi → hi ≤ Z.of_nat (length l) →
  for_range lo hi (λ i l, wr l i 0) l =
    Done (patch l (Z.to_nat lo) (replicate (Z.to_nat (hi - lo)) 0)).
Proof.
  intros H1 H2.
  destruct (for_range_inv (λ i l', l' =
      patch l (Z.to_nat lo) (replicate (Z.to_nat (i - lo)) 0)) lo hi
    (λ i l, wr l i 0) l) as (l' & -> & ->); [lia| | |done].
  { rewrite Z.sub_diag. symmetry. apply patch_nil. }
  intros i l' Hi ->. eexists. split; [|done].
  rewrite wr_patch_snoc by (rewrite length_replicate; lia).
  rewrite <- replicate_S_end. do 3 f_equal. lia.
Qed.

Lemma patch_1 (l : list Z) i x rest :
  (i + S (length rest) ≤ length l)%nat →
  patch (<[i := x]> l) (S i) rest = patch l i (x :: rest).
Proof. intros H. by rewrite patch_cons by (cbn; lia). Qed.

(** After [final_pad]: [first] has been compressed, [second] is in the buffer,
    and with the eight bytes of the length they are the rest of the padded
    message. *)
Record padded (ctx : SHA256_CTX) (full tail : list Z) (ctx' : SHA256_CTX)
    (first second : list Z) : Prop := {
  padded_run : final_pad ctx = Done ctx';
  padded_datalen : ctx_datalen ctx' = Z.of_nat (length tail);
  padded_bitlen : ctx_bitlen ctx' = ctx_bitlen ctx;
  padded_data : length (ctx_data ctx') = 64%nat;
  padded_second : take 56 (ctx_data ctx') = second;
  padded_bytes : Forall is_byte second;
  padded_first : (length first = 0 ∨ length first = 64)%nat;
  padded_pad : full ++ first ++ second ++
      be_bytes 8 (8 * Z.of_nat (length (full ++ tail))) = pad (full ++ tail);
  padded_state : ctx_state ctx' = fold_left compress (blocks (full ++ first)) H0
}.

Lemma pad_split full tail n z :
  length full = (64 * n)%nat →
  z = Z.to_nat ((55 - Z.of_nat (length tail)) mod 64) →
  pad (full ++ tail) = full ++ (tail ++ 128 :: replicate z 0) ++
    be_bytes 8 (8 * Z.of_nat (length (full ++ tail))).
Proof.
  intros Hn ->. unfold pad. rewrite <- !app_assoc.
  assert ((55 - Z.of_nat (length (full ++ tail))) mod 64 =
    (55 - Z.of_nat (length tail)) mod 64) as ->; [|done].
  rewrite <- (Z.mod_add (55 - Z.of_nat (length (full ++ tail))) (Z.of_nat n)) by lia.
  f_equal. rewrite length_app. lia.
Qed.

Lemma pad_bytes tail z :
  Forall is_byte tail → Forall is_byte (tail ++ 128 :: replicate z 0).
Proof.
  intros Ht. apply Forall_app. split; [done|].
  constructor; [unfold is_byte; lia|by apply Forall_replicate].
Qed.

(** the [0x80] and the zeros up to [hi] *)
Lemma final_fill {B} (k : list Z → outcome B) (data tail : list Z) hi :
  (length tail < 64)%nat → length data = 64%nat → Z.of_nat (length tail) < hi ≤ 64 →
  (data ← wr data (Z.of_nat (length tail)) 0x80;
   data ← for_range (Z.of_nat (length tail) + 1) hi (λ i data, wr data i 0) data;
   k data) =
  k (patch data (length tail)
       (128 :: replicate (Z.to_nat (hi - (Z.of_nat (length tail) + 1))) 0)).
Proof.
  intros Ht Hd Hhi. wr_step. rewrite Nat2Z.id, fill_zero, bind_Done by (len; lia).
  replace (Z.to_nat (Z.of_nat (length tail) + 1)) with (S (length tail)) by lia.
  by rewrite patch_1 by (len; lia).
Qed.

Lemma final_pad_short ctx full tail :
  hashing ctx full tail → Z.of_nat (length tail) < 56 →
  ∃ ctx' second, padded ctx full tail ctx' [] second.
Proof.
  destruct ctx as [data datalen bitlen state].
  intros ([n Hn] & Ht & HB & Hd & El & Hp & Hc & Hv & Es) Hlt.
  cbn [ctx_data ctx_datalen ctx_bitlen ctx_state] in *. subst datalen state.
  set (z := Z.to_nat (56 - (Z.of_nat (length tail) + 1))).
  exists (mk_ctx (patch data (length tail) (128 :: replicate z 0))
    (Z.of_nat (length tail)) bitlen (fold_left compress (blocks full) H0)),
    (tail ++ 128 :: replicate z 0).
  split; cbn [ctx_data ctx_datalen ctx_bitlen ctx_state]; try done.
  - unfold final_pad. cbn [ctx_data ctx_datalen ctx_bitlen ctx_state].
    rewrite (proj2 (Z.ltb_lt _ _) Hlt). etrans; [apply final_fill; lia|done].
  - len. lia.
  - unfold patch. rewrite Hp, app_assoc, take_app_le, take_ge; [done|..];
      len; lia.
  - apply pad_bytes. by apply Forall_app in HB as [_ ?].
  - by left.
  - symmetry. apply (pad_split _ _ n); [done|]. rewrite Z.mod_small by lia. lia.
  - by rewrite app_nil_r.
Qed.

Lemma final_pad_long ctx full tail :
  hashing ctx full tail → 56 ≤ Z.of_nat (length tail) →
  ∃ ctx' first second, padded ctx full tail ctx' first second.
Proof.
  destruct ctx as [data datalen bitlen state].
  intros ([n Hn] & Ht & HB & Hd & El & Hp & Hc & Hv & Es) Hge.
  cbn [ctx_data ctx_datalen ctx_bitlen ctx_state] in *. subst datalen state.
  set (z := Z.to_nat (64 - (Z.of_nat (length tail) + 1))) in *.
  set (blk := tail ++ 128 :: replicate z 0).
  assert (Eb : patch data (length tail) (128 :: replicate z 0) = blk)
    by (unfold patch, blk; rewrite Hp, drop_ge, app_nil_r; [done|len; lia]).
  assert (Lb : length blk = 64%nat) by (unfold blk; len; lia).
  assert (Bb : Forall is_byte blk)
    by (apply pad_bytes; by apply Forall_app in HB as [_ ?]).
  eexists _, blk, (replicate 56 0).
  split; cbn [ctx_data ctx_datalen ctx_bitlen ctx_state].
  - unfold final_pad. cbn [ctx_data ctx_datalen ctx_bitlen ctx_state].
    rewrite (proj2 (Z.ltb_ge _ _) Hge).
    etrans; [apply final_fill; lia|]. cbv beta. fold z. rewrite Eb.
    rewrite sha256_transform_spec;
      [|done|done|by apply fold_compress_hash_value, H0_hash_value].
    cbn [mbind outcome_bind ctx_data ctx_datalen ctx_bitlen ctx_state].
    rewrite memset_zero by lia. reflexivity.
  - done.
  - done.
  - cbn. len. lia.
  - cbn [ctx_data]. by rewrite take_app_le, take_ge by (len; lia).
  - by apply Forall_replicate.
  - by right.
  - rewrite (pad_split _ _ n (z + 56)%nat); [|done|].
    + unfold blk. rewrite replicate_add, !app_comm_cons, <- !app_assoc. done.
    + rewrite <- (Z.mod_add _ 1), Z.mod_small by lia. lia.
  - cbn [ctx_state].
    by rewrite (blocks_app _ _ n Hn), fold_left_app, (blocks_single _ Lb).
Qed.

Lemma final_pad_hashing ctx full tail :
  hashing ctx full tail → ∃ ctx' first second, padded ctx full tail ctx' first second.
Proof.
  intros Hh. destruct (Z.lt_ge_cases (Z.of_nat (length tail)) 56) as [H|H].
  - destruct (final_pad_short _ _ _ Hh H) as (c & x & Hc). by exists c, [], x.
  - by apply final_pad_long.
Qed.

(** ** The length and the digest *)

(** The eight stores into [data[56..63]], last byte first, are the bytes of
    the 64-bit counter. *)
Lemma final_length_spec ctx :
  length (ctx_data ctx) = 64%nat → counter_ok (ctx_bitlen ctx) →
  0 ≤ ctx_datalen ctx < 64 →
  ∃ ctx', final_length ctx = Done ctx' ∧
    ctx_data ctx' = take 56 (ctx_data ctx) ++
      be_bytes 8 (counter (ctx_bitlen ctx) + 8 * ctx_datalen ctx) ∧
    ctx_state ctx' = ctx_state ctx.
Proof.
  destruct ctx as [data datalen bitlen state].
  unfold final_length. cbn [ctx_data ctx_datalen ctx_bitlen ctx_state].
  intros Hd [Hc1 Hc2] Hl. unfold word in *.
  rewrite (w32_id (datalen * 8)) by lia.
  destruct (DBL_INT_ADD_spec bitlen.1 bitlen.2 (datalen * 8) Hc1 Hc2)
    as [[Ha1 Ha2] Hadd]; [unfold word; lia|].
  set (c := DBL_INT_ADD _ _ _) in *. unfold word in *.
  assert (Eb : be_bytes 8 (counter bitlen + 8 * datalen) =
    be_bytes 4 c.2 ++ be_bytes 4 c.1).
  { rewrite <- (be_bytes_mod 8). change (256 ^ Z.of_nat 8) with (2 ^ 64).
    replace (counter bitlen + 8 * datalen)
      with (bitlen.1 + 2 ^ 32 * bitlen.2 + datalen * 8) by (unfold counter; lia).
    rewrite <- Hadd. unfold counter. rewrite (be_bytes_add 4 4).
    change (256 ^ Z.of_nat 4) with (2 ^ 32).
    rewrite (Z.add_comm c.1), (Z.mul_comm _ c.2), Z.div_add_l by lia.
    rewrite (Z.div_small c.1), Z.add_0_r by lia. f_equal.
    rewrite <- be_bytes_mod. change (256 ^ Z.of_nat 4) with (2 ^ 32).
    by rewrite Z.add_comm, Z.mod_add, Z.mod_small by lia. }
  rewrite Eb, !be_bytes_4. do 8 wr_step. eexists. split; [reflexivity|].
  cbn [ctx_data ctx_state]. split; [|done].
  assert (L56 : length (take 56 data) = 56%nat) by (len; lia).
  assert (L8 : length (drop 56 data) = 8%nat) by (len; lia).
  rewrite <- (take_drop 56 data) at 1. revert L8.
  generalize (drop 56 data) as l. intros l L8.
  do 8 (destruct l as [|? l]; [done|]). destruct l; [|done].
  rewrite !insert_app_r_alt by lia. by rewrite L56.
Qed.

(** digest bytes written by the inner and the outer loop *)
Lemma final_store_inner state hash i :
  length state = 8%nat → 0 ≤ i < 4 → (32 ≤ length hash)%nat →
  ∃ hash', for_range 0 8 (λ w hash, s ← rd state w; wr hash (i + 4 * w) (w8 s))
      hash = Done hash' ∧ length hash' = length hash ∧
    ∀ j, hash' !! j =
      if decide (j < 32 ∧ j mod 4 = Z.to_nat i)%nat
      then Some (w8 (state !!! (j / 4)%nat)) else hash !! j.
Proof.
  intros Hs Hi Hl.
  destruct (for_range_inv (λ w h, length h = length hash ∧
      ∀ j, h !! j =
        if decide (j / 4 < Z.to_nat w ∧ j mod 4 = Z.to_nat i)%nat
        then Some (w8 (state !!! (j / 4)%nat)) else hash !! j) 0 8
    (λ w hash, s ← rd state w; wr hash (i + 4 * w) (w8 s)) hash)
    as (h & E & L & Hh); [lia| | |].
  { split; [done|]. intros j. by rewrite decide_False by lia. }
  { intros w h Hw [L Hh].
    destruct (rd_lt state w) as (s & Hsw & ->); [lia|]. cbn [mbind outcome_bind].
    wr_step. eexists. split; [done|]. len. split; [done|]. intros j.
    assert (Hdm := Nat.div_mod_eq j 4). assert (Hmb := Nat.mod_upper_bound j 4).
    rewrite list_lookup_insert. rewrite Hh.
    destruct (decide (Z.to_nat (i + 4 * w) = j ∧ _)) as [[Ej _]|Ej].
    - assert (j / 4 = Z.to_nat w)%nat as -> by lia.
      rewrite decide_True by lia.
      by rewrite (list_lookup_total_correct _ _ _ Hsw).
    - case_decide; case_decide; try lia; try done. }
  exists h. split; [exact E|]. split; [done|]. intros j. rewrite Hh.
  assert (Hdm := Nat.div_mod_eq j 4). assert (Hmb := Nat.mod_upper_bound j 4).
  case_decide; case_decide; try lia; done.
Qed.

Lemma final_store_spec state hash :
  length state = 8%nat → (32 ≤ length hash)%nat →
  final_store state hash =
    Done (patch hash 0 (state ≫= λ s, replicate 4 (w8 s))).
Proof.
  intros Hs Hl.
  destruct (for_range_inv (λ i h, length h = length hash ∧
      ∀ j, h !! j = if decide (j < 32 ∧ j mod 4 < Z.to_nat i)%nat
        then Some (w8 (state !!! (j / 4)%nat)) else hash !! j) 0 4
    (λ i hash, for_range 0 8 (λ w hash, s ← rd state w;
       wr hash (i + 4 * w) (w8 s)) hash) hash)
    as (h & E & L & Hh); [lia| | |].
  { split; [done|]. intros j. by rewrite decide_False by lia. }
  { intros i h Hi [L Hh].
    destruct (final_store_inner state h i Hs Hi) as (h' & E & L' & Hh'); [lia|].
    exists h'. split; [exact E|]. split; [lia|]. intros j. rewrite Hh', Hh.
    repeat (case_decide; try lia; try done). }
  unfold final_store. rewrite E. f_equal. apply list_eq. intros j.
  assert (L32 : length (state ≫= λ s, replicate 4 (w8 s)) = 32%nat).
  { do 8 (destruct state as [|? state]; [done|]). by destruct state. }
  rewrite Hh, patch_lookup, L32, Nat.sub_0_r by lia.
  assert (Hmb := Nat.mod_upper_bound j 4).
  repeat (case_decide; try lia; try done).
  do 8 (destruct state as [|? state]; [done|]). destruct state; [|done].
  do 32 (destruct j as [|j]; [reflexivity|]). lia.
Qed.

(** ** The hash of a message *)

(** what [sha256_final] stores for a message: of each word of the hash value
    the low byte, four times *)
Definition digest (msg : list Z) : list Z :=
  hash_words msg ≫= λ s, replicate 4 (w8 s).

(** a sequence of calls of [sha256_update], one per buffer *)
Fixpoint sha256_updates (ctx : SHA256_CTX) (bufs : list (list Z))
    : outcome SHA256_CTX :=
  match bufs with
  | [] => Done ctx
  | buf :: bufs =>
      ctx ← sha256_update ctx buf 0 (Z.of_nat (length buf));
      sha256_updates ctx bufs
  end.

(** an argument of [sha256_update] on which it returns *)
Definition sha_input (buf : list Z) : Prop :=
  Forall is_byte buf ∧ Z.of_nat (length buf) < 2 ^ 32.

Lemma sha256_updates_hashing bufs ctx full tail :
  hashing ctx full tail → Forall sha_input bufs →
  ∃ ctx' full' tail', sha256_updates ctx bufs = Done ctx' ∧
    hashing ctx' full' tail' ∧ full' ++ tail' = full ++ tail ++ concat bufs.
Proof.
  intros Hh Hb. revert ctx full tail Hh.
  induction Hb as [|buf bufs [Hbuf H32] Hbufs IH]; intros ctx full tail Hh.
  { exists ctx, full, tail. cbn. by rewrite app_nil_r. }
  destruct (sha256_update_hashing ctx buf 0 (Z.of_nat (length buf)) buf full tail)
    as (c1 & f1 & t1 & E1 & H1 & A1); [done| |done|done|].
  { rewrite memread_Done by lia.
    by rewrite Nat2Z.id, drop_0, take_ge by lia. }
  destruct (IH c1 f1 t1 H1) as (c2 & f2 & t2 & E2 & H2 & A2).
  exists c2, f2, t2. cbn [sha256_updates concat]. rewrite E1.
  split; [exact E2|]. split; [done|]. rewrite A2, app_assoc, A1.
  by rewrite <- !app_assoc.
Qed.

Lemma hash_words_hash_value msg : hash_value (hash_words msg).
Proof. apply fold_compress_hash_value, H0_hash_value. Qed.

Lemma length_digest msg : length (digest msg) = 32%nat.
Proof.
  unfold digest. destruct (hash_value_inv _ (hash_words_hash_value msg))
    as (a & b & c & d & e & f & g & h & ->). done.
Qed.

Lemma digest_bytes msg : Forall is_byte (digest msg).
Proof.
  unfold digest. destruct (hash_value_inv _ (hash_words_hash_value msg))
    as (a & b & c & d & e & f & g & h & ->). cbn [mbind list_bind].
  repeat (apply Forall_app; split; [apply Forall_replicate, w8_is_byte|]).
  constructor.
Qed.

Lemma sha256_final_hashing ctx full tail hash :
  hashing ctx full tail → (32 ≤ length hash)%nat →
  ∃ ctx', sha256_final ctx hash = Done (ctx', patch hash 0 (digest (full ++ tail))) ∧
    length (ctx_data ctx') = 64%nat ∧
    ctx_state ctx' = hash_words (full ++ tail).
Proof.
  intros Hh Hl.
  destruct (final_pad_hashing ctx full tail Hh)
    as (c1 & first & second & [E1 D1 B1 L1 T1 S1 F1 P1 ST1]).
  destruct Hh as ([n Hn] & Ht & HB & _ & _ & _ & Hc & Hv & _).
  destruct (final_length_spec c1) as (c2 & E2 & D2 & ST2); [done|by rewrite B1|lia|].
  unfold sha256_final. rewrite E1. cbn [mbind outcome_bind]. rewrite E2.
  cbn [mbind outcome_bind].
  set (n8 := 8 * Z.of_nat (length (full ++ tail))) in *.
  assert (D2' : ctx_data c2 = second ++ be_bytes 8 n8).
  { rewrite D2, T1, D1, B1. f_equal.
    rewrite <- (be_bytes_mod 8), <- (be_bytes_mod 8 n8). f_equal.
    rewrite Hv. change (256 ^ Z.of_nat 8) with (2 ^ 64).
    rewrite Zplus_mod_idemp_l. unfold n8. rewrite length_app. f_equal. lia. }
  assert (L2 : length (ctx_data c2) = 64%nat).
  { rewrite D2', length_app, length_be_bytes, <- T1. len. lia. }
  assert (HS : ctx_state c2 = fold_left compress (blocks (full ++ first)) H0)
    by congruence.
  rewrite sha256_transform_spec; [|done| |].
  2: { rewrite D2'. apply Forall_app. split; [done|apply be_bytes_are_bytes]. }
  2: { rewrite HS. apply fold_compress_hash_value, H0_hash_value. }
  cbn [mbind outcome_bind ctx_data ctx_state].
  assert (W : compress (ctx_state c2) (ctx_data c2) = hash_words (full ++ tail)).
  { unfold hash_words. rewrite <- P1, HS, app_assoc.
    assert (∃ q, length (full ++ first) = (64 * q)%nat) as [q Hq].
    { rewrite length_app. destruct F1; [exists n|exists (n + 1)%nat]; lia. }
    rewrite (blocks_app _ _ q Hq), fold_left_app, D2' in *.
    by rewrite (blocks_single _ L2). }
  rewrite W, final_store_spec by (done || apply hash_words_hash_value).
  eexists. split; [reflexivity|]. done.
Qed.

(** C1: From any context, sha256_init, any number of sha256_update calls on
    whole buffers shorter than 2^32 bytes and sha256_final run without
    undefined behaviour; the words of ctx->state are then the FIPS 180-4 hash
    value of the concatenated input, and hash receives 32 bytes, four times
    the low byte of each word. *)
Theorem sha256_refines_fips ctx bufs hash :
  length (ctx_data ctx) = 64%nat → length (ctx_state ctx) = 8%nat →
  Forall sha_input bufs → (32 ≤ length hash)%nat →
  ∃ ctx' hash',
    (ctx ← sha256_init ctx;
     ctx ← sha256_updates ctx bufs;
     sha256_final ctx hash) = Done (ctx', hash') ∧
    ctx_state ctx' = hash_words (concat bufs) ∧
    hash' = patch hash 0 (digest (concat bufs)).
Proof.
  intros H1 H2 Hb Hl.
  destruct (sha256_init_hashing ctx H1 H2) as (c0 & -> & Hh0).
  destruct (sha256_updates_hashing bufs c0 [] [] Hh0 Hb)
    as (c1 & f1 & t1 & E1 & Hh1 & A1).
  destruct (sha256_final_hashing c1 f1 t1 hash Hh1 Hl) as (c2 & E2 & _ & S2).
  cbn [mbind outcome_bind]. rewrite E1. cbn [mbind outcome_bind].
  rewrite A1 in E2, S2. eexists _, _. split; [exact E2|]. done.
Qed.

(** Byte j of the 32 bytes sha256_final stores is byte 4*(j/4)+3 of the
    FIPS digest: only 8 of the 32 bytes of the digest survive, each four
    times. *)
Theorem sha256_digest_bytes msg j :
  (j < 32)%nat →
  digest msg !! j = fips_sha256 msg !! (4 * (j / 4) + 3)%nat.
Proof.
  intros Hj. unfold digest, fips_sha256.
  destruct (hash_value_inv _ (hash_words_hash_value msg))
    as (a & b & c & d & e & f & g & h & ->).
  do 32 (destruct j as [|j]; [reflexivity|]). lia.
Qed.

(** The digest is not the FIPS digest: first byte of the hash of abc. *)
Example sha256_abc_digest :
  digest [97; 98; 99] !! 0%nat = Some 0xbf ∧
  fips_sha256 [97; 98; 99] !! 0%nat = Some 0xba.
Proof. split; vm_compute; reflexivity. Qed.

(** ** Instances *)

Lemma sha256_refines_fips_witness :
  ∃ ctx' hash',
    (ctx ← sha256_init ctx_junk;
     ctx ← sha256_updates ctx [[97; 98]; [99]];
     sha256_final ctx (replicate 33 5)) = Done (ctx', hash') ∧
    ctx_state ctx' = hash_words [97; 98; 99] ∧
    hash' = patch (replicate 33 5) 0 (digest [97; 98; 99]).
Proof.
  apply (sha256_refines_fips ctx_junk [[97; 98]; [99]] (replicate 33 5));
    [reflexivity|reflexivity| |cbn; lia].
  repeat constructor; cbn; lia.
Defined.

Lemma sha256_digest_bytes_witness :
  digest [97; 98; 99] !! 5%nat = fips_sha256 [97; 98; 99] !! 7%nat.
Proof. apply (sha256_digest_bytes [97; 98; 99] 5). lia. Defined.
