(* ===== verification/Unresolved.v ===== *)
(** * What the sources use and do not define

    The tree is a work in progress: a number of macros and functions are used
    but defined nowhere in it.  They are the fields of the classes below, so
    every definition that uses one takes it as a parameter, and a theorem that
    needs a fact about one has that fact as a hypothesis.  A function that
    reads through a pointer takes a buffer and an offset. *)
From stdpp Require Export strings.
From S2P Require Import Prelude Shared Util.
#[global] Open Scope Z_scope.

(** ** Contents of fresh allocations

    [malloc] leaves the block uninitialised: its bytes are unknown, one
    unknown list for each allocation, named after the pointer it is stored
    in.  [malloc] is taken to succeed, as the sources never test it (except
    for the two buffers of [handle_connection]). *)
Class Malloc := {
  uninit : string → Z → list Z;
  length_uninit : ∀ name n, 0 ≤ n → Z.of_nat (length (uninit name n)) = n
}.

(** ** Locations *)

(** where [malloc] puts a block: a location that is not allocated *)
Class Alloc := {
  alloc : gset nat → nat;
  alloc_fresh : ∀ X, alloc X ∉ X
}.

Definition sample_alloc : Alloc := {| alloc X := fresh X; alloc_fresh := is_fresh |}.

(** ** Serialised transactions and blocks *)

Class TxNames := {
  (** the predefined macro of the compiler (a string literal, converted to
      [ushort] where it is passed), written where [__VERSION] is meant *)
  __VERSION__ : Z;
  (** positions and sizes spelled differently from those of shared.h *)
  POS_TX_IN_REF : Z;
  SIZE_TX_IN_REF : Z;
  POS_TX_IN_INDEX : Z;
  POS_TX_IN_PUBKEY : Z;
  SIZE_TX_IN_PUBKEY : Z;
  POS_TX_IN_SIG : Z;
  SIZE_TX_IN_SIG : Z;
  POS_TX_OUT_ADDR : Z;
  SIZE_TX_OUT_ADDR : Z;
  POS_BLOCK_BODY : Z;
  (** functions on a serialised transaction *)
  tx_get_size : list Z → Z → outcome Z;
  tx_compute_size : list Z → Z → outcome Z;
  tx_compute_hash : list Z → Z → list Z → outcome (list Z);
  (** [tx_gen in_count out_count lock_time ins outs dest] *)
  tx_gen : Z → Z → Z → list Z → list Z → list Z → outcome (list Z)
}.
