(* ===== verification/Transactions.v ===== *)
(** * src/transactions.c: serialised transactions

    [r_tx_gen], [r_tx_in_gen] and [r_tx_out_gen] write the parts of a
    transaction into a buffer; [m_tx_gen] allocates one.  The Merkle root of
    the same file is in Merkle.v, the release of a transaction in Lifetime.v. *)
From S2P Require Import Prelude Shared Util Crypto Unresolved.

(** ** Generating transactions *)

(** The in-memory form of a transaction: [hash] and [data] are the contents
    of the two allocations it owns. *)
Record M_tx := mk_tx {
  tx_hash : list Z;
  tx_data : list Z;
  tx_size : Z;
  tx_max : Z
}.

Section Generation.
Context `{TxNames, Malloc}.

(** [size_ins] and [size_outs] are locals of [m_tx_gen] that the body uses
    without declaring: they are arguments here. [&dest[0]] is [(dest, p)]. *)
Definition r_tx_gen (size_ins size_outs : Z) (in_count out_count lock_time : Z)
    (ins outs dest : list Z) (p : Z) : outcome (list Z) :=
  dest ← ustob (w16 __VERSION__) dest (p + POS_TX_VERSION);
  dest ← ustob in_count dest (p + POS_TX_IN_COUNT);
  dest ← ustob out_count dest (p + POS_TX_OUT_COUNT);
  dest ← uitob lock_time dest (p + POS_TX_LOCK_TIME);
  src ← memread ins 0 size_ins;
  dest ← memwrite dest (p + POS_TX_BODY) src;
  src ← memread outs 0 size_outs;
  memwrite dest (p + POS_TX_BODY + size_ins) src.

Definition r_tx_in_gen (ref : list Z) (index : Z) (pubkey sig dest : list Z)
    (p : Z) : outcome (list Z) :=
  src ← memread ref 0 SIZE_TX_IN_REF;
  dest ← memwrite dest (p + POS_TX_IN_REF) src;
  dest ← ustob index dest (p + POS_TX_IN_INDEX);
  src ← memread pubkey 0 SIZE_TX_IN_PUBKEY;
  dest ← memwrite dest (p + POS_TX_IN_PUBKEY) src;
  src ← memread sig 0 SIZE_TX_IN_SIG;
  memwrite dest (p + POS_TX_IN_SIG) src.

Definition r_tx_out_gen (address : list Z) (amount : Z) (dest : list Z) (p : Z)
    : outcome (list Z) :=
  src ← memread address 0 SIZE_TX_OUT_ADDR;
  dest ← memwrite dest (p + POS_TX_OUT_ADDR) src;
  uitob amount dest (p + POS_TX_OUT_AMOUNT).

(** [dest], undeclared in the body, is read as [tx.data]. *)
Definition m_tx_gen (in_count out_count lock_time : Z) (ins outs : list Z)
    : outcome M_tx :=
  let size_ins := w32 (SIZE_TX_INPUT * in_count) in
  let size_outs := w32 (SIZE_TX_OUTPUT * out_count) in
  let size := w32 (w32 (SIZE_TX_HEADER + size_ins) + size_outs) in
  if MAX_TX_SIZE <? size then Fatal
  else
    data ← tx_gen in_count out_count lock_time ins outs (uninit "tx.data" size);
    hash ← tx_compute_hash data 0 (uninit "tx.hash" SIZE_SHA256);
    Done (mk_tx hash data size size).

End Generation.

(** ** The layout of what is written *)

Lemma ustob_patch a dest q src p :
  p = Z.of_nat q + Z.of_nat (length src) →
  (q + length src + 2 ≤ length dest)%nat →
  ustob a (patch dest q src) p = Done (patch dest q (src ++ be_bytes 2 a)).
Proof.
  intros Hp Hl. rewrite ustob_memwrite by (len; lia).
  apply memwrite_patch; [done|]. rewrite length_be_bytes. lia.
Qed.

Lemma uitob_patch a dest q src p :
  p = Z.of_nat q + Z.of_nat (length src) →
  (q + length src + 4 ≤ length dest)%nat →
  uitob a (patch dest q src) p = Done (patch dest q (src ++ be_bytes 4 a)).
Proof.
  intros Hp Hl. rewrite uitob_memwrite by (len; lia).
  apply memwrite_patch; [done|]. rewrite length_be_bytes. lia.
Qed.

Section Layout.
Context `{TxNames}.

(** the transaction as the picture at the top of transactions.c draws it *)
Definition tx_bytes (in_count out_count lock_time : Z) (ins outs : list Z)
    : list Z :=
  be_bytes 2 __VERSION__ ++ be_bytes 2 in_count ++ be_bytes 2 out_count ++
  be_bytes 4 lock_time ++ ins ++ outs.

Lemma r_tx_gen_bytes size_ins size_outs in_count out_count lock_time
    ins outs dest p :
  0 ≤ p → 0 ≤ size_ins ≤ Z.of_nat (length ins) →
  0 ≤ size_outs ≤ Z.of_nat (length outs) →
  p + SIZE_TX_HEADER + size_ins + size_outs ≤ Z.of_nat (length dest) →
  r_tx_gen size_ins size_outs in_count out_count lock_time ins outs dest p =
    Done (patch dest (Z.to_nat p)
      (tx_bytes in_count out_count lock_time
         (take (Z.to_nat size_ins) ins) (take (Z.to_nat size_outs) outs))).
Proof.
  unfold SIZE_TX_HEADER. intros Hp Hi Ho Hd. unfold r_tx_gen, tx_bytes.
  unfold POS_TX_VERSION, POS_TX_IN_COUNT, POS_TX_OUT_COUNT, POS_TX_LOCK_TIME,
    POS_TX_BODY.
  rewrite <- (patch_nil dest (Z.to_nat p)) at 1.
  assert (Hv : be_bytes 2 (w16 __VERSION__) = be_bytes 2 __VERSION__)
    by apply (be_bytes_mod 2).
  set (ins' := take (Z.to_nat size_ins) ins).
  set (outs' := take (Z.to_nat size_outs) outs).
  assert (Li : length ins' = Z.to_nat size_ins) by (unfold ins'; len; lia).
  assert (Lo : length outs' = Z.to_nat size_outs) by (unfold outs'; len; lia).
  do 3 (rewrite ustob_patch by (len; lia);
        rewrite bind_Done).
  rewrite uitob_patch by (len; lia).
  rewrite bind_Done, (memread_Done ins), bind_Done by lia.
  rewrite Z2Nat.inj_0, drop_0. fold ins'.
  rewrite memwrite_patch by (len; lia).
  rewrite bind_Done, (memread_Done outs), bind_Done by lia.
  rewrite Z2Nat.inj_0, drop_0. fold outs'.
  rewrite memwrite_patch by (len; lia).
  by rewrite Hv, <- !app_assoc.
Qed.

(** C24: r_tx_gen writes the version, in_count, out_count and lock_time
    big-endian in ten bytes, then the inputs and the outputs, at dest and
    nowhere else. *)
Theorem r_tx_gen_layout size_ins size_outs in_count out_count lock_time
    ins outs dest p :
  0 ≤ p → 0 ≤ size_ins ≤ Z.of_nat (length ins) →
  0 ≤ size_outs ≤ Z.of_nat (length outs) →
  p + SIZE_TX_HEADER + size_ins + size_outs ≤ Z.of_nat (length dest) →
  r_tx_gen size_ins size_outs in_count out_count lock_time ins outs dest p =
    Done (patch dest (Z.to_nat p)
      (tx_bytes in_count out_count lock_time
         (take (Z.to_nat size_ins) ins) (take (Z.to_nat size_outs) outs))).
Proof. apply r_tx_gen_bytes. Qed.

(** The names of transactions.c stand for the macros of shared.h. *)
Class TxNamesAgree : Prop := {
  in_ref_agrees : POS_TX_IN_REF = POS_TX_INPUT_REF_TX ∧
    SIZE_TX_IN_REF = SIZE_TX_INPUT_REF_TX;
  in_index_agrees : POS_TX_IN_INDEX = POS_TX_INPUT_OUT_INDEX;
  in_pubkey_agrees : POS_TX_IN_PUBKEY = POS_TX_INPUT_PUBKEY ∧
    SIZE_TX_IN_PUBKEY = SIZE_TX_INPUT_PUBKEY;
  in_sig_agrees : POS_TX_IN_SIG = POS_TX_INPUT_SIG ∧
    SIZE_TX_IN_SIG = SIZE_TX_INPUT_SIG;
  out_addr_agrees : POS_TX_OUT_ADDR = POS_TX_OUT_ADDRESS ∧
    SIZE_TX_OUT_ADDR = SIZE_TX_OUT_ADDRESS
}.

(** With the position names of transactions.c read as those of shared.h, an
    input generated at dest and an output generated behind it are exactly the
    290 and 36 bytes of the fields in order, and nothing else changes. *)
Theorem r_tx_in_out_gen_layout ref index pubkey sig address amount dest p :
  TxNamesAgree → length ref = 32%nat → length pubkey = 128%nat →
  length sig = 128%nat → length address = 32%nat →
  0 ≤ p → p + SIZE_TX_INPUT + SIZE_TX_OUTPUT ≤ Z.of_nat (length dest) →
  (dest ← r_tx_in_gen ref index pubkey sig dest p;
   r_tx_out_gen address amount dest (p + SIZE_TX_INPUT)) =
  Done (patch dest (Z.to_nat p)
    ((ref ++ be_bytes 2 index ++ pubkey ++ sig) ++ address ++ be_bytes 4 amount)).
Proof.
  intros [[E1 E2] E3 [E4 E5] [E6 E7] [E8 E9]] Hr Hk Hs Ha Hp Hd.
  unfold r_tx_in_gen, r_tx_out_gen.
  rewrite E1, E2, E3, E4, E5, E6, E7, E8, E9. clear E1 E2 E3 E4 E5 E6 E7 E8 E9.
  unfold SIZE_TX_INPUT, SIZE_TX_OUTPUT, POS_TX_INPUT_REF_TX,
    SIZE_TX_INPUT_REF_TX, POS_TX_INPUT_OUT_INDEX, POS_TX_INPUT_PUBKEY,
    SIZE_TX_INPUT_PUBKEY, POS_TX_INPUT_SIG, SIZE_TX_INPUT_SIG,
    POS_TX_OUT_ADDRESS, SIZE_TX_OUT_ADDRESS, POS_TX_OUT_AMOUNT in *.
  assert (Hall : ∀ (l : list Z) n, length l = Z.to_nat n → 0 ≤ n → memread l 0 n = Done l).
  { intros l n Hl Hn. rewrite memread_Done by lia.
    by rewrite Z2Nat.inj_0, drop_0, take_ge by lia. }
  rewrite !Hall by (done || lia). rewrite !bind_Done.
  rewrite Z.add_0_r, (memwrite_Done dest) by lia. rewrite !bind_Done.
  rewrite ustob_patch by (len; lia). rewrite !bind_Done.
  rewrite memwrite_patch by (len; lia).
  rewrite !bind_Done.
  rewrite memwrite_patch by (len; lia).
  rewrite !bind_Done.
  rewrite memwrite_patch by (len; lia).
  rewrite !bind_Done.
  rewrite uitob_patch by (len; lia).
  by rewrite <- !app_assoc, ?Z.add_0_r.
Qed.

Lemma m_tx_gen_run `{Malloc} in_count out_count lock_time ins outs :
  let size := SIZE_TX_HEADER + SIZE_TX_INPUT * in_count +
              SIZE_TX_OUTPUT * out_count in
  let data := tx_bytes in_count out_count lock_time ins outs in
  0 ≤ in_count < 2 ^ 16 → 0 ≤ out_count < 2 ^ 16 →
  (∀ dest, Z.of_nat (length dest) = size →
     tx_gen in_count out_count lock_time ins outs dest =
     r_tx_gen (SIZE_TX_INPUT * in_count) (SIZE_TX_OUTPUT * out_count)
       in_count out_count lock_time ins outs dest 0) →
  (∀ hash, length hash = 32%nat →
     tx_compute_hash data 0 hash = Done (digest data)) →
  Z.of_nat (length ins) = SIZE_TX_INPUT * in_count →
  Z.of_nat (length outs) = SIZE_TX_OUTPUT * out_count →
  m_tx_gen in_count out_count lock_time ins outs =
    if MAX_TX_SIZE <? size then Fatal
    else Done (mk_tx (digest data) data size size).
Proof.
  intros size data Hi Ho Hgen Hhash Li Lo. unfold m_tx_gen.
  unfold SIZE_TX_INPUT, SIZE_TX_OUTPUT, SIZE_TX_HEADER in *.
  rewrite (w32_id (290 * in_count)), (w32_id (36 * out_count)) by lia.
  rewrite (w32_id (10 + _)), w32_id by lia. fold size.
  destruct (MAX_TX_SIZE <? size); [done|].
  pose proof (length_uninit "tx.data" size ltac:(lia)) as Ld.
  rewrite Hgen, r_tx_gen_bytes by (unfold SIZE_TX_HEADER; lia).
  rewrite bind_Done, (take_ge ins), (take_ge outs) by lia. fold data.
  assert (length data = length (uninit "tx.data" size)) as Ed.
  { unfold data, tx_bytes. len. lia. }
  rewrite Z2Nat.inj_0, patch_full, Hhash, bind_Done by
    (done || pose proof (length_uninit "tx.hash" SIZE_SHA256 ltac:(done));
     unfold SIZE_SHA256 in *; lia).
  done.
Qed.

(** C23: m_tx_gen is fatal exactly when the transaction would exceed
    MAX_TX_SIZE (the 32-bit size computation never wraps), and otherwise
    returns the serialised transaction, its hash and its size. *)
Theorem m_tx_gen_spec `{Malloc} in_count out_count lock_time ins outs :
  let size := SIZE_TX_HEADER + SIZE_TX_INPUT * in_count +
              SIZE_TX_OUTPUT * out_count in
  let data := tx_bytes in_count out_count lock_time ins outs in
  0 ≤ in_count < 2 ^ 16 → 0 ≤ out_count < 2 ^ 16 →
  (∀ dest, Z.of_nat (length dest) = size →
     tx_gen in_count out_count lock_time ins outs dest =
     r_tx_gen (SIZE_TX_INPUT * in_count) (SIZE_TX_OUTPUT * out_count)
       in_count out_count lock_time ins outs dest 0) →
  (∀ hash, length hash = 32%nat →
     tx_compute_hash data 0 hash = Done (digest data)) →
  Z.of_nat (length ins) = SIZE_TX_INPUT * in_count →
  Z.of_nat (length outs) = SIZE_TX_OUTPUT * out_count →
  m_tx_gen in_count out_count lock_time ins outs =
    if MAX_TX_SIZE <? size then Fatal
    else Done (mk_tx (digest data) data size size).
Proof. apply m_tx_gen_run. Qed.

End Layout.

(** ** Instances *)

(** A reading of the missing names: those of shared.h, the size from the
    counts of the header, the hash of the whole transaction. *)
Definition sample_size (bytes : list Z) (p : Z) : outcome Z :=
  hdr ← memread bytes p SIZE_TX_HEADER;
  Done (SIZE_TX_HEADER
        + SIZE_TX_INPUT * be_val (take 2 (drop 2 hdr))
        + SIZE_TX_OUTPUT * be_val (take 2 (drop 4 hdr))).

Definition sample_malloc : Malloc.
Proof.
  refine {| uninit _ n := replicate (Z.to_nat n) 0xa5 |}.
  intros _ n Hn. rewrite length_replicate. lia.
Defined.

Definition sample_names_with
    (gen : Z → Z → Z → list Z → list Z → list Z → outcome (list Z))
    : TxNames := {|
  __VERSION__ := 0x1234;
  POS_TX_IN_REF := POS_TX_INPUT_REF_TX;
  SIZE_TX_IN_REF := SIZE_TX_INPUT_REF_TX;
  POS_TX_IN_INDEX := POS_TX_INPUT_OUT_INDEX;
  POS_TX_IN_PUBKEY := POS_TX_INPUT_PUBKEY;
  SIZE_TX_IN_PUBKEY := SIZE_TX_INPUT_PUBKEY;
  POS_TX_IN_SIG := POS_TX_INPUT_SIG;
  SIZE_TX_IN_SIG := SIZE_TX_INPUT_SIG;
  POS_TX_OUT_ADDR := POS_TX_OUT_ADDRESS;
  SIZE_TX_OUT_ADDR := SIZE_TX_OUT_ADDRESS;
  POS_BLOCK_BODY := SIZE_BLOCK_HEADER;
  tx_get_size := sample_size;
  tx_compute_size := sample_size;
  tx_compute_hash data p hash :=
    size ← sample_size data p;
    tx ← memread data p size;
    memwrite hash 0 (digest tx);
  tx_gen := gen
|}.

(** [tx_gen] is [r_tx_gen], with the sizes of [m_tx_gen]. *)
Definition sample_names : TxNames :=
  sample_names_with (λ in_count out_count lock_time ins outs dest,
    @r_tx_gen (sample_names_with (λ _ _ _ _ _ _, Undef))
      (SIZE_TX_INPUT * in_count) (SIZE_TX_OUTPUT * out_count)
      in_count out_count lock_time ins outs dest 0).

Lemma r_tx_gen_layout_witness :
  @r_tx_gen sample_names 2 1 7 8 9 [1; 2; 3] [4] (replicate 15 0) 1 =
    Done (patch (replicate 15 0) 1
      (@tx_bytes sample_names 7 8 9 [1; 2] [4])).
Proof.
  apply (@r_tx_gen_layout sample_names 2 1 7 8 9 [1; 2; 3] [4]
    (replicate 15 0) 1); vm_compute; intuition discriminate.
Defined.

Lemma r_tx_in_out_gen_layout_witness :
  (dest ← @r_tx_in_gen sample_names (replicate 32 1) 2 (replicate 128 3)
     (replicate 128 4) (replicate 330 0) 3;
   @r_tx_out_gen sample_names (replicate 32 5) 6 dest (3 + SIZE_TX_INPUT)) =
  Done (patch (replicate 330 0) 3
    ((replicate 32 1 ++ be_bytes 2 2 ++ replicate 128 3 ++ replicate 128 4) ++
     replicate 32 5 ++ be_bytes 4 6)).
Proof.
  apply (@r_tx_in_out_gen_layout sample_names (replicate 32 1) 2
    (replicate 128 3) (replicate 128 4) (replicate 32 5) 6 (replicate 330 0) 3);
    first [reflexivity|by repeat constructor|vm_compute; discriminate].
Defined.

Lemma m_tx_gen_spec_witness :
  let data := @tx_bytes sample_names 0 2 9 [] (replicate 72 5) in
  @m_tx_gen sample_names sample_malloc 0 2 9 [] (replicate 72 5) =
    Done (mk_tx (digest data) data 82 82).
Proof.
  apply (@m_tx_gen_spec sample_names sample_malloc 0 2 9 [] (replicate 72 5));
    [lia|lia|reflexivity| |reflexivity|reflexivity].
  intros hash Hl. unfold sample_names, sample_names_with, tx_compute_hash.
  do 32 (destruct hash as [|? hash]; [discriminate Hl|]).
  destruct hash; [|discriminate Hl]. vm_compute. reflexivity.
Defined.
