(* ===== verification/Merkle.v ===== *)
(** * src/transactions.c: compute_merkle_root

    The function keeps an array of pointers to 32-byte nodes and one spare
    node, the buffer every hash is written to; the pointer of the node that
    is replaced becomes the new buffer.  The model keeps the heap of these
    allocations and the pointers explicit.  [rep] relates a state to the list
    of node values; [combine_rep] is the step: pointer swapping is a plain
    update of that list.  On lists, the loops are compared with the recursive
    definition [merkle_root]. *)
From Equations Require Import Equations.
From S2P Require Import Prelude Shared Util Crypto Unresolved Transactions.

(** ** The function *)

(** Heap of the allocations of the function: [m_tree] are the pointers of
    [tree_hashes], [m_buffer] is [buffer]; [m_ctx] is [*ctx]. *)
Record mstate := mk_mstate {
  m_heap : gmap nat (list Z);
  m_tree : list nat;
  m_buffer : nat;
  m_ctx : SHA256_CTX
}.

Definition load (heap : gmap nat (list Z)) (p : nat) : outcome (list Z) :=
  match heap !! p with Some bs => Done bs | None => Undef end.

(** [sha256_init(ctx); sha256_update(ctx, tree_hashes[i], SIZE_SHA256);
    sha256_update(ctx, tree_hashes[j], SIZE_SHA256); sha256_final(ctx, buffer)] *)
Definition hash_pair (i j : Z) (st : mstate) : outcome mstate :=
  ctx ← sha256_init (m_ctx st);
  pi ← rd (m_tree st) i;
  bi ← load (m_heap st) pi;
  ctx ← sha256_update ctx bi 0 SIZE_SHA256;
  pj ← rd (m_tree st) j;
  bj ← load (m_heap st) pj;
  ctx ← sha256_update ctx bj 0 SIZE_SHA256;
  bb ← load (m_heap st) (m_buffer st);
  '(ctx, bb) ← sha256_final ctx bb;
  Done (mk_mstate (<[m_buffer st := bb]> (m_heap st)) (m_tree st)
          (m_buffer st) ctx).

(** [temp = tree_hashes[k]; tree_hashes[k] = buffer; buffer = temp] *)
Definition swap_buffer (k : Z) (st : mstate) : outcome mstate :=
  temp ← rd (m_tree st) k;
  tree ← wr (m_tree st) k (m_buffer st);
  Done (mk_mstate (m_heap st) tree temp (m_ctx st)).

Definition combine (i j k : Z) (st : mstate) : outcome mstate :=
  st ← hash_pair i j st; swap_buffer k st.

(** One round of the [while] loop: the new [leaf_count] is [k]. *)
Definition merkle_round (leaf_count : Z) (st : mstate)
    : outcome (Z * mstate) :=
  let remainder := leaf_count mod 2 in
  let pair_count := (leaf_count - remainder) / 2 in
  st ← for_range 0 pair_count (λ k st, combine (2 * k) (2 * k + 1) k st) st;
  if remainder =? 0 then Done (pair_count, st)
  else
    st ← combine (leaf_count - 1) (leaf_count - 1) pair_count st;
    Done (pair_count + 1, st).

(** [while (leaf_count > 1)]; [fuel] bounds the number of rounds *)
Fixpoint merkle_loop (fuel : nat) (leaf_count : Z) (st : mstate)
    : outcome mstate :=
  if 1 <? leaf_count then
    match fuel with
    | O => Hang
    | S fuel => '(leaf_count, st) ← merkle_round leaf_count st;
                merkle_loop fuel leaf_count st
    end
  else Done st.

Definition free (heap : gmap nat (list Z)) (p : nat)
    : outcome (gmap nat (list Z)) :=
  match heap !! p with Some _ => Done (delete p heap) | None => Undef end.

Section Merkle.
Context `{TxNames, Malloc}.

(** The context as [malloc] returns it. *)
Context (ctx0 : SHA256_CTX).

(** Node [i] is allocated at location [i], the buffer at location
    [tx_count]: distinct, as [malloc] returns them. *)
Definition merkle_alloc (tx_count : Z) : mstate :=
  let n := Z.to_nat tx_count in
  mk_mstate
    (gset_to_gmap (uninit "tree_hashes" SIZE_SHA256) (set_seq 0 (S n)))
    (seq 0 n) n ctx0.

(** the leaves: transaction [i] starts at [body_cursor] *)
Definition merkle_leaves (txs : list Z) (p tx_count : Z) (st : mstate)
    : outcome (Z * mstate) :=
  for_range 0 tx_count (λ i '(body_cursor, st),
    tx_size ← tx_get_size txs (p + body_cursor);
    ctx ← sha256_init (m_ctx st);
    ctx ← sha256_update ctx txs (p + body_cursor) tx_size;
    pi ← rd (m_tree st) i;
    bi ← load (m_heap st) pi;
    '(ctx, bi) ← sha256_final ctx bi;
    Done (w32 (body_cursor + tx_size),
          mk_mstate (<[pi := bi]> (m_heap st)) (m_tree st) (m_buffer st) ctx))
    (0, st).

(** [free(buffer)] and the loop freeing the nodes; [ctx] is freed too. *)
Definition merkle_free (tx_count : Z) (st : mstate)
    : outcome (gmap nat (list Z)) :=
  heap ← free (m_heap st) (m_buffer st);
  for_range 0 tx_count (λ i heap, pi ← rd (m_tree st) i; free heap pi) heap.

(** [txs] is [&txs[p]], [out] is [&out[q]].  Returns the heap of the
    allocations left and the buffer [out] points into. *)
Definition compute_merkle_root_heap (txs : list Z) (p tx_count : Z)
    (out : list Z) (q : Z) : outcome (gmap nat (list Z) * list Z) :=
  '(_, st) ← merkle_leaves txs p tx_count (merkle_alloc tx_count);
  st ← merkle_loop (Z.to_nat tx_count) tx_count st;
  p0 ← rd (m_tree st) 0;
  root ← load (m_heap st) p0;
  root ← memread root 0 SIZE_SHA256;
  out ← memwrite out q root;
  heap ← merkle_free tx_count st;
  Done (heap, out).

Definition compute_merkle_root (txs : list Z) (p tx_count : Z)
    (out : list Z) (q : Z) : outcome (list Z) :=
  '(_, out) ← compute_merkle_root_heap txs p tx_count out q;
  Done out.

End Merkle.

(** ** The root of a list of nodes *)

Definition node (a b : list Z) : list Z := digest (a ++ b).

(** one level: pairs, an odd last node paired with itself *)
Fixpoint merkle_level (l : list (list Z)) : list (list Z) :=
  match l with
  | a :: b :: l => node a b :: merkle_level l
  | [a] => [node a a]
  | [] => []
  end.

(** induction two elements at a time *)
Lemma list_pair_ind {A} (P : list A → Prop) :
  P [] → (∀ a, P [a]) → (∀ a b l, P l → P (a :: b :: l)) → ∀ l, P l.
Proof.
  intros H0 H1 H2 l. enough (P l ∧ ∀ a, P (a :: l)) as [? _] by done.
  induction l as [|b l [IH1 IH2]]; [by split; auto|].
  split; [apply IH2|intros a; by apply H2].
Qed.

Lemma length_merkle_level l :
  length (merkle_level l) = ((length l + 1) / 2)%nat.
Proof.
  induction l as [|a|a b l IH] using list_pair_ind; [done..|].
  cbn [merkle_level]. rewrite !length_cons, IH.
  replace (S (S (length l)) + 1)%nat with ((length l + 1) + 1 * 2)%nat by lia.
  by rewrite Nat.div_add by lia; lia.
Qed.

Lemma merkle_level_bytes l : Forall (Forall is_byte) (merkle_level l).
Proof.
  induction l as [|a|a b l IH] using list_pair_ind; cbn [merkle_level].
  - constructor.
  - apply Forall_singleton, digest_bytes.
  - constructor; [apply digest_bytes|exact IH].
Qed.

Equations? merkle_root (l : list (list Z)) : list Z by wf (length l) lt :=
  merkle_root [] := [];
  merkle_root [x] := x;
  merkle_root (x :: y :: l) := merkle_root (merkle_level (x :: y :: l)).
Proof.
  change (node x y :: merkle_level l) with (merkle_level (x :: y :: l)).
  rewrite length_merkle_level. cbn [length].
  apply Nat.Div0.div_lt_upper_bound; lia.
Qed.

Lemma merkle_root_level l :
  (2 ≤ length l)%nat → merkle_root l = merkle_root (merkle_level l).
Proof.
  destruct l as [|x [|y l]]; cbn [length]; try lia. intros _.
  by rewrite merkle_root_equation_3.
Qed.

Lemma merkle_level_lookup l i a b :
  l !! (2 * i)%nat = Some a → l !! (2 * i + 1)%nat = Some b →
  merkle_level l !! i = Some (node a b).
Proof.
  revert i. induction l as [|c|c d l IH] using list_pair_ind; intros [|i];
    try done.
  - by intros [= ->] [= ->].
  - replace (2 * S i)%nat with (S (S (2 * i))) by lia. apply IH.
Qed.

Lemma merkle_level_lookup_odd l i a :
  length l = (2 * i + 1)%nat → l !! (2 * i)%nat = Some a →
  merkle_level l !! i = Some (node a a).
Proof.
  revert i. induction l as [|c|c d l IH] using list_pair_ind; intros [|i] Hl;
    cbn [length] in Hl; try lia.
  - by intros [= ->].
  - replace (2 * S i)%nat with (S (S (2 * i))) by lia. apply IH. lia.
Qed.

(** ** States and lists of node values *)

Definition node_ok (v : list Z) : Prop := length v = 32%nat.

(** [st] holds the nodes [V]: the pointers and the buffer are distinct, they
    are all of the heap, and node [i] is [V !! i]. *)
Record rep (st : mstate) (V : list (list Z)) : Prop := {
  rep_tree : Forall2 (λ p v, m_heap st !! p = Some v) (m_tree st) V;
  rep_buffer : ∃ b, m_heap st !! m_buffer st = Some b ∧ node_ok b;
  rep_nodup : NoDup (m_buffer st :: m_tree st);
  rep_dom : dom (m_heap st) = list_to_set (m_buffer st :: m_tree st);
  rep_vals : Forall node_ok V;
  rep_ctx : length (ctx_data (m_ctx st)) = 64%nat ∧
            length (ctx_state (m_ctx st)) = 8%nat
}.

Lemma rep_length st V : rep st V → length (m_tree st) = length V.
Proof. intros Hr. apply (Forall2_length _ _ _ (rep_tree _ _ Hr)). Qed.

Lemma rep_lookup st V i v :
  rep st V → V !! i = Some v →
  ∃ p, m_tree st !! i = Some p ∧ m_heap st !! p = Some v.
Proof.
  intros Hr Hv. destruct (Forall2_lookup_r _ _ _ _ _ (rep_tree _ _ Hr) Hv)
    as (p & Hp & Hh). by exists p.
Qed.

(** Hashing the input of one [sha256_update] call, or of two, into a 32-byte
    allocation. *)
Lemma sha256_one ctx buf p len bs dest :
  length (ctx_data ctx) = 64%nat → length (ctx_state ctx) = 8%nat →
  memread buf p len = Done bs → Forall is_byte bs → len < 2 ^ 32 →
  node_ok dest →
  ∃ c0 c1 c2, sha256_init ctx = Done c0 ∧ sha256_update c0 buf p len = Done c1 ∧
    sha256_final c1 dest = Done (c2, digest bs) ∧
    length (ctx_data c2) = 64%nat ∧ length (ctx_state c2) = 8%nat.
Proof.
  intros H1 H2 Hm Hb Hl Hd.
  destruct (sha256_init_hashing ctx H1 H2) as (c0 & E0 & Hh0).
  destruct (sha256_update_hashing c0 buf p len bs [] [] Hh0 Hm Hb Hl)
    as (c1 & f1 & t1 & E1 & Hh1 & A1).
  destruct (sha256_final_hashing c1 f1 t1 dest Hh1) as (c2 & E2 & L2 & S2);
    [unfold node_ok in Hd; lia|].
  exists c0, c1, c2. split; [done|]. split; [done|].
  rewrite E2, A1. cbn [app]. rewrite patch_full by (rewrite length_digest; done).
  split; [done|]. split; [done|]. rewrite S2. apply hash_words_hash_value.
Qed.

Lemma sha256_pair ctx a b dest :
  length (ctx_data ctx) = 64%nat → length (ctx_state ctx) = 8%nat →
  node_ok a → Forall is_byte a → node_ok b → Forall is_byte b → node_ok dest →
  ∃ c0 c1 c2 c3, sha256_init ctx = Done c0 ∧
    sha256_update c0 a 0 SIZE_SHA256 = Done c1 ∧
    sha256_update c1 b 0 SIZE_SHA256 = Done c2 ∧
    sha256_final c2 dest = Done (c3, node a b) ∧
    length (ctx_data c3) = 64%nat ∧ length (ctx_state c3) = 8%nat.
Proof.
  intros H1 H2 La Ba Lb Bb Hd. unfold node_ok in *.
  assert (Hall : ∀ l : list Z, length l = 32%nat → memread l 0 SIZE_SHA256 = Done l).
  { intros l Hl. unfold SIZE_SHA256. rewrite memread_Done by lia.
    by rewrite Z2Nat.inj_0, drop_0, take_ge by lia. }
  destruct (sha256_init_hashing ctx H1 H2) as (c0 & E0 & Hh0).
  destruct (sha256_update_hashing c0 a 0 SIZE_SHA256 a [] [] Hh0 (Hall a La) Ba)
    as (c1 & f1 & t1 & E1 & Hh1 & A1); [done|].
  destruct (sha256_update_hashing c1 b 0 SIZE_SHA256 b f1 t1 Hh1 (Hall b Lb) Bb)
    as (c2 & f2 & t2 & E2 & Hh2 & A2); [done|].
  destruct (sha256_final_hashing c2 f2 t2 dest Hh2) as (c3 & E3 & L3 & S3);
    [lia|].
  exists c0, c1, c2, c3. do 3 (split; [done|]).
  rewrite E3, A2, app_assoc, A1. cbn [app].
  rewrite patch_full by (rewrite length_digest; done).
  split; [done|]. split; [done|]. rewrite S3. apply hash_words_hash_value.
Qed.

(** Exchanging the buffer with entry [k] of the pointers. *)
Lemma swap_permutation (tree : list nat) b k t :
  tree !! k = Some t → t :: <[k := b]> tree ≡ₚ b :: tree.
Proof.
  intros Hk. pose proof (lookup_lt_Some _ _ _ Hk).
  rewrite insert_take_drop by done. rewrite <- (take_drop_middle _ _ _ Hk) at 3.
  rewrite <- !Permutation_middle. apply Permutation_swap.
Qed.

(** Hash nodes [i] and [j] into the buffer and swap it in as node [k]: a plain
    update of the list of node values. *)
(** The hash of two nodes goes to the spare buffer. *)
Lemma hash_pair_run st V i j a b :
  rep st V → V !! i = Some a → Forall is_byte a →
  V !! j = Some b → Forall is_byte b →
  ∃ c, hash_pair (Z.of_nat i) (Z.of_nat j) st =
      Done (mk_mstate (<[m_buffer st := node a b]> (m_heap st)) (m_tree st)
              (m_buffer st) c) ∧
    length (ctx_data c) = 64%nat ∧ length (ctx_state c) = 8%nat.
Proof.
  intros Hr Ha Ba Hb Bb.
  destruct (rep_lookup _ _ _ _ Hr Ha) as (pi & Hpi & Hhi).
  destruct (rep_lookup _ _ _ _ Hr Hb) as (pj & Hpj & Hhj).
  destruct (rep_buffer _ _ Hr) as (bb & Hbb & Lbb).
  destruct (rep_ctx _ _ Hr) as [C1 C2].
  destruct (sha256_pair (m_ctx st) a b bb C1 C2)
    as (c0 & c1 & c2 & c3 & E0 & E1 & E2 & E3 & C3 & C4);
    [exact (Forall_lookup_1 _ _ _ _ (rep_vals _ _ Hr) Ha)|done
    |exact (Forall_lookup_1 _ _ _ _ (rep_vals _ _ Hr) Hb)|done|done|].
  exists c3. split; [|done]. unfold hash_pair, load.
  rewrite E0, bind_Done, (rd_nat _ _ _ Hpi), bind_Done, Hhi, bind_Done.
  rewrite E1, bind_Done, (rd_nat _ _ _ Hpj), bind_Done, Hhj, bind_Done.
  by rewrite E2, bind_Done, Hbb, bind_Done, E3.
Qed.

(** The spare buffer holds [x] and takes the place of slot [k]. *)
Lemma swap_buffer_rep st V k x c :
  rep st V → (k < length V)%nat → node_ok x →
  length (ctx_data c) = 64%nat → length (ctx_state c) = 8%nat →
  ∃ st', swap_buffer (Z.of_nat k) (mk_mstate (<[m_buffer st := x]> (m_heap st))
           (m_tree st) (m_buffer st) c) = Done st' ∧ rep st' (<[k := x]> V).
Proof.
  intros Hr Hk Hx C3 C4. pose proof (rep_length _ _ Hr) as HL.
  destruct (lookup_lt_is_Some_2 (m_tree st) k) as [t Ht]; [lia|].
  unfold swap_buffer. cbn [m_tree m_heap m_buffer m_ctx].
  rewrite (rd_nat _ _ _ Ht), bind_Done, wr_Done, bind_Done by lia.
  rewrite Nat2Z.id. eexists. split; [reflexivity|].
  pose proof (rep_nodup _ _ Hr) as Hnd.
  pose proof (swap_permutation (m_tree st) (m_buffer st) k t Ht) as Hperm.
  assert (Hkeep : ∀ l p v, m_tree st !! l = Some p → V !! l = Some v →
    <[m_buffer st := x]> (m_heap st) !! p = Some v).
  { intros l p v Hp Hv. rewrite lookup_insert_ne.
    - exact (Forall2_lookup_lr _ _ _ _ _ _ (rep_tree _ _ Hr) Hp Hv).
    - intros <-. apply NoDup_cons in Hnd as [Hnin _].
      apply Hnin. by eapply list_elem_of_lookup_2. }
  split; cbn [m_tree m_heap m_buffer m_ctx].
  - apply Forall2_insert; [|by rewrite lookup_insert_eq].
    apply Forall2_same_length_lookup. split; [done|]. intros l p v. apply Hkeep.
  - destruct (lookup_lt_is_Some_2 V k Hk) as [v Hv]. exists v.
    split; [by eapply Hkeep|exact (Forall_lookup_1 _ _ _ _ (rep_vals _ _ Hr) Hv)].
  - by rewrite Hperm.
  - rewrite dom_insert_L, (rep_dom _ _ Hr).
    rewrite (list_to_set_perm_L _ _ Hperm). set_solver.
  - apply Forall_insert; [apply Hr|done].
  - done.
Qed.

Lemma combine_rep st V i j k a b :
  rep st V → V !! i = Some a → Forall is_byte a →
  V !! j = Some b → Forall is_byte b → (k < length V)%nat →
  ∃ st', combine (Z.of_nat i) (Z.of_nat j) (Z.of_nat k) st = Done st' ∧
    rep st' (<[k := node a b]> V).
Proof.
  intros Hr Ha Ba Hb Bb Hk. unfold combine.
  destruct (hash_pair_run st V i j a b) as (c & -> & C3 & C4); [done..|].
  rewrite bind_Done. apply swap_buffer_rep; try done. apply length_digest.
Qed.

(** ** The rounds *)

(** After [k] nodes of the next level: they are in front, nothing behind them
    has changed. *)
Definition level_prefix (V next : list (list Z)) (k : nat)
    (V' : list (list Z)) : Prop :=
  length V' = length V ∧ take k V' = take k next ∧ drop k V' = drop k V.

Lemma level_prefix_S V next k V' x :
  level_prefix V next k V' → next !! k = Some x → (k < length V)%nat →
  level_prefix V next (S k) (<[k := x]> V').
Proof.
  intros (L & T & D) Hx Hk. split; [by len|]. split.
  - rewrite (take_S_r _ _ _ Hx), <- T.
    rewrite (take_S_r _ _ x) by (apply list_lookup_insert_eq; lia).
    by rewrite take_insert_ge by lia.
  - rewrite drop_insert_lt by lia.
    replace (S k) with (k + 1)%nat by lia. rewrite <- !drop_drop. by rewrite D.
Qed.

Lemma level_prefix_lookup V next k V' i :
  level_prefix V next k V' → (k ≤ i)%nat → V' !! i = V !! i.
Proof.
  intros (_ & _ & D) Hi. replace i with (k + (i - k))%nat by lia.
  by rewrite <- !lookup_drop, D.
Qed.

Lemma leaf_lookup (V : list (list Z)) n i :
  (i < n)%nat → (n ≤ length V)%nat → Forall (Forall is_byte) (take n V) →
  ∃ v, V !! i = Some v ∧ take n V !! i = Some v ∧ Forall is_byte v.
Proof.
  intros Hi Hn HB. destruct (lookup_lt_is_Some_2 V i) as [v Hv]; [lia|].
  exists v. split; [done|].
  assert (Hv' : take n V !! i = Some v) by (rewrite lookup_take_lt; done).
  split; [done|]. exact (Forall_lookup_1 _ _ _ _ HB Hv').
Qed.

(** The loop over the pairs. *)
Lemma merkle_pairs_rep st V n :
  rep st V → (n ≤ length V)%nat → Forall (Forall is_byte) (take n V) →
  ∃ st' V', for_range 0 (Z.of_nat (n / 2))
      (λ k st, combine (2 * k) (2 * k + 1) k st) st = Done st' ∧
    rep st' V' ∧ level_prefix V (merkle_level (take n V)) (n / 2) V'.
Proof.
  intros Hr Hn HB. pose proof (Nat.div_mod_eq n 2) as Hdm.
  destruct (for_range_inv (λ k s, ∃ V', rep s V' ∧
      level_prefix V (merkle_level (take n V)) (Z.to_nat k) V') 0 (Z.of_nat (n / 2))
    (λ k st, combine (2 * k) (2 * k + 1) k st) st)
    as (s1 & E1 & V1 & R1 & P1); [apply Nat2Z.is_nonneg|by exists V| |].
  2: { rewrite Nat2Z.id in P1. by exists s1, V1. }
  intros k s Hk (V' & R' & P').
  destruct (leaf_lookup V n (2 * Z.to_nat k)) as (a & Va & Ta & Ba); [lia..|done|].
  destruct (leaf_lookup V n (2 * Z.to_nat k + 1)) as (b & Vb & Tb & Bb); [lia..|done|].
  destruct (combine_rep s V' (2 * Z.to_nat k) (2 * Z.to_nat k + 1)
    (Z.to_nat k) a b R') as (s' & E & R''); try done.
  { by rewrite (level_prefix_lookup _ _ _ _ _ P') by lia. }
  { by rewrite (level_prefix_lookup _ _ _ _ _ P') by lia. }
  { destruct P' as [-> _]. lia. }
  exists s'. split.
  { rewrite <- E. f_equal; lia. }
  eexists. split; [exact R''|].
  replace (Z.to_nat (k + 1)) with (S (Z.to_nat k)) by lia.
  apply level_prefix_S; [done| |lia]. by apply merkle_level_lookup.
Qed.

Lemma merkle_round_rep st V n :
  rep st V → (2 ≤ n ≤ length V)%nat → Forall (Forall is_byte) (take n V) →
  ∃ st' V', merkle_round (Z.of_nat n) st = Done (Z.of_nat ((n + 1) / 2), st') ∧
    rep st' V' ∧ length V' = length V ∧
    take ((n + 1) / 2) V' = merkle_level (take n V).
Proof.
  intros Hr Hn HB. set (next := merkle_level (take n V)).
  assert (LT : length (take n V) = n) by (len; lia).
  assert (Lnext : length next = ((n + 1) / 2)%nat)
    by (unfold next; rewrite length_merkle_level, LT; done).
  pose proof (Nat.div_mod_eq n 2) as Hdm.
  pose proof (Nat.mod_upper_bound n 2 ltac:(lia)) as Hmb.
  assert (Hhalf : ((n + 1) / 2 = n / 2 + n mod 2)%nat)
    by (symmetry; apply (Nat.div_unique _ 2 _ (1 - n mod 2)); lia).
  unfold merkle_round.
  replace (Z.of_nat n mod 2) with (Z.of_nat (n mod 2)) by (rewrite Nat2Z.inj_mod; done).
  replace ((Z.of_nat n - Z.of_nat (n mod 2)) / 2) with (Z.of_nat (n / 2))
    by (apply Z.div_unique_exact; lia).
  destruct (merkle_pairs_rep st V n) as (s1 & V1 & -> & R1 & P1); [done|lia|done|].
  rewrite bind_Done. fold next in P1. rewrite Hhalf in *.
  destruct (Z.eqb_spec (Z.of_nat (n mod 2)) 0) as [H0|H1].
  - replace (n mod 2)%nat with 0%nat in * by lia. rewrite Nat.add_0_r in *.
    exists s1, V1. destruct P1 as (L1 & T1 & _).
    split; [done|]. split; [done|]. split; [done|]. rewrite T1. apply take_ge. lia.
  - replace (n mod 2)%nat with 1%nat in * by lia. rewrite Nat.add_1_r in *.
    destruct (leaf_lookup V n (n - 1)) as (a & Va & Ta & Ba); [lia..|done|].
    assert (V1 !! (n - 1)%nat = Some a) as V1a
      by (rewrite (level_prefix_lookup _ _ _ _ _ P1) by lia; done).
    destruct (combine_rep s1 V1 (n - 1) (n - 1) (n / 2) a a R1 V1a Ba V1a Ba)
      as (s2 & E2 & R2); [destruct P1 as [-> _]; lia|].
    replace (Z.of_nat (n - 1)) with (Z.of_nat n - 1) in E2 by lia.
    rewrite E2, bind_Done.
    assert (Hx : next !! (n / 2)%nat = Some (node a a))
      by (apply merkle_level_lookup_odd; [lia|]; rewrite <- Ta; f_equal; lia).
    destruct (level_prefix_S _ _ _ _ _ P1 Hx) as (L2 & T2 & _); [lia|].
    eexists s2, _. split; [do 2 f_equal; lia|]. split; [exact R2|].
    split; [done|]. rewrite T2. apply take_ge. lia.
Qed.

Lemma merkle_loop_rep fuel : ∀ st V n,
  rep st V → (1 ≤ n ≤ length V)%nat → (n ≤ fuel)%nat →
  Forall (Forall is_byte) (take n V) →
  ∃ st' V', merkle_loop fuel (Z.of_nat n) st = Done st' ∧ rep st' V' ∧
    length V' = length V ∧ V' !! 0%nat = Some (merkle_root (take n V)).
Proof.
  induction fuel as [|fuel IH]; intros st V n Hr Hn Hf HB; [lia|].
  cbn [merkle_loop]. destruct (Z.ltb_spec 1 (Z.of_nat n)) as [H1|H1].
  - destruct (merkle_round_rep st V n Hr) as (s1 & V1 & E1 & R1 & L1 & T1);
      [lia|done|].
    rewrite E1. cbn [mbind outcome_bind].
    assert ((n + 1) / 2 < n ∧ 1 ≤ (n + 1) / 2)%nat as [Hlt Hge].
    { split; [apply Nat.Div0.div_lt_upper_bound; lia|].
      apply Nat.div_le_lower_bound; lia. }
    destruct (IH s1 V1 ((n + 1) / 2)%nat R1) as (s2 & V2 & E2 & R2 & L2 & Hd2);
      [lia|lia| |].
    { rewrite T1. apply merkle_level_bytes. }
    exists s2, V2. split; [done|]. split; [done|]. split; [lia|].
    rewrite Hd2, T1. f_equal. symmetry. apply merkle_root_level. len. lia.
  - assert (n = 1%nat) as -> by lia.
    destruct V as [|v V]; [cbn in Hn; lia|].
    exists st, (v :: V). split; [done|]. split; [done|]. split; [done|].
    cbn. by rewrite merkle_root_equation_2.
Qed.

(** ** Allocation, leaves, deallocation *)

(** A store through pointer [i]. *)
Lemma store_rep st V i p v ctx :
  rep st V → m_tree st !! i = Some p → node_ok v →
  length (ctx_data ctx) = 64%nat → length (ctx_state ctx) = 8%nat →
  rep (mk_mstate (<[p := v]> (m_heap st)) (m_tree st) (m_buffer st) ctx)
      (<[i := v]> V).
Proof.
  intros Hr Hp Hv C1 C2. pose proof (rep_nodup _ _ Hr) as Hnd.
  pose proof (proj1 (NoDup_cons _ _) Hnd) as [Hnin Hnd'].
  pose proof (list_elem_of_lookup_2 _ _ _ Hp) as Hin.
  split; cbn [m_heap m_tree m_buffer m_ctx]; [| |done| | |done].
  - apply Forall2_same_length_lookup.
    split; [len; by apply rep_length|]. intros j p' v' Hp' Hv'.
    rewrite list_lookup_insert in Hv'. case_decide as Hj.
    + injection Hv' as <-. destruct Hj as [<- _].
      assert (p' = p) as -> by congruence. apply lookup_insert_eq.
    + rewrite lookup_insert_ne.
      * exact (Forall2_lookup_lr _ _ _ _ _ _ (rep_tree _ _ Hr) Hp' Hv').
      * intros <-. apply Hj. split; [exact (NoDup_lookup _ _ _ _ Hnd' Hp Hp')|].
        rewrite <- (rep_length _ _ Hr). by eapply lookup_lt_Some.
  - destruct (rep_buffer _ _ Hr) as (b & Hb & Lb). exists b. split; [|done].
    rewrite lookup_insert_ne; [done|]. intros E. apply Hnin. by rewrite <- E.
  - rewrite dom_insert_L, (rep_dom _ _ Hr). set_solver.
  - apply Forall_insert; [apply Hr|done].
Qed.

Lemma merkle_root_duplicate_last l x :
  Nat.Odd (length (l ++ [x])) → l ≠ [] →
  merkle_root (l ++ [x; x]) = merkle_root (l ++ [x]).
Proof.
  intros Hodd Hne.
  assert (H2 : (2 ≤ length (l ++ [x]))%nat).
  { destruct l; [done|]. len. destruct Hodd as [m Hm]. revert Hm. len. lia. }
  rewrite (merkle_root_level (l ++ [x; x])), (merkle_root_level (l ++ [x]))
    by (revert H2; len; lia). f_equal.
  clear H2 Hne. revert Hodd.
  induction l as [|a|a b l IH] using list_pair_ind; intros Hodd.
  - done.
  - destruct Hodd as [m Hm]. cbn in Hm. lia.
  - cbn [app merkle_level]. rewrite IH; [done|].
    destruct Hodd as [m Hm]. exists (m - 1)%nat. revert Hm. cbn [app]. len. lia.
Qed.

Section MerkleCorrect.
Context `{TxNames, Malloc}.
Context (ctx0 : SHA256_CTX).
Context (Hctx : length (ctx_data ctx0) = 64%nat ∧ length (ctx_state ctx0) = 8%nat).

Lemma merkle_alloc_rep (n : nat) :
  ∃ V, rep (merkle_alloc ctx0 (Z.of_nat n)) V ∧ length V = n.
Proof.
  assert (Hu : node_ok (uninit "tree_hashes" SIZE_SHA256)).
  { pose proof (length_uninit "tree_hashes" SIZE_SHA256 ltac:(done)) as Hl.
    unfold node_ok, SIZE_SHA256 in *. lia. }
  exists (replicate n (uninit "tree_hashes" SIZE_SHA256)).
  split; [|apply length_replicate].
  unfold merkle_alloc. rewrite Nat2Z.id.
  split; cbn [m_heap m_tree m_buffer m_ctx].
  - apply Forall2_same_length_lookup. rewrite length_seq, length_replicate.
    split; [done|]. intros i p v [-> Hi]%lookup_seq [-> _]%lookup_replicate.
    apply lookup_gset_to_gmap_Some. split; [|done]. apply elem_of_set_seq. lia.
  - eexists. split; [|exact Hu]. apply lookup_gset_to_gmap_Some.
    split; [|done]. apply elem_of_set_seq. lia.
  - constructor; [|apply NoDup_seq]. rewrite elem_of_seq. lia.
  - rewrite dom_gset_to_gmap. apply set_eq. intros x.
    rewrite elem_of_set_seq, elem_of_list_to_set, elem_of_cons, elem_of_seq. lia.
  - by apply Forall_replicate.
  - done.
Qed.

(** the bytes of the transactions before transaction [i] *)
Definition tx_offset (ts : list (list Z)) (i : nat) : nat :=
  length (concat (take i ts)).

(** [txs] holds the transactions [ts] at [p], and [tx_get_size] finds their
    lengths. *)
Definition txs_at (txs : list Z) (p : Z) (ts : list (list Z)) : Prop :=
  memread txs p (Z.of_nat (length (concat ts))) = Done (concat ts) ∧
  Forall (Forall is_byte) ts ∧ Z.of_nat (length (concat ts)) < 2 ^ 32 ∧
  ∀ i t, ts !! i = Some t →
    tx_get_size txs (p + Z.of_nat (tx_offset ts i)) = Done (Z.of_nat (length t)).

Lemma tx_offset_S ts i t :
  ts !! i = Some t → tx_offset ts (S i) = (tx_offset ts i + length t)%nat.
Proof.
  intros Ht. unfold tx_offset. rewrite (take_S_r _ _ _ Ht), concat_app. cbn.
  by rewrite app_nil_r, length_app.
Qed.

Lemma concat_split (ts : list (list Z)) i t :
  ts !! i = Some t →
  concat ts = concat (take i ts) ++ t ++ concat (drop (S i) ts).
Proof.
  intros Ht. rewrite <- (take_drop_middle _ _ _ Ht) at 1.
  by rewrite concat_app, concat_cons.
Qed.

Lemma merkle_leaves_rep txs p ts st V :
  txs_at txs p ts → rep st V → length V = length ts →
  ∃ c st', merkle_leaves txs p (Z.of_nat (length ts)) st = Done (c, st') ∧
    rep st' (digest <$> ts).
Proof.
  intros (Hm & HB & Hlt & Hsize) Hr HL. unfold merkle_leaves.
  match goal with |- context [for_range 0 ?n ?body ?s0] =>
    destruct (for_range_inv (λ i '(c, s), c = Z.of_nat (tx_offset ts (Z.to_nat i)) ∧
        ∃ V', rep s V' ∧ length V' = length ts ∧
          take (Z.to_nat i) V' = digest <$> take (Z.to_nat i) ts) 0 n body s0)
      as ([c st'] & E & _ & V' & R' & L' & T'); [lia|by eauto| |]
  end.
  { intros i [c s] Hi (-> & V' & R' & L' & T').
    destruct (lookup_lt_is_Some_2 ts (Z.to_nat i)) as [t Ht]; [lia|].
    pose proof (tx_offset_S _ _ _ Ht) as HS.
    pose proof (concat_split _ _ _ Ht) as Hc.
    assert (Hoff : (tx_offset ts (Z.to_nat i) + length t ≤ length (concat ts))%nat).
    { rewrite Hc, !length_app. unfold tx_offset. lia. }
    rewrite (Hsize _ _ Ht). cbn [mbind outcome_bind].
    destruct (lookup_lt_is_Some_2 (m_tree s) (Z.to_nat i)) as [pi Hpi];
      [rewrite (rep_length _ _ R'); lia|].
    destruct (lookup_lt_is_Some_2 V' (Z.to_nat i)) as [b Hb]; [lia|].
    pose proof (Forall2_lookup_lr _ _ _ _ _ _ (rep_tree _ _ R') Hpi Hb) as Hpb.
    destruct (rep_ctx _ _ R') as [C1 C2].
    destruct (sha256_one (m_ctx s) txs (p + Z.of_nat (tx_offset ts (Z.to_nat i)))
      (Z.of_nat (length t)) t b C1 C2)
      as (c0 & c1 & c2 & -> & E1 & E2 & C3 & C4).
    { rewrite (memread_sub _ _ _ _ _ _ Hm) by lia. rewrite !Nat2Z.id, Hc.
      unfold tx_offset. by rewrite drop_app_length, take_app_length. }
    { exact (Forall_lookup_1 _ _ _ _ HB Ht). }
    { lia. }
    { exact (Forall_lookup_1 _ _ _ _ (rep_vals _ _ R') Hb). }
    cbn [mbind outcome_bind]. rewrite E1. cbn [mbind outcome_bind].
    rewrite (rd_Done _ _ _ (proj1 Hi) Hpi). cbn [mbind outcome_bind].
    unfold load. rewrite Hpb. cbn [mbind outcome_bind].
    rewrite E2. cbn [mbind outcome_bind]. eexists. split; [reflexivity|].
    replace (Z.to_nat (i + 1)) with (S (Z.to_nat i)) by lia.
    split; [rewrite w32_id; lia|].
    eexists. split; [apply store_rep; try done; apply length_digest|].
    split; [by len|].
    rewrite (take_S_r _ _ (digest t)) by (apply list_lookup_insert_eq; lia).
    by rewrite take_insert_ge, T', (take_S_r _ _ _ Ht), fmap_app by lia. }
  exists c, st'. split; [exact E|]. rewrite Nat2Z.id in T'.
  rewrite !take_ge in T' by lia. by subst V'.
Qed.

Lemma merkle_free_rep st V :
  rep st V → merkle_free (Z.of_nat (length V)) st = Done ∅.
Proof.
  intros Hr. unfold merkle_free, free.
  destruct (rep_buffer _ _ Hr) as (b & -> & _). cbn [mbind outcome_bind].
  pose proof (proj1 (NoDup_cons _ _) (rep_nodup _ _ Hr)) as [Hnin Hnd].
  match goal with |- for_range 0 ?n ?body ?s0 = _ =>
    destruct (for_range_inv (λ i (h : gmap nat (list Z)),
      dom h = list_to_set (drop (Z.to_nat i) (m_tree st))) 0 n body s0)
      as (h & E & D); [lia| | |]
  end.
  { rewrite dom_delete_L, (rep_dom _ _ Hr), Z2Nat.inj_0, drop_0. set_solver. }
  { intros i h Hi D.
    destruct (lookup_lt_is_Some_2 (m_tree st) (Z.to_nat i)) as [pi Hpi];
      [rewrite (rep_length _ _ Hr); lia|].
    rewrite (rd_Done _ _ _ (proj1 Hi) Hpi). cbn [mbind outcome_bind].
    rewrite (drop_S _ _ _ Hpi) in D.
    assert (is_Some (h !! pi)) as [v ->].
    { apply elem_of_dom. rewrite D. set_solver. }
    eexists. split; [done|]. rewrite dom_delete_L, D.
    replace (Z.to_nat (i + 1)) with (S (Z.to_nat i)) by lia.
    assert (pi ∉ drop (S (Z.to_nat i)) (m_tree st)).
    { rewrite <- (take_drop_middle _ _ _ Hpi) in Hnd.
      apply NoDup_app in Hnd as (_ & _ & Hnd).
      by apply NoDup_cons in Hnd as [? _]. }
    set_solver. }
  rewrite E. f_equal. apply dom_empty_iff_L.
  rewrite D, Nat2Z.id, drop_ge by (rewrite (rep_length _ _ Hr); lia). done.
Qed.

Lemma compute_merkle_root_run txs p ts out q :
  ts ≠ [] → txs_at txs p ts → 0 ≤ q →
  q + SIZE_SHA256 ≤ Z.of_nat (length out) →
  compute_merkle_root_heap ctx0 txs p (Z.of_nat (length ts)) out q =
    Done (∅, patch out (Z.to_nat q) (merkle_root (digest <$> ts))).
Proof.
  intros Hne Htx Hq Hout.
  destruct (merkle_alloc_rep (length ts)) as (V0 & R0 & L0).
  destruct (merkle_leaves_rep txs p ts _ V0 Htx R0 L0) as (c & s1 & E1 & R1).
  assert (Hn : (1 ≤ length ts)%nat) by (destruct ts; [done|cbn; lia]).
  destruct (merkle_loop_rep (length ts) s1 (digest <$> ts) (length ts) R1)
    as (s2 & V2 & E2 & R2 & L2 & H2); [len; lia|lia| |].
  { apply Forall_take, Forall_fmap, Forall_forall. intros t _. apply digest_bytes. }
  rewrite take_ge in H2 by (len; lia).
  unfold compute_merkle_root_heap. rewrite E1. cbn [mbind outcome_bind].
  rewrite Nat2Z.id, E2. cbn [mbind outcome_bind].
  destruct (rep_lookup _ _ _ _ R2 H2) as (p0 & Hp0 & Hh0).
  rewrite (rd_Done _ 0 p0) by (done || lia). cbn [mbind outcome_bind].
  unfold load. rewrite Hh0. cbn [mbind outcome_bind].
  pose proof (Forall_lookup_1 _ _ _ _ (rep_vals _ _ R2) H2) as Hok.
  unfold node_ok, SIZE_SHA256 in *.
  rewrite memread_Done by lia. cbn [mbind outcome_bind].
  rewrite Z2Nat.inj_0, drop_0, take_ge by lia.
  rewrite memwrite_Done by lia. cbn [mbind outcome_bind].
  assert (Lv : length V2 = length ts) by (rewrite L2; by len).
  rewrite <- Lv, (merkle_free_rep s2 V2 R2). done.
Qed.

(** C2: On a body of one or more transactions, compute_merkle_root terminates,
    stores at out exactly the root of the recursive definition (pairs hashed
    together, an odd last node with itself) over the transaction hashes, and
    frees every node and the buffer exactly once, although it swaps the
    pointers of the tree with the buffer in place. *)
Theorem compute_merkle_root_correct txs p ts out q :
  ts ≠ [] → txs_at txs p ts → 0 ≤ q →
  q + SIZE_SHA256 ≤ Z.of_nat (length out) →
  compute_merkle_root_heap ctx0 txs p (Z.of_nat (length ts)) out q =
    Done (∅, patch out (Z.to_nat q) (merkle_root (digest <$> ts))).
Proof. apply compute_merkle_root_run. Qed.

(** C38: An odd number of transactions, at least three, and the same
    transactions with the last one repeated have the same Merkle root:
    compute_merkle_root does not separate the two bodies. *)
Theorem compute_merkle_root_duplicate txs txs' p p' ts t out q :
  Nat.Even (length ts) → ts ≠ [] →
  txs_at txs p (ts ++ [t]) → txs_at txs' p' (ts ++ [t; t]) →
  0 ≤ q → q + SIZE_SHA256 ≤ Z.of_nat (length out) →
  ∃ out',
    compute_merkle_root ctx0 txs p (Z.of_nat (length ts + 1)) out q = Done out' ∧
    compute_merkle_root ctx0 txs' p' (Z.of_nat (length ts + 2)) out q = Done out'.
Proof.
  intros [m Hm] Hne T1 T2 Hq Hout. unfold compute_merkle_root.
  pose proof (compute_merkle_root_run txs p (ts ++ [t]) out q) as R1.
  pose proof (compute_merkle_root_run txs' p' (ts ++ [t; t]) out q) as R2.
  rewrite length_app in R1, R2. cbn [length] in R1, R2.
  rewrite R1, R2 by (done || by destruct ts). cbn [mbind outcome_bind].
  eexists. split; [done|]. rewrite !fmap_app. cbn [fmap list_fmap].
  rewrite merkle_root_duplicate_last; [done| |by destruct ts].
  exists m. len. cbn [length]. lia.
Qed.

End MerkleCorrect.

(** ** Instances *)

(** a transaction of no inputs and no outputs *)
Definition sample_tx (lock_time : Z) : list Z :=
  [0; 1; 0; 0; 0; 0; 0; 0; 0; lock_time].

Tactic Notation "sample_txs_at" integer(n) :=
  split; [reflexivity|]; split; [decided|]; split; [reflexivity|];
  intros i t; do n (destruct i as [|i]; [intros [= <-]; reflexivity|]);
  discriminate.

Lemma compute_merkle_root_correct_witness :
  let ts := sample_tx <$> [7; 8] in
  @compute_merkle_root_heap sample_names sample_malloc ctx_junk
    (99 :: concat ts) 1 (Z.of_nat (length ts)) (replicate 40 0) 3 =
    Done (∅, patch (replicate 40 0) (Z.to_nat 3) (merkle_root (digest <$> ts))).
Proof.
  apply (@compute_merkle_root_correct sample_names sample_malloc ctx_junk
    (conj eq_refl eq_refl) (99 :: concat (sample_tx <$> [7; 8])) 1
    (sample_tx <$> [7; 8]) (replicate 40 0) 3);
    [discriminate|sample_txs_at 2|lia|vm_compute; discriminate].
Defined.

Lemma compute_merkle_root_duplicate_witness :
  let ts := sample_tx <$> [1; 2] in let t := sample_tx 3 in
  ∃ out',
    @compute_merkle_root sample_names sample_malloc ctx_junk
      (concat (ts ++ [t])) 0 (Z.of_nat (length ts + 1)) (replicate 32 0) 0
      = Done out' ∧
    @compute_merkle_root sample_names sample_malloc ctx_junk
      (concat (ts ++ [t; t])) 0 (Z.of_nat (length ts + 2)) (replicate 32 0) 0
      = Done out'.
Proof.
  apply (@compute_merkle_root_duplicate sample_names sample_malloc ctx_junk
    (conj eq_refl eq_refl) (concat ((sample_tx <$> [1; 2]) ++ [sample_tx 3]))
    (concat ((sample_tx <$> [1; 2]) ++ [sample_tx 3; sample_tx 3])) 0 0
    (sample_tx <$> [1; 2]) (sample_tx 3) (replicate 32 0) 0);
    [by exists 1%nat|discriminate|sample_txs_at 3|sample_txs_at 4|lia
    |vm_compute; discriminate].
Defined.
