(* ===== verification/Blocks.v ===== *)
(** * src/blocks.c: serialised blocks

    A block is a buffer: an 83-byte header (picture at the top of blocks.c)
    and a body of transactions.  Three of the functions use a variable [dest]
    that they do not declare: it is an argument here, and the theorems say
    when it stands for the block.  [block_compute_size] stores the address
    [&dest[POS_BLOCK_TX_COUNT]] in an [uchar]; the address is a number, its
    low byte is the count of the loop. *)
From S2P Require Import Prelude Shared Util Crypto Unresolved Transactions Merkle.

Section Blocks.
Context `{Host, TxNames, Malloc}.

(** ** The operations *)

(** [&dest[0]] is [(dest, p)]; [uitob(height, &dest[POS_BLOCK_HEIGHT)] is
    read with its bracket closed. *)
Definition block_add_header (time height : Z) (prev_hash : list Z) (target : Z)
    (dest : list Z) (p : Z) : outcome (list Z) :=
  dest ← ustob (w16 __VERSION__) dest (p + POS_BLOCK_VERSION);
  dest ← uitob time dest (p + POS_BLOCK_TIME);
  dest ← uitob height dest (p + POS_BLOCK_HEIGHT);
  src ← memread prev_hash 0 SIZE_SHA256;
  dest ← memwrite dest (p + POS_BLOCK_PREV_HASH) src;
  dest ← memset dest (p + POS_BLOCK_MERKLE_ROOT) 0 SIZE_SHA256;
  dest ← wr dest (p + POS_BLOCK_TARGET) target;
  dest ← uitob 0 dest (p + POS_BLOCK_NONCE);
  uitob 0 dest (p + POS_BLOCK_TX_COUNT).

Definition block_inc_nonce (block : list Z) : outcome (list Z) :=
  nonce ← btoui block POS_BLOCK_NONCE;
  uitob (w32 (nonce + 1)) block POS_BLOCK_NONCE.

(** [compute_merkle_root] reads [txs] only before it stores the root, so the
    block can be both. *)
Definition block_update_root (ctx0 : SHA256_CTX) (dest block : list Z)
    : outcome (list Z) :=
  tx_count ← btoui dest POS_BLOCK_TX_COUNT;
  compute_merkle_root ctx0 block POS_BLOCK_BODY tx_count
    block POS_BLOCK_MERKLE_ROOT.

(** [dest_addr] is the address in [dest]; [block] is [&block[p]]. *)
Definition block_compute_size (dest_addr : Z) (block : list Z) (p : Z)
    : outcome Z :=
  let tx_count := w8 (dest_addr + POS_BLOCK_TX_COUNT) in
  for_range 0 tx_count (λ _ cursor,
    n ← tx_compute_size block (p + cursor);
    Done (w32 (cursor + n))) SIZE_BLOCK_HEADER.

Definition block_add_tx (dest_addr : Z) (block : list Z) (tx : M_tx)
    : outcome (list Z) :=
  size ← block_compute_size dest_addr block 0;
  if MAX_BLOCK_SIZE <=? w32 (size + tx_size tx) then Fatal
  else
    src ← memread (tx_data tx) 0 (tx_size tx);
    block ← memwrite block size src;
    tx_count ← btoui block POS_BLOCK_TX_COUNT;
    uitob (w32 (tx_count + 1)) block POS_BLOCK_TX_COUNT.

(** ** The header *)

Definition header_bytes (time height : Z) (prev_hash root : list Z)
    (target nonce tx_count : Z) : list Z :=
  be_bytes 2 __VERSION__ ++ be_bytes 4 time ++ be_bytes 4 height ++
  prev_hash ++ root ++ [target] ++ be_bytes 4 nonce ++ be_bytes 4 tx_count.

Lemma block_add_header_run time height prev_hash target dest p :
  length prev_hash = 32%nat → 0 ≤ p →
  p + SIZE_BLOCK_HEADER ≤ Z.of_nat (length dest) →
  block_add_header time height prev_hash target dest p =
    Done (patch dest (Z.to_nat p)
      (header_bytes time height prev_hash (replicate 32 0) target 0 0)).
Proof.
  unfold SIZE_BLOCK_HEADER. intros Hprev Hp Hd.
  unfold block_add_header, header_bytes.
  rewrite <- (patch_nil dest (Z.to_nat p)) at 1.
  unfold POS_BLOCK_VERSION, POS_BLOCK_TIME, POS_BLOCK_HEIGHT,
    POS_BLOCK_PREV_HASH, POS_BLOCK_MERKLE_ROOT, POS_BLOCK_TARGET,
    POS_BLOCK_NONCE, POS_BLOCK_TX_COUNT, SIZE_SHA256.
  assert (Hv : be_bytes 2 (w16 __VERSION__) = be_bytes 2 __VERSION__)
    by apply (be_bytes_mod 2).
  assert (Hr : memread prev_hash 0 32 = Done prev_hash).
  { rewrite memread_Done by lia. by rewrite Z2Nat.inj_0, drop_0, take_ge by lia. }
  rewrite ustob_patch by (len; lia). rewrite bind_Done.
  do 2 (rewrite uitob_patch by (len; lia); rewrite bind_Done).
  rewrite Hr, bind_Done, memwrite_patch by (len; lia).
  rewrite bind_Done, memset_patch by (len; lia).
  rewrite bind_Done, wr_patch_snoc by (len; lia).
  rewrite bind_Done, uitob_patch by (len; lia).
  rewrite bind_Done, uitob_patch by (len; lia).
  by rewrite Hv, <- !app_assoc.
Qed.

(** block_add_header writes the 83 bytes of the header picture, with a
    zero root, nonce and tx_count, and nothing else. *)
Theorem block_add_header_layout time height prev_hash target dest p :
  length prev_hash = 32%nat → 0 ≤ p →
  p + SIZE_BLOCK_HEADER ≤ Z.of_nat (length dest) →
  block_add_header time height prev_hash target dest p =
    Done (patch dest (Z.to_nat p)
      (header_bytes time height prev_hash (replicate 32 0) target 0 0)).
Proof. apply block_add_header_run. Qed.

(** what a field of four (two) bytes written big-endian reads as *)
Definition host32 (x : Z) : Z := if little_endian then bswap32 (w32 x) else w32 x.
Definition host16 (x : Z) : Z := if little_endian then bswap16 (w16 x) else w16 x.

Lemma btoui_be_bytes block p x :
  memread block p 4 = Done (be_bytes 4 x) → btoui block p = Done (host32 x).
Proof.
  intros Hr. rewrite (btoui_spec _ _ _ Hr (be_bytes_are_bytes _ _)), be_val_be_bytes.
  unfold host32, bswap32, w32. by rewrite <- (be_bytes_mod 4 x).
Qed.

Lemma btous_be_bytes block p x :
  memread block p 2 = Done (be_bytes 2 x) → btous block p = Done (host16 x).
Proof.
  intros Hr. rewrite (btous_spec _ _ _ Hr (be_bytes_are_bytes _ _)), be_val_be_bytes.
  unfold host16, bswap16, w16. by rewrite <- (be_bytes_mod 2 x).
Qed.

(** C25: The header block_add_header writes is read back by btous, btoui and
    memcpy at the positions of shared.h: the version, time and height in the
    byte order of the host, the previous hash and the target as given, a zero
    root, nonce and tx_count; nothing outside the 83 bytes changes. *)
Theorem block_header_roundtrip time height prev_hash target dest p :
  length prev_hash = 32%nat → 0 ≤ p →
  p + SIZE_BLOCK_HEADER ≤ Z.of_nat (length dest) →
  ∃ block, block_add_header time height prev_hash target dest p = Done block ∧
    btous block (p + POS_BLOCK_VERSION) = Done (host16 __VERSION__) ∧
    btoui block (p + POS_BLOCK_TIME) = Done (host32 time) ∧
    btoui block (p + POS_BLOCK_HEIGHT) = Done (host32 height) ∧
    memread block (p + POS_BLOCK_PREV_HASH) SIZE_SHA256 = Done prev_hash ∧
    memread block (p + POS_BLOCK_MERKLE_ROOT) SIZE_SHA256 = Done (replicate 32 0) ∧
    memread block (p + POS_BLOCK_TARGET) 1 = Done [target] ∧
    btoui block (p + POS_BLOCK_NONCE) = Done (host32 0) ∧
    btoui block (p + POS_BLOCK_TX_COUNT) = Done (host32 0) ∧
    take (Z.to_nat p) block = take (Z.to_nat p) dest ∧
    drop (Z.to_nat (p + SIZE_BLOCK_HEADER)) block =
      drop (Z.to_nat (p + SIZE_BLOCK_HEADER)) dest.
Proof.
  intros Hprev Hp Hd. rewrite block_add_header_run by done. unfold SIZE_BLOCK_HEADER in *.
  eexists. split; [done|].
  set (fields := [be_bytes 2 __VERSION__; be_bytes 4 time; be_bytes 4 height; prev_hash;
    replicate 32 0; [target]; be_bytes 4 0; be_bytes 4 0]).
  assert (Hh : header_bytes time height prev_hash (replicate 32 0) target 0 0 = concat fields).
  { unfold header_bytes, fields. cbn [concat]. by rewrite app_nil_r. }
  rewrite Hh.
  assert (Hl : length (concat fields) = 83%nat)
    by (rewrite <- Hh; unfold header_bytes; len; cbn; lia).
  assert (Hf : ∀ i f pos n, fields !! i = Some f →
    pos = Z.of_nat (length (concat (take i fields))) → n = Z.of_nat (length f) →
    memread (patch dest (Z.to_nat p) (concat fields)) (p + pos) n = Done f).
  { intros i f pos n Hi -> ->. rewrite (concat_split _ _ _ Hi) in *.
    apply memread_patch_in; [lia|done|lia]. }
  split_and!; try first [apply btous_be_bytes|apply btoui_be_bytes].
  - by apply (Hf 0%nat).
  - by apply (Hf 1%nat).
  - by apply (Hf 2%nat).
  - apply (Hf 3%nat); [done|done|]. by rewrite Hprev.
  - apply (Hf 4%nat); [done| |done]. cbn [take fields concat]. len. by rewrite Hprev.
  - apply (Hf 5%nat); [done| |done]. cbn [take fields concat]. len. by rewrite Hprev.
  - apply (Hf 6%nat); [done| |done]. cbn [take fields concat]. len. by rewrite Hprev.
  - apply (Hf 7%nat); [done| |done]. cbn [take fields concat]. len. by rewrite Hprev.
  - unfold patch. by rewrite take_app_le, take_take, Nat.min_id by (len; lia).
  - unfold patch. rewrite app_assoc, drop_app_ge by (len; lia).
    rewrite drop_drop. f_equal. len. lia.
Qed.

(** ** The nonce *)

(** what reading a 32-bit field, adding one and writing it back does to the
    number stored in it *)
Definition inc_field (x : Z) : Z :=
  w32 ((if little_endian then bswap32 x else x) + 1).

(** [block] with the nonce [x] *)
Definition with_nonce (block : list Z) (x : Z) : list Z :=
  patch block (Z.to_nat POS_BLOCK_NONCE) (be_bytes 4 x).

(** Adding one to a 32-bit field: what [btoui] followed by [uitob] does. *)
Lemma field_inc block q x :
  0 ≤ x < 2 ^ 32 → (q + 4 ≤ length block)%nat →
  (v ← btoui (patch block q (be_bytes 4 x)) (Z.of_nat q);
   uitob (w32 (v + 1)) (patch block q (be_bytes 4 x)) (Z.of_nat q)) =
  Done (patch block q (be_bytes 4 (inc_field x))).
Proof.
  intros Hx Hl.
  rewrite (btoui_spec _ _ (be_bytes 4 x))
    by (try apply be_bytes_are_bytes;
        apply memread_patch_same; rewrite ?length_be_bytes; lia).
  rewrite bind_Done, uitob_memwrite by (len; lia).
  rewrite memwrite_Done by (len; lia).
  rewrite Nat2Z.id. unfold inc_field, bswap32.
  replace (be_val (be_bytes 4 x)) with x
    by (rewrite be_val_be_bytes; symmetry; by apply Z.mod_small).
  f_equal. apply list_eq. intros i.
  rewrite !patch_lookup by (len; lia).
  rewrite !length_be_bytes. by case_decide.
Qed.

Lemma block_inc_nonce_run block x :
  0 ≤ x < 2 ^ 32 → SIZE_BLOCK_HEADER ≤ Z.of_nat (length block) →
  block_inc_nonce (with_nonce block x) = Done (with_nonce block (inc_field x)).
Proof.
  unfold SIZE_BLOCK_HEADER. intros Hx Hl.
  apply (field_inc block (Z.to_nat POS_BLOCK_NONCE) x Hx).
  unfold POS_BLOCK_NONCE. lia.
Qed.

(** [n] calls of [block_inc_nonce] *)
Fixpoint inc_nonces (n : nat) (block : list Z) : outcome (list Z) :=
  match n with
  | O => Done block
  | S n => block ← block_inc_nonce block; inc_nonces n block
  end.

Lemma inc_nonces_iter block n x :
  0 ≤ x < 2 ^ 32 → SIZE_BLOCK_HEADER ≤ Z.of_nat (length block) →
  inc_nonces n (with_nonce block x) =
    Done (with_nonce block (Nat.iter n inc_field x)).
Proof.
  revert x. induction n as [|n IH]; intros x Hx Hl; [done|].
  cbn [inc_nonces]. rewrite block_inc_nonce_run by done. rewrite bind_Done.
  rewrite IH by (done || apply w32_range). by rewrite <- Nat.iter_succ_r.
Qed.

(** On a big-endian host n calls of block_inc_nonce add n to the nonce
    modulo 2^32 and change nothing else in the block. *)
Theorem inc_nonces_big_endian block n x :
  little_endian = false → 0 ≤ x < 2 ^ 32 →
  SIZE_BLOCK_HEADER ≤ Z.of_nat (length block) →
  inc_nonces n (with_nonce block x) =
    Done (with_nonce block ((x + Z.of_nat n) mod 2 ^ 32)).
Proof.
  intros Hle Hx Hl. rewrite inc_nonces_iter by done. do 2 f_equal.
  induction n as [|n IH].
  - cbn [Nat.iter]. rewrite Z.add_0_r. symmetry. by apply Z.mod_small.
  - rewrite Nat.iter_succ, IH. unfold inc_field, w32. rewrite Hle.
    rewrite Zplus_mod_idemp_l. f_equal. lia.
Qed.

End Blocks.

(** *** The cycle on a little-endian host *)

Section Cycle.
Context `{Hhost : Host} (Hle : little_endian = true).

(** the word whose bytes are [a], [b], [c], [d], most significant first *)
Definition word_of (a b c d : Z) : Z := be_val [a; b; c; d].

Lemma inc_field_word a b c d :
  Forall is_byte [a; b; c; d] →
  inc_field (word_of a b c d) = w32 (be_val [d; c; b; a] + 1).
Proof.
  intros Hb. unfold inc_field, bswap32, word_of. rewrite Hle.
  pose proof (be_bytes_be_val _ Hb) as E. change (length _) with 4%nat in E.
  rewrite E. do 2 f_equal. cbn. lia.
Qed.

Ltac word_step := intros; rewrite inc_field_word
  by (repeat constructor; unfold is_byte; lia); unfold word_of, w32; cbn;
  rewrite ?Z.mod_small by lia; lia.

(** A step when the first byte is not 255, and the two carries. *)
Lemma inc_field_swap a b c d :
  0 ≤ a < 255 → is_byte b → is_byte c → is_byte d →
  inc_field (word_of a b c d) = word_of d c b (a + 1).
Proof. unfold is_byte. word_step. Qed.

Lemma inc_field_carry b c d :
  0 ≤ b < 255 → is_byte c → is_byte d →
  inc_field (word_of 255 b c d) = word_of d c (b + 1) 0.
Proof. unfold is_byte. word_step. Qed.

Lemma inc_field_wrap : inc_field (word_of 255 255 255 255) = 0.
Proof.
  rewrite inc_field_word by (repeat constructor; unfold is_byte; lia).
  reflexivity.
Qed.

(** The nonce after [n] increments of 0: in round [j = n / 512] the outer
    bytes count up to 255, then both middle bytes move to [j + 1]. *)
Definition orbit (n : Z) : Z :=
  let j := n / 512 in let r := n mod 512 in let k := r / 2 in
  if r =? 511 then word_of 255 j (j + 1) 0
  else if r mod 2 =? 0 then word_of k j j k else word_of k j j (k + 1).

Definition cycle_length : Z := 131071.

Lemma orbit_step n :
  0 ≤ n < cycle_length - 1 → inc_field (orbit n) = orbit (n + 1).
Proof.
  unfold cycle_length, orbit. intros Hn.
  assert (0 ≤ n mod 512 < 512) as Hr by (apply Z.mod_pos_bound; lia).
  pose proof (Z.div_mod n 512 ltac:(lia)) as Hd.
  set (j := n / 512) in *. set (r := n mod 512) in *.
  destruct (Z.eqb_spec r 511) as [Hr511|Hr511].
  { replace ((n + 1) / 512) with (j + 1) by (apply (Z.div_unique _ _ _ 0); lia).
    replace ((n + 1) mod 512) with 0 by (apply (Z.mod_unique _ _ (j + 1)); lia).
    cbn. apply inc_field_carry; unfold is_byte; lia. }
  replace ((n + 1) / 512) with j by (apply (Z.div_unique _ _ _ (r + 1)); lia).
  replace ((n + 1) mod 512) with (r + 1) by (apply (Z.mod_unique _ _ j); lia).
  assert (Hk : r = 2 * (r / 2) + r mod 2) by (apply Z.div_mod; lia).
  assert (0 ≤ r mod 2 < 2) as Hm by (apply Z.mod_pos_bound; lia).
  set (k := r / 2) in *.
  destruct (Z.eqb_spec (r mod 2) 0) as [H0|H0].
  - destruct (Z.eqb_spec (r + 1) 511) as [E|E].
    + replace k with 255 by lia. apply inc_field_carry; unfold is_byte; lia.
    + replace ((r + 1) mod 2) with 1 by (apply (Z.mod_unique _ _ k); lia).
      replace ((r + 1) / 2) with k by (apply (Z.div_unique _ _ _ 1); lia).
      apply inc_field_swap; unfold is_byte; lia.
  - rewrite (proj2 (Z.eqb_neq (r + 1) 511)) by lia.
    replace ((r + 1) mod 2) with 0 by (apply (Z.mod_unique _ _ (k + 1)); lia).
    replace ((r + 1) / 2) with (k + 1) by (apply (Z.div_unique _ _ _ 0); lia).
    apply inc_field_swap; unfold is_byte; lia.
Qed.

Lemma orbit_last : inc_field (orbit (cycle_length - 1)) = 0.
Proof. exact inc_field_wrap. Qed.

Lemma orbit_nonzero n : 0 < n < cycle_length → 0 < orbit n < 2 ^ 32.
Proof.
  unfold cycle_length, orbit. intros Hn.
  assert (0 ≤ n mod 512 < 512) as Hr by (apply Z.mod_pos_bound; lia).
  pose proof (Z.div_mod n 512 ltac:(lia)) as Hd.
  assert (n mod 512 = 2 * (n mod 512 / 2) + n mod 512 mod 2) by (apply Z.div_mod; lia).
  assert (0 ≤ n mod 512 mod 2 < 2) by (apply Z.mod_pos_bound; lia).
  unfold word_of, be_val. cbn [fold_left].
  destruct (Z.eqb_spec (n mod 512) 511); [lia|].
  destruct (Z.eqb_spec (n mod 512 mod 2) 0); lia.
Qed.

Lemma iter_orbit (n : nat) :
  Z.of_nat n < cycle_length → Nat.iter n inc_field 0 = orbit (Z.of_nat n).
Proof.
  induction n as [|n IH]; intros Hn; [done|].
  rewrite Nat.iter_succ, IH, orbit_step by lia. f_equal. lia.
Qed.

Lemma iter_cycle : Nat.iter (Z.to_nat cycle_length) inc_field 0 = 0.
Proof.
  assert (E : Z.to_nat cycle_length = S (Z.to_nat (cycle_length - 1)))
    by (rewrite <- Z2Nat.inj_succ by (unfold cycle_length; lia);
        apply f_equal; reflexivity).
  rewrite E. clear E. rewrite Nat.iter_succ, iter_orbit;
    rewrite Z2Nat.id by (unfold cycle_length; lia); [apply orbit_last|lia].
Qed.

Lemma with_nonce_inj block x y :
  SIZE_BLOCK_HEADER ≤ Z.of_nat (length block) →
  0 ≤ x < 2 ^ 32 → 0 ≤ y < 2 ^ 32 →
  with_nonce block x = with_nonce block y → x = y.
Proof.
  unfold SIZE_BLOCK_HEADER, with_nonce. intros Hl Hx Hy E.
  assert (Hr : ∀ z, take 4 (drop (Z.to_nat POS_BLOCK_NONCE)
    (patch block (Z.to_nat POS_BLOCK_NONCE) (be_bytes 4 z))) = be_bytes 4 z).
  { intros z. rewrite <- (length_be_bytes 4 z) at 1. apply patch_read_same.
    len. unfold POS_BLOCK_NONCE. lia. }
  pose proof (Hr x) as Eb. rewrite E, (Hr y) in Eb.
  apply (f_equal be_val) in Eb. rewrite !be_val_be_bytes in Eb.
  revert Eb. rewrite !Z.mod_small by done. by intros ->.
Qed.

(** C11: On a little-endian host the nonce returns to 0 after exactly 131071
    calls of block_inc_nonce, and not before: of the 2^32 nonces only 131071
    are ever tried from 0. *)
Theorem inc_nonces_little_endian block :
  SIZE_BLOCK_HEADER ≤ Z.of_nat (length block) →
  inc_nonces (Z.to_nat cycle_length) (with_nonce block 0) = Done (with_nonce block 0) ∧
  ∀ n, (0 < n < Z.to_nat cycle_length)%nat →
    inc_nonces n (with_nonce block 0) ≠ Done (with_nonce block 0).
Proof.
  intros Hl. split.
  - generalize iter_cycle. generalize (Z.to_nat cycle_length) as N. intros N E.
    rewrite inc_nonces_iter, E by (done || lia). done.
  - assert (Z.of_nat (Z.to_nat cycle_length) = cycle_length) as HN
      by (apply Z2Nat.id; unfold cycle_length; lia).
    revert HN. generalize (Z.to_nat cycle_length) as N. intros N HN n Hn.
    assert (0 < Z.of_nat n < cycle_length) as Hn' by lia.
    pose proof (orbit_nonzero _ Hn') as Ho.
    rewrite inc_nonces_iter, iter_orbit by (done || lia). intros [= E].
    apply with_nonce_inj in E; lia.
Qed.

End Cycle.

(** ** The size of a block and its transactions *)

Section Body.
Context `{Host, TxNames, Malloc}.

Lemma block_compute_size_run dest_addr block p ts :
  w8 (dest_addr + POS_BLOCK_TX_COUNT) = Z.of_nat (length ts) →
  SIZE_BLOCK_HEADER + Z.of_nat (length (concat ts)) < 2 ^ 32 →
  (∀ i t, ts !! i = Some t →
     tx_compute_size block (p + (SIZE_BLOCK_HEADER + Z.of_nat (tx_offset ts i)))
       = Done (Z.of_nat (length t))) →
  block_compute_size dest_addr block p =
    Done (SIZE_BLOCK_HEADER + Z.of_nat (length (concat ts))).
Proof.
  unfold SIZE_BLOCK_HEADER. intros Hc Hlt Hsize. unfold block_compute_size.
  rewrite Hc.
  match goal with |- for_range 0 ?n ?body ?s0 = _ =>
    destruct (for_range_inv (λ i c,
      c = 83 + Z.of_nat (tx_offset ts (Z.to_nat i))) 0 n body s0)
      as (c & E & ->); [lia|done| |]
  end.
  - intros i c Hi ->.
    destruct (lookup_lt_is_Some_2 ts (Z.to_nat i)) as [t Ht]; [lia|].
    rewrite (Hsize _ _ Ht), bind_Done. eexists. split; [done|].
    pose proof (concat_split _ _ _ Ht) as Hs.
    apply (f_equal length) in Hs. rewrite !length_app in Hs.
    replace (Z.to_nat (i + 1)) with (S (Z.to_nat i)) by lia.
    rewrite (tx_offset_S _ _ _ Ht). unfold tx_offset in *.
    rewrite w32_id by lia. lia.
  - rewrite E. unfold tx_offset. by rewrite Nat2Z.id, take_ge by lia.
Qed.

(** The size of a block whose number of transactions is the low byte of the
    address. *)
Theorem block_compute_size_count dest_addr block p ts :
  w8 (dest_addr + POS_BLOCK_TX_COUNT) = Z.of_nat (length ts) →
  SIZE_BLOCK_HEADER + Z.of_nat (length (concat ts)) < 2 ^ 32 →
  (∀ i t, ts !! i = Some t →
     tx_compute_size block (p + (SIZE_BLOCK_HEADER + Z.of_nat (tx_offset ts i)))
       = Done (Z.of_nat (length t))) →
  block_compute_size dest_addr block p =
    Done (SIZE_BLOCK_HEADER + Z.of_nat (length (concat ts))).
Proof. apply block_compute_size_run. Qed.

(** the number in the tx_count field *)
Definition tx_count_of (block : list Z) : Z :=
  be_val (take 4 (drop (Z.to_nat POS_BLOCK_TX_COUNT) block)).

Lemma block_add_tx_run dest_addr block tx size :
  block_compute_size dest_addr block 0 = Done size →
  SIZE_BLOCK_HEADER ≤ size → 0 ≤ tx_size tx → size + tx_size tx < 2 ^ 32 →
  Z.of_nat (length (tx_data tx)) = tx_size tx →
  Z.min MAX_BLOCK_SIZE (size + tx_size tx) ≤ Z.of_nat (length block) →
  Forall is_byte block →
  block_add_tx dest_addr block tx =
    if MAX_BLOCK_SIZE <=? size + tx_size tx then Fatal
    else Done (patch (patch block (Z.to_nat size) (tx_data tx))
                 (Z.to_nat POS_BLOCK_TX_COUNT)
                 (be_bytes 4 (inc_field (tx_count_of block)))).
Proof.
  unfold SIZE_BLOCK_HEADER, MAX_BLOCK_SIZE. intros Hs H83 Ht Hlt Hd Hl Hb.
  unfold block_add_tx. rewrite Hs, bind_Done. unfold MAX_BLOCK_SIZE.
  rewrite w32_id by lia.
  destruct (Z.leb_spec 1048576 (size + tx_size tx)) as [|Hfit]; [done|].
  rewrite memread_Done by lia. rewrite bind_Done.
  rewrite Z2Nat.inj_0, drop_0, take_ge by lia.
  rewrite memwrite_Done by lia. rewrite bind_Done.
  set (b1 := patch block (Z.to_nat size) (tx_data tx)).
  assert (L1 : length b1 = length block) by (unfold b1; len; lia).
  set (q := Z.to_nat POS_BLOCK_TX_COUNT).
  set (f := take 4 (drop q block)).
  assert (Lf : length f = 4%nat) by (unfold f, q, POS_BLOCK_TX_COUNT; len; lia).
  assert (Bf : Forall is_byte f) by (apply Forall_take, Forall_drop, Hb).
  assert (E1 : take 4 (drop q b1) = f).
  { apply patch_read_other; unfold q, POS_BLOCK_TX_COUNT; lia. }
  assert (Eb : patch b1 q (be_bytes 4 (tx_count_of block)) = b1).
  { unfold tx_count_of. fold q f. rewrite <- Lf, be_bytes_be_val by done.
    rewrite <- E1. apply list_eq. intros i.
    rewrite patch_lookup by (len; unfold q, POS_BLOCK_TX_COUNT; lia).
    case_decide as Hi; [|done]. revert Hi. len. intros Hi.
    rewrite lookup_take_lt, lookup_drop by lia. f_equal. lia. }
  pose proof (be_val_range f Bf) as Hr. rewrite Lf in Hr.
  pose proof (field_inc b1 q (tx_count_of block)) as Hf. rewrite Eb in Hf.
  apply Hf; [exact Hr|unfold q, POS_BLOCK_TX_COUNT; lia].
Qed.

(** When block_compute_size returns size, block_add_tx is fatal exactly
    when size plus the size of the transaction reaches MAX_BLOCK_SIZE, and
    otherwise stores the transaction at size and replaces tx_count by its
    successor in the byte order of the host. *)
Theorem block_add_tx_spec dest_addr block tx size :
  block_compute_size dest_addr block 0 = Done size →
  SIZE_BLOCK_HEADER ≤ size → 0 ≤ tx_size tx → size + tx_size tx < 2 ^ 32 →
  Z.of_nat (length (tx_data tx)) = tx_size tx →
  Z.min MAX_BLOCK_SIZE (size + tx_size tx) ≤ Z.of_nat (length block) →
  Forall is_byte block →
  block_add_tx dest_addr block tx =
    if MAX_BLOCK_SIZE <=? size + tx_size tx then Fatal
    else Done (patch (patch block (Z.to_nat size) (tx_data tx))
                 (Z.to_nat POS_BLOCK_TX_COUNT)
                 (be_bytes 4 (inc_field (tx_count_of block)))).
Proof. apply block_add_tx_run. Qed.

(** the block holds the transactions [ts] *)
Definition body_is (block : list Z) (ts : list (list Z)) : Prop :=
  memread block SIZE_BLOCK_HEADER (Z.of_nat (length (concat ts))) =
    Done (concat ts).

Lemma body_is_add block ts data count :
  body_is block ts →
  (83 + length (concat ts) + length data ≤ length block)%nat →
  body_is (patch (patch block (83 + length (concat ts)) data) 79
             (be_bytes 4 count)) (ts ++ [data]).
Proof.
  unfold body_is, SIZE_BLOCK_HEADER. intros Hts Hl.
  rewrite concat_app. cbn [concat]. rewrite app_nil_r.
  apply memread_inv in Hts as (_ & _ & _ & Hts).
  rewrite Nat2Z.id in Hts. change (Z.to_nat 83) with 83%nat in Hts.
  rewrite memread_Done by (len; lia). f_equal.
  rewrite Nat2Z.id. change (Z.to_nat 83) with 83%nat.
  rewrite patch_read_other by (len; lia).
  set (c := concat ts) in *.
  assert (E : patch block (83 + length c) data = patch block 83 (c ++ data)).
  { rewrite <- patch_patch by (unfold c in *; lia). f_equal.
    apply list_eq. intros i. rewrite patch_lookup by lia.
    case_decide as Hi; [|done].
    pose proof (f_equal (λ l, l !! (i - 83)%nat) Hts) as Hi'. cbn beta in Hi'.
    rewrite lookup_take_lt, lookup_drop in Hi' by lia.
    rewrite Hi'. f_equal. lia. }
  rewrite E. apply patch_read_same. len. lia.
Qed.

(** C9: On a big-endian host, when block_compute_size gives the true size and
    the transaction fits, block_add_tx appends the transaction to the body,
    adds one to tx_count and leaves the rest of the header alone. *)
Theorem block_add_tx_appends dest_addr block ts tx :
  little_endian = false → Forall is_byte block →
  body_is block ts → tx_count_of block = Z.of_nat (length ts) →
  block_compute_size dest_addr block 0 =
    Done (SIZE_BLOCK_HEADER + Z.of_nat (length (concat ts))) →
  Z.of_nat (length (tx_data tx)) = tx_size tx →
  SIZE_BLOCK_HEADER + Z.of_nat (length (concat ts)) + tx_size tx
    < MAX_BLOCK_SIZE →
  SIZE_BLOCK_HEADER + Z.of_nat (length (concat ts)) + tx_size tx
    ≤ Z.of_nat (length block) →
  Z.of_nat (length ts) + 1 < 2 ^ 32 →
  ∃ block', block_add_tx dest_addr block tx = Done block' ∧
    length block' = length block ∧ body_is block' (ts ++ [tx_data tx]) ∧
    tx_count_of block' = Z.of_nat (length ts + 1) ∧
    take (Z.to_nat POS_BLOCK_TX_COUNT) block' =
      take (Z.to_nat POS_BLOCK_TX_COUNT) block.
Proof.
  intros Hle Hb Hts Hn Hsize Hd Hfit Hl Hcount.
  unfold SIZE_BLOCK_HEADER, MAX_BLOCK_SIZE in *.
  rewrite (block_add_tx_run dest_addr block tx _ Hsize)
    by (done || unfold SIZE_BLOCK_HEADER, MAX_BLOCK_SIZE; lia).
  rewrite (proj2 (Z.leb_gt _ _)) by (unfold MAX_BLOCK_SIZE; lia).
  rewrite Z2Nat.inj_add, Nat2Z.id by lia.
  change (Z.to_nat 83) with 83%nat.
  unfold tx_count_of in *. change (Z.to_nat POS_BLOCK_TX_COUNT) with 79%nat in *.
  eexists. split; [done|]. split; [by len|]. split.
  { apply body_is_add; [done|lia]. }
  split.
  - unfold inc_field. rewrite Hle, Hn, w32_id by lia.
    set (v := Z.of_nat (length ts) + 1).
    rewrite <- (length_be_bytes 4 v) at 1.
    rewrite patch_read_same by (len; lia).
    rewrite be_val_be_bytes, Z.mod_small by (unfold v; lia). unfold v. lia.
  - rewrite <- (drop_0 (patch _ _ _)), <- (drop_0 block) at 1.
    rewrite !patch_read_other by (len; lia). by rewrite !drop_0.
Qed.

(** C28: When the low byte of the address of tx_count is 0,
    block_compute_size, which takes that byte for the number of transactions,
    is 83 for every block: of two transactions added one after the other to a
    block of bytes, each fitting behind the header, the second is written over
    the first at byte 83, while tx_count was incremented twice as the host
    reads and writes it. *)
Theorem block_add_tx_overwrites dest_addr block t1 t2 :
  w8 (dest_addr + POS_BLOCK_TX_COUNT) = 0 → Forall is_byte block →
  (∀ t, t ∈ [t1; t2] → Forall is_byte (tx_data t) ∧
     Z.of_nat (length (tx_data t)) = tx_size t ∧
     SIZE_BLOCK_HEADER + tx_size t < MAX_BLOCK_SIZE ∧
     SIZE_BLOCK_HEADER + tx_size t ≤ Z.of_nat (length block)) →
  ∃ b1 b2, block_add_tx dest_addr block t1 = Done b1 ∧
    block_add_tx dest_addr b1 t2 = Done b2 ∧
    tx_count_of b2 = inc_field (inc_field (tx_count_of block)) ∧
    memread b2 SIZE_BLOCK_HEADER (tx_size t2) = Done (tx_data t2).
Proof.
  intros Hc Hb Ht.
  assert (Hrun : ∀ b t, t ∈ [t1; t2] → Forall is_byte b → length b = length block →
    ∃ b', block_add_tx dest_addr b t = Done b' ∧ Forall is_byte b' ∧
      length b' = length block ∧
      tx_count_of b' = inc_field (tx_count_of b) ∧
      memread b' SIZE_BLOCK_HEADER (tx_size t) = Done (tx_data t)).
  { intros b t Hin Bb Lb. destruct (Ht t Hin) as (Bt & Lt & Ft & Fl).
    unfold SIZE_BLOCK_HEADER, MAX_BLOCK_SIZE in *.
    assert (Hs : block_compute_size dest_addr b 0 = Done 83)
      by (unfold block_compute_size; rewrite Hc; done).
    rewrite (block_add_tx_run dest_addr b t 83 Hs)
      by (done || unfold SIZE_BLOCK_HEADER, MAX_BLOCK_SIZE; lia).
    rewrite (proj2 (Z.leb_gt _ _)) by (unfold MAX_BLOCK_SIZE; lia).
    unfold tx_count_of. change (Z.to_nat POS_BLOCK_TX_COUNT) with 79%nat.
    change (Z.to_nat 83) with 83%nat. set (v := inc_field _).
    assert (Hv : 0 ≤ v < 2 ^ 32) by apply w32_range.
    eexists. split; [done|]. split.
    { do 2 (apply Forall_patch; [|done || apply be_bytes_are_bytes]). done. }
    split; [len; lia|]. split.
    - rewrite <- (length_be_bytes 4 v) at 1.
      rewrite patch_read_same by (len; lia).
      rewrite be_val_be_bytes. by apply Z.mod_small.
    - rewrite memread_Done by (len; lia). f_equal.
      rewrite patch_read_other by (len; lia).
      replace (Z.to_nat (tx_size t)) with (length (tx_data t)) by lia.
      apply patch_read_same. lia. }
  destruct (Hrun block t1) as (b1 & E1 & B1 & L1 & C1 & _); [set_solver|done..|].
  destruct (Hrun b1 t2) as (b2 & E2 & B2 & L2 & C2 & M2); [set_solver|done..|].
  exists b1, b2. split; [done|]. split; [done|]. by rewrite C2, C1.
Qed.

(** C22: On a big-endian host block_update_root stores the Merkle root of the
    transactions of the body in the header and changes nothing else. *)
Theorem block_update_root_spec ctx0 block ts :
  length (ctx_data ctx0) = 64%nat ∧ length (ctx_state ctx0) = 8%nat →
  little_endian = false → Forall is_byte block → ts ≠ [] →
  SIZE_BLOCK_HEADER ≤ Z.of_nat (length block) →
  txs_at block POS_BLOCK_BODY ts → tx_count_of block = Z.of_nat (length ts) →
  block_update_root ctx0 block block =
    Done (patch block (Z.to_nat POS_BLOCK_MERKLE_ROOT)
            (merkle_root (digest <$> ts))).
Proof.
  unfold SIZE_BLOCK_HEADER. intros Hctx Hle Hb Hne Hl Htx Hn.
  unfold block_update_root, tx_count_of in *.
  assert (Hr : memread block POS_BLOCK_TX_COUNT 4 =
    Done (take 4 (drop (Z.to_nat POS_BLOCK_TX_COUNT) block)))
    by (apply memread_Done; unfold POS_BLOCK_TX_COUNT; lia).
  rewrite (btoui_spec _ _ _ Hr) by (apply Forall_take, Forall_drop, Hb).
  rewrite Hle, Hn, bind_Done. unfold compute_merkle_root.
  rewrite (compute_merkle_root_run ctx0 Hctx block POS_BLOCK_BODY ts)
    by (done || unfold POS_BLOCK_MERKLE_ROOT, SIZE_SHA256; lia).
  done.
Qed.

End Body.

(** ** Instances *)

Definition host_be : Host := {| little_endian := false |}.
Definition host_le : Host := {| little_endian := true |}.

Definition sample_block : list Z := replicate 103 0.
Definition sample_m_tx (lock_time : Z) : M_tx :=
  mk_tx [] (sample_tx lock_time) 10 10.

Lemma block_add_header_layout_witness :
  @block_add_header sample_names 1 2 (replicate 32 7) 9 (replicate 84 5) 1 =
    Done (patch (replicate 84 5) (Z.to_nat 1)
      (@header_bytes sample_names 1 2 (replicate 32 7) (replicate 32 0) 9 0 0)).
Proof.
  apply (@block_add_header_layout sample_names 1 2 (replicate 32 7) 9
    (replicate 84 5) 1); [reflexivity|lia|vm_compute; discriminate].
Defined.

(** On a little-endian host the height 2 is read as 0x02000000. *)
Lemma block_header_roundtrip_witness :
  ∃ block, @block_add_header sample_names 1 2 (replicate 32 7) 9 (replicate 84 5) 1 =
      Done block ∧
    @btoui host_le block (1 + POS_BLOCK_HEIGHT) = Done 0x02000000 ∧
    memread block (1 + POS_BLOCK_PREV_HASH) SIZE_SHA256 = Done (replicate 32 7).
Proof.
  destruct (@block_header_roundtrip host_le sample_names 1 2 (replicate 32 7) 9
    (replicate 84 5) 1 eq_refl ltac:(lia) ltac:(vm_compute; discriminate))
    as (block & E & _ & _ & Hh & Hp & _).
  exists block. split; [exact E|]. split; [|exact Hp]. rewrite Hh. vm_compute. reflexivity.
Defined.

Lemma inc_nonces_big_endian_witness :
  @inc_nonces host_be 3 (with_nonce sample_block (2 ^ 32 - 2)) =
    Done (with_nonce sample_block ((2 ^ 32 - 2 + Z.of_nat 3) mod 2 ^ 32)).
Proof.
  apply (@inc_nonces_big_endian host_be sample_block 3 (2 ^ 32 - 2));
    [reflexivity|lia|vm_compute; discriminate].
Defined.

Lemma inc_nonces_little_endian_witness :
  @inc_nonces host_le (Z.to_nat cycle_length) (with_nonce sample_block 0) =
    Done (with_nonce sample_block 0) ∧
  ∀ n, (0 < n < Z.to_nat cycle_length)%nat →
    @inc_nonces host_le n (with_nonce sample_block 0) ≠
      Done (with_nonce sample_block 0).
Proof.
  apply (@inc_nonces_little_endian host_le eq_refl sample_block).
  vm_compute; discriminate.
Defined.

(** a block of two transactions at an address whose low byte makes the loop
    run twice *)
Lemma block_compute_size_count_witness :
  @block_compute_size sample_names 0x7f00b3
    (replicate 83 0 ++ concat (sample_tx <$> [1; 2])) 0 =
    Done (SIZE_BLOCK_HEADER +
          Z.of_nat (length (concat (sample_tx <$> [1; 2])))).
Proof.
  apply (@block_compute_size_count sample_names 0x7f00b3
    (replicate 83 0 ++ concat (sample_tx <$> [1; 2])) 0 (sample_tx <$> [1; 2]));
    [reflexivity|reflexivity|].
  intros [|[|i]] t; [intros [= <-]; reflexivity..|discriminate].
Defined.

Lemma block_add_tx_spec_witness :
  @block_add_tx host_be sample_names 0x7f00b1 sample_block (sample_m_tx 4) =
    Done (patch (patch sample_block (Z.to_nat 83) (sample_tx 4)) 79
      (be_bytes 4 (@inc_field host_be (tx_count_of sample_block)))).
Proof.
  apply (@block_add_tx_spec host_be sample_names 0x7f00b1 sample_block
    (sample_m_tx 4) 83); first [reflexivity|decided|vm_compute; discriminate].
Defined.

Lemma block_add_tx_appends_witness :
  ∃ block', @block_add_tx host_be sample_names 0x7f00b1 sample_block
      (sample_m_tx 4) = Done block' ∧
    length block' = length sample_block ∧ body_is block' [sample_tx 4] ∧
    tx_count_of block' = 1 ∧
    take (Z.to_nat POS_BLOCK_TX_COUNT) block' =
      take (Z.to_nat POS_BLOCK_TX_COUNT) sample_block.
Proof.
  apply (@block_add_tx_appends host_be sample_names 0x7f00b1 sample_block []
    (sample_m_tx 4)); first [reflexivity|decided|vm_compute; discriminate].
Defined.

Lemma block_add_tx_overwrites_witness :
  ∃ b1 b2, @block_add_tx host_le sample_names 0x7f00b1 sample_block
      (sample_m_tx 4) = Done b1 ∧
    @block_add_tx host_le sample_names 0x7f00b1 b1 (sample_m_tx 5) = Done b2 ∧
    tx_count_of b2 =
      @inc_field host_le (@inc_field host_le (tx_count_of sample_block)) ∧
    memread b2 SIZE_BLOCK_HEADER 10 = Done (sample_tx 5).
Proof.
  apply (@block_add_tx_overwrites host_le sample_names 0x7f00b1 sample_block
    (sample_m_tx 4) (sample_m_tx 5)); [reflexivity|decided|].
  intros t [->|[->|[]%not_elem_of_nil]%elem_of_cons]%elem_of_cons;
    (split; [decided|vm_compute; intuition discriminate]).
Defined.

Lemma block_update_root_spec_witness :
  let block := patch (replicate 103 0) 79 ([0; 0; 0; 2] ++
    concat (sample_tx <$> [1; 2])) in
  @block_update_root host_be sample_names sample_malloc ctx_junk block block =
    Done (patch block (Z.to_nat POS_BLOCK_MERKLE_ROOT)
            (merkle_root (digest <$> (sample_tx <$> [1; 2])))).
Proof.
  apply (@block_update_root_spec host_be sample_names sample_malloc ctx_junk
    (patch (replicate 103 0) 79 ([0; 0; 0; 2] ++ concat (sample_tx <$> [1; 2])))
    (sample_tx <$> [1; 2]));
    [split; reflexivity|reflexivity|decided|discriminate|vm_compute; discriminate
    |sample_txs_at 2|reflexivity].
Defined.
