(* ===== verification/Queue.v ===== *)
(** * src/queue.c: a doubly linked queue

    Nodes and data blocks live in two heaps.  A field of a node that was
    never stored is [None]: [malloc] leaves it undetermined, and using it is
    undefined behaviour.  [queue_init] does not store [q->size] either; that
    one is only counted up and down and compared with 0, so the model takes
    the number found there as the parameter [garbage].  [rep] relates a state
    to the list of the strings in the queue, the newest first. *)
From S2P Require Import Prelude Shared Util Unresolved.

Record Node := mk_node {
  prev : option nat;
  next : option nat;
  node_size : option Z;
  node_data : option nat
}.

(** the two heaps and [*q] *)
Record Queue := mk_queue {
  q_nodes : gmap nat Node;
  q_bufs : gmap nat (list Z);
  q_head : nat;
  q_tail : nat;
  q_size : Z
}.

(** ** Access to nodes *)

Definition node (nodes : gmap nat Node) (p : nat) : outcome Node :=
  match nodes !! p with Some n => Done n | None => Undef end.

(** reading a field *)
Definition stored {A} (field : option A) : outcome A :=
  match field with Some x => Done x | None => Undef end.

Definition set_prev (nodes : gmap nat Node) (p v : nat) :=
  n ← node nodes p;
  Done (<[p := mk_node (Some v) (next n) (node_size n) (node_data n)]> nodes).
Definition set_next (nodes : gmap nat Node) (p v : nat) :=
  n ← node nodes p;
  Done (<[p := mk_node (prev n) (Some v) (node_size n) (node_data n)]> nodes).
Definition set_size (nodes : gmap nat Node) (p : nat) (v : Z) :=
  n ← node nodes p;
  Done (<[p := mk_node (prev n) (next n) (Some v) (node_data n)]> nodes).
Definition set_data (nodes : gmap nat Node) (p v : nat) :=
  n ← node nodes p;
  Done (<[p := mk_node (prev n) (next n) (node_size n) (Some v)]> nodes).

Definition free {A} (heap : gmap nat A) (p : nat) : outcome (gmap nat A) :=
  match heap !! p with Some _ => Done (delete p heap) | None => Undef end.

(** ** The operations *)

Section Operations.
Context `{Alloc, Malloc}.

Definition queue_init (garbage : Z) : outcome Queue :=
  let head := alloc ∅ in
  let nodes := {[head := mk_node None None None None]} in
  let tail := alloc (dom nodes) in
  let nodes := <[tail := mk_node None None None None]> nodes in
  nodes ← set_next nodes head tail;
  nodes ← set_prev nodes tail head;
  Done (mk_queue nodes ∅ head tail garbage).

Definition queue_enqueue (q : Queue) (data : list Z) (size : Z)
    : outcome Queue :=
  let new := alloc (dom (q_nodes q)) in
  let nodes := <[new := mk_node None None None None]> (q_nodes q) in
  h ← node nodes (q_head q);
  first ← stored (next h);
  nodes ← set_prev nodes first new;
  h ← node nodes (q_head q);
  first ← stored (next h);
  nodes ← set_next nodes new first;
  nodes ← set_prev nodes new (q_head q);
  nodes ← set_next nodes (q_head q) new;
  let buf := alloc (dom (q_bufs q)) in
  nodes ← set_data nodes new buf;
  nodes ← set_size nodes new size;
  src ← memread data 0 size;
  block ← memwrite (uninit "new->data" size) 0 src;
  Done (mk_queue nodes (<[buf := block]> (q_bufs q)) (q_head q) (q_tail q)
          (w32 (q_size q + 1))).

Definition queue_dequeue (q : Queue) (dest : list Z)
    : outcome (Queue * list Z * Z) :=
  if q_size q =? 0 then Fatal
  else
    t ← node (q_nodes q) (q_tail q);
    temp ← stored (prev t);
    n ← node (q_nodes q) temp;
    d ← stored (node_data n);
    size ← stored (node_size n);
    block ← stored (q_bufs q !! d);
    src ← memread block 0 size;
    dest ← memwrite dest 0 src;
    before ← stored (prev n);
    nodes ← set_next (q_nodes q) before (q_tail q);
    t ← node nodes (q_tail q);
    last ← stored (prev t);
    n ← node nodes last;
    before ← stored (prev n);
    nodes ← set_prev nodes (q_tail q) before;
    n ← node nodes temp;
    d ← stored (node_data n);
    bufs ← free (q_bufs q) d;
    nodes ← free nodes temp;
    Done (mk_queue nodes bufs (q_head q) (q_tail q) (w32 (q_size q - 1)),
          dest, size).

(** [fuel] bounds the rounds: each one frees a node. *)
Fixpoint queue_fatal_loop (fuel : nat) (nodes : gmap nat Node)
    (bufs : gmap nat (list Z)) (curr : nat)
    : outcome (gmap nat Node * gmap nat (list Z)) :=
  n ← node nodes curr;
  temp ← stored (next n);
  match fuel with
  | O => Hang
  | S fuel =>
      d ← stored (node_data n);
      bufs ← free bufs d;
      nodes ← free nodes curr;
      queue_fatal_loop fuel nodes bufs temp
  end.

(** A stored pointer is never [NULL], so the test [curr->next != NULL] holds
    or is undefined. *)
Definition queue_fatal (q : Queue) :=
  queue_fatal_loop (size (q_nodes q)) (q_nodes q) (q_bufs q) (q_head q).

End Operations.

(** ** Fields as functions *)

Definition nextof (nodes : gmap nat Node) p := nodes !! p ≫= next.
Definition prevof (nodes : gmap nat Node) p := nodes !! p ≫= prev.
Definition sizeof (nodes : gmap nat Node) p := nodes !! p ≫= node_size.
Definition dataof (nodes : gmap nat Node) p := nodes !! p ≫= node_data.

(** [b] is the node that follows [a] *)
Definition linked (nodes : gmap nat Node) (a b : nat) : Prop :=
  nextof nodes a = Some b ∧ prevof nodes b = Some a.

(** the nodes [a], then [l], are linked in order *)
Fixpoint chain (nodes : gmap nat Node) (a : nat) (l : list nat) : Prop :=
  match l with [] => True | b :: l => linked nodes a b ∧ chain nodes b l end.

Definition chained (nodes : gmap nat Node) (l : list nat) : Prop :=
  match l with [] => True | a :: l => chain nodes a l end.

Lemma chained_snoc nodes l b c :
  chained nodes (l ++ [b; c]) ↔ chained nodes (l ++ [b]) ∧ linked nodes b c.
Proof.
  destruct l as [|a l]; [cbn; tauto|].
  cbn [app chained]. revert a.
  induction l as [|d l IH]; intros a; cbn; [|rewrite IH]; tauto.
Qed.

(** A chain depends on the [next] of all nodes but the last one and on the
    [prev] of all but the first one. *)
Lemma chain_frame nodes nodes' a l :
  chain nodes a l →
  (∀ x, x ∈ removelast (a :: l) → nextof nodes' x = nextof nodes x) →
  (∀ x, x ∈ l → prevof nodes' x = prevof nodes x) →
  chain nodes' a l.
Proof.
  revert a. induction l as [|b l IH]; intros a Hc Hn Hp; [done|].
  cbn in Hc. destruct Hc as [[N P] Hc].
  change (removelast (a :: b :: l)) with (a :: removelast (b :: l)) in Hn.
  split.
  - split; [rewrite Hn|rewrite Hp]; try done; set_solver.
  - apply IH; [done|intros x Hx; apply Hn; set_solver|].
    intros x Hx. apply Hp. set_solver.
Qed.

Lemma chained_frame nodes nodes' l :
  chained nodes l →
  (∀ x, x ∈ removelast l → nextof nodes' x = nextof nodes x) →
  (∀ x, x ∈ tail l → prevof nodes' x = prevof nodes x) →
  chained nodes' l.
Proof. destruct l as [|a l]; [done|]. apply chain_frame. Qed.

Lemma nextof_insert nodes p n x :
  nextof (<[p := n]> nodes) x = if decide (p = x) then next n else nextof nodes x.
Proof. unfold nextof. rewrite lookup_insert. by case_decide. Qed.
Lemma prevof_insert nodes p n x :
  prevof (<[p := n]> nodes) x = if decide (p = x) then prev n else prevof nodes x.
Proof. unfold prevof. rewrite lookup_insert. by case_decide. Qed.
Lemma sizeof_insert nodes p n x :
  sizeof (<[p := n]> nodes) x =
    if decide (p = x) then node_size n else sizeof nodes x.
Proof. unfold sizeof. rewrite lookup_insert. by case_decide. Qed.
Lemma dataof_insert nodes p n x :
  dataof (<[p := n]> nodes) x =
    if decide (p = x) then node_data n else dataof nodes x.
Proof. unfold dataof. rewrite lookup_insert. by case_decide. Qed.

Lemma nextof_delete nodes p x : x ≠ p → nextof (delete p nodes) x = nextof nodes x.
Proof. intros. unfold nextof. by rewrite lookup_delete_ne. Qed.
Lemma prevof_delete nodes p x : x ≠ p → prevof (delete p nodes) x = prevof nodes x.
Proof. intros. unfold prevof. by rewrite lookup_delete_ne. Qed.
Lemma sizeof_delete nodes p x : x ≠ p → sizeof (delete p nodes) x = sizeof nodes x.
Proof. intros. unfold sizeof. by rewrite lookup_delete_ne. Qed.
Lemma dataof_delete nodes p x : x ≠ p → dataof (delete p nodes) x = dataof nodes x.
Proof. intros. unfold dataof. by rewrite lookup_delete_ne. Qed.

(** Storing a node under its pointer keeps the fields it does not change. *)
Lemma sizeof_keep nodes p n m x :
  nodes !! p = Some n → node_size m = node_size n →
  sizeof (<[p := m]> nodes) x = sizeof nodes x.
Proof.
  intros Hp E. rewrite sizeof_insert. case_decide as Hx; [subst x|done].
  unfold sizeof. by rewrite Hp.
Qed.
Lemma dataof_keep nodes p n m x :
  nodes !! p = Some n → node_data m = node_data n →
  dataof (<[p := m]> nodes) x = dataof nodes x.
Proof.
  intros Hp E. rewrite dataof_insert. case_decide as Hx; [subst x|done].
  unfold dataof. by rewrite Hp.
Qed.

(** The nodes after [queue_enqueue] put [n] between [h] and [f], and after
    [queue_dequeue] took [p] out between [b] and [t]. *)
Definition put_node (nodes : gmap nat Node) (h f n : nat) (nh nf : Node)
    (size : Z) (buf : nat) : gmap nat Node :=
  <[n := mk_node (Some h) (Some f) (Some size) (Some buf)]>
    (<[h := mk_node (prev nh) (Some n) (node_size nh) (node_data nh)]>
      (<[f := mk_node (Some n) (next nf) (node_size nf) (node_data nf)]> nodes)).

Definition cut_node (nodes : gmap nat Node) (b p t : nat) (nb nt : Node)
    : gmap nat Node :=
  delete p
    (<[t := mk_node (Some b) (next nt) (node_size nt) (node_data nt)]>
      (<[b := mk_node (prev nb) (Some t) (node_size nb) (node_data nb)]> nodes)).

Lemma put_node_fields nodes h f n nh nf size buf x :
  nodes !! h = Some nh → nodes !! f = Some nf → h ≠ f → x ≠ n →
  sizeof (put_node nodes h f n nh nf size buf) x = sizeof nodes x ∧
  dataof (put_node nodes h f n nh nf size buf) x = dataof nodes x.
Proof.
  intros Hh Hf Hne Hx. unfold put_node.
  rewrite sizeof_insert, dataof_insert, !decide_False by done.
  rewrite (sizeof_keep _ h nh), (dataof_keep _ h nh)
    by (rewrite ?lookup_insert_ne; done).
  by rewrite (sizeof_keep _ f nf), (dataof_keep _ f nf).
Qed.

Lemma cut_node_fields nodes b p t nb nt x :
  nodes !! b = Some nb → nodes !! t = Some nt → b ≠ t → x ≠ p →
  sizeof (cut_node nodes b p t nb nt) x = sizeof nodes x ∧
  dataof (cut_node nodes b p t nb nt) x = dataof nodes x.
Proof.
  intros Hb Ht Hne Hx. unfold cut_node.
  rewrite sizeof_delete, dataof_delete by done.
  rewrite (sizeof_keep _ t nt), (dataof_keep _ t nt)
    by (rewrite ?lookup_insert_ne; done).
  by rewrite (sizeof_keep _ b nb), (dataof_keep _ b nb).
Qed.

Lemma put_node_chain nodes h f n nh nf size buf rest :
  NoDup (h :: f :: rest) → n ∉ h :: f :: rest →
  nodes !! h = Some nh → nodes !! f = Some nf → chain nodes f rest →
  chain (put_node nodes h f n nh nf size buf) h (n :: f :: rest).
Proof.
  intros [Hh' [Hf' Hnd]%NoDup_cons]%NoDup_cons Hn Hh Hf Hch.
  assert (h ≠ f ∧ n ≠ h ∧ n ≠ f) as (N1 & N2 & N3) by set_solver.
  unfold put_node. cbn [chain]. repeat split.
  - by rewrite nextof_insert, decide_False, nextof_insert, decide_True by done.
  - by rewrite prevof_insert, decide_True by done.
  - by rewrite nextof_insert, decide_True by done.
  - by rewrite !prevof_insert, decide_False, decide_False, decide_True by done.
  - apply (chain_frame nodes); [done|intros x Hx%elem_of_removelast|intros x Hx].
    + rewrite !nextof_insert, (decide_False (P := n = x)),
        (decide_False (P := h = x)) by set_solver.
      case_decide; [subst x|done]. unfold nextof. by rewrite Hf.
    + by rewrite !prevof_insert, (decide_False (P := n = x)),
        (decide_False (P := h = x)), (decide_False (P := f = x)) by set_solver.
Qed.

Lemma cut_node_chained nodes l b p t nb nt :
  NoDup (l ++ [b; p; t]) → nodes !! b = Some nb → chained nodes (l ++ [b]) →
  chained (cut_node nodes b p t nb nt) (l ++ [b; t]).
Proof.
  intros (_ & Hdisj & [Hb3 [Hp3 _]%NoDup_cons]%NoDup_cons)%NoDup_app Hb Hch.
  assert (b ≠ t ∧ p ≠ t ∧ p ≠ b) as (N1 & N2 & N3) by set_solver.
  assert (Hl : ∀ y, y ∈ l → y ≠ b ∧ y ≠ p ∧ y ≠ t)
    by (intros y Hy; pose proof (Hdisj y Hy); set_solver).
  unfold cut_node. apply chained_snoc. split; [|split].
  - apply (chained_frame nodes); [done|intros y Hy|intros y Hy].
    + rewrite removelast_last in Hy. apply Hl in Hy.
      by rewrite nextof_delete, !nextof_insert, !decide_False by naive_solver.
    + assert (y ∈ l ++ [b]) as [Hy'%Hl| ->%list_elem_of_singleton]%elem_of_app
        by (destruct l; cbn in *; set_solver).
      * by rewrite prevof_delete, !prevof_insert, !decide_False by naive_solver.
      * rewrite prevof_delete, prevof_insert, decide_False, prevof_insert,
          decide_True by done. cbn. unfold prevof. by rewrite Hb.
  - by rewrite nextof_delete, nextof_insert, decide_False, nextof_insert,
      decide_True by done.
  - by rewrite prevof_delete, prevof_insert, decide_True by done.
Qed.

(** ** What a state holds *)

(** [xs]: the strings in the queue, the newest first; [ptrs] and [ds]: the
    nodes and the data blocks that hold them. Nothing else is allocated. *)
Record rep_with (q : Queue) (xs : list (list Z)) (ptrs ds : list nat) : Prop := {
  rep_nodup : NoDup (q_head q :: ptrs ++ [q_tail q]);
  rep_chain : chain (q_nodes q) (q_head q) (ptrs ++ [q_tail q]);
  rep_dom : dom (q_nodes q) = list_to_set (q_head q :: ptrs ++ [q_tail q]);
  rep_size : Forall2 (λ p x, sizeof (q_nodes q) p = Some (Z.of_nat (length x)))
               ptrs xs;
  rep_data : Forall2 (λ p d, dataof (q_nodes q) p = Some d) ptrs ds;
  rep_head : dataof (q_nodes q) (q_head q) = None;
  rep_ds : NoDup ds;
  rep_bufs : Forall2 (λ d x, q_bufs q !! d = Some x) ds xs;
  rep_bufs_dom : dom (q_bufs q) = list_to_set ds
}.

Definition rep (q : Queue) (xs : list (list Z)) : Prop :=
  ∃ ptrs ds, rep_with q xs ptrs ds.

Lemma nextof_Some nodes p v :
  nextof nodes p = Some v → ∃ n, nodes !! p = Some n ∧ next n = Some v.
Proof. unfold nextof. destruct (nodes !! p) as [n|]; [by exists n|done]. Qed.
Lemma prevof_Some nodes p v :
  prevof nodes p = Some v → ∃ n, nodes !! p = Some n ∧ prev n = Some v.
Proof. unfold prevof. destruct (nodes !! p) as [n|]; [by exists n|done]. Qed.

Section Correctness.
Context `{Alloc, Malloc}.

Lemma queue_init_rep garbage :
  ∃ q, queue_init garbage = Done q ∧ rep q [] ∧ q_size q = garbage.
Proof.
  unfold queue_init. set (h := alloc ∅). set (n0 := mk_node None None None None).
  set (m0 := {[h := n0]} : gmap nat Node). set (t := alloc (dom m0)).
  assert (Hne : h ≠ t).
  { intros E. apply (alloc_fresh (dom m0)). fold t. rewrite <- E.
    unfold m0. rewrite dom_singleton_L. set_solver. }
  unfold set_next, set_prev, node. unfold m0 in *.
  rewrite lookup_insert_ne, lookup_singleton by done. rewrite decide_True by done.
  rewrite bind_Done, bind_Done, lookup_insert_ne, lookup_insert_eq by done.
  rewrite bind_Done, bind_Done. eexists. split; [done|]. split; [|done].
  exists [], []. split; cbn [q_head q_tail q_nodes q_bufs app]; try done.
  - apply NoDup_cons. split; [set_solver|apply NoDup_singleton].
  - split; [|done]. split.
    + rewrite nextof_insert, decide_False, nextof_insert, decide_True by done. done.
    + rewrite prevof_insert, decide_True by done. done.
  - rewrite !dom_insert_L, dom_singleton_L. set_solver.
  - rewrite !dataof_insert, decide_False, decide_True by done. done.
  - constructor.
Qed.

(** [queue_enqueue] in one step, from the head and the node behind it. *)
Lemma queue_enqueue_run q data size src nh first nf :
  q_nodes q !! q_head q = Some nh → next nh = Some first →
  q_nodes q !! first = Some nf → q_head q ≠ first →
  memread data 0 size = Done src →
  let new := alloc (dom (q_nodes q)) in
  let buf := alloc (dom (q_bufs q)) in
  queue_enqueue q data size = Done (mk_queue
    (put_node (q_nodes q) (q_head q) first new nh nf size buf)
    (<[buf := src]> (q_bufs q)) (q_head q) (q_tail q) (w32 (q_size q + 1))).
Proof.
  intros Hh Hn Hf Hne Hsrc new buf. unfold queue_enqueue, put_node.
  fold new buf.
  assert (Hnh : new ≠ q_head q).
  { intros E. apply (alloc_fresh (dom (q_nodes q))). fold new. rewrite E.
    by apply elem_of_dom_2 in Hh. }
  assert (Hnf : new ≠ first).
  { intros E. apply (alloc_fresh (dom (q_nodes q))). fold new. rewrite E.
    by apply elem_of_dom_2 in Hf. }
  unfold node, set_prev, set_next, set_data, set_size, node, stored.
  repeat first
    [ rewrite bind_Done | rewrite lookup_insert_eq
    | rewrite lookup_insert_ne by done | rewrite Hh | rewrite Hf | rewrite Hn
    | progress cbn [prev next node_size node_data] ].
  rewrite Hsrc, bind_Done.
  pose proof (memread_inv _ _ _ _ Hsrc) as (_ & H0s & Hls & ->).
  pose proof (length_uninit "new->data" size H0s) as Lu.
  rewrite memwrite_Done by (len; lia). rewrite bind_Done.
  rewrite patch_full by (len; lia). f_equal. f_equal.
  apply map_eq. intros x. rewrite !lookup_insert.
  repeat (case_decide; subst; try done).
Qed.

Lemma queue_enqueue_rep q xs data size src :
  rep q xs → memread data 0 size = Done src →
  ∃ q', queue_enqueue q data size = Done q' ∧ rep q' (src :: xs) ∧
    q_size q' = w32 (q_size q + 1).
Proof.
  intros (ptrs & ds & R) Hsrc.
  assert (∃ first rest, ptrs ++ [q_tail q] = first :: rest) as (first & rest & E)
    by (destruct ptrs; cbn; eauto).
  destruct R as [Hnd Hch Hdom Hsz Hdt Hhd Hds Hbufs Hbdom]. rewrite E in *.
  destruct Hch as [[Hn Hp] Hch].
  destruct (nextof_Some _ _ _ Hn) as (nh & Hh & Hnn).
  destruct (prevof_Some _ _ _ Hp) as (nf & Hf & _).
  assert (Hne : q_head q ≠ first) by (apply NoDup_cons in Hnd; set_solver).
  rewrite (queue_enqueue_run q data size src nh first nf) by done.
  set (new := alloc (dom (q_nodes q))). set (buf := alloc (dom (q_bufs q))).
  eexists. split; [done|]. split; [|done].
  assert (Hnew : new ∉ q_head q :: first :: rest)
    by (rewrite <- (elem_of_list_to_set (C := gset nat)), <- Hdom; apply alloc_fresh).
  assert (Hbuf : buf ∉ ds)
    by (rewrite <- (elem_of_list_to_set (C := gset nat)), <- Hbdom; apply alloc_fresh).
  assert (Hkeep := put_node_fields (q_nodes q) (q_head q) first new nh nf size buf).
  assert (Hptrs : ∀ x, x ∈ ptrs → x ≠ new)
    by (intros x Hx ->; apply Hnew; rewrite <- E; set_solver).
  exists (new :: ptrs), (buf :: ds).
  split; cbn [q_head q_tail q_nodes q_bufs]; cbn [app]; rewrite ?E.
  - rewrite !NoDup_cons in *. set_solver.
  - by apply put_node_chain.
  - unfold put_node. rewrite !dom_insert_L, Hdom. set_solver.
  - constructor.
    { unfold put_node. rewrite sizeof_insert, decide_True by done. cbn.
      apply memread_inv in Hsrc as (_ & ? & ? & ->). f_equal. len. lia. }
    apply (Forall2_impl_in _ _ _ _ Hsz). intros x y Hx%Hptrs Hxy.
    by rewrite (proj1 (Hkeep x Hh Hf Hne Hx)).
  - constructor.
    { unfold put_node. by rewrite dataof_insert, decide_True by done. }
    apply (Forall2_impl_in _ _ _ _ Hdt). intros x y Hx%Hptrs Hxy.
    by rewrite (proj2 (Hkeep x Hh Hf Hne Hx)).
  - assert (q_head q ≠ new) as Hhn by set_solver.
    by rewrite (proj2 (Hkeep _ Hh Hf Hne Hhn)).
  - by apply NoDup_cons.
  - constructor; [apply lookup_insert_eq|].
    apply (Forall2_impl_in _ _ _ _ Hbufs). intros d y Hd Hdy.
    rewrite lookup_insert_ne; [done|]. set_solver.
  - rewrite dom_insert_L, Hbdom. set_solver.
Qed.

(** [queue_dequeue] in one step, from the last node and the one before it. *)
Lemma queue_dequeue_run q dest nt p np d x b nb :
  q_size q ≠ 0 →
  q_nodes q !! q_tail q = Some nt → prev nt = Some p →
  q_nodes q !! p = Some np → prev np = Some b → node_data np = Some d →
  node_size np = Some (Z.of_nat (length x)) → q_bufs q !! d = Some x →
  q_nodes q !! b = Some nb → b ≠ q_tail q → p ≠ q_tail q → p ≠ b →
  (length x ≤ length dest)%nat →
  queue_dequeue q dest = Done (mk_queue
    (cut_node (q_nodes q) b p (q_tail q) nb nt)
    (delete d (q_bufs q)) (q_head q) (q_tail q) (w32 (q_size q - 1)),
    patch dest 0 x, Z.of_nat (length x)).
Proof.
  intros Hs Ht Hpt Hp Hpp Hd Hsz Hx Hb N1 N2 N3 Hl.
  unfold queue_dequeue, cut_node.
  rewrite (proj2 (Z.eqb_neq _ _) Hs).
  unfold set_prev, set_next, node, stored, free.
  repeat first
    [ rewrite bind_Done | rewrite lookup_insert_eq
    | rewrite lookup_insert_ne by done | rewrite Ht | rewrite Hpt | rewrite Hp
    | rewrite Hpp | rewrite Hd | rewrite Hsz | rewrite Hx | rewrite Hb
    | rewrite memread_Done by lia | rewrite memwrite_Done by (len; lia)
    | progress cbn [prev next node_size node_data] ].
  rewrite Z2Nat.inj_0, drop_0, Nat2Z.id, take_ge by lia. done.
Qed.

(** The oldest string, its node [p] behind [b], and its data block [d]. *)
Lemma rep_with_last q xs x ptrs ds :
  rep_with q (xs ++ [x]) ptrs ds →
  ∃ l b p nb np nt d ptrs0 ds0,
    ptrs = ptrs0 ++ [p] ∧ ds = ds0 ++ [d] ∧ q_head q :: ptrs0 = l ++ [b] ∧
    chained (q_nodes q) (l ++ [b]) ∧
    (q_nodes q !! b = Some nb ∧ q_nodes q !! p = Some np ∧
     q_nodes q !! q_tail q = Some nt) ∧
    (prev nt = Some p ∧ prev np = Some b ∧ node_data np = Some d ∧
     node_size np = Some (Z.of_nat (length x)) ∧ q_bufs q !! d = Some x) ∧
    Forall2 (λ p x, sizeof (q_nodes q) p = Some (Z.of_nat (length x))) ptrs0 xs ∧
    Forall2 (λ p d, dataof (q_nodes q) p = Some d) ptrs0 ds0 ∧
    Forall2 (λ d x, q_bufs q !! d = Some x) ds0 xs.
Proof.
  intros [_ Hch _ Hsz Hdt _ _ Hbufs _].
  apply Forall2_app_inv_r in Hsz as (ptrs0 & ? & Hsz & (p & ? & Hpsz
    & ->%Forall2_nil_inv_r & ->)%Forall2_cons_inv_r & ->).
  apply Forall2_app_inv_l in Hdt as (ds0 & ? & Hdt & (d & ? & Hpd
    & ->%Forall2_nil_inv_l & ->)%Forall2_cons_inv_l & ->).
  apply Forall2_app_inv_r in Hbufs as (ds0' & ? & Hbufs & (d' & ? & Hdx
    & ->%Forall2_nil_inv_r & ->)%Forall2_cons_inv_r & [<- <-]%app_inj_tail).
  destruct (exists_last (l := q_head q :: ptrs0)) as (l & b & El); [done|].
  change (chained (q_nodes q) (q_head q :: (ptrs0 ++ [p]) ++ [q_tail q])) in Hch.
  replace (q_head q :: (ptrs0 ++ [p]) ++ [q_tail q])
    with ((l ++ [b]) ++ [p; q_tail q]) in Hch
    by (rewrite <- El; cbn; by rewrite <- app_assoc).
  apply chained_snoc in Hch as [Hch [_ (nt & Ht & Hptn)%prevof_Some]].
  rewrite <- app_assoc in Hch. apply chained_snoc in Hch as [Hch [Hbn Hpb]].
  destruct (nextof_Some _ _ _ Hbn) as (nb & Hb & _).
  destruct (prevof_Some _ _ _ Hpb) as (np & Hp & Hpbn).
  exists l, b, p, nb, np, nt, d, ptrs0, ds0.
  revert Hpd Hpsz. unfold dataof, sizeof. rewrite Hp. done.
Qed.

Lemma queue_dequeue_rep q xs x dest :
  rep q (xs ++ [x]) → q_size q ≠ 0 → (length x ≤ length dest)%nat →
  ∃ q', queue_dequeue q dest = Done (q', patch dest 0 x, Z.of_nat (length x)) ∧
    rep q' xs ∧ q_size q' = w32 (q_size q - 1).
Proof.
  intros (ptrs & ds & R) Hs Hl.
  destruct (rep_with_last _ _ _ _ _ R) as (l & b & p & nb & np & nt & d & ptrs0 & ds0 &
    -> & -> & El & Hch & (Hb & Hp & Ht) & (Hpt & Hpb & Hpd & Hps & Hdx) & Hsz & Hdt &
    Hbufs).
  destruct R as [Hnd _ Hdom _ _ Hhd Hds _ Hbdom].
  assert (EL : q_head q :: (ptrs0 ++ [p]) ++ [q_tail q] = l ++ [b; p; q_tail q])
    by (rewrite !app_comm_cons, El; by rewrite <- !app_assoc).
  assert (ES : q_head q :: ptrs0 ++ [q_tail q] = l ++ [b; q_tail q])
    by (rewrite app_comm_cons, El; by rewrite <- app_assoc).
  rewrite EL in *. pose proof Hnd as (Hndl & Hdisj & [Hb3 [Hp3 _]%NoDup_cons]%NoDup_cons)%NoDup_app.
  assert (b ≠ q_tail q ∧ p ≠ q_tail q ∧ p ≠ b) as (N1 & N2 & N3) by set_solver.
  assert (Hnp : ∀ y, y ∈ q_head q :: ptrs0 → y ≠ p)
    by (intros y Hy ->; rewrite El in Hy; set_solver).
  assert (Hkeep := cut_node_fields (q_nodes q) b p (q_tail q) nb nt).
  rewrite (queue_dequeue_run q dest nt p np d x b nb) by done.
  eexists. split; [done|]. split; [|done]. exists ptrs0, ds0.
  apply NoDup_app in Hds as (Hds & Hdd & _).
  split; cbn [q_head q_tail q_nodes q_bufs]; rewrite ?ES.
  - apply NoDup_app. repeat split; [done|set_solver|].
    apply NoDup_cons. split; [set_solver|apply NoDup_singleton].
  - match goal with |- chain ?n _ _ =>
      change (chained n (q_head q :: ptrs0 ++ [q_tail q])) end.
    rewrite ES. by apply cut_node_chained.
  - unfold cut_node. rewrite dom_delete_L, !dom_insert_L, Hdom. set_solver.
  - apply (Forall2_impl_in _ _ _ _ Hsz). intros y v Hy Hyv.
    assert (y ≠ p) as Hyp by (apply Hnp; set_solver).
    by rewrite (proj1 (Hkeep y Hb Ht N1 Hyp)).
  - apply (Forall2_impl_in _ _ _ _ Hdt). intros y v Hy Hyv.
    assert (y ≠ p) as Hyp by (apply Hnp; set_solver).
    by rewrite (proj2 (Hkeep y Hb Ht N1 Hyp)).
  - assert (q_head q ≠ p) as Hyp by (apply Hnp; set_solver).
    by rewrite (proj2 (Hkeep _ Hb Ht N1 Hyp)).
  - done.
  - apply (Forall2_impl_in _ _ _ _ Hbufs). intros y v Hy Hyv.
    rewrite lookup_delete_ne; [done|]. intros ->. apply (Hdd _ Hy). set_solver.
  - rewrite dom_delete_L, Hbdom. assert (d ∉ ds0) by set_solver. set_solver.
Qed.

(** ** Sequences of operations *)

Inductive op :=
| Enqueue (data : list Z) (size : Z)
| Dequeue (dest : list Z).

(** a run of the code: the final state and, for each dequeue, the contents
    of its destination and the size returned *)
Fixpoint run (ops : list op) (q : Queue) : outcome (Queue * list (list Z * Z)) :=
  match ops with
  | [] => Done (q, [])
  | Enqueue data size :: ops =>
      q ← queue_enqueue q data size; run ops q
  | Dequeue dest :: ops =>
      '(q, dest, size) ← queue_dequeue q dest;
      '(q, outs) ← run ops q;
      Done (q, (dest, size) :: outs)
  end.

(** the first-in first-out specification, on the list of the strings in the
    queue, the oldest first *)
Fixpoint fifo (ops : list op) (xs : list (list Z))
    : outcome (list (list Z) * list (list Z * Z)) :=
  match ops with
  | [] => Done (xs, [])
  | Enqueue data size :: ops => fifo ops (xs ++ [take (Z.to_nat size) data])
  | Dequeue dest :: ops =>
      match xs with
      | [] => Fatal
      | x :: xs =>
          '(xs, outs) ← fifo ops xs;
          Done (xs, (patch dest 0 x, Z.of_nat (length x)) :: outs)
      end
  end.

(** Sources are at least as long as the sizes, which are at most [bound];
    destinations hold [bound] bytes. *)
Definition op_ok (bound : nat) (o : op) : Prop :=
  match o with
  | Enqueue data size => 0 ≤ size ≤ Z.of_nat (length data) ∧
      size ≤ Z.of_nat bound
  | Dequeue dest => (bound ≤ length dest)%nat
  end.

Lemma run_refines bound ops q xs :
  rep q (reverse xs) → q_size q = Z.of_nat (length xs) →
  Forall (op_ok bound) ops → Forall (λ x, length x ≤ bound)%nat xs →
  Z.of_nat (length xs + length ops) < 2 ^ 32 →
  match fifo ops xs with
  | Done (xs', outs) => ∃ q', run ops q = Done (q', outs) ∧
      rep q' (reverse xs') ∧ q_size q' = Z.of_nat (length xs')
  | Fatal => run ops q = Fatal
  | _ => False
  end.
Proof.
  intros HR HS Hok. revert q xs HR HS.
  induction Hok as [|o ops Ho Hok IH]; intros q xs HR HS Hb Hlen.
  { cbn. by exists q. }
  cbn [length] in Hlen. destruct o as [data size|dest]; cbn [run fifo].
  - destruct Ho as [Hs1 Hs2].
    assert (Hm : memread data 0 size = Done (take (Z.to_nat size) data)).
    { rewrite memread_Done by lia. by rewrite Z2Nat.inj_0, drop_0. }
    destruct (queue_enqueue_rep q _ data size _ HR Hm) as (q1 & -> & R1 & S1).
    rewrite bind_Done. apply IH.
    + by rewrite reverse_app.
    + rewrite S1, HS, w32_id by lia. len. lia.
    + apply Forall_snoc; [done|]. len. lia.
    + len. lia.
  - destruct xs as [|x xs].
    { unfold queue_dequeue. by rewrite HS. }
    apply Forall_cons in Hb as [Hx Hb]. cbn in Ho. cbn [length] in *.
    rewrite reverse_cons in HR.
    destruct (queue_dequeue_rep q (reverse xs) x dest HR) as (q1 & -> & R1 & S1);
      [lia|lia|].
    rewrite bind_Done.
    assert (HS1 : q_size q1 = Z.of_nat (length xs))
      by (rewrite S1, HS, w32_id; lia).
    specialize (IH q1 xs R1 HS1 Hb ltac:(lia)).
    destruct (fifo ops xs) as [[xs' outs]| | |]; [|by rewrite IH|done..].
    destruct IH as (q' & -> & R' & S'). by exists q'.
Qed.

(** C3: With q->size starting at 0, every sequence of enqueues and dequeues of
    strings that fit their buffers gives exactly the outputs of a first-in
    first-out list, and is fatal exactly when it dequeues from the empty list:
    the doubly linked nodes refine the list and no pointer is ever followed
    that was freed or never set. *)
Theorem queue_refines_fifo bound ops :
  Forall (op_ok bound) ops → Z.of_nat (length ops) < 2 ^ 32 →
  (q ← queue_init 0; '(_, outs) ← run ops q; Done outs) =
  ('(_, outs) ← fifo ops []; Done outs).
Proof.
  intros Hok Hlen. destruct (queue_init_rep 0) as (q & -> & HR & HS).
  rewrite bind_Done.
  pose proof (run_refines bound ops q [] HR HS Hok (Forall_nil_2 _) Hlen) as Hrun.
  destruct (fifo ops []) as [[xs outs]| | |]; [|by rewrite Hrun|done..].
  by destruct Hrun as (q' & -> & _).
Qed.

(** A queue whose [size] happens to start at another number than 0: taking from
    the empty queue is not refused, it follows a pointer that was never set. *)
Theorem queue_dequeue_unset_size garbage dest :
  0 < garbage < 2 ^ 32 →
  (q ← queue_init garbage; queue_dequeue q dest) = Undef.
Proof.
  intros Hg. destruct (queue_init_rep garbage) as (q & -> & (ptrs & ds & HR) & HS).
  rewrite bind_Done. destruct HR as [_ Hch _ Hsz _ Hhd _ _ _].
  inversion Hsz; subst. destruct Hch as [[_ Hp] _].
  destruct (prevof_Some _ _ _ Hp) as (nt & Ht & Hpt).
  unfold queue_dequeue, node. rewrite (proj2 (Z.eqb_neq _ _)) by lia.
  rewrite Ht, bind_Done, Hpt. cbn [stored]. rewrite bind_Done.
  revert Hhd. unfold dataof.
  destruct (q_nodes q !! q_head q) as [nh|]; [|done].
  cbn. by intros ->.
Qed.

(** queue_fatal frees a pointer that was never set, on every queue: the loop
    starts at the head, whose data no function stores. *)
Theorem queue_fatal_undefined q xs : rep q xs → queue_fatal q = Undef.
Proof.
  intros (ptrs & ds & [_ Hch Hdom _ _ Hhd _ _ _]). unfold queue_fatal.
  assert (∃ first rest, ptrs ++ [q_tail q] = first :: rest) as (first & rest & E)
    by (destruct ptrs; cbn; eauto).
  rewrite E in Hch. destruct Hch as [[Hn _] _].
  destruct (nextof_Some _ _ _ Hn) as (nh & Hh & Hnn).
  assert (size (q_nodes q) ≠ 0%nat) as Hsize.
  { rewrite map_size_ne_0_lookup. by exists (q_head q), nh. }
  destruct (size (q_nodes q)) as [|fuel]; [done|].
  cbn [queue_fatal_loop]. unfold node. rewrite Hh, bind_Done, Hnn.
  cbn [stored]. rewrite bind_Done.
  revert Hhd. unfold dataof. rewrite Hh. cbn. by intros ->.
Qed.

End Correctness.

(** ** Instances *)


Definition queue_malloc : Malloc.
Proof.
  refine {| uninit _ n := replicate (Z.to_nat n) 0xa5 |}.
  intros _ n Hn. rewrite length_replicate. lia.
Defined.

Definition sample_ops : list op :=
  [Enqueue [1; 2; 3] 2; Enqueue [4] 1; Dequeue [0; 0]; Dequeue [0; 0];
   Dequeue [0; 0]].

(** the two strings come out in order, then the third dequeue is fatal *)
Example sample_ops_fatal : fifo sample_ops [] = Fatal.
Proof. reflexivity. Qed.
Example sample_ops_prefix :
  snd <$> fifo (take 4 sample_ops) [] = Done [([1; 2], 2); ([4; 0], 1)].
Proof. reflexivity. Qed.

Lemma queue_refines_fifo_witness :
  (q ← @queue_init sample_alloc 0;
   '(_, outs) ← @run sample_alloc queue_malloc (take 4 sample_ops) q;
   Done outs) =
  ('(_, outs) ← fifo (take 4 sample_ops) []; Done outs).
Proof.
  apply (@queue_refines_fifo sample_alloc queue_malloc 2 (take 4 sample_ops));
    [|reflexivity].
  repeat constructor; cbn; lia.
Defined.

Lemma queue_dequeue_unset_size_witness :
  (q ← @queue_init sample_alloc 0xa5a5; queue_dequeue q [0; 0]) = Undef.
Proof. apply (@queue_dequeue_unset_size sample_alloc 0xa5a5 [0; 0]). lia. Defined.

Lemma queue_fatal_undefined_witness :
  ∃ q, @queue_init sample_alloc 0 = Done q ∧ queue_fatal q = Undef.
Proof.
  destruct (@queue_init_rep sample_alloc 0) as (q & E & R & _).
  exists q. split; [exact E|]. exact (queue_fatal_undefined q [] R).
Defined.
