(* ===== verification/Arrays.v ===== *)
(** * src/array.c: arrays of fixed-size elements in a byte buffer

    An [Array] is passed by value: its counters are copies, only the memory
    behind [data] is shared with the caller.  [data] is [&mem[arr_data]].  The
    functions use a member [size] that array.h does not declare; it is a field
    here, the number of slots as the callers pass it. *)
From S2P Require Import Prelude Shared Util.

Record Array := mk_array {
  arr_length : Z;
  arr_usize : Z;
  arr_data : Z;
  arr_size : Z
}.

Definition array_init (data usize length size : Z) : Array :=
  mk_array length usize data size.

(** the offset of slot [i]: the product is taken in 32 bits *)
Definition slot (a : Array) (i : Z) : Z := arr_data a + w32 (arr_usize a * i).

(** The result is the memory and the value returned, [None] when the function
    ends without a [return]. The element is [&data[p]]. *)
Definition array_add (a : Array) (mem : list Z) (data : list Z) (p : Z)
    : outcome (list Z * option Z) :=
  if arr_size a <=? w32 ((arr_usize a + 1) * arr_length a)
  then Done (mem, Some 1)
  else
    r ← for_range_ret 0 (arr_size a) (λ i _,
      c ← memcmp mem (slot a i) data p (arr_usize a);
      if c =? 0 then Done (inl ()) else Done (inr 1)) ();
    match r with
    | inr v => Done (mem, Some v)
    | inl _ =>
        src ← memread data p (arr_usize a);
        mem ← memwrite mem (slot a (arr_length a)) src;
        Done (mem, None)
    end.

(** The loop keeps the memory and the local [a.length]. [i] is an [int]: in
    [i != a.length - 1] it is converted to 32 unsigned bits. *)
Definition array_del (a : Array) (mem : list Z) (data : list Z) (p : Z)
    : outcome (list Z) :=
  r ← for_range 0 (arr_size a) (λ i '(mem, length),
    c ← memcmp mem (slot a i) data p (arr_usize a);
    if c =? 0 then Done (mem, length)
    else
      mem ← (if (1 <? length) && negb (w32 i =? w32 (length - 1)) then
               src ← memread mem (slot a (w32 (length - 1))) (arr_usize a);
               memwrite mem (slot a i) src
             else Done mem);
      Done (mem, w32 (length - 1))) (mem, arr_length a);
  Done r.1.

(** ** What the operations do to the memory *)

(** the element in slot [i] *)
Definition elem (a : Array) (mem : list Z) (i : Z) : outcome (list Z) :=
  memread mem (slot a i) (arr_usize a).

(** The slots lie in the buffer, and no computation on them wraps. *)
Definition array_ok (a : Array) (mem : list Z) : Prop :=
  0 ≤ arr_data a ∧ 0 < arr_usize a < 2 ^ 16 ∧
  0 ≤ arr_size a < 2 ^ 31 ∧ (arr_usize a + 1) * arr_size a < 2 ^ 32 ∧
  0 ≤ arr_length a ≤ arr_size a ∧
  arr_data a + arr_usize a * arr_size a ≤ Z.of_nat (length mem).

Lemma slot_in a mem i :
  array_ok a mem → 0 ≤ i < arr_size a →
  slot a i = arr_data a + arr_usize a * i ∧
  slot a i + arr_usize a ≤ Z.of_nat (length mem).
Proof.
  intros (H1 & H2 & H3 & H4 & H5 & H6) Hi. unfold slot.
  assert (0 ≤ arr_usize a * i) by nia.
  assert (arr_usize a * i + arr_usize a ≤ arr_usize a * arr_size a) by nia.
  rewrite w32_id by lia. lia.
Qed.

Lemma elem_Done a mem i :
  array_ok a mem → 0 ≤ i < arr_size a →
  ∃ x, elem a mem i = Done x ∧ Z.of_nat (length x) = arr_usize a.
Proof.
  intros Hok Hi. destruct (slot_in a mem i Hok Hi) as [E Hs].
  destruct Hok as (H1 & H2 & _). unfold elem.
  rewrite memread_Done by nia. eexists. split; [done|]. len. nia.
Qed.

(** Storing in a slot what it holds changes nothing. *)
Lemma memwrite_same (mem : list Z) off n x :
  memread mem off n = Done x → memwrite mem off x = Done mem.
Proof.
  intros (H1 & H2 & H3 & ->)%memread_inv. rewrite memwrite_Done by (len; lia).
  f_equal. apply list_eq. intros i. rewrite patch_lookup by (len; lia).
  case_decide as Hi; [|done]. revert Hi. len. intros Hi.
  rewrite lookup_take_lt, lookup_drop by lia. f_equal. lia.
Qed.

Lemma array_add_run a mem data p x :
  array_ok a mem → memread data p (arr_usize a) = Done x →
  ∃ v, array_add a mem data p = Done (mem, v).
Proof.
  intros Hok Hx. pose proof Hok as (H1 & H2 & H3 & H4 & H5 & H6).
  unfold array_add. rewrite w32_id by nia.
  destruct (Z.leb_spec (arr_size a) ((arr_usize a + 1) * arr_length a)) as [|Hg];
    [by eexists|].
  assert (Hl : 0 ≤ arr_length a < arr_size a) by nia.
  destruct (for_range_ret_inv
    (λ i (_ : ()), ∀ j, 0 ≤ j < i → elem a mem j = Done x) (λ _ : Z, True)
    0 (arr_size a)
    (λ i _, c ← memcmp mem (slot a i) data p (arr_usize a);
      if c =? 0 then Done (inl ()) else Done (inr 1)) ())
    as (r & -> & Hr); [lia|intros; lia| |].
  - intros i [] Hi IH. destruct (elem_Done a mem i Hok Hi) as (y & Hy & Ly).
    destruct (memcmp_Done _ _ _ _ _ _ _ Hy Hx) as (c & -> & Hc). cbn.
    destruct (Z.eqb_spec c 0) as [Hc0|]; eexists; split; try done. cbn.
    intros j Hj. destruct (decide (j = i)) as [->|]; [|apply IH; lia].
    rewrite Hy. f_equal. by apply Hc.
  - rewrite bind_Done. destruct r as [[]|v0]; [|by eexists].
    rewrite Hx, bind_Done, (memwrite_same _ _ _ _ (Hr _ Hl)). by eexists.
Qed.

(** array_add never changes the memory: a different element ends it at once,
    and when all are equal it stores over one what that holds. *)
Theorem array_add_stores_nothing a mem data p x :
  array_ok a mem → memread data p (arr_usize a) = Done x →
  ∃ v, array_add a mem data p = Done (mem, v).
Proof. apply array_add_run. Qed.

(** Copying slot [k] to slot [i]. *)
Lemma copy_slot a mem i k :
  array_ok a mem → 0 ≤ i < arr_size a → 0 ≤ k < arr_size a →
  ∃ src mem', memread mem (slot a k) (arr_usize a) = Done src ∧
    memwrite mem (slot a i) src = Done mem' ∧ length mem' = length mem ∧
    ∀ j, 0 ≤ j < arr_size a →
      elem a mem' j = elem a mem (if decide (j = i) then k else j).
Proof.
  intros Hok Hi Hk. destruct (elem_Done a mem k Hok Hk) as (src & Hsrc & Ls).
  destruct (slot_in a mem i Hok Hi) as [Ei Si]. pose proof Hok as (H1 & H2 & _).
  exists src. rewrite (memwrite_Done mem) by nia. eexists. split; [done|].
  split; [done|]. split; [len; nia|]. intros j Hj.
  destruct (slot_in a mem j Hok Hj) as [Ej Sj].
  case_decide as Hji.
  - subst j. rewrite Hsrc. unfold elem. apply memread_patch_same; nia.
  - unfold elem. rewrite !memread_Done by (len; nia). f_equal.
    apply patch_read_other; nia.
Qed.

(** ** array_del *)

Section Del.
Context (a : Array) (mem data : list Z) (p : Z) (x : list Z).
Context (Hok : array_ok a mem) (Hmem : Z.of_nat (length mem) < 2 ^ 31).
Context (Hx : memread data p (arr_usize a) = Done x).

(** how many of the slots below [i] differ from the element *)
Definition differing (i : Z) : Z :=
  Z.of_nat (length (filter (λ j, elem a mem j ≠ Done x) (seqZ 0 i))).

Lemma differing_S i : 0 ≤ i →
  differing (i + 1) = differing i + (if decide (elem a mem i = Done x) then 0 else 1).
Proof.
  intros Hi. unfold differing. rewrite seqZ_snoc, list.filter_app, length_app by lia.
  case_decide.
  - rewrite (filter_cons_False _ i) by naive_solver. cbn. lia.
  - rewrite filter_cons_True by done. cbn. lia.
Qed.

(** the body of the loop *)
Definition del_step (i : Z) (s : list Z * Z) : outcome (list Z * Z) :=
  let '(mem, length) := s in
  c ← memcmp mem (slot a i) data p (arr_usize a);
  if c =? 0 then Done (mem, length)
  else
    mem ← (if (1 <? length) && negb (w32 i =? w32 (length - 1)) then
             src ← memread mem (slot a (w32 (length - 1))) (arr_usize a);
             memwrite mem (slot a i) src
           else Done mem);
    Done (mem, w32 (length - 1)).

(** The memory after [i] rounds: the slots still to come are untouched, and
    the local length went down with every slot that differs. *)
Definition del_inv (i : Z) (s : list Z * Z) : Prop :=
  length s.1 = length mem ∧
  (∀ j, i ≤ j < arr_size a → elem a s.1 j = elem a mem j) ∧
  s.2 = w32 (arr_length a - differing i).

Lemma del_inv_ok i s : del_inv i s → array_ok a s.1.
Proof. intros [L _]. unfold array_ok. by rewrite L. Qed.

Lemma del_cmp i s :
  del_inv i s → 0 ≤ i < arr_size a →
  ∃ c, memcmp s.1 (slot a i) data p (arr_usize a) = Done c ∧
    (c = 0 ↔ elem a mem i = Done x).
Proof.
  intros Hs Hi. destruct (elem_Done a s.1 i (del_inv_ok _ _ Hs) Hi) as (y & Hy & _).
  destruct (memcmp_Done _ _ _ _ _ _ _ Hy Hx) as (c & E & Hc).
  exists c. split; [done|]. destruct Hs as (_ & He & _).
  rewrite Hc, <- He, Hy by lia. naive_solver.
Qed.

Lemma del_step_Done i s :
  del_inv i s → 0 ≤ i < arr_size a → differing (i + 1) ≤ arr_length a + 1 →
  ∃ s', del_step i s = Done s' ∧ del_inv (i + 1) s'.
Proof.
  intros Hs Hi Hd. destruct (del_cmp i s Hs Hi) as (c & Ec & Hc).
  pose proof (del_inv_ok _ _ Hs) as Hok'. pose proof Hok as (H1 & H2 & H3 & H4 & H5 & H6).
  destruct s as [m len]. destruct Hs as (Lm & He & Hl). cbn [fst snd] in *.
  unfold del_step. rewrite Ec, bind_Done. rewrite differing_S in Hd by lia.
  destruct (Z.eqb_spec c 0) as [Hc0|Hc0].
  { eexists. split; [done|]. split; [done|]. split; [intros; apply He; lia|].
    cbn [snd]. rewrite differing_S by lia. rewrite decide_True by tauto. by rewrite Z.add_0_r. }
  rewrite decide_False in Hd by tauto. assert (0 ≤ differing i) by (unfold differing; lia).
  assert (Hl' : w32 (len - 1) = w32 (arr_length a - differing (i + 1))).
  { rewrite differing_S by lia. rewrite decide_False by tauto. rewrite Hl.
    unfold w32. rewrite Zminus_mod_idemp_l. f_equal. lia. }
  rewrite w32_id in Hl by lia.
  destruct (Z.ltb_spec 1 len) as [Hgt|Hle]; cbn [andb].
  2:{ eexists. split; [done|]. split; [done|]. by split; [intros; apply He; lia|]. }
  destruct (negb (w32 i =? w32 (len - 1))).
  2:{ eexists. split; [done|]. split; [done|]. by split; [intros; apply He; lia|]. }
  rewrite (w32_id (len - 1)) by lia.
  destruct (copy_slot a m i (len - 1) Hok') as (src & m' & E1 & E2 & L' & Hcp); [lia|lia|].
  rewrite E1, bind_Done, E2, bind_Done. eexists. split; [done|].
  split; [cbn; lia|]. cbn [fst snd]. split.
  - intros j Hj. rewrite Hcp, decide_False by lia. apply He. lia.
  - rewrite <- Hl'. symmetry. apply w32_id. lia.
Qed.

Lemma del_step_Undef i s :
  del_inv i s → 0 ≤ i < arr_size a → differing i = arr_length a + 1 →
  elem a mem i ≠ Done x → del_step i s = Undef.
Proof.
  intros Hs Hi Hd Hne. destruct (del_cmp i s Hs Hi) as (c & Ec & Hc).
  pose proof Hok as (H1 & H2 & H3 & H4 & H5 & H6).
  destruct s as [m len]. destruct Hs as (Lm & _ & Hl). cbn [fst snd] in *.
  unfold del_step. rewrite Ec, bind_Done.
  rewrite (proj2 (Z.eqb_neq c 0)) by tauto.
  replace (arr_length a - differing i) with (-1) in Hl by lia. subst len.
  change (w32 (-1)) with (2 ^ 32 - 1). change (1 <? 2 ^ 32 - 1) with true.
  change (w32 (2 ^ 32 - 1 - 1)) with (2 ^ 32 - 2). rewrite w32_id by lia.
  rewrite (proj2 (Z.eqb_neq _ _)) by lia. cbn [andb negb].
  enough (memread m (slot a (2 ^ 32 - 2)) (arr_usize a) = Undef) as -> by done.
  apply memread_oob. unfold slot.
  replace (w32 (arr_usize a * (2 ^ 32 - 2))) with (2 ^ 32 - 2 * arr_usize a);
    [lia|].
  unfold w32. apply (Z.mod_unique _ _ (arr_usize a - 1)); lia.
Qed.

Lemma differing_mono i j : 0 ≤ i ≤ j → differing i ≤ differing j.
Proof.
  intros [Hi Hj]. revert j Hj.
  refine (Zlt_lower_bound_ind _ i _). intros j IH Hj.
  destruct (decide (i = j)) as [->|]; [lia|].
  specialize (IH (j - 1) ltac:(lia)).
  replace j with (j - 1 + 1) by lia. rewrite differing_S by lia. case_decide; lia.
Qed.

(** the slot at which the count goes from [n] to [n + 1] *)
Lemma differing_reach n i : 0 ≤ n < differing i →
  ∃ k, 0 ≤ k < i ∧ differing k = n ∧ elem a mem k ≠ Done x.
Proof.
  intros [Hn Hi]. assert (0 ≤ i).
  { destruct (Z.le_gt_cases 0 i); [done|]. unfold differing in Hi.
    rewrite seqZ_nil in Hi by lia. cbn in Hi. lia. }
  revert Hi. pattern i. apply natlike_ind; [change (differing 0) with 0; lia| |done].
  intros j Hj IH Hlt. unfold Z.succ in *. rewrite differing_S in Hlt by lia.
  destruct (decide (n < differing j)) as [Hj'|Hj'].
  - destruct (IH Hj') as (k & Hk & E). exists k. split; [lia|done].
  - case_decide; [lia|]. exists j. split; [lia|]. split; [lia|done].
Qed.

Lemma del_inv_0 : del_inv 0 (mem, arr_length a).
Proof.
  split; [done|]. split; [done|]. destruct Hok as (H1 & H2 & H3 & H4 & H5 & H6).
  unfold differing. cbn [snd]. rewrite seqZ_nil by lia. cbn [filter list_filter length].
  rewrite Z.sub_0_r, w32_id by lia. done.
Qed.

Lemma array_del_run :
  if decide (arr_length a + 2 ≤ differing (arr_size a))
  then array_del a mem data p = Undef
  else ∃ mem', array_del a mem data p = Done mem' ∧ length mem' = length mem.
Proof.
  pose proof Hok as (H1 & H2 & H3 & H4 & H5 & H6).
  change (array_del a mem data p) with
    (r ← for_range 0 (arr_size a) (λ i '(mem, length), del_step i (mem, length))
       (mem, arr_length a); Done r.1).
  case_decide as Hd.
  - destruct (differing_reach (arr_length a + 1) (arr_size a)) as (k & Hk & Ek & Hne);
      [lia|].
    rewrite (for_range_undef del_inv 0 k _ _ _ Hk del_inv_0); [done| |].
    + intros i [m len] Hi Hs. apply del_step_Done; [done|lia|].
      pose proof (differing_mono (i + 1) k). lia.
    + intros [m len] Hs. by apply del_step_Undef.
  - destruct (for_range_inv del_inv 0 (arr_size a)
      (λ i '(mem, length), del_step i (mem, length)) (mem, arr_length a))
      as (s & -> & Hs); [lia|apply del_inv_0| |].
    + intros i [m len] Hi Hs. apply del_step_Done; [done|lia|].
      pose proof (differing_mono (i + 1) (arr_size a)). lia.
    + rewrite bind_Done. eexists. split; [done|]. apply Hs.
Qed.

End Del.

(** array_del reads far outside the buffer exactly when at least two slots
    more than the array holds differ from the element, whether the element is
    in it or not; otherwise it returns and keeps the size of the memory. *)
Theorem array_del_undefined a mem data p x :
  array_ok a mem → Z.of_nat (length mem) < 2 ^ 31 →
  memread data p (arr_usize a) = Done x →
  if decide (arr_length a + 2 ≤ differing a mem x (arr_size a))
  then array_del a mem data p = Undef
  else ∃ mem', array_del a mem data p = Done mem' ∧ length mem' = length mem.
Proof. apply array_del_run. Qed.

(** ** Instances *)

(** one element of two in use, of three slots, behind a four-byte counter *)
Definition sample_array : Array := array_init 4 1 1 3.

Lemma array_add_stores_nothing_witness :
  ∃ v, array_add (array_init 4 1 1 3) [0; 0; 0; 1; 7; 7; 7] [7] 0 =
    Done ([0; 0; 0; 1; 7; 7; 7], v).
Proof.
  apply (array_add_stores_nothing sample_array [0; 0; 0; 1; 7; 7; 7] [7] 0 [7]);
    [unfold array_ok; cbn; lia|reflexivity].
Defined.

(** The element in use is found, the three free slots differ from it. *)
Lemma array_del_undefined_witness :
  array_del (array_init 4 1 1 4) [0; 0; 0; 1; 7; 8; 9; 9] [7] 0 = Undef.
Proof.
  exact (array_del_undefined (array_init 4 1 1 4) [0; 0; 0; 1; 7; 8; 9; 9] [7] 0 [7]
    ltac:(unfold array_ok; cbn; lia) eq_refl eq_refl).
Defined.
