(* ===== verification/Store.v ===== *)
(** * src/data.c: the databases

    The five databases are Berkeley DB handles, behind the interface
    [BerkeleyDB]; what its documentation promises of the calls used here is
    [BerkeleyDBLaws], on the records a handle holds, and [gmap_db] is an
    implementation of both.  A [DBT] describes a byte string: the library
    takes the bytes of a key or of a record to store from [data] and [size],
    and copies a record found into [data] when it has at most [ulen] bytes.
    [new_dbt] sets [ulen] and leaves [size] at 0. *)
From S2P Require Import Prelude Shared Util Crypto Unresolved Transactions Merkle Blocks.

(** ** Berkeley DB *)

(** [dbt_data] is the memory [data] points to. *)
Record DBT := mk_dbt {
  dbt_data : list Z;
  dbt_size : Z;
  dbt_ulen : Z;
  dbt_doff : Z;
  dbt_dlen : Z;
  dbt_flags : Z
}.

(** the calls [db->put], [db->get] and [db->exists] with a [NULL]
    transaction and no flags; the first result is the return code *)
Class BerkeleyDB := {
  DB : Type;
  DB_DBT_USERMEM : Z;
  DB_DBT_PARTIAL : Z;
  bdb_put : DB → DBT → DBT → Z * DB;
  bdb_get : DB → DBT → DBT → Z * DBT;
  bdb_exists : DB → DBT → Z;
  (** [db->cursor] and then [DB_NEXT] until it fails: the data of the records,
      or [None] when the cursor cannot be opened *)
  bdb_cursor : DB → option (list (list Z))
}.

(** the byte string a DBT passes to the library *)
Definition dbt_bytes (d : DBT) : list Z :=
  take (Z.to_nat (dbt_size d)) (dbt_data d).

(** the DBT after the bytes [v] were copied out *)
Definition dbt_filled (d : DBT) (v : list Z) : DBT :=
  mk_dbt (patch (dbt_data d) 0 v) (Z.of_nat (length v)) (dbt_ulen d)
    (dbt_doff d) (dbt_dlen d) (dbt_flags d).

(** the bytes a get returns: all of the record, or the part asked for *)
Definition dbt_select `{BerkeleyDB} (d : DBT) (v : list Z) : list Z :=
  if dbt_flags d =? DB_DBT_USERMEM then v
  else take (Z.to_nat (dbt_dlen d)) (drop (Z.to_nat (dbt_doff d)) v).

(** a DBT as the code makes them *)
Definition dbt_usermem `{BerkeleyDB} (d : DBT) : Prop :=
  dbt_flags d = DB_DBT_USERMEM ∨
  dbt_flags d = Z.lor DB_DBT_USERMEM DB_DBT_PARTIAL.

Class BerkeleyDBLaws `{BerkeleyDB} := {
  records : DB → gmap (list Z) (list Z);
  (** a put stores the record, or fails and changes nothing *)
  bdb_put_law db key dat ret db' :
    dbt_flags dat = DB_DBT_USERMEM → bdb_put db key dat = (ret, db') →
    records db' = if ret =? 0 then <[dbt_bytes key := dbt_bytes dat]> (records db)
                  else records db;
  (** a get of a missing key fails (DB_NOTFOUND), and so does one whose
      memory is too small (DB_BUFFER_SMALL); nothing is copied *)
  bdb_get_missing db key dat :
    dbt_usermem dat → records db !! dbt_bytes key = None →
    ∃ ret d, ret ≠ 0 ∧ bdb_get db key dat = (ret, d) ∧ dbt_data d = dbt_data dat;
  bdb_get_small db key dat v :
    dbt_usermem dat → records db !! dbt_bytes key = Some v →
    dbt_ulen dat < Z.of_nat (length (dbt_select dat v)) →
    ∃ ret d, ret ≠ 0 ∧ bdb_get db key dat = (ret, d) ∧ dbt_data d = dbt_data dat;
  bdb_get_law db key dat v :
    dbt_usermem dat → records db !! dbt_bytes key = Some v →
    Z.of_nat (length (dbt_select dat v)) ≤ dbt_ulen dat →
    (length (dbt_select dat v) ≤ length (dbt_data dat))%nat →
    bdb_get db key dat = (0, dbt_filled dat (dbt_select dat v));
  bdb_exists_law db key :
    bdb_exists db key = 0 ↔ is_Some (records db !! dbt_bytes key)
}.

(** ** DBTs and the wrappers *)

Section Wrappers.
Context `{BerkeleyDB}.

(** [data] is what the pointer argument points to; [memset] clears the other
    fields. *)
Definition new_dbt (data : list Z) (size : Z) : DBT :=
  mk_dbt data 0 size 0 0 DB_DBT_USERMEM.

Definition new_pdbt (data : list Z) (psize pstart : Z) : DBT :=
  let dbt := new_dbt data 0 in
  mk_dbt (dbt_data dbt) (dbt_size dbt) (dbt_ulen dbt) pstart psize
    (Z.lor (dbt_flags dbt) DB_DBT_PARTIAL).

Definition db_put (db : DB) (key dat : DBT) : Z * DB := bdb_put db key dat.
Definition db_get (db : DB) (key dat : DBT) : Z * DBT := bdb_get db key dat.
Definition db_exists (db : DB) (key : DBT) : Z := bdb_exists db key.

End Wrappers.

(** ** The databases of a node

    The mempool of [struct _s_Dbs] is modelled in Mempool.v. *)
Record Dbs `{BerkeleyDB} := mk_dbs {
  blocks : DB;
  chain : DB;
  limbo : DB;
  txs : DB;
  nodes : DB
}.

(** functions on serialised blocks used by data.c and defined nowhere *)
Class BlockNames := {
  block_compute_hash : list Z → Z → list Z → outcome (list Z);
  block_get_tx_count : list Z → Z → outcome Z;
  block_get_height : list Z → Z → outcome Z
}.

(** a [uint] in memory *)
Definition uint_bytes `{Host} (x : Z) : list Z :=
  if little_endian then reverse (be_bytes 4 x) else be_bytes 4 x.

Section Operations.
Context `{BerkeleyDB, Host, TxNames, Malloc, BlockNames}.

(** *** txs *)

(** an error of the put is only printed *)
Definition data_txs_add (dbs : Dbs) (tx_hash block_hash : list Z) : Dbs :=
  let key := new_dbt tx_hash SIZE_SHA256 in
  let dat := new_dbt block_hash SIZE_SHA256 in
  let '(ret, txs) := db_put (txs dbs) key dat in
  mk_dbs _ (blocks dbs) (chain dbs) (limbo dbs) txs (nodes dbs).

Definition data_txs_exists (dbs : Dbs) (hash : list Z) : Z :=
  let key := new_dbt hash SIZE_SHA256 in
  if db_exists (txs dbs) key =? 0 then 1 else 0.

(** *** blocks *)

(** [dest_addr] is the address [block_compute_size] takes its count from.
    The hash is computed into [hash], which the function does not declare;
    the key is [block_hash], which nothing is stored to. *)
Definition data_blocks_add (dest_addr : Z) (hash : list Z) (dbs : Dbs)
    (block : list Z) : outcome (Dbs * list Z) :=
  let block_hash := uninit "block_hash" SIZE_SHA256 in
  hash ← block_compute_hash block 0 hash;
  let tx_hash := uninit "tx_hash" SIZE_SHA256 in
  tx_count ← block_get_tx_count block 0;
  '(dbs, tx_hash, cursor) ← for_range 0 tx_count (λ _ '(dbs, tx_hash, cursor),
    tx_hash ← tx_compute_hash block cursor tx_hash;
    let dbs := data_txs_add dbs tx_hash block_hash in
    n ← tx_get_size block cursor;
    Done (dbs, tx_hash, w32 (cursor + n))) (dbs, tx_hash, POS_BLOCK_BODY);
  let key := new_dbt block_hash SIZE_SHA256 in
  size ← block_compute_size dest_addr block 0;
  let dat := new_dbt block size in
  let '(ret, blocks) := db_put (blocks dbs) key dat in
  Done (mk_dbs _ blocks (chain dbs) (limbo dbs) (txs dbs) (nodes dbs), hash).

(** The results are the return code and the contents of [dest]. *)
Definition data_blocks_get (dbs : Dbs) (hash dest : list Z) : Z * list Z :=
  let key := new_dbt hash SIZE_SHA256 in
  let dat := new_dbt dest MAX_BLOCK_SIZE in
  let '(ret, dat) := db_get (blocks dbs) key dat in
  (ret, dbt_data dat).

Definition data_blocks_get_header (dbs : Dbs) (hash dest : list Z)
    : Z * list Z :=
  let key := new_dbt hash SIZE_SHA256 in
  let dat := new_pdbt dest SIZE_BLOCK_HEADER 0 in
  let '(ret, dat) := db_get (blocks dbs) key dat in
  (ret, dbt_data dat).

Definition data_blocks_exists (dbs : Dbs) (hash : list Z) : Z :=
  let key := new_dbt hash SIZE_SHA256 in
  let ret := db_exists (blocks dbs) key in
  if ret =? 0 then 1 else 0.

(** *** chain *)

Definition data_chain_set (dbs : Dbs) (height : Z) (hash : list Z)
    : outcome Dbs := Fatal.

Definition data_chain_get (dbs : Dbs) (height : Z) (dest : list Z)
    : Z * list Z :=
  let key := new_dbt (uint_bytes height) 4 in
  let dat := new_dbt dest SIZE_SHA256 in
  let '(ret, dat) := db_get (chain dbs) key dat in
  (ret, dbt_data dat).

Definition data_chain_exists (dbs : Dbs) (height : Z) (hash : list Z)
    : outcome Z :=
  let buffer := uninit "buffer" SIZE_SHA256 in
  let '(ret, buffer) := data_chain_get dbs height buffer in
  if negb (ret =? 0) then Done 0
  else
    c ← memcmp buffer 0 hash 0 SIZE_SHA256;
    Done (if c =? 0 then 1 else 0).

(** *** Heights

    [highest] is never initialised: [highest0] is the number found in it. *)
Definition _data_VAR_get_height (highest0 : Z) (db : DB) : outcome Z :=
  match bdb_cursor db with
  | None => Fatal
  | Some recs =>
      foldl (λ highest rec,
        highest ← highest;
        curr ← block_get_height rec 0;
        Done (if highest <? curr then curr else highest)) (Done highest0) recs
  end.

Definition data_chain_get_height (highest0 : Z) (dbs : Dbs) : outcome Z :=
  _data_VAR_get_height highest0 (chain dbs).

Definition data_limbo_get_height (highest0 : Z) (dbs : Dbs) : outcome Z :=
  _data_VAR_get_height highest0 (limbo dbs).

End Operations.

(** ** An implementation of the interface *)

Section Gmap.

Definition gmap_get (db : gmap (list Z) (list Z)) (key dat : DBT) : Z * DBT :=
  match db !! dbt_bytes key with
  | None => (-30988, dat)
  | Some v =>
      let w := if dbt_flags dat =? 0x20 then v
               else take (Z.to_nat (dbt_dlen dat)) (drop (Z.to_nat (dbt_doff dat)) v) in
      if dbt_ulen dat <? Z.of_nat (length w) then (-30999, dat)
      else (0, dbt_filled dat w)
  end.

Definition gmap_db : BerkeleyDB := {|
  DB := gmap (list Z) (list Z);
  DB_DBT_USERMEM := 0x20;
  DB_DBT_PARTIAL := 0x8;
  bdb_put db key dat := (0, <[dbt_bytes key := dbt_bytes dat]> db);
  bdb_get := gmap_get;
  bdb_exists db key :=
    match db !! dbt_bytes key with Some _ => 0 | None => -30988 end;
  bdb_cursor db := Some (snd <$> map_to_list db)
|}.

Definition gmap_db_laws : @BerkeleyDBLaws gmap_db.
Proof.
  refine (@Build_BerkeleyDBLaws gmap_db (λ db, db) _ _ _ _ _); cbn.
  - by intros db key dat ret db' _ [= <- <-].
  - intros db key dat _ E. unfold gmap_get. rewrite E.
    by exists (-30988), dat.
  - intros db key dat v _ E Hlt. unfold gmap_get, dbt_select in *. rewrite E.
    cbn in *. rewrite (proj2 (Z.ltb_lt _ _) Hlt).
    by exists (-30999), dat.
  - intros db key dat v _ E Hle _. unfold gmap_get, dbt_select in *. rewrite E.
    cbn in *. by rewrite (proj2 (Z.ltb_ge _ _) Hle).
  - intros db key. destruct (_ !! _); split; done.
Defined.

End Gmap.

(** ** What the operations do *)

Section Correctness.
Context `{BerkeleyDBLaws, Host, TxNames, Malloc, BlockNames}.

(** Every DBT of the code passes the empty string: [size] is never set. *)
Lemma new_dbt_bytes data size : dbt_bytes (new_dbt data size) = [].
Proof. done. Qed.

Lemma new_dbt_usermem data size : dbt_usermem (new_dbt data size).
Proof. by left. Qed.

Lemma new_pdbt_usermem data psize pstart :
  dbt_usermem (new_pdbt data psize pstart).
Proof. by right. Qed.

Lemma db_exists_any db h h' size size' :
  (db_exists db (new_dbt h size) =? 0) = (db_exists db (new_dbt h' size') =? 0).
Proof.
  unfold db_exists. pose proof (bdb_exists_law db (new_dbt h size)) as L.
  pose proof (bdb_exists_law db (new_dbt h' size')) as L'.
  rewrite new_dbt_bytes in L, L'.
  apply eq_true_iff_eq. rewrite !Z.eqb_eq. by rewrite L, L'.
Qed.

(** A put of the code stores one record, empty, under the empty key. *)
Lemma db_put_records db k v ksize vsize ret db' :
  db_put db (new_dbt k ksize) (new_dbt v vsize) = (ret, db') →
  records db' = if ret =? 0 then <[[] := []]> (records db) else records db.
Proof.
  intros E. by rewrite (bdb_put_law db (new_dbt k ksize) (new_dbt v vsize) ret db').
Qed.

Lemma db_exists_Some db h size :
  is_Some (records db !! []) → db_exists db (new_dbt h size) = 0.
Proof. intros Hs. by apply bdb_exists_law. Qed.

(** Reading the empty record copies nothing. *)
Lemma db_get_empty db k ksize dat :
  dbt_usermem dat → 0 ≤ dbt_ulen dat → records db !! [] = Some [] →
  ∃ d, db_get db (new_dbt k ksize) dat = (0, d) ∧ dbt_data d = dbt_data dat.
Proof.
  intros Hu H0u Hr. assert (Hsel : dbt_select dat [] = []).
  { unfold dbt_select. destruct (_ =? _); [done|]. by rewrite drop_nil, take_nil. }
  unfold db_get. rewrite (bdb_get_law db (new_dbt k ksize) dat [] Hu Hr)
    by (rewrite Hsel; cbn; lia).
  rewrite Hsel. eexists. split; [done|]. cbn. by rewrite patch_nil.
Qed.

Lemma data_blocks_get_empty dbs h dest :
  records (blocks dbs) !! [] = Some [] → data_blocks_get dbs h dest = (0, dest).
Proof.
  intros R. unfold data_blocks_get.
  destruct (db_get_empty (blocks dbs) h SIZE_SHA256 (new_dbt dest MAX_BLOCK_SIZE))
    as (d & -> & ->); [apply new_dbt_usermem|done|done|done].
Qed.

Lemma data_blocks_get_header_empty dbs h dest :
  records (blocks dbs) !! [] = Some [] →
  data_blocks_get_header dbs h dest = (0, dest).
Proof.
  intros R. unfold data_blocks_get_header.
  destruct (db_get_empty (blocks dbs) h SIZE_SHA256
    (new_pdbt dest SIZE_BLOCK_HEADER 0)) as (d & -> & ->);
    [apply new_pdbt_usermem|done|done|done].
Qed.

(** A get keeps the size of a buffer that has the room it says. *)
Lemma db_get_length db h n dest ulen :
  ulen ≤ Z.of_nat (length dest) →
  length (dbt_data (db_get db (new_dbt h n) (new_dbt dest ulen)).2) = length dest.
Proof.
  intros Hd. unfold db_get. set (key := new_dbt h n). set (dat := new_dbt dest ulen).
  assert (Hu : dbt_usermem dat) by apply new_dbt_usermem.
  destruct (records db !! []) as [v|] eqn:E.
  2:{ by destruct (bdb_get_missing db key dat Hu E) as (r & d & _ & -> & Ed); cbn; rewrite Ed. }
  assert (Hsel : dbt_select dat v = v)
    by (unfold dbt_select; cbn; by rewrite Z.eqb_refl).
  destruct (Z.le_gt_cases (Z.of_nat (length v)) ulen).
  - rewrite (bdb_get_law db key dat v Hu E) by (rewrite Hsel; cbn; lia).
    rewrite Hsel. change (length (patch dest 0 v) = length dest). apply length_patch. lia.
  - destruct (bdb_get_small db key dat v Hu E) as (r & d & _ & -> & Ed);
      [rewrite Hsel; cbn; lia|]. cbn. by rewrite Ed.
Qed.

Lemma data_blocks_get_length dbs h dest :
  MAX_BLOCK_SIZE ≤ Z.of_nat (length dest) →
  length (data_blocks_get dbs h dest).2 = length dest.
Proof.
  intros Hd. unfold data_blocks_get.
  pose proof (db_get_length (blocks dbs) h SIZE_SHA256 dest _ Hd) as E.
  by destruct (db_get _ _ _).
Qed.

Lemma data_chain_get_length dbs height dest :
  SIZE_SHA256 ≤ Z.of_nat (length dest) →
  length (data_chain_get dbs height dest).2 = length dest.
Proof.
  intros Hd. unfold data_chain_get.
  pose proof (db_get_length (chain dbs) (uint_bytes height) 4 dest _ Hd) as E.
  by destruct (db_get _ _ _).
Qed.

(** The height is the maximum of the heights of the records and of the unset
    variable. *)
Theorem data_chain_get_height_spec highest0 dbs recs heights :
  bdb_cursor (chain dbs) = Some recs →
  Forall2 (λ r h, block_get_height r 0 = Done h) recs heights →
  data_chain_get_height highest0 dbs = Done (foldl Z.max highest0 heights).
Proof.
  intros Hc Hh. unfold data_chain_get_height, _data_VAR_get_height. rewrite Hc.
  clear Hc. revert highest0.
  induction Hh as [|r h recs heights Hr Hh IH]; intros highest0; [done|].
  cbn [foldl]. rewrite bind_Done, Hr, bind_Done.
  replace (if highest0 <? h then h else highest0) with (Z.max highest0 h);
    [apply IH|].
  destruct (Z.ltb_spec highest0 h); lia.
Qed.

(** After data_txs_add, data_txs_exists answers 1 for every hash when the
    put succeeded, and what it answered before when the put failed. *)
Theorem data_txs_exists_after_add dbs tx_hash block_hash h :
  data_txs_exists (data_txs_add dbs tx_hash block_hash) h =
    if (db_put (txs dbs) (new_dbt tx_hash SIZE_SHA256)
          (new_dbt block_hash SIZE_SHA256)).1 =? 0
    then 1 else data_txs_exists dbs h.
Proof.
  unfold data_txs_exists, data_txs_add.
  destruct (db_put _ _ _) as [ret db'] eqn:E. cbn [fst txs].
  pose proof (db_put_records _ _ _ _ _ _ _ E) as R.
  destruct (ret =? 0).
  - rewrite db_exists_Some; [done|]. rewrite R, lookup_insert_eq. by eexists.
  - assert (Hd : (db_exists db' (new_dbt h SIZE_SHA256) =? 0) =
      (db_exists (txs dbs) (new_dbt h SIZE_SHA256) =? 0)).
    { apply eq_true_iff_eq. rewrite !Z.eqb_eq. unfold db_exists.
      by rewrite !bdb_exists_law, R. }
    by rewrite Hd.
Qed.

(** What the databases answer does not depend on the hash asked for. *)
Theorem data_exists_ignores_hash dbs h h' :
  data_txs_exists dbs h = data_txs_exists dbs h' ∧
  data_blocks_exists dbs h = data_blocks_exists dbs h'.
Proof.
  unfold data_txs_exists, data_blocks_exists. by split; rewrite (db_exists_any _ h h' _ SIZE_SHA256).
Qed.

(** After a block was added successfully, data_blocks_exists answers 1
    for every hash, and data_blocks_get and data_blocks_get_header return
    success for every hash without storing anything in dest: the size field of
    the DBTs is never set, so key and record are empty. *)
Theorem data_blocks_get_after_add dest_addr hash dbs block dbs' hash' size :
  block_compute_size dest_addr block 0 = Done size →
  data_blocks_add dest_addr hash dbs block = Done (dbs', hash') →
  (db_put (blocks dbs) (new_dbt (uninit "block_hash" SIZE_SHA256) SIZE_SHA256)
     (new_dbt block size)).1 = 0 →
  ∀ h dest, data_blocks_get dbs' h dest = (0, dest) ∧
    data_blocks_get_header dbs' h dest = (0, dest) ∧
    data_blocks_exists dbs' h = 1.
Proof.
  intros Hsize Hadd Hput h dest.
  unfold data_blocks_add in Hadd.
  apply bind_Done_inv in Hadd as (hash1 & _ & Hadd).
  apply bind_Done_inv in Hadd as (tx_count & _ & Hadd).
  apply bind_Done_inv in Hadd as ([[dbs1 tx_hash] cursor] & Hloop & Hadd).
  assert (Hb : blocks dbs1 = blocks dbs).
  { refine (for_range_keeps (λ '(d, _, _), blocks d = blocks dbs) _ _ _ _ _
      _ _ Hloop); [done|].
    intros i [[d t] c] [[d' t'] c'] Hd.
    intros (t1 & _ & (n & _ & [= <- _ _])%bind_Done_inv)%bind_Done_inv.
    unfold data_txs_add. destruct (db_put (txs d) _ _). exact Hd. }
  rewrite Hsize, bind_Done, Hb in Hadd.
  destruct (db_put (blocks dbs) _ _) as [ret db'] eqn:E. cbn in Hput. subst ret.
  injection Hadd as <- <-.
  assert (R : records db' !! [] = Some [])
    by (rewrite (db_put_records _ _ _ _ _ _ _ E); apply lookup_insert_eq).
  rewrite data_blocks_get_empty, data_blocks_get_header_empty by done.
  unfold data_blocks_exists. cbn [blocks].
  rewrite db_exists_Some by (rewrite R; by eexists). done.
Qed.

(** data_blocks_get_header never stores anything in dest, and returns
    success only for an empty record: new_pdbt offers the library no room. *)
Theorem data_blocks_get_header_copies_nothing dbs h dest :
  DB_DBT_USERMEM ≠ Z.lor DB_DBT_USERMEM DB_DBT_PARTIAL →
  (data_blocks_get_header dbs h dest).2 = dest ∧
  ((data_blocks_get_header dbs h dest).1 = 0 →
   records (blocks dbs) !! [] = Some []).
Proof.
  intros Hflag. unfold data_blocks_get_header, db_get.
  set (dat := new_pdbt dest SIZE_BLOCK_HEADER 0).
  set (key := new_dbt h SIZE_SHA256).
  assert (Hu : dbt_usermem dat) by apply new_pdbt_usermem.
  destruct (records (blocks dbs) !! []) as [v|] eqn:E.
  - assert (Hsel : dbt_select dat v = take 83 v).
    { unfold dbt_select, dat. cbn [dbt_flags new_pdbt new_dbt].
      rewrite (proj2 (Z.eqb_neq _ _)) by done. cbn. by rewrite drop_0. }
    destruct v as [|b v].
    + destruct (db_get_empty (blocks dbs) h SIZE_SHA256 dat) as (d & Ed & Hd);
        [done|done|done|].
      unfold db_get in Ed. fold key in Ed. by rewrite Ed, Hd.
    + destruct (bdb_get_small (blocks dbs) key dat (b :: v) Hu E)
        as (ret & d & Hne & -> & Hd); [rewrite Hsel; cbn; lia|].
      by rewrite Hd.
  - destruct (bdb_get_missing (blocks dbs) key dat Hu E)
      as (ret & d & Hne & -> & Hd). by rewrite Hd.
Qed.

(** Nor does the chain look at the height. *)
Theorem data_chain_exists_ignores_height dbs height height' hash v :
  Z.of_nat (length v) ≤ SIZE_SHA256 → records (chain dbs) !! [] = Some v →
  length hash = 32%nat →
  data_chain_exists dbs height hash = data_chain_exists dbs height' hash ∧
  data_chain_exists dbs height hash =
    Done (if decide (patch (uninit "buffer" SIZE_SHA256) 0 v = hash) then 1 else 0).
Proof.
  unfold SIZE_SHA256. intros Hv Hr Hh.
  pose proof (length_uninit "buffer" 32 ltac:(lia)) as Hu.
  assert (Hrun : ∀ n, data_chain_exists dbs n hash =
    Done (if decide (patch (uninit "buffer" 32) 0 v = hash) then 1 else 0)).
  { intros n. unfold data_chain_exists, data_chain_get, db_get.
    assert (Hsel : dbt_select (new_dbt (uninit "buffer" SIZE_SHA256) SIZE_SHA256) v = v).
    { unfold dbt_select. cbn. by rewrite Z.eqb_refl. }
    rewrite (bdb_get_law (chain dbs) (new_dbt (uint_bytes n) 4) _ v
      (new_dbt_usermem _ _) Hr)
      by (rewrite Hsel; cbn; unfold SIZE_SHA256; lia).
    rewrite Hsel. cbn [dbt_data dbt_filled new_dbt negb Z.eqb].
    unfold SIZE_SHA256.
    destruct (memcmp_Done (patch (uninit "buffer" 32) 0 v) 0 hash 0 32
      (patch (uninit "buffer" 32) 0 v) hash) as (c & -> & Hc).
    - rewrite memread_Done by (len; lia).
      by rewrite Z2Nat.inj_0, drop_0, take_ge by (len; lia).
    - rewrite memread_Done by lia. by rewrite Z2Nat.inj_0, drop_0, take_ge by lia.
    - cbn. destruct (Z.eqb_spec c 0); case_decide; naive_solver. }
  by rewrite !Hrun.
Qed.

End Correctness.

(** ** Instances *)

Definition sample_blocks : BlockNames := {|
  block_compute_hash block p hash :=
    hdr ← memread block p SIZE_BLOCK_HEADER; memwrite hash 0 (digest hdr);
  block_get_tx_count block p :=
    bs ← memread block (p + POS_BLOCK_TX_COUNT) 4; Done (be_val bs);
  block_get_height block p :=
    bs ← memread block (p + POS_BLOCK_HEIGHT) 4; Done (be_val bs)
|}.

Definition sample_dbs : @Dbs gmap_db := @mk_dbs gmap_db ∅ ∅ ∅ ∅ ∅.

(** a block of one transaction, followed by other memory *)
Definition one_tx_block : list Z :=
  replicate 82 0 ++ [1] ++ sample_tx 5 ++ [1; 2; 3].

Lemma data_txs_exists_after_add_witness :
  @data_txs_exists gmap_db
    (@data_txs_add gmap_db sample_dbs (replicate 32 1) (replicate 32 2))
    (replicate 32 3) = 1.
Proof.
  exact (@data_txs_exists_after_add gmap_db gmap_db_laws sample_dbs
    (replicate 32 1) (replicate 32 2) (replicate 32 3)).
Defined.

Lemma data_exists_ignores_hash_witness :
  @data_txs_exists gmap_db sample_dbs [1] =
    @data_txs_exists gmap_db sample_dbs [2] ∧
  @data_blocks_exists gmap_db sample_dbs [1] =
    @data_blocks_exists gmap_db sample_dbs [2].
Proof.
  exact (@data_exists_ignores_hash gmap_db gmap_db_laws sample_dbs [1] [2]).
Defined.

Lemma data_blocks_get_after_add_witness :
  ∃ dbs' hash', @data_blocks_add gmap_db sample_names sample_malloc sample_blocks
      0x7f00b1 (replicate 32 0) sample_dbs one_tx_block = Done (dbs', hash') ∧
    ∀ h dest, @data_blocks_get gmap_db dbs' h dest = (0, dest) ∧
      @data_blocks_get_header gmap_db dbs' h dest = (0, dest) ∧
      @data_blocks_exists gmap_db dbs' h = 1.
Proof.
  eexists _, _. split; [vm_compute; reflexivity|].
  eapply (@data_blocks_get_after_add gmap_db gmap_db_laws sample_names
    sample_malloc sample_blocks 0x7f00b1 (replicate 32 0) sample_dbs
    one_tx_block _ _ 83); [reflexivity|vm_compute; reflexivity|reflexivity].
Defined.

Lemma data_blocks_get_header_copies_nothing_witness :
  (@data_blocks_get_header gmap_db sample_dbs [1] [7; 7]).2 = [7; 7] ∧
  ((@data_blocks_get_header gmap_db sample_dbs [1] [7; 7]).1 = 0 →
   (∅ : gmap (list Z) (list Z)) !! [] = Some []).
Proof.
  apply (@data_blocks_get_header_copies_nothing gmap_db gmap_db_laws sample_dbs
    [1] [7; 7]). discriminate.
Defined.

Lemma data_chain_exists_ignores_height_witness :
  let dbs := @mk_dbs gmap_db ∅ {[ [] := [] ]} ∅ ∅ ∅ in
  @data_chain_exists gmap_db host_be sample_malloc dbs 1 (replicate 32 0xa5) =
    @data_chain_exists gmap_db host_be sample_malloc dbs 2 (replicate 32 0xa5) ∧
  @data_chain_exists gmap_db host_be sample_malloc dbs 1 (replicate 32 0xa5) =
    Done 1.
Proof.
  apply (@data_chain_exists_ignores_height gmap_db gmap_db_laws host_be
    sample_malloc (@mk_dbs gmap_db ∅ {[ [] := [] ]} ∅ ∅ ∅) 1 2
    (replicate 32 0xa5) []); first [reflexivity|vm_compute; discriminate].
Defined.

Lemma data_chain_get_height_spec_witness :
  @data_chain_get_height gmap_db sample_blocks 7
    (@mk_dbs gmap_db ∅ {[ [] := replicate 8 0 ++ [1; 2] ]} ∅ ∅ ∅) = Done 258.
Proof.
  apply (@data_chain_get_height_spec gmap_db sample_blocks 7
    (@mk_dbs gmap_db ∅ {[ [] := replicate 8 0 ++ [1; 2] ]} ∅ ∅ ∅)
    [replicate 8 0 ++ [1; 2]] [258]);
    [vm_compute; reflexivity|].
  repeat constructor.
Defined.
