(* ===== verification/Validation.v ===== *)
(** * src/validation.c

    [valid_block] has an empty body and [_data_limbo_scan_can_trace_back], of
    data.c, too: the values of calls of them are arguments.  Of the traversal
    that validation.h describes one step is written: [data_chain_exists] is
    called without its height, an argument here, and
    [data_chain_get_height] without the databases.  The two conditions are
    nested; the brackets the source leaves out are supplied. *)
From S2P Require Import Prelude Shared Util Crypto Unresolved Transactions Merkle Blocks Store.

Section Validation.
Context `{BerkeleyDB, Host, TxNames, Malloc, BlockNames}.

(** [trace] is given the hash of the previous block, copied into
    [start_hash]. *)
Context (highest0 chain_height : Z) (valid_block : list Z → Z)
  (trace : list Z → Z → list Z → Z).

(** The results are the value and the memory behind [start_hash]. *)
Definition _internal_valid_connectable_to_chain (dbs : Dbs) (start_hash : list Z)
    (check_validity : Z) (buffer : list Z) : outcome (Z * list Z) :=
  let '(_, buffer) := data_blocks_get dbs start_hash buffer in
  if negb (valid_block buffer =? 0) then Done (0, start_hash)
  else
    height ← btoui buffer POS_BLOCK_HEIGHT;
    curr_height ← data_chain_get_height highest0 dbs;
    if w32 (curr_height - REASONABLE_CONFIRMATIONS) <? height then
      e ← data_chain_exists dbs chain_height start_hash;
      if negb (e =? 0) then Done (1, start_hash)
      else
        src ← memread buffer POS_BLOCK_PREV_HASH SIZE_SHA256;
        start_hash ← memwrite start_hash 0 src;
        Done (trace start_hash check_validity buffer, start_hash)
    else Done (0, start_hash).

Definition valid_connectable_to_chain (dbs : Dbs) (start_hash : list Z)
    (check_validity : Z) : outcome Z :=
  let buffer := uninit "buffer" MAX_BLOCK_SIZE in
  src ← memread start_hash 0 SIZE_SHA256;
  start_hash_buffer ← memwrite (uninit "start_hash_buffer" SIZE_SHA256) 0 src;
  '(ret, _) ← _internal_valid_connectable_to_chain dbs start_hash_buffer
    check_validity buffer;
  Done ret.

(** ** What they do *)

Lemma start_hash_copied start_hash :
  length start_hash = 32%nat →
  (src ← memread start_hash 0 SIZE_SHA256;
   memwrite (uninit "start_hash_buffer" SIZE_SHA256) 0 src) = Done start_hash.
Proof.
  intros Hl. assert (Lu : 0 ≤ SIZE_SHA256) by done.
  apply (length_uninit "start_hash_buffer") in Lu. unfold SIZE_SHA256 in *.
  rewrite memread_Done by lia. rewrite Z2Nat.inj_0, drop_0, take_ge, bind_Done by lia.
  rewrite memwrite_Done by lia. f_equal. apply patch_full. lia.
Qed.

(** On a chain lower than [REASONABLE_CONFIRMATIONS] the difference wraps, and
    no block with an ordinary height connects. *)
Theorem valid_connectable_short_chain dbs start_hash check_validity ret block height h :
  length start_hash = 32%nat →
  data_blocks_get dbs start_hash (uninit "buffer" MAX_BLOCK_SIZE) = (ret, block) →
  btoui block POS_BLOCK_HEIGHT = Done height →
  data_chain_get_height highest0 dbs = Done h →
  0 ≤ h < REASONABLE_CONFIRMATIONS → height < 2 ^ 32 - REASONABLE_CONFIRMATIONS →
  valid_connectable_to_chain dbs start_hash check_validity = Done 0.
Proof.
  unfold REASONABLE_CONFIRMATIONS.
  intros Hl Hget Hheight Hh Hlow Hmax. unfold valid_connectable_to_chain.
  pose proof (start_hash_copied start_hash Hl) as Hc.
  apply bind_Done_inv in Hc as (src & -> & Hc). rewrite bind_Done, Hc, bind_Done.
  unfold _internal_valid_connectable_to_chain. rewrite Hget.
  destruct (negb (valid_block block =? 0)); [done|].
  rewrite Hheight, bind_Done, Hh, bind_Done. unfold REASONABLE_CONFIRMATIONS.
  replace (w32 (h - 6)) with (2 ^ 32 + (h - 6))
    by (unfold w32; apply (Z.mod_unique _ _ (-1)); lia).
  by rewrite (proj2 (Z.ltb_ge _ _)) by lia.
Qed.

(** On longer chains a valid block is never connected; an invalid one that is
    recent enough is, when the chain holds its hash. *)
Theorem valid_connectable_valid_block dbs start_hash check_validity ret block :
  length start_hash = 32%nat →
  data_blocks_get dbs start_hash (uninit "buffer" MAX_BLOCK_SIZE) = (ret, block) →
  valid_block block ≠ 0 →
  valid_connectable_to_chain dbs start_hash check_validity = Done 0.
Proof.
  intros Hl Hget Hv. unfold valid_connectable_to_chain.
  pose proof (start_hash_copied start_hash Hl) as Hc.
  apply bind_Done_inv in Hc as (src & -> & Hc). rewrite bind_Done, Hc, bind_Done.
  unfold _internal_valid_connectable_to_chain. rewrite Hget.
  by rewrite (proj2 (Z.eqb_neq _ _) Hv).
Qed.

End Validation.

(** ** Instances *)

Lemma valid_connectable_short_chain_witness :
  @valid_connectable_to_chain gmap_db host_be sample_malloc sample_blocks 3 0 (λ _, 0)
    (λ _ _ _, 1) sample_dbs (replicate 32 7) 1 = Done 0.
Proof.
  apply (@valid_connectable_short_chain gmap_db host_be sample_malloc sample_blocks 3 0
    (λ _, 0) (λ _ _ _, 1) sample_dbs (replicate 32 7) 1 (-30988)
    (@uninit sample_malloc "buffer" MAX_BLOCK_SIZE) 0xa5a5a5a5 3);
    [reflexivity|reflexivity|reflexivity|reflexivity|decided|decided].
Defined.

Lemma valid_connectable_valid_block_witness :
  @valid_connectable_to_chain gmap_db host_be sample_malloc sample_blocks 30 0 (λ _, 1)
    (λ _ _ _, 1) sample_dbs (replicate 32 7) 1 = Done 0.
Proof.
  apply (@valid_connectable_valid_block gmap_db host_be sample_malloc sample_blocks 30 0
    (λ _, 1) (λ _ _ _, 1) sample_dbs (replicate 32 7) 1 (-30988)
    (@uninit sample_malloc "buffer" MAX_BLOCK_SIZE)); [reflexivity|reflexivity|done].
Defined.
