(* ===== verification/Mempool.v ===== *)
(** * src/data.c: the mempool

    The transactions waiting for a block: an array of [TX_COUNT_SOFT_LIMIT]
    pointers, of which the first [count] are in use.  The callers shall hold
    the mutex; Threads.v is about those that do and the one that does not.  [data_mempool_add] stores a [struct M_tx] where the array has
    pointers to one: it is read as storing a pointer to it.
    [data_mempool_del] uses a member [size] the struct does not have: it is
    read as [count]. *)
From S2P Require Import Prelude Shared Util Crypto Unresolved Transactions Merkle.

(** an element of [txs]: as [malloc] left it, [NULL], or a pointer to a
    transaction *)
Inductive slot :=
| Unset
| Null
| Tx (tx : M_tx).

Record Mempool := mk_mempool {
  mp_txs : list slot;
  mp_count : Z
}.

(** the part of [m_dbs_init] that makes the mempool *)
Definition mempool_init : Mempool :=
  mk_mempool (replicate (Z.to_nat TX_COUNT_SOFT_LIMIT) Unset) 0.

Section Operations.
Context `{TxNames, Malloc}.

(** the bytes at a [M_tx *]: those of the struct and what follows it *)
Context (tx_object : M_tx → list Z).

Definition data_mempool_get_size (mp : Mempool) : Z := mp_count mp.

(** [txs[i]] is indexed by a variable the function does not declare. *)
Definition data_mempool_get (i : Z) (mp : Mempool) (index : Z) : outcome slot :=
  if mp_count mp <=? index then Done Null else rd (mp_txs mp) i.

Definition deref (s : slot) : outcome M_tx :=
  match s with Tx tx => Done tx | _ => Undef end.

Definition data_mempool_exists (mp : Mempool) (hash : list Z) : outcome Z :=
  r ← for_range_ret 0 (mp_count mp) (λ i _,
    s ← rd (mp_txs mp) i;
    tx ← deref s;
    c ← memcmp (tx_hash tx) 0 hash 0 SIZE_SHA256;
    if c =? 0 then Done (inr 1) else Done (inl ())) ();
  match r with inr v => Done v | inl _ => Done 0 end.

(** [hash] and [size] are not declared in the function.  The transaction is
    [&data[p]]: only its size is taken, nothing is copied to [tx.data]. *)
Definition data_mempool_add (hash : list Z) (size : Z) (mp : Mempool)
    (data : list Z) (p : Z) : outcome Mempool :=
  e ← data_mempool_exists mp hash;
  if negb (e =? 0) then Done mp
  else
    n ← tx_compute_size data p;
    let bytes := uninit "tx.data" n in
    h ← tx_compute_hash bytes 0 (uninit "tx.hash" SIZE_SHA256);
    txs ← wr (mp_txs mp) (mp_count mp) (Tx (mk_tx h bytes n size));
    Done (mk_mempool txs (w32 (mp_count mp + 1))).

(** The loop keeps the mempool; it is left with the pointer to return. *)
Definition data_mempool_del (mp : Mempool) (hash : list Z)
    : outcome (slot * Mempool) :=
  let size := mp_count mp in
  r ← for_range_ret 0 size (λ i mp,
    s ← rd (mp_txs mp) i;
    tx ← deref s;
    c ← memcmp hash 0 (tx_object tx) 0 SIZE_SHA256;
    if c =? 0 then
      retval ← rd (mp_txs mp) i;
      let count := w32 (mp_count mp - 1) in
      txs ← (if 0 <? count then
               last ← rd (mp_txs mp) size; wr (mp_txs mp) i last
             else Done (mp_txs mp));
      txs ← wr txs size Null;
      Done (inr (retval, mk_mempool txs count))
    else Done (inl mp)) mp;
  match r with inr v => Done v | inl mp => Done (Null, mp) end.

End Operations.

(** ** What the pool holds *)

Definition free_slot (s : slot) : Prop := match s with Tx _ => False | _ => True end.

(** The pool holds [ts], and behind them there is no pointer to a transaction
    but the one in slot 0 that the deletion of a single transaction leaves. *)
Record holds (mp : Mempool) (ts : list M_tx) : Prop := {
  holds_count : mp_count mp = Z.of_nat (length ts);
  holds_length : length (mp_txs mp) = 500%nat;
  holds_fit : Z.of_nat (length ts) ≤ TX_COUNT_SOFT_LIMIT;
  holds_txs : ∀ i t, ts !! i = Some t → mp_txs mp !! i = Some (Tx t);
  holds_behind : ∀ i s, (length ts ≤ i)%nat → (0 < i)%nat →
    mp_txs mp !! i = Some s → free_slot s;
  holds_hash : Forall (λ t, length (tx_hash t) = 32%nat) ts
}.

Lemma mempool_init_holds : holds mempool_init [].
Proof.
  split; try done. intros i s _ _ Hs. cbn in Hs.
  by apply lookup_replicate in Hs as [-> _].
Qed.

Lemma holds_lookup mp ts i t :
  holds mp ts → ts !! i = Some t → rd (mp_txs mp) (Z.of_nat i) = Done (Tx t).
Proof. intros Hh Ht. by apply rd_nat, Hh. Qed.

(** the first transaction of [ts] with the hash [hash] *)
Definition known (ts : list M_tx) (hash : list Z) : bool :=
  existsb (λ t, bool_decide (tx_hash t = hash)) ts.

Lemma memread_all (l : list Z) n :
  Z.of_nat (length l) = n → memread l 0 n = Done l.
Proof.
  intros H. rewrite memread_Done by lia.
  by rewrite Z2Nat.inj_0, drop_0, take_ge by lia.
Qed.

Lemma known_take_S ts i t hash :
  ts !! i = Some t →
  known (take (S i) ts) hash =
    known (take i ts) hash || bool_decide (tx_hash t = hash).
Proof.
  intros Ht. unfold known. rewrite (take_S_r _ _ _ Ht), existsb_app.
  cbn. by rewrite orb_false_r.
Qed.

Section Correctness.
Context `{TxNames, Malloc} (tx_object : M_tx → list Z).

Lemma data_mempool_exists_run mp ts hash :
  holds mp ts → length hash = 32%nat →
  data_mempool_exists mp hash = Done (if known ts hash then 1 else 0).
Proof.
  intros Hh Hl. pose proof Hh as [Hc _ _ _ _ Hhash]. unfold data_mempool_exists.
  rewrite Hc.
  match goal with |- context [for_range_ret 0 ?n ?body ()] =>
    destruct (for_range_ret_inv
      (λ i (_ : ()), known (take (Z.to_nat i) ts) hash = false)
      (λ v, v = 1 ∧ known ts hash = true) 0 n body ()) as (r & -> & Hr);
      [lia|done| |] end.
  - intros i [] Hi Hk.
    destruct (lookup_lt_is_Some_2 ts (Z.to_nat i)) as [t Ht]; [lia|].
    pose proof (holds_lookup _ _ _ _ Hh Ht) as E. rewrite Z2Nat.id in E by lia.
    rewrite E. cbn [mbind outcome_bind deref].
    pose proof (Forall_lookup_1 _ _ _ _ Hhash Ht) as Lt. cbn beta in Lt.
    destruct (memcmp_Done (tx_hash t) 0 hash 0 SIZE_SHA256 (tx_hash t) hash)
      as (c & -> & Hcmp); [apply memread_all; unfold SIZE_SHA256; lia..|].
    cbn [mbind outcome_bind].
    destruct (Z.eqb_spec c 0) as [Hc0|Hc0]; eexists; (split; [done|]).
    + split; [done|]. apply existsb_exists. exists t. split.
      * apply list_elem_of_In. by eapply list_elem_of_lookup_2.
      * apply bool_decide_eq_true. by apply Hcmp.
    + replace (Z.to_nat (i + 1)) with (S (Z.to_nat i)) by lia.
      rewrite (known_take_S _ _ _ _ Ht), Hk. apply bool_decide_eq_false.
      by rewrite <- Hcmp.
  - cbn [mbind outcome_bind]. destruct r as [[]|v].
    + rewrite Nat2Z.id, take_ge in Hr by lia. by rewrite Hr.
    + destruct Hr as [-> ->]. done.
Qed.

(** On a pool that holds a list of transactions, data_mempool_exists returns 1
    exactly when one of them has the given hash and 0 otherwise, and never
    reads behind the transactions held. *)
Theorem data_mempool_exists_spec mp ts hash :
  holds mp ts → length hash = 32%nat →
  data_mempool_exists mp hash = Done (if known ts hash then 1 else 0).
Proof. apply data_mempool_exists_run. Qed.

(** A lookup that meets no known hash before a free slot reads it. *)
Lemma exists_at_hole mp (us : list M_tx) s h :
  (∀ k t, us !! k = Some t → mp_txs mp !! k = Some (Tx t)) →
  Forall (λ t, length (tx_hash t) = 32%nat) us →
  mp_txs mp !! length us = Some s → free_slot s →
  Z.of_nat (length us) < mp_count mp → length h = 32%nat → known us h = false →
  data_mempool_exists mp h = Undef.
Proof.
  intros Htxs Hhs Hs Hfree Hcount Hlh Hk. unfold data_mempool_exists.
  match goal with |- context [for_range_ret 0 ?n ?body ()] =>
    enough (for_range_ret 0 n body () = Undef) as -> by done;
    apply (for_range_ret_undef (λ _ _, True) 0 (Z.of_nat (length us))) end;
    [lia|done| |].
  - intros k [] Hki _.
    destruct (lookup_lt_is_Some_2 us (Z.to_nat k)) as [t' Ht']; [lia|].
    rewrite (rd_Done _ k (Tx t')); [|lia|by apply Htxs].
    cbn [mbind outcome_bind deref].
    pose proof (Forall_lookup_1 _ _ _ _ Hhs Ht') as Lt. cbn beta in Lt.
    destruct (memcmp_Done (tx_hash t') 0 h 0 SIZE_SHA256 (tx_hash t') h)
      as (c & -> & Hc0); [apply memread_all; unfold SIZE_SHA256; lia..|].
    cbn [mbind outcome_bind]. destruct (Z.eqb_spec c 0) as [Hz|]; [|by eexists].
    exfalso. apply Hc0 in Hz. revert Hk. apply not_false_iff_true.
    apply existsb_exists. exists t'. split; [|by apply bool_decide_eq_true].
    by eapply list_elem_of_In, list_elem_of_lookup_2.
  - intros _ _. rewrite (rd_nat _ _ _ Hs). by destruct s.
Qed.

(** *** The pool as a list of bounded length

    What the pool promises: a list of transactions to which one is appended
    unless the hash is known, that must not grow beyond [TX_COUNT_SOFT_LIMIT]. *)
Definition list_add (hash : list Z) (size : Z) (ts : list M_tx) (data : list Z) (p : Z)
    : outcome (list M_tx) :=
  if known ts hash then Done ts
  else
    n ← tx_compute_size data p;
    h ← tx_compute_hash (uninit "tx.data" n) 0 (uninit "tx.hash" SIZE_SHA256);
    if Z.of_nat (length ts) <? TX_COUNT_SOFT_LIMIT
    then Done (ts ++ [mk_tx h (uninit "tx.data" n) n size]) else Undef.

Lemma holds_snoc mp ts t :
  holds mp ts → Z.of_nat (length ts) < TX_COUNT_SOFT_LIMIT →
  length (tx_hash t) = 32%nat →
  holds (mk_mempool (<[length ts := Tx t]> (mp_txs mp)) (w32 (mp_count mp + 1)))
    (ts ++ [t]).
Proof.
  intros [Hc Hlen Hfit Htxs Hb Hhs] Hlt Ht. unfold TX_COUNT_SOFT_LIMIT in *.
  split; cbn [mp_count mp_txs].
  - rewrite Hc, w32_id by lia. len. cbn. lia.
  - by len.
  - len. unfold TX_COUNT_SOFT_LIMIT. cbn. lia.
  - intros i u [Hu|[Hi Hu]]%lookup_app_Some.
    + pose proof (lookup_lt_Some _ _ _ Hu).
      rewrite list_lookup_insert_ne by lia. by apply Htxs.
    + apply list_lookup_singleton_Some in Hu as [Hi0 <-].
      replace i with (length ts) by lia. apply list_lookup_insert_eq. lia.
  - intros i s Hi H0. rewrite length_app in Hi. cbn in Hi.
    rewrite list_lookup_insert_ne by lia. apply Hb; lia.
  - by apply Forall_snoc.
Qed.

(** what [tx_compute_hash] returns is its 32-byte buffer *)
Definition hash_keeps_length : Prop :=
  ∀ data p dest h, tx_compute_hash data p dest = Done h → length h = length dest.

Lemma data_mempool_add_run mp ts hash size data p :
  hash_keeps_length → holds mp ts → length hash = 32%nat →
  outcome_rel holds (data_mempool_add hash size mp data p)
    (list_add hash size ts data p).
Proof.
  intros Hk Hh Hl. unfold data_mempool_add, list_add.
  rewrite (data_mempool_exists_run _ _ _ Hh Hl), bind_Done.
  destruct (known ts hash); [done|]. cbn [negb Z.eqb].
  apply (outcome_rel_bind eq); [by apply outcome_rel_eq|]. intros n ? <-.
  apply (outcome_rel_bind (λ h h', h = h' ∧ length h = 32%nat)).
  { apply outcome_rel_refl. intros h E. split; [done|].
    pose proof (length_uninit "tx.hash" SIZE_SHA256 ltac:(done)) as Lu.
    rewrite (Hk _ _ _ _ E). unfold SIZE_SHA256 in *. lia. }
  intros h ? [<- Hlh]. pose proof (holds_length _ _ Hh) as Hlen.
  pose proof (holds_count _ _ Hh) as Hc. pose proof (holds_fit _ _ Hh) as Hfit.
  destruct (Z.ltb_spec (Z.of_nat (length ts)) TX_COUNT_SOFT_LIMIT) as [Hlt|Hge];
    unfold TX_COUNT_SOFT_LIMIT in *.
  - rewrite wr_Done, bind_Done, Hc, Nat2Z.id by lia. rewrite <- Hc.
    by apply holds_snoc.
  - unfold wr. rewrite Hlen, (proj2 (Z.ltb_ge _ _)), andb_false_r by lia. done.
Qed.

(** *** Deletion *)

(** the memory at the pointer of a transaction starts with [hash] *)
Definition object_is (hash : list Z) (t : M_tx) : Prop :=
  take 32 (tx_object t) = hash.
#[global] Instance object_is_dec hash t : Decision (object_is hash t).
Proof. unfold object_is. apply _. Defined.

(** The pool of [n] transactions after the deletion of index [i]: the slot
    behind the last one is copied, unless the pool is now empty, and set to
    [NULL]. *)
Definition without (mp : Mempool) (n i : nat) : Mempool :=
  mk_mempool
    (<[n := Null]> (if decide (1 < n)%nat
                    then <[i := default Unset (mp_txs mp !! n)]> (mp_txs mp)
                    else mp_txs mp))
    (mp_count mp - 1).

Lemma object_memcmp hash t :
  length hash = 32%nat → (32 ≤ length (tx_object t))%nat →
  ∃ c, memcmp hash 0 (tx_object t) 0 SIZE_SHA256 = Done c ∧ (c = 0 ↔ object_is hash t).
Proof.
  intros Hl Ho.
  destruct (memcmp_Done hash 0 (tx_object t) 0 SIZE_SHA256 hash (take 32 (tx_object t)))
    as (c & E & Hc).
  - apply memread_all. unfold SIZE_SHA256. lia.
  - unfold SIZE_SHA256. rewrite memread_Done by lia. by rewrite Z2Nat.inj_0, drop_0.
  - exists c. split; [done|]. unfold object_is. rewrite Hc. by split.
Qed.

(** The slot behind the transactions can be read while there is room. *)
Lemma holds_next mp ts :
  holds mp ts → Z.of_nat (length ts) < TX_COUNT_SOFT_LIMIT → ts ≠ [] →
  ∃ s, mp_txs mp !! length ts = Some s ∧ free_slot s.
Proof.
  intros Hh Hlt Hne. unfold TX_COUNT_SOFT_LIMIT in *.
  pose proof (holds_length _ _ Hh) as Hlen.
  destruct (lookup_lt_is_Some_2 (mp_txs mp) (length ts)) as [s Hs]; [lia|].
  exists s. split; [done|]. apply (holds_behind _ _ Hh (length ts)); [lia| |done].
  destruct ts; [done|]. cbn. lia.
Qed.

(** The round that finds the transaction: of a full pool, the slot behind the
    last one is outside the array. *)
Lemma del_found mp ts i t (k := length ts) :
  holds mp ts → ts !! i = Some t →
  (retval ← rd (mp_txs mp) (Z.of_nat i);
   let count := w32 (mp_count mp - 1) in
   txs ← (if 0 <? count then
            last ← rd (mp_txs mp) (mp_count mp); wr (mp_txs mp) (Z.of_nat i) last
          else Done (mp_txs mp));
   txs ← wr txs (mp_count mp) Null;
   Done (inr (A := Mempool) (retval, mk_mempool txs count))) =
  if Z.of_nat k <? TX_COUNT_SOFT_LIMIT then Done (inr (Tx t, without mp k i)) else Undef.
Proof.
  intros Hh Ht. pose proof (lookup_lt_Some _ _ _ Ht) as Hi.
  pose proof (holds_length _ _ Hh) as Hlen. pose proof (holds_fit _ _ Hh) as Hfit.
  unfold TX_COUNT_SOFT_LIMIT in *.
  rewrite (holds_lookup _ _ _ _ Hh Ht), bind_Done.
  rewrite (holds_count _ _ Hh), w32_id by lia. unfold without.
  rewrite (holds_count _ _ Hh). subst k.
  destruct (Z.ltb_spec (Z.of_nat (length ts)) 500) as [Hlt|Hge].
  - destruct (holds_next mp ts) as (s & Es & _); [done|done|by intros ->|].
    rewrite Es. case_decide as Hd.
    + rewrite (proj2 (Z.ltb_lt _ _)), (rd_nat _ _ _ Es), bind_Done by lia.
      rewrite wr_Done by lia. rewrite bind_Done, wr_Done by (len; lia).
      by rewrite bind_Done, !Nat2Z.id.
    + rewrite (proj2 (Z.ltb_ge _ _)) by lia. rewrite bind_Done, wr_Done by lia.
      by rewrite bind_Done, Nat2Z.id.
  - rewrite (proj2 (Z.ltb_lt _ _)), rd_oob by lia. done.
Qed.

Context (hash : list Z) (ts : list M_tx).
Context (Hhash : length hash = 32%nat)
  (Hobj : ∀ t, t ∈ ts → (32 ≤ length (tx_object t))%nat).

Lemma data_mempool_del_run mp :
  holds mp ts →
  data_mempool_del tx_object mp hash =
    match list_find (object_is hash) ts with
    | None => Done (Null, mp)
    | Some (i, t) =>
        if Z.of_nat (length ts) <? TX_COUNT_SOFT_LIMIT
        then Done (Tx t, without mp (length ts) i) else Undef
    end.
Proof.
  intros Hh. unfold data_mempool_del. pose proof (holds_count _ _ Hh) as Hc.
  set (full := Z.of_nat (length ts) <? TX_COUNT_SOFT_LIMIT).
  match goal with |- context [for_range_ret 0 ?hi ?body mp] => set (b := body) end.
  assert (Hbody : ∀ k t, ts !! k = Some t → b (Z.of_nat k) mp =
    if decide (object_is hash t)
    then (if full then Done (inr (Tx t, without mp (length ts) k)) else Undef)
    else Done (inl mp)).
  { intros k t Ht. unfold b. rewrite (holds_lookup _ _ _ _ Hh Ht). cbn [mbind outcome_bind deref].
    destruct (object_memcmp hash t) as (c & -> & Hz);
      [done|apply Hobj; by eapply list_elem_of_lookup_2|].
    pose proof (del_found _ _ _ _ Hh Ht) as Ef.
    rewrite (holds_lookup _ _ _ _ Hh Ht) in Ef. cbn [mbind outcome_bind] in *.
    destruct (Z.eqb_spec c 0) as [Hc0|Hc0]; case_decide; naive_solver. }
  destruct (list_find (object_is hash) ts) as [[i t]|] eqn:Ef.
  - apply list_find_Some in Ef as (Ht & Hi & Hbefore).
    assert (Hstep : for_range_ret 0 (mp_count mp) b mp = b (Z.of_nat i) mp).
    { apply for_range_ret_at.
      - apply lookup_lt_Some in Ht. lia.
      - intros k Hk. destruct (lookup_lt_is_Some_2 ts (Z.to_nat k)) as [u Hu];
          [apply lookup_lt_Some in Ht; lia|].
        pose proof (Hbody _ _ Hu) as E. rewrite Z2Nat.id in E by lia.
        rewrite E, decide_False; [done|]. eapply Hbefore; [exact Hu|lia].
      - intros m. rewrite (Hbody _ _ Ht), decide_True by done. by destruct full. }
    rewrite Hstep, (Hbody _ _ Ht), decide_True by done. by destruct full.
  - apply list_find_None in Ef.
    destruct (for_range_ret_inv (λ _ m, m = mp) (λ _, False) 0 (mp_count mp) b mp)
      as (r & -> & Hr); [lia|done| |].
    + intros k m Hk ->. destruct (lookup_lt_is_Some_2 ts (Z.to_nat k)) as [u Hu]; [lia|].
      exists (inl mp). split; [|done].
      pose proof (Hbody _ _ Hu) as E. rewrite Z2Nat.id in E by lia.
      rewrite E, decide_False; [done|]. exact (Forall_lookup_1 _ _ _ _ Ef Hu).
    + destruct r as [m|]; [|done]. by rewrite bind_Done, Hr.
Qed.

(** C34: On a pool that holds a list of transactions, data_mempool_del returns
    the first one whose structure starts with the hash, lowers the count,
    copies the slot behind the last one into its place unless the pool is now
    empty, and clears that slot; of a full pool it reads and writes outside
    the array; when there is none it returns NULL and changes nothing. *)
Theorem data_mempool_del_spec mp :
  holds mp ts →
  data_mempool_del tx_object mp hash =
    match list_find (object_is hash) ts with
    | None => Done (Null, mp)
    | Some (i, t) =>
        if Z.of_nat (length ts) <? TX_COUNT_SOFT_LIMIT
        then Done (Tx t, without mp (length ts) i) else Undef
    end.
Proof. apply data_mempool_del_run. Qed.

(** Deleting the last transaction takes it off the list. *)
Lemma without_last mp t :
  holds mp (ts ++ [t]) → Z.of_nat (length (ts ++ [t])) < TX_COUNT_SOFT_LIMIT →
  holds (without mp (length (ts ++ [t])) (length ts)) ts.
Proof.
  intros Hh Hlt. destruct (holds_next _ _ Hh Hlt) as (s & Es & Hs); [by destruct ts|].
  destruct Hh as [Hc Hlen Hfit Htxs Hb Hhs]. unfold without. rewrite Es.
  change (default Unset (Some s)) with s. rewrite length_app in *. cbn [length] in *. unfold TX_COUNT_SOFT_LIMIT in *.
  split; cbn [mp_count mp_txs].
  - lia.
  - case_decide; by len.
  - unfold TX_COUNT_SOFT_LIMIT. lia.
  - intros i u Hu. pose proof (lookup_lt_Some _ _ _ Hu).
    assert (mp_txs mp !! i = Some (Tx u)) by (apply Htxs; by apply lookup_app_l_Some).
    case_decide; by rewrite !list_lookup_insert_ne by lia.
  - intros i u Hi H0.
    destruct (decide (i = length ts + 1)%nat) as [->|Hne].
    { rewrite list_lookup_insert_eq by (case_decide; len; lia). by intros [= <-]. }
    rewrite list_lookup_insert_ne by lia. case_decide; [|apply Hb; lia].
    destruct (decide (i = length ts)) as [->|Hne'].
    + rewrite list_lookup_insert_eq by lia. by intros [= <-].
    + rewrite list_lookup_insert_ne by lia. apply Hb; lia.
  - by apply Forall_app in Hhs as [? _].
Qed.

(** Behind a deleted transaction that is not the last there is a free slot. *)
Lemma exists_meets_hole mp i h :
  holds mp ts → Z.of_nat (length ts) < TX_COUNT_SOFT_LIMIT →
  (S i < length ts)%nat → length h = 32%nat →
  known (take i ts) h = false →
  data_mempool_exists (without mp (length ts) i) h = Undef.
Proof.
  intros Hh Hlt Hi Hlh Hk. pose proof (holds_length _ _ Hh) as Hlen.
  destruct (holds_next _ _ Hh Hlt) as (s & Es & Hs);
    [intros E; rewrite E in Hi; cbn in Hi; lia|].
  pose proof (holds_fit _ _ Hh) as Hfit. unfold TX_COUNT_SOFT_LIMIT in Hfit.
  unfold without. rewrite Es, decide_True by lia. change (default Unset (Some s)) with s.
  assert (Hli : length (take i ts) = i) by (rewrite length_take; lia).
  eapply (exists_at_hole _ (take i ts)); cbn [mp_txs mp_count]; rewrite ?Hli; try done.
  - intros k t [Ht Hki]%lookup_take_Some. rewrite !list_lookup_insert_ne by lia.
    by apply Hh.
  - apply Forall_take, Hh.
  - rewrite list_lookup_insert_ne by lia. apply list_lookup_insert_eq. lia.
  - rewrite (holds_count _ _ Hh). lia.
Qed.

(** C35: Deleting a transaction that is not the last one puts the unset
    pointer behind the last transaction in its place: looking up any hash that
    is not found before the hole then dereferences it. *)
Theorem data_mempool_del_leaves_hole mp i t :
  holds mp ts → Z.of_nat (length ts) < TX_COUNT_SOFT_LIMIT →
  list_find (object_is hash) ts = Some (i, t) → (S i < length ts)%nat →
  ∃ mp', data_mempool_del tx_object mp hash = Done (Tx t, mp') ∧
    mp_count mp' = Z.of_nat (length ts - 1) ∧
    ∀ h, length h = 32%nat → known (take i ts) h = false →
      data_mempool_exists mp' h = Undef.
Proof.
  intros Hh Hlt Hf Hi. exists (without mp (length ts) i).
  rewrite data_mempool_del_run, Hf, (proj2 (Z.ltb_lt _ _)) by done.
  split; [done|]. split.
  - unfold without. cbn. rewrite (holds_count _ _ Hh). lia.
  - intros h Hlh Hk. by apply exists_meets_hole.
Qed.

End Correctness.

(** ** Sequences of calls

    A use of the pool, and its answers: of the pool and of the list.  A
    deletion that finds a transaction is one of the list when it is the last;
    [lifo] says that all are. *)
Inductive pool_op :=
| Add (hash : list Z) (size : Z) (data : list Z) (p : Z)
| Exists (hash : list Z)
| Delete (hash : list Z)
| Get_size.

Inductive answer :=
| Nothing
| Num (z : Z)
| Found (s : slot).

Section Refinement.
Context `{TxNames, Malloc} (tx_object : M_tx → list Z).

Definition pool_step (o : pool_op) (mp : Mempool) : outcome (answer * Mempool) :=
  match o with
  | Add hash size data p =>
      mp ← data_mempool_add hash size mp data p; Done (Nothing, mp)
  | Exists hash => e ← data_mempool_exists mp hash; Done (Num e, mp)
  | Delete hash => '(s, mp) ← data_mempool_del tx_object mp hash; Done (Found s, mp)
  | Get_size => Done (Num (data_mempool_get_size mp), mp)
  end.

Definition list_step (o : pool_op) (ts : list M_tx) : outcome (answer * list M_tx) :=
  match o with
  | Add hash size data p => ts ← list_add hash size ts data p; Done (Nothing, ts)
  | Exists hash => Done (Num (if known ts hash then 1 else 0), ts)
  | Delete hash =>
      match list_find (object_is tx_object hash) ts with
      | None => Done (Found Null, ts)
      | Some (i, t) =>
          if Z.of_nat (length ts) <? TX_COUNT_SOFT_LIMIT
          then Done (Found (Tx t), delete i ts) else Undef
      end
  | Get_size => Done (Num (Z.of_nat (length ts)), ts)
  end.

Fixpoint pool_run {S} (step : pool_op → S → outcome (answer * S)) (ops : list pool_op)
    (s : S) : outcome (list answer) :=
  match ops with
  | [] => Done []
  | o :: ops => '(r, s) ← step o s; rs ← pool_run step ops s; Done (r :: rs)
  end.

Definition op_hash_ok (o : pool_op) : Prop :=
  match o with
  | Add hash _ _ _ | Exists hash | Delete hash => length hash = 32%nat
  | Get_size => True
  end.

(** the deletion, if it is one, takes the last transaction *)
Definition last_in (o : pool_op) (ts : list M_tx) : Prop :=
  match o with
  | Delete hash =>
      ∀ i t, list_find (object_is tx_object hash) ts = Some (i, t) → S i = length ts
  | _ => True
  end.

Fixpoint lifo (ops : list pool_op) (ts : list M_tx) : Prop :=
  match ops with
  | [] => True
  | o :: ops =>
      last_in o ts ∧ match list_step o ts with Done (_, ts) => lifo ops ts | _ => True end
  end.

Context (Hobj : ∀ t, (32 ≤ length (tx_object t))%nat).

Lemma pool_step_rel o mp ts :
  hash_keeps_length → op_hash_ok o → last_in o ts → holds mp ts →
  outcome_rel (λ a b, a.1 = b.1 ∧ holds a.2 b.2) (pool_step o mp) (list_step o ts).
Proof.
  intros Hk Ho Hlast Hh. destruct o as [hash size data p|hash|hash|];
    cbn [pool_step list_step op_hash_ok last_in] in *.
  - apply (outcome_rel_bind holds); [by apply data_mempool_add_run|by split].
  - by rewrite (data_mempool_exists_run _ _ _ Hh Ho), bind_Done.
  - rewrite (data_mempool_del_run tx_object hash ts) by done.
    destruct (list_find _ ts) as [[i t]|] eqn:Ef; [|by rewrite bind_Done].
    specialize (Hlast i t eq_refl). apply list_find_Some in Ef as (Ht & _ & _).
    destruct (Z.ltb_spec (Z.of_nat (length ts)) TX_COUNT_SOFT_LIMIT) as [Hlt|]; [|done].
    rewrite bind_Done. split; [done|]. cbn [snd].
    destruct ts as [|u ts0 _] using rev_ind; [done|].
    rewrite length_app in Hlast. cbn in Hlast. replace i with (length ts0) by lia.
    rewrite delete_middle, app_nil_r.
    by eapply (without_last tx_object hash).
  - split; [|done]. cbn. f_equal. apply Hh.
Qed.

(** C33: From the mempool m_dbs_init makes, every sequence of calls of
    data_mempool_add, data_mempool_exists, data_mempool_get_size and
    data_mempool_del, as long as what is deleted is the last transaction,
    gives the answers of a list: a transaction with unset data is appended
    when the looked-up hash is not in it and taken off when it is deleted; it
    is undefined exactly when the list would grow beyond TX_COUNT_SOFT_LIMIT,
    or a transaction is deleted from a full one. *)
Theorem mempool_refines_list ops :
  hash_keeps_length → Forall op_hash_ok ops → lifo ops [] →
  pool_run pool_step ops mempool_init = pool_run list_step ops [].
Proof.
  intros Hk Hops Hlifo. apply outcome_rel_eq. revert Hlifo. generalize mempool_init_holds.
  generalize mempool_init, (@nil M_tx). induction Hops as [|o ops Ho _ IH];
    intros mp ts Hh Hl; [done|]. cbn [pool_run lifo] in *. destruct Hl as [Hlast Hl].
  pose proof (pool_step_rel o mp ts Hk Ho Hlast Hh) as Hstep.
  destruct (pool_step o mp) as [[r mp']| | |], (list_step o ts) as [[r' ts']| | |];
    cbn in Hstep; try done. destruct Hstep as [<- Hh']. rewrite !bind_Done.
  apply (outcome_rel_bind eq); [by apply IH|]. by intros rs ? <-.
Qed.

End Refinement.

(** ** Instances *)

Definition sample_pool : Mempool :=
  mk_mempool (Tx (mk_tx (replicate 32 1) [] 0 0) ::
    Tx (mk_tx (replicate 32 2) [] 0 0) :: replicate 498 Unset) 2.

Lemma sample_pool_holds :
  holds sample_pool
    [mk_tx (replicate 32 1) [] 0 0; mk_tx (replicate 32 2) [] 0 0].
Proof.
  split; try done; [| |by repeat constructor].
  - intros [|[|i]] t; [intros [= <-]..|]; done.
  - intros [|[|i]] s Hi _; [cbn in Hi; lia..|].
    change (replicate 498 Unset !! i = Some s → free_slot s).
    by intros [-> _]%lookup_replicate.
Qed.

Lemma data_mempool_exists_spec_witness :
  data_mempool_exists sample_pool (replicate 32 2) = Done 1.
Proof.
  exact (data_mempool_exists_spec sample_pool _ (replicate 32 2)
    sample_pool_holds eq_refl).
Defined.

(** the hash of the memory given, whatever it holds, in a buffer of 32 bytes *)
Definition hash_all_with (gen : Z → Z → Z → list Z → list Z → list Z → outcome (list Z)) : TxNames := {|
  __VERSION__ := 0; POS_TX_IN_REF := 0; SIZE_TX_IN_REF := 0;
  POS_TX_IN_INDEX := 0; POS_TX_IN_PUBKEY := 0; SIZE_TX_IN_PUBKEY := 0;
  POS_TX_IN_SIG := 0; SIZE_TX_IN_SIG := 0; POS_TX_OUT_ADDR := 0;
  SIZE_TX_OUT_ADDR := 0; POS_BLOCK_BODY := 83;
  tx_get_size := sample_size; tx_compute_size := sample_size;
  tx_compute_hash data p hash :=
    if decide (length hash = 32%nat) then Done (digest data) else Undef;
  tx_gen := gen
|}.

Definition hash_all : TxNames := hash_all_with (λ _ _ _ _ _ _, Undef).

Lemma hash_all_keeps_length gen : @hash_keeps_length (hash_all_with gen).
Proof.
  intros data p dest h. unfold tx_compute_hash, hash_all_with. case_decide as Hl; [|done].
  intros [= <-]. by rewrite Hl, length_digest.
Qed.

Definition sample_pool_ops : list pool_op :=
  [Exists (replicate 32 9); Add (replicate 32 9) 0 (sample_tx 7) 0;
   Add (digest (replicate 10 0xa5)) 0 (sample_tx 7) 0; Get_size;
   Delete (replicate 32 9); Delete (digest (replicate 10 0xa5)); Get_size].

Definition padded_hash (t : M_tx) : list Z :=
  tx_hash t ++ replicate (32 - length (tx_hash t)) 0.

(** The second addition is known by its hash, the first one is not: what was
    stored has the hash of the memory of its data, and is deleted by it. *)
Lemma mempool_refines_list_witness :
  @pool_run _ (@pool_step hash_all sample_malloc padded_hash) sample_pool_ops mempool_init =
    Done [Num 0; Nothing; Nothing; Num 1; Found Null;
      Found (Tx (mk_tx (digest (replicate 10 0xa5)) (replicate 10 0xa5) 10 0)); Num 0].
Proof.
  rewrite (@mempool_refines_list hash_all sample_malloc padded_hash).
  - vm_compute. reflexivity.
  - intros t. unfold padded_hash. rewrite length_app, length_replicate. lia.
  - apply hash_all_keeps_length.
  - by repeat constructor.
  - vm_compute. repeat split; intros i t; try discriminate; by intros [= <- <-].
Defined.

(** a pointer representation that starts with the hash *)
Lemma data_mempool_del_spec_witness :
  data_mempool_del tx_hash sample_pool (replicate 32 2) =
    Done (Tx (mk_tx (replicate 32 2) [] 0 0), without sample_pool 2 1).
Proof.
  apply (data_mempool_del_spec tx_hash (replicate 32 2)
    [mk_tx (replicate 32 1) [] 0 0; mk_tx (replicate 32 2) [] 0 0] eq_refl);
    [|exact sample_pool_holds].
  by intros t [->|[->|[]%not_elem_of_nil]%elem_of_cons]%elem_of_cons; apply Nat.leb_le.
Defined.

Lemma data_mempool_del_leaves_hole_witness :
  ∃ mp', data_mempool_del tx_hash sample_pool (replicate 32 1) =
      Done (Tx (mk_tx (replicate 32 1) [] 0 0), mp') ∧
    mp_count mp' = 1 ∧
    ∀ h, length h = 32%nat → known [] h = false →
      data_mempool_exists mp' h = Undef.
Proof.
  apply (data_mempool_del_leaves_hole tx_hash (replicate 32 1)
    [mk_tx (replicate 32 1) [] 0 0; mk_tx (replicate 32 2) [] 0 0] eq_refl) with (i := 0%nat);
    [|exact sample_pool_holds|done|done|cbn; lia].
  by intros t [->|[->|[]%not_elem_of_nil]%elem_of_cons]%elem_of_cons; apply Nat.leb_le.
Defined.
