(* ===== verification/Lifetime.v ===== *)
(** * Allocation and release: src/data.c, src/transactions.c

    [m_dbs_init] and [dbs_die] open and close the databases of a node,
    [m_tx_die] releases a transaction.  The state is the set of live
    allocations and the set of open handles; a pointer is [None] for [NULL].
    What the memory holds is modelled in Store.v and Mempool.v.  The calls of
    the library on a handle are arguments, [db->close] with what it does to
    the heap. *)
From S2P Require Import Prelude Shared Util Unresolved.

Record heap := mk_heap {
  live : gset nat;
  opened : gset nat
}.

(** the calls of the library on a handle, and names data.c uses and no file
    defines.  [db_create] is given the [DB *] where the library has a
    [DB **]: it is read as making the handle there. *)
Class DbCalls := {
  db_create : nat → Z;
  db_open : nat → string → Z → Z;
  db_close : nat → heap → outcome heap;
  DB_HASH : Z;
  DB_BTREE : Z;
  PATH_DATA_BLOCKS : string;
  PATH_DATA_CHAIN : string;
  PATH_DATA_LIMBO : string;
  PATH_DATA_TXS : string;
  PATH_DATA_NODES : string
}.

Definition malloc `{Alloc} (h : heap) : nat * heap :=
  let p := alloc (live h) in (p, mk_heap ({[p]} ∪ live h) (opened h)).

Definition free (p : nat) (h : heap) : outcome heap :=
  if decide (p ∈ live h) then Done (mk_heap (live h ∖ {[p]}) (opened h)) else Undef.

(** the pointers of [struct _s_Dbs] and the pointer to it *)
Record dbs_ptr := mk_dbs_ptr {
  p_dbs : nat;
  p_blocks : option nat;
  p_chain : option nat;
  p_limbo : option nat;
  p_txs : option nat;
  p_nodes : option nat;
  p_mempool : nat;
  p_mempool_txs : nat
}.

Section Databases.
Context `{Alloc, DbCalls}.

(** The result type is read as [DB *]. *)
Definition m_db_init (path : string) (type : Z) (h : heap)
    : outcome (option nat * heap) :=
  let '(db, h) := malloc h in
  if negb (db_create db =? 0) then Fatal
  else if negb (db_open db path type =? 0) then Fatal
  else Done (Some db, mk_heap (live h) ({[db]} ∪ opened h)).

(** [db = NULL] sets the copy of the pointer only. *)
Definition m_db_die (db : option nat) (h : heap) : outcome heap :=
  match db with
  | None => Done h
  | Some p => h ← db_close p h; free p h
  end.

(** The directory of the databases, made when it is missing, is not part of
    the state. *)
Definition m_dbs_init (h : heap) : outcome (dbs_ptr * heap) :=
  let '(dbs, h) := malloc h in
  '(blocks, h) ← m_db_init PATH_DATA_BLOCKS DB_HASH h;
  '(chain, h) ← m_db_init PATH_DATA_CHAIN DB_BTREE h;
  '(limbo, h) ← m_db_init PATH_DATA_LIMBO DB_BTREE h;
  '(txs, h) ← m_db_init PATH_DATA_TXS DB_HASH h;
  '(nodes, h) ← m_db_init PATH_DATA_NODES DB_BTREE h;
  let '(mempool, h) := malloc h in
  let '(mempool_txs, h) := malloc h in
  Done (mk_dbs_ptr dbs blocks chain limbo txs nodes mempool mempool_txs, h).

Definition dbs_die (d : dbs_ptr) (h : heap) : outcome heap :=
  h ← free (p_mempool_txs d) h;
  h ← free (p_mempool d) h;
  h ← m_db_die (p_blocks d) h;
  h ← m_db_die (p_chain d) h;
  h ← m_db_die (p_limbo d) h;
  h ← m_db_die (p_txs d) h;
  h ← m_db_die (p_nodes d) h;
  free (p_dbs d) h.

End Databases.

(** ** Transactions *)

(** the two pointers of [struct _s_M_tx], passed by value *)
Record tx_ptr := mk_tx_ptr { t_data : option nat; t_hash : option nat }.

Definition free_field (p : option nat) (h : heap) : outcome heap :=
  match p with None => Done h | Some p => free p h end.

(** The pointers set to [NULL] are those of the copy. *)
Definition m_tx_die (tx : tx_ptr) (h : heap) : outcome heap :=
  h ← free_field (t_data tx) h;
  free_field (t_hash tx) h.

(** ** What they do *)

Lemma free_live p h :
  p ∈ live h → free p h = Done (mk_heap (live h ∖ {[p]}) (opened h)).
Proof. intros Hp. unfold free. by rewrite decide_True. Qed.

Section Roundtrip.
Context `{Alloc, DbCalls}.

Lemma malloc_eq h :
  ∃ p, malloc h = (p, mk_heap ({[p]} ∪ live h) (opened h)) ∧ p ∉ live h.
Proof. exists (alloc (live h)). split; [done|apply alloc_fresh]. Qed.

Definition calls_succeed : Prop :=
  (∀ p, db_create p = 0) ∧ ∀ p path type, db_open p path type = 0.

Lemma m_db_init_run path type h :
  calls_succeed →
  ∃ p, m_db_init path type h =
      Done (Some p, mk_heap ({[p]} ∪ live h) ({[p]} ∪ opened h)) ∧ p ∉ live h.
Proof.
  intros [Hc Ho]. unfold m_db_init. destruct (malloc_eq h) as (p & -> & Hp).
  exists p. by rewrite Hc, Ho.
Qed.

(** [DB->close] releases the handle, which may not be used after it. *)
Definition close_releases : Prop :=
  ∀ p h, p ∈ live h → p ∈ opened h →
    ∃ h', db_close p h = Done h' ∧ (p ∉ live h') ∧ (p ∉ opened h').

(** The handle of an open database is released twice. *)
Lemma m_db_die_open p h :
  close_releases → p ∈ live h → p ∈ opened h → m_db_die (Some p) h = Undef.
Proof.
  intros Hc Hl Ho. unfold m_db_die.
  destruct (Hc p h Hl Ho) as (h' & -> & Hp & _). rewrite bind_Done.
  unfold free. by rewrite decide_False.
Qed.

(** A node whose databases were opened cannot close them. *)
Theorem dbs_die_undefined h :
  calls_succeed → close_releases →
  ∃ d h', m_dbs_init h = Done (d, h') ∧ live h ⊆ live h' ∧ opened h ⊆ opened h' ∧
    dbs_die d h' = Undef.
Proof.
  intros Hc Hcl. unfold m_dbs_init. destruct (malloc_eq h) as (d & -> & Hd).
  repeat match goal with
  | |- context [m_db_init ?path ?type ?h1] =>
      let p := fresh "p" in let Hp := fresh "Hp" in
      destruct (m_db_init_run path type h1 Hc) as (p & -> & Hp);
      rewrite bind_Done; cbn [live opened] in *
  end.
  match goal with |- context [malloc ?h1] => destruct (malloc_eq h1) as (m & -> & Hm) end.
  match goal with |- context [malloc ?h1] => destruct (malloc_eq h1) as (t & -> & Ht) end.
  cbn [live opened] in *. eexists _, _. split; [done|].
  split; [cbn; set_solver|]. split; [cbn; set_solver|]. unfold dbs_die.
  cbn [p_mempool_txs p_mempool p_blocks].
  do 2 (rewrite free_live by (cbn; set_solver); rewrite bind_Done; cbn [live opened]).
  by rewrite m_db_die_open by (done || (cbn; set_solver)).
Qed.

(** One call that fails ends the program. *)
Theorem m_dbs_init_fatal h p type :
  (∀ q, db_create q = 0) →
  p ∈ [(PATH_DATA_BLOCKS, DB_HASH); (PATH_DATA_CHAIN, DB_BTREE);
       (PATH_DATA_LIMBO, DB_BTREE); (PATH_DATA_TXS, DB_HASH);
       (PATH_DATA_NODES, DB_BTREE)] →
  (∀ q, db_open q p.1 p.2 = type) → type ≠ 0 →
  m_dbs_init h = Fatal.
Proof.
  intros Hc Hp Ho Ht.
  assert (Hd : ∀ path t h, m_db_init path t h = Fatal ∨ ∃ db h', m_db_init path t h = Done (db, h')).
  { intros path t h0. unfold m_db_init. destruct (malloc h0) as [q h1].
    rewrite Hc. cbn [negb Z.eqb]. destruct (negb _); [by left|right; by eexists _, _]. }
  assert (Hf : ∀ h, m_db_init p.1 p.2 h = Fatal).
  { intros h0. unfold m_db_init. destruct (malloc h0) as [q h1].
    rewrite Hc, Ho. cbn [negb Z.eqb]. by rewrite (proj2 (Z.eqb_neq _ _) Ht). }
  unfold m_dbs_init. destruct (malloc h) as [dbs h1].
  repeat (apply elem_of_cons in Hp as [-> | Hp];
    [cbn [fst snd] in Hf; by rewrite Hf|];
    match goal with |- context [m_db_init ?path ?t ?h0 ≫= _] =>
      destruct (Hd path t h0) as [-> | (? & ? & ->)]; [done|rewrite bind_Done] end).
  by apply not_elem_of_nil in Hp.
Qed.

(** The two allocations of a transaction are freed; a second call with the
    same structure frees them again. *)
Theorem m_tx_die_releases a b h :
  a ∈ live h → b ∈ live h → a ≠ b →
  let tx := mk_tx_ptr (Some a) (Some b) in
  m_tx_die tx h = Done (mk_heap (live h ∖ {[a; b]}) (opened h)) ∧
  (h' ← m_tx_die tx h; m_tx_die tx h') = Undef.
Proof.
  intros Ha Hb Hab tx.
  assert (E : m_tx_die tx h = Done (mk_heap (live h ∖ {[a; b]}) (opened h))).
  { unfold m_tx_die, tx. cbn [t_data t_hash free_field].
    rewrite free_live by done. rewrite bind_Done, free_live by (cbn; set_solver).
    cbn [live opened]. do 2 f_equal. set_solver. }
  split; [done|]. rewrite E, bind_Done. unfold m_tx_die, tx. cbn [t_data free_field].
  unfold free. rewrite decide_False by (cbn; set_solver). done.
Qed.

End Roundtrip.

(** ** Instances *)

Definition release (p : nat) (h : heap) : outcome heap :=
  Done (mk_heap (live h ∖ {[p]}) (opened h ∖ {[p]})).

Definition sample_calls : DbCalls := {|
  db_create p := 0; db_open p path type := 0; db_close := release; DB_HASH := 2;
  DB_BTREE := 1;
  PATH_DATA_BLOCKS := "blocks"; PATH_DATA_CHAIN := "chain"; PATH_DATA_LIMBO := "limbo";
  PATH_DATA_TXS := "txs"; PATH_DATA_NODES := "nodes"
|}.

Lemma dbs_die_undefined_witness :
  let h := mk_heap {[3%nat]} ∅ in
  ∃ d h', @m_dbs_init sample_alloc sample_calls h = Done (d, h') ∧
    live h ⊆ live h' ∧ opened h ⊆ opened h' ∧ @dbs_die sample_calls d h' = Undef.
Proof.
  apply (@dbs_die_undefined sample_alloc sample_calls (mk_heap {[3%nat]} ∅)); [done|].
  intros p h _ _. exists (mk_heap (live h ∖ {[p]}) (opened h ∖ {[p]})).
  split; [done|]. split; cbn; set_solver.
Defined.

(** the transactions database cannot be opened *)
Definition no_txs : DbCalls := {|
  db_create p := 0;
  db_open p path type := if String.eqb path "txs" then 13 else 0;
  db_close := release;
  DB_HASH := 2; DB_BTREE := 1;
  PATH_DATA_BLOCKS := "blocks"; PATH_DATA_CHAIN := "chain"; PATH_DATA_LIMBO := "limbo";
  PATH_DATA_TXS := "txs"; PATH_DATA_NODES := "nodes"
|}.

Lemma m_dbs_init_fatal_witness :
  @m_dbs_init sample_alloc no_txs (mk_heap ∅ ∅) = Fatal.
Proof.
  apply (@m_dbs_init_fatal sample_alloc no_txs (mk_heap ∅ ∅) ("txs"%string, 2) 13);
    [done|cbn; set_solver|done|lia].
Defined.

Lemma m_tx_die_releases_witness :
  let tx := mk_tx_ptr (Some 1%nat) (Some 2%nat) in
  let h := mk_heap {[1%nat; 2%nat]} ∅ in
  m_tx_die tx h = Done (mk_heap (live h ∖ {[1%nat; 2%nat]}) (opened h)) ∧
  (h' ← m_tx_die tx h; m_tx_die tx h') = Undef.
Proof.
  apply (m_tx_die_releases 1%nat 2%nat (mk_heap {[1%nat; 2%nat]} ∅));
    [cbn; set_solver|cbn; set_solver|lia].
Defined.
