(* ===== verification/Limbo.v ===== *)
(** * src/data.c: limbo and the switch to another chain

    Limbo keeps the hashes of the blocks that are not on the chain, one level
    for each height: a counter of four bytes and an [Array] of hashes.
    [data_limbo_scan] walks the levels from the top, and
    [data_blocks_revert] undoes the blocks of the chain down to a common
    block and adopts those that lead to a new one. *)
From S2P Require Import Prelude Shared Util Crypto Unresolved Transactions Merkle Blocks Arrays Store Mempool.

(** what the functions below use and the sources define nowhere *)
Class LimboNames `{BerkeleyDB} := {
  LIMBO_MAX_LEVEL_SIZE : Z;
  bytes_to_uint : list Z → Z → outcome Z;
  (** the bytes from the element on *)
  array_get : Array → list Z → Z → outcome (list Z);
  block_get_prev_hash : list Z → Z → list Z → outcome (list Z);
  data_txs_del : Dbs → list Z → Dbs;
  db_set : DB → DBT → DBT → Z * DB;
  is_valid_chain : Dbs → list Z → list Z → outcome Z;
  data_build_block_list : Dbs → list Z → Z → list Z → outcome (list Z);
  (** the memory at an address given as an integer *)
  at_address : Z → list Z
}.

(** a DBT whose memory was changed behind its back *)
Definition dbt_with (d : DBT) (data : list Z) : DBT :=
  mk_dbt data (dbt_size d) (dbt_ulen d) (dbt_doff d) (dbt_dlen d) (dbt_flags d).

Section Operations.
Context `{BerkeleyDB, Host, TxNames, Malloc, BlockNames, !LimboNames}.

Definition with_limbo (dbs : Dbs) (l : DB) : Dbs :=
  mk_dbs _ (blocks dbs) (chain dbs) l (txs dbs) (nodes dbs).

(** ** Levels *)

Definition level_bytes : Z := w32 (4 + SIZE_SHA256 * LIMBO_MAX_LEVEL_SIZE).

(** The common first part of the next two functions: the hash of the block,
    the key, and the level read into a new buffer. The height is passed where
    [new_dbt] takes a pointer. *)
Definition limbo_level (dbs : Dbs) (block : list Z) (p : Z)
    : outcome (list Z * DBT * DBT * Array) :=
  hash ← block_compute_hash block p (uninit "hash" SIZE_SHA256);
  height ← block_get_height block p;
  let buffer := uninit "buffer" level_bytes in
  let key := new_dbt (at_address height) 4 in
  let dat := new_dbt buffer level_bytes in
  let '(_, dat) := db_get (limbo dbs) key dat in
  n ← bytes_to_uint (dbt_data dat) 0;
  Done (hash, key, dat, array_init 4 SIZE_SHA256 n LIMBO_MAX_LEVEL_SIZE).

(** Errors of the database are only printed. *)
Definition data_limbo_safe_add (dbs : Dbs) (block : list Z) (p : Z)
    : outcome Dbs :=
  '(hash, key, dat, arr) ← limbo_level dbs block p;
  '(buffer, _) ← array_add arr (dbt_data dat) hash 0;
  let '(_, limbo) := db_put (limbo dbs) key (dbt_with dat buffer) in
  Done (with_limbo dbs limbo).

Definition data_limbo_del (dbs : Dbs) (block : list Z) (p : Z) : outcome Dbs :=
  '(hash, key, dat, arr) ← limbo_level dbs block p;
  buffer ← array_del arr (dbt_data dat) hash 0;
  let '(_, limbo) := db_put (limbo dbs) key (dbt_with dat buffer) in
  Done (with_limbo dbs limbo).

(** [(block_hash, SIZE_SHA256)] is read as a call of [new_dbt]; the key is
    the hash and the data the height. *)
Definition data_chain_safe_set (dbs : Dbs) (block_hash : list Z) : outcome Dbs :=
  let '(ret, block) := data_blocks_get_header dbs block_hash
    (uninit "block" SIZE_BLOCK_HEADER) in
  if negb (ret =? 0) then Done dbs
  else
    let key := new_dbt block_hash SIZE_SHA256 in
    height ← block_get_height block 0;
    let dat := new_dbt (uint_bytes height) 4 in
    let '(_, chain) := db_set (chain dbs) key dat in
    Done (mk_dbs _ (blocks dbs) chain (limbo dbs) (txs dbs) (nodes dbs)).

(** ** data_blocks_revert *)

(** what the function works on; [rv_pool] is [None] for a null pointer *)
Record revert := mk_revert {
  rv_dbs : Dbs;
  rv_pool : option Mempool;
  rv_block : list Z;
  rv_hash : list Z;
  rv_tx_hash : list Z
}.

(** the arguments [data_mempool_add] finds in [hash] and [size], the bytes
    behind a [M_tx *], and the third argument of [data_txs_add], which the
    call leaves out *)
Context (mp_hash : list Z) (mp_size : Z) (tx_object : M_tx → list Z)
  (tx_block_hash : list Z).

Definition revert_old_tx (r : revert) (cursor : Z) : outcome (revert * Z) :=
  tx_hash ← tx_compute_hash (rv_block r) cursor (rv_tx_hash r);
  let dbs := data_txs_del (rv_dbs r) tx_hash in
  pool ← match rv_pool r with
         | None => Done None
         | Some mp =>
             mp ← data_mempool_add mp_hash mp_size mp (rv_block r) cursor;
             Done (Some mp)
         end;
  n ← tx_get_size (rv_block r) cursor;
  Done (mk_revert dbs pool (rv_block r) (rv_hash r) tx_hash, w32 (cursor + n)).

(** One block of the old chain; a value is the early [return]. The missing
    first argument of [data_chain_get] is [dbs]. *)
Definition revert_old_block (i : Z) (r : revert) : outcome (revert + Z * revert) :=
  let '(_, hash) := data_chain_get (rv_dbs r) i (rv_hash r) in
  let '(ret, block) := data_blocks_get (rv_dbs r) hash (rv_block r) in
  let r := mk_revert (rv_dbs r) (rv_pool r) block hash (rv_tx_hash r) in
  if negb (ret =? 0) then Done (inr (ret, r))
  else
    tx_count ← block_get_tx_count block 0;
    '(r, _) ← for_range 0 tx_count (λ _ '(r, cursor), revert_old_tx r cursor)
      (r, POS_BLOCK_BODY);
    dbs ← data_limbo_safe_add (rv_dbs r) (rv_block r) 0;
    Done (inl (mk_revert dbs (rv_pool r) (rv_block r) (rv_hash r) (rv_tx_hash r))).

Definition revert_new_tx (r : revert) (cursor : Z) : outcome (revert * Z) :=
  tx_hash ← tx_compute_hash (rv_block r) cursor (rv_tx_hash r);
  let dbs := data_txs_add (rv_dbs r) tx_hash tx_block_hash in
  pool ← match rv_pool r with
         | None => Done None
         | Some mp => '(_, mp) ← data_mempool_del tx_object mp tx_hash; Done (Some mp)
         end;
  n ← tx_get_size (rv_block r) cursor;
  Done (mk_revert dbs pool (rv_block r) (rv_hash r) tx_hash, w32 (cursor + n)).

(** One block of the new chain: [inr] is the [break]. The return code of
    [data_blocks_get] is not kept: [ret], still 0, is tested. *)
Definition revert_new_block (common_block_height : Z) (r : revert)
    : outcome (revert + revert) :=
  let '(_, block) := data_blocks_get (rv_dbs r) (rv_hash r) (rv_block r) in
  let r := mk_revert (rv_dbs r) (rv_pool r) block (rv_hash r) (rv_tx_hash r) in
  curr_block_height ← block_get_height block 0;
  if curr_block_height =? common_block_height then Done (inr r)
  else
    tx_count ← block_get_tx_count block 0;
    '(r, _) ← for_range 0 tx_count (λ _ '(r, cursor), revert_new_tx r cursor)
      (r, POS_BLOCK_BODY);
    dbs ← data_limbo_del (rv_dbs r) (rv_block r) 0;
    dbs ← data_chain_safe_set dbs (rv_block r);
    hash ← block_get_prev_hash (rv_block r) 0 (rv_hash r);
    Done (inl (mk_revert dbs (rv_pool r) (rv_block r) hash (rv_tx_hash r))).

(** [while (1)]: [fuel] bounds the rounds *)
Fixpoint revert_new (fuel : nat) (common_block_height : Z) (r : revert)
    : outcome revert :=
  match fuel with
  | O => Hang
  | S fuel =>
      o ← revert_new_block common_block_height r;
      match o with
      | inr r => Done r
      | inl r => revert_new fuel common_block_height r
      end
  end.

(** The value is [None] when the function ends without a [return]. *)
Definition data_blocks_revert (fuel : nat) (highest0 : Z) (dbs : Dbs)
    (pool : option Mempool) (common_block_hash new_latest_block_hash : list Z)
    : outcome (option Z * Dbs * option Mempool) :=
  initial_height ← data_chain_get_height highest0 dbs;
  let '(ret, common_block) := data_blocks_get_header dbs common_block_hash
    (uninit "common_block" SIZE_BLOCK_HEADER) in
  if negb (ret =? 0) then Done (Some ret, dbs, pool)
  else
    common_block_height ← block_get_height common_block 0;
    let r := mk_revert dbs pool (uninit "curr_block" MAX_BLOCK_SIZE)
      (uninit "curr_block_hash" SIZE_SHA256) (uninit "tx_hash" SIZE_SHA256) in
    o ← for_range_ret 0 (initial_height - common_block_height)
      (λ k r, revert_old_block (initial_height - k) r) r;
    match o with
    | inr (ret, r) => Done (Some ret, rv_dbs r, rv_pool r)
    | inl r =>
        src ← memread new_latest_block_hash 0 SIZE_SHA256;
        hash ← memwrite (rv_hash r) 0 src;
        r ← revert_new fuel common_block_height
          (mk_revert (rv_dbs r) (rv_pool r) (rv_block r) hash (rv_tx_hash r));
        Done (None, rv_dbs r, rv_pool r)
    end.

(** ** data_limbo_scan *)

(** the messages handed to all peers; [msgall_inv] and [msgall_getdata] are
    defined nowhere *)
Inductive announce :=
| Inv (dtype : Z) (block_list : list Z) (count : Z)
| Getdata (dtype : Z) (hash : list Z) (count : Z).

Record scan := mk_scan {
  sc_dbs : Dbs;
  sc_pool : option Mempool;
  sc_swapped : bool;
  sc_sent : list announce
}.

(** The body of [data_limbo_scan_can_trace_back] is empty: [trace] is what the
    calls of it are worth, and the buffer for its second result keeps the
    bytes [malloc] left in it.  [highest0] and [highest1] are the numbers
    the two calls of [data_chain_get_height] find in [highest]. *)
Context (trace : list Z → Z) (fuel : nat) (highest0 highest1 : Z).

Definition end_hash_buffer : list Z := uninit "end_hash_buffer" SIZE_SHA256.

(** One hash of a level. The [else] belongs to the inner [if]. *)
Definition scan_hash (index curr_height : Z) (hash : list Z) (s : scan)
    : outcome scan :=
  if trace hash =? 0 then Done s
  else
    valid ← (if sc_swapped s then Done 0
             else is_valid_chain (sc_dbs s) hash end_hash_buffer);
    if negb (valid =? 0) then
      '(_, dbs, pool) ← data_blocks_revert fuel highest1 (sc_dbs s) (sc_pool s)
        hash end_hash_buffer;
      let block_list_count := w32 (index - curr_height) in
      block_list ← data_build_block_list dbs hash block_list_count
        (uninit "block_list" (w32 (block_list_count * SIZE_SHA256)));
      Done (mk_scan dbs pool true
              (sc_sent s ++ [Inv DTYPE_BLOCK block_list block_list_count]))
    else
      Done (mk_scan (sc_dbs s) (sc_pool s) (sc_swapped s)
              (sc_sent s ++ [Getdata DTYPE_BLOCK end_hash_buffer 1])).

(** One level: what the cursor stored in [index] and in [buffer]. *)
Definition scan_level (curr_height index : Z) (buffer : list Z) (s : scan)
    : outcome scan :=
  n ← bytes_to_uint buffer 0;
  let arr := array_init 4 SIZE_SHA256 n LIMBO_MAX_LEVEL_SIZE in
  for_range 0 (arr_length arr) (λ i s,
    hash ← array_get arr buffer i;
    scan_hash index curr_height hash s) s.

Fixpoint scan_levels (curr_height : Z) (levels : list (Z * list Z)) (s : scan)
    : outcome scan :=
  match levels with
  | [] => Done s
  | (index, buffer) :: levels =>
      if index <=? curr_height then Done s
      else
        s ← scan_level curr_height index buffer s;
        scan_levels curr_height levels s
  end.

(** [levels] is what the cursor yields with [DB_PREV], [None] when it cannot
    be opened; the undeclared handle is that of limbo. *)
Definition data_limbo_scan (levels : option (list (Z * list Z))) (dbs : Dbs)
    (pool : option Mempool) : outcome scan :=
  curr_height ← data_chain_get_height highest0 dbs;
  match levels with
  | None => Fatal
  | Some levels => scan_levels curr_height levels (mk_scan dbs pool false [])
  end.

End Operations.

(** ** Saving to limbo *)

Section Levels.
Context `{BerkeleyDBLaws, Host, TxNames, Malloc, BlockNames, !LimboNames}.

(** The level of the block is the record [v], the counter in it is [n]. *)
Record level_ok (dbs : Dbs) (block : list Z) (p : Z) (v : list Z)
    (hash : list Z) (n : Z) : Prop := {
  level_hash : block_compute_hash block p (uninit "hash" SIZE_SHA256) = Done hash;
  level_hash_length : length hash = 32%nat;
  level_height : ∃ h, block_get_height block p = Done h;
  level_max : 0 ≤ LIMBO_MAX_LEVEL_SIZE < 2 ^ 25;
  level_record : records (limbo dbs) !! [] = Some v;
  level_length : Z.of_nat (length v) ≤ level_bytes;
  level_count : bytes_to_uint (patch (uninit "buffer" level_bytes) 0 v) 0 = Done n;
  level_count_fits : 0 ≤ n ≤ LIMBO_MAX_LEVEL_SIZE
}.

Lemma level_bytes_eq : 0 ≤ LIMBO_MAX_LEVEL_SIZE < 2 ^ 25 →
  level_bytes = 4 + 32 * LIMBO_MAX_LEVEL_SIZE.
Proof. intros H'. unfold level_bytes, SIZE_SHA256. apply w32_id. lia. Qed.

(** the buffer and the DBT after the level was read *)
Definition level_buffer (v : list Z) : list Z :=
  patch (uninit "buffer" level_bytes) 0 v.

Lemma length_level_buffer dbs block p v hash n :
  level_ok dbs block p v hash n →
  Z.of_nat (length (level_buffer v)) = 4 + 32 * LIMBO_MAX_LEVEL_SIZE.
Proof.
  intros []. unfold level_buffer.
  rewrite level_bytes_eq in * by done.
  assert (L : 0 ≤ 4 + 32 * LIMBO_MAX_LEVEL_SIZE) by lia.
  apply (length_uninit "buffer") in L. len. lia.
Qed.

Lemma limbo_level_run dbs block p v hash n :
  level_ok dbs block p v hash n →
  ∃ key dat, limbo_level dbs block p =
      Done (hash, key, dat, array_init 4 SIZE_SHA256 n LIMBO_MAX_LEVEL_SIZE) ∧
    dbt_bytes key = [] ∧ dbt_data dat = level_buffer v ∧
    dbt_size dat = Z.of_nat (length v) ∧ dbt_flags dat = DB_DBT_USERMEM.
Proof.
  intros Hok. pose proof (length_level_buffer _ _ _ _ _ _ Hok) as Lb.
  destruct Hok as [Hh Hl [h Hht] Hm Hr Hv Hn Hf]. unfold limbo_level.
  rewrite Hh, bind_Done, Hht, bind_Done.
  set (key := new_dbt (at_address h) 4).
  set (dat := new_dbt (uninit "buffer" level_bytes) level_bytes).
  assert (Hsel : dbt_select dat v = v)
    by (unfold dbt_select; cbn; by rewrite Z.eqb_refl).
  assert (Lu : 0 ≤ level_bytes) by (rewrite level_bytes_eq by done; lia).
  apply (length_uninit "buffer") in Lu.
  assert (E : db_get (limbo dbs) key dat = (0, dbt_filled dat v)).
  { pose proof (bdb_get_law (limbo dbs) key dat v (new_dbt_usermem _ _) Hr) as L.
    rewrite Hsel in L. apply L; [done|cbn; lia]. }
  rewrite E. cbn [dbt_data dbt_filled dat new_dbt]. rewrite Hn, bind_Done.
  eexists _, _. split; [done|]. done.
Qed.

Lemma limbo_array_ok dbs block p v hash n :
  level_ok dbs block p v hash n →
  array_ok (array_init 4 SIZE_SHA256 n LIMBO_MAX_LEVEL_SIZE) (level_buffer v).
Proof.
  intros Hok. pose proof (length_level_buffer _ _ _ _ _ _ Hok) as Lb.
  destruct Hok. unfold array_ok, SIZE_SHA256. cbn. lia.
Qed.

(** C27: When limbo holds a record for the level (no longer than the buffer,
    with a counter from 0 to LIMBO_MAX_LEVEL_SIZE, itself below 2^25) and the
    block has a height and a hash of 32 bytes, data_limbo_safe_add returns and
    the records of limbo are as they were: array_add stores nothing and its
    new length is lost. A limbo without a record, where the put makes one, is
    not covered. *)
Theorem data_limbo_safe_add_stores_nothing dbs block p v hash n :
  level_ok dbs block p v hash n →
  ∃ l, data_limbo_safe_add dbs block p = Done (with_limbo dbs l) ∧
    records l = records (limbo dbs).
Proof.
  intros Hok. unfold data_limbo_safe_add.
  destruct (limbo_level_run _ _ _ _ _ _ Hok) as (key & dat & -> & Hk & Hd & Hs & Hf).
  rewrite bind_Done.
  destruct (array_add_run _ (dbt_data dat) hash 0 hash
    ltac:(rewrite Hd; by apply (limbo_array_ok dbs block p v hash n))) as [x ->].
  { cbn. apply memread_all. by rewrite (level_hash_length _ _ _ _ _ _ Hok). }
  rewrite bind_Done. destruct (db_put _ _ _) as [ret l] eqn:E.
  eexists. split; [done|].
  rewrite (bdb_put_law _ _ (dbt_with dat (dbt_data dat)) _ _ Hf E).
  destruct (ret =? 0); [|done]. unfold dbt_bytes at 2. cbn [dbt_size dbt_data dbt_with].
  rewrite Hs, Hd, Hk, Nat2Z.id. unfold level_buffer, patch.
  rewrite take_0, app_nil_l, take_app_length. apply insert_id, Hok.
Qed.

(** Removing a block from a level with two free slots, or more, reads outside
    the buffer. *)
Theorem data_limbo_del_undefined dbs block p v hash n :
  level_ok dbs block p v hash n →
  n + 2 ≤ differing (array_init 4 SIZE_SHA256 n LIMBO_MAX_LEVEL_SIZE) (level_buffer v)
    hash LIMBO_MAX_LEVEL_SIZE →
  data_limbo_del dbs block p = Undef.
Proof.
  intros Hok Hd. unfold data_limbo_del.
  destruct (limbo_level_run _ _ _ _ _ _ Hok) as (key & dat & -> & _ & Ed & _).
  rewrite bind_Done, Ed. pose proof (length_level_buffer _ _ _ _ _ _ Hok) as Lb.
  pose proof (array_del_run _ (level_buffer v) hash 0 hash
    (limbo_array_ok dbs block p v hash n Hok)) as Hrun.
  rewrite decide_True in Hrun by done. rewrite Hrun; [done| |].
  - destruct Hok. lia.
  - apply memread_all. by rewrite (level_hash_length _ _ _ _ _ _ Hok).
Qed.

End Levels.

(** ** The switch to another chain *)

Section Revert.
Context `{BerkeleyDBLaws, Host, TxNames, Malloc, BlockNames, !LimboNames}.
Context (mp_hash : list Z) (mp_size : Z) (tx_object : M_tx → list Z)
  (tx_block_hash : list Z).
Context (Hdel : ∀ dbs h, blocks (data_txs_del dbs h) = blocks dbs).

(** The block buffer holds [b], and the blocks are the empty record that
    [data_blocks_add] stores. *)
Definition unread (b : list Z) (r : revert) : Prop :=
  rv_block r = b ∧ records (blocks (rv_dbs r)) !! [] = Some [].

Lemma data_limbo_safe_add_blocks dbs block p dbs' :
  data_limbo_safe_add dbs block p = Done dbs' → blocks dbs' = blocks dbs.
Proof.
  unfold data_limbo_safe_add.
  intros ([[[hash key] dat] arr] & _ & ([buf v] & _ & Hp)%bind_Done_inv)%bind_Done_inv.
  destruct (db_put _ _ _) as [ret l]. by injection Hp as <-.
Qed.

Lemma data_limbo_del_blocks dbs block p dbs' :
  data_limbo_del dbs block p = Done dbs' → blocks dbs' = blocks dbs.
Proof.
  unfold data_limbo_del.
  intros ([[[hash key] dat] arr] & _ & (buf & _ & Hp)%bind_Done_inv)%bind_Done_inv.
  destruct (db_put _ _ _) as [ret l]. by injection Hp as <-.
Qed.

Lemma data_chain_safe_set_blocks dbs hash dbs' :
  data_chain_safe_set dbs hash = Done dbs' → blocks dbs' = blocks dbs.
Proof.
  unfold data_chain_safe_set. destruct (data_blocks_get_header _ _ _) as [ret blk].
  destruct (negb _); [by intros [= <-]|].
  intros (h & _ & Hp)%bind_Done_inv.
  destruct (db_set _ _ _) as [ret' c]. by injection Hp as <-.
Qed.

Lemma revert_old_tx_unread b r cursor r' c' :
  unread b r → revert_old_tx mp_hash mp_size r cursor = Done (r', c') → unread b r'.
Proof.
  intros [Hb HR]. unfold revert_old_tx.
  intros (th & _ & (pool & _ & (n & _ & [= <- _])%bind_Done_inv)%bind_Done_inv)%bind_Done_inv.
  split; [done|]. cbn. by rewrite Hdel.
Qed.

Lemma revert_new_tx_unread b r cursor r' c' :
  unread b r → revert_new_tx tx_object tx_block_hash r cursor = Done (r', c') →
  unread b r'.
Proof.
  intros [Hb HR]. unfold revert_new_tx.
  intros (th & _ & (pool & _ & (n & _ & [= <- _])%bind_Done_inv)%bind_Done_inv)%bind_Done_inv.
  split; [done|]. cbn. unfold data_txs_add. by destruct (db_put _ _ _).
Qed.

Lemma revert_old_block_unread b i r o :
  unread b r → revert_old_block mp_hash mp_size i r = Done o →
  ∃ r', o = inl r' ∧ unread b r'.
Proof.
  intros [Hb HR]. unfold revert_old_block. destruct (data_chain_get _ _ _) as [r0 hash].
  rewrite (data_blocks_get_empty _ _ _ HR). cbn [negb Z.eqb].
  intros (n & _ & ([r1 c1] & Hl & (dbs & Ha & [= <-])%bind_Done_inv)%bind_Done_inv)%bind_Done_inv.
  eapply (for_range_keeps (λ '(r, _), unread b r)) in Hl; [|by split|].
  - destruct Hl as [Hb1 HR1]. eexists. split; [done|]. split; [done|]. cbn.
    by rewrite (data_limbo_safe_add_blocks _ _ _ _ Ha).
  - intros k [r2 c2] [r3 c3]. apply revert_old_tx_unread.
Qed.

(** With the height of the buffer apart from that of the common block, a round
    never ends the loop. *)
Lemma revert_new_block_unread b h common r o :
  block_get_height b 0 = Done h → h ≠ common → unread b r →
  revert_new_block tx_object tx_block_hash common r = Done o →
  ∃ r', o = inl r' ∧ unread b r'.
Proof.
  intros Hh Hne [Hb HR]. unfold revert_new_block.
  rewrite (data_blocks_get_empty _ _ _ HR), Hb, Hh, bind_Done.
  rewrite (proj2 (Z.eqb_neq _ _) Hne).
  intros (n & _ & ([r1 c1] & Hl & Hr)%bind_Done_inv)%bind_Done_inv.
  eapply (for_range_keeps (λ '(r, _), unread b r)) in Hl; [|by split|].
  - destruct Hl as [Hb1 HR1].
    apply bind_Done_inv in Hr as (d1 & Hd1 & (d2 & Hd2 & (hs & _ & [= <-])%bind_Done_inv)%bind_Done_inv).
    eexists. split; [done|]. split; [done|]. cbn.
    by rewrite (data_chain_safe_set_blocks _ _ _ Hd2),
      (data_limbo_del_blocks _ _ _ _ Hd1).
  - intros k [r2 c2] [r3 c3]. apply revert_new_tx_unread.
Qed.

Lemma revert_new_never b h common fuel r r' :
  block_get_height b 0 = Done h → h ≠ common → unread b r →
  revert_new tx_object tx_block_hash fuel common r ≠ Done r'.
Proof.
  intros Hh Hne. revert r. induction fuel as [|fuel IH]; intros r Hu; cbn [revert_new];
    [done|].
  intros (o & Ho & Hrest)%bind_Done_inv.
  destruct (revert_new_block_unread _ _ _ _ _ Hh Hne Hu Ho) as (r1 & -> & Hu1).
  by apply (IH r1).
Qed.

(** C13: With the blocks as data_blocks_add leaves them (the empty record),
    and unless the unset buffers happen to hold equal heights,
    data_blocks_revert never returns, with any fuel: no block is ever read
    into curr_block, so its height never reaches that of the common block. *)
Theorem data_blocks_revert_never_returns fuel highest0 dbs pool common new h ch res :
  records (blocks dbs) !! [] = Some [] →
  block_get_height (uninit "curr_block" MAX_BLOCK_SIZE) 0 = Done h →
  block_get_height (uninit "common_block" SIZE_BLOCK_HEADER) 0 = Done ch → h ≠ ch →
  data_blocks_revert mp_hash mp_size tx_object tx_block_hash fuel highest0 dbs pool
    common new ≠ Done res.
Proof.
  intros HR Hh Hch Hne. unfold data_blocks_revert.
  rewrite data_blocks_get_header_empty by done. cbn [negb Z.eqb].
  intros (ih & _ & Hrun)%bind_Done_inv. rewrite Hch, bind_Done in Hrun.
  apply bind_Done_inv in Hrun as (o & Ho & Hrest).
  eapply (for_range_ret_keeps (unread (uninit "curr_block" MAX_BLOCK_SIZE))) in Ho
    as (r & -> & Hr); [|by split|intros k r o'; apply revert_old_block_unread].
  apply bind_Done_inv in Hrest as (src & _ & (hash & _ & (r' & Hn & _)%bind_Done_inv)%bind_Done_inv).
  revert Hn. by apply (revert_new_never _ _ _ _ _ _ Hh Hne).
Qed.

End Revert.

(** ** The scan *)

(** the hashes the scan meets: those of the levels above the chain, down to
    the first level that is not *)
Fixpoint hashes_above (curr_height : Z) (levels : list (Z * list (list Z)))
    : list (list Z) :=
  match levels with
  | [] => []
  | (index, hs) :: levels =>
      if index <=? curr_height then [] else hs ++ hashes_above curr_height levels
  end.

Section Scan.
Context `{BerkeleyDB, Host, TxNames, Malloc, BlockNames, !LimboNames}.
Context (mp_hash : list Z) (mp_size : Z) (tx_object : M_tx → list Z)
  (tx_block_hash : list Z) (trace : list Z → Z) (fuel : nat)
  (highest0 highest1 : Z).
Context (dbs : Dbs) (pool : option Mempool) (valid : list Z → bool).

Let scan_hash := scan_hash mp_hash mp_size tx_object tx_block_hash trace fuel highest1.
Let scan_level := scan_level mp_hash mp_size tx_object tx_block_hash trace fuel highest1.
Let scan_levels := scan_levels mp_hash mp_size tx_object tx_block_hash trace fuel highest1.
Let revert_to (h : list Z) :=
  data_blocks_revert mp_hash mp_size tx_object tx_block_hash fuel highest1 dbs pool
    h end_hash_buffer.

(** [is_valid_chain] decides [valid] on the databases before the switch, the
    switch to a valid chain returns, and so does the list of its blocks. *)
Definition calls_return : Prop :=
  (∀ h, is_valid_chain dbs h end_hash_buffer = Done (Z.b2z (valid h))) ∧
  (∀ h, valid h = true → ∃ res, revert_to h = Done res) ∧
  (∀ d h n buf, ∃ l, data_build_block_list d h n buf = Done l).

Definition getdata : announce := Getdata DTYPE_BLOCK end_hash_buffer 1.

(** The scan went through the traceable hashes [hs]: either none was valid, or
    it switched at the first valid one. *)
Definition scanned (hs : list (list Z)) (s : scan) : Prop :=
  (s = mk_scan dbs pool false ((λ _, getdata) <$> hs) ∧
   ∀ h, h ∈ hs → valid h = false) ∨
  ∃ hs1 h hs2 ret block_list n,
    hs = hs1 ++ h :: hs2 ∧ valid h = true ∧ (∀ h, h ∈ hs1 → valid h = false) ∧
    revert_to h = Done (ret, sc_dbs s, sc_pool s) ∧ sc_swapped s = true ∧
    sc_sent s = ((λ _, getdata) <$> hs1) ++ Inv DTYPE_BLOCK block_list n ::
      ((λ _, getdata) <$> hs2).

Definition traceable (hs : list (list Z)) : list (list Z) :=
  filter (λ h, trace h ≠ 0) hs.

Lemma scan_hash_scanned index curr_height h hs s :
  calls_return → scanned (traceable hs) s →
  ∃ s', scan_hash index curr_height h s = Done s' ∧ scanned (traceable (hs ++ [h])) s'.
Proof.
  intros (Hv & Hr & Hb) Hs. unfold scan_hash, Limbo.scan_hash, traceable in *.
  rewrite filter_app. destruct (Z.eqb_spec (trace h) 0) as [Hz|Hz].
  { eexists. split; [done|]. rewrite filter_cons_False, filter_nil, app_nil_r; naive_solver. }
  rewrite filter_cons_True, filter_nil by done.
  destruct Hs as [[-> Hall]|(hs1 & h1 & hs2 & ret & bl & n & -> & Hh1 & Hall & Hrv & Hsw & Hsent)].
  - cbn [sc_swapped sc_dbs sc_pool sc_sent]. rewrite Hv, bind_Done.
    destruct (valid h) eqn:E; cbn [Z.b2z negb Z.eqb].
    + destruct (Hr h E) as ([[ret d] p] & Er). unfold revert_to in Er. rewrite Er, bind_Done.
      destruct (Hb d h (w32 (index - curr_height))
        (uninit "block_list" (w32 (w32 (index - curr_height) * SIZE_SHA256)))) as (l & ->).
      rewrite bind_Done. eexists. split; [done|]. right.
      by eexists _, h, [], ret, l, _.
    + eexists. split; [done|]. left. split; [by rewrite fmap_app|].
      intros h' [| ->%list_elem_of_singleton]%elem_of_app; [by apply Hall|done].
  - rewrite Hsw, bind_Done. eexists. split; [done|]. right.
    exists hs1, h1, (hs2 ++ [h]), ret, bl, n.
    rewrite Hsent, fmap_app, <- !app_assoc. done.
Qed.

(** The buffer of a level holds the hashes [hs]. *)
Definition level_holds (l : Z * list Z) (a : Z * list (list Z)) : Prop :=
  l.1 = a.1 ∧ bytes_to_uint l.2 0 = Done (Z.of_nat (length a.2)) ∧
  ∀ i h, a.2 !! i = Some h →
    array_get (array_init 4 SIZE_SHA256 (Z.of_nat (length a.2)) LIMBO_MAX_LEVEL_SIZE)
      l.2 (Z.of_nat i) = Done h.

Lemma scan_level_scanned curr_height index buffer hs hs0 s :
  calls_return → level_holds (index, buffer) (index, hs) → scanned (traceable hs0) s →
  ∃ s', scan_level curr_height index buffer s = Done s' ∧
    scanned (traceable (hs0 ++ hs)) s'.
Proof.
  intros Hc (_ & Hn & Hg) Hs. unfold scan_level, Limbo.scan_level.
  cbn [fst snd] in *. rewrite Hn, bind_Done.
  edestruct (for_range_inv (λ i s, scanned (traceable (hs0 ++ take (Z.to_nat i) hs)) s))
    as (s' & E & Hs'); [| | |exists s'; split; [exact E|]]; cbn [arr_length array_init].
  - lia.
  - by rewrite take_0, app_nil_r.
  - intros i s1 Hi Hs1. destruct (lookup_lt_is_Some_2 hs (Z.to_nat i)) as [h Hh]; [lia|].
    pose proof (Hg _ _ Hh) as E. rewrite Z2Nat.id in E by lia. rewrite E, bind_Done.
    destruct (scan_hash_scanned index curr_height h _ _ Hc Hs1) as (s2 & E2 & Hs2).
    exists s2. split; [done|]. replace (Z.to_nat (i + 1)) with (S (Z.to_nat i)) by lia.
    by rewrite (take_S_r _ _ _ Hh), app_assoc.
  - cbn in Hs'. by rewrite Nat2Z.id, take_ge in Hs' by lia.
Qed.

Lemma scan_levels_scanned curr_height levels als hs0 s :
  calls_return → Forall2 level_holds levels als → scanned (traceable hs0) s →
  ∃ s', scan_levels curr_height levels s = Done s' ∧
    scanned (traceable (hs0 ++ hashes_above curr_height als)) s'.
Proof.
  intros Hc Hl. revert hs0 s.
  induction Hl as [|[index buffer] [index' hs] levels als Hh Hl IH]; intros hs0 s Hs;
    unfold scan_levels in *; cbn [Limbo.scan_levels hashes_above].
  { exists s. split; [done|]. by rewrite app_nil_r. }
  assert (index = index') as -> by apply Hh. destruct (index' <=? curr_height).
  { exists s. split; [done|]. by rewrite app_nil_r. }
  destruct (scan_level_scanned curr_height _ _ _ _ _ Hc Hh Hs) as (s1 & E & Hs1).
  unfold scan_level in E. rewrite E, bind_Done.
  rewrite app_assoc. by apply IH.
Qed.

(** C6: When the calls return, data_limbo_scan looks at the levels above the
    chain only and switches at most once: to the first traceable hash that is
    valid, announcing it; for every other traceable hash, before or after, it
    asks for the unset hash in end_hash_buffer, and for the others it does
    nothing: the else belongs to the inner if. *)
Theorem data_limbo_scan_spec levels als curr_height :
  data_chain_get_height highest0 dbs = Done curr_height →
  Forall2 level_holds levels als → calls_return →
  ∃ s, data_limbo_scan mp_hash mp_size tx_object tx_block_hash trace fuel highest0
      highest1 (Some levels) dbs pool = Done s ∧
    scanned (traceable (hashes_above curr_height als)) s.
Proof.
  intros Hch Hl Hc. unfold data_limbo_scan. rewrite Hch, bind_Done.
  apply (scan_levels_scanned curr_height levels als [] _ Hc Hl).
  left. split; [done|]. by intros h ?%not_elem_of_nil.
Qed.

End Scan.

(** ** Instances *)

Definition sample_limbo : @LimboNames gmap_db := {|
  LIMBO_MAX_LEVEL_SIZE := 2;
  bytes_to_uint buf p := bs ← memread buf p 4; Done (be_val bs);
  array_get a buf i := memread buf (Arrays.slot a i) (arr_usize a);
  block_get_prev_hash block p hash :=
    bs ← memread block (p + POS_BLOCK_PREV_HASH) SIZE_SHA256; memwrite hash 0 bs;
  data_txs_del dbs h := dbs;
  db_set := bdb_put;
  is_valid_chain dbs h e := Done (Z.b2z (nth 0 h 0 =? 1));
  data_build_block_list dbs h n buf := Done buf;
  at_address x := []
|}.

(** a level of one hash *)
Definition one_hash_level : list Z := [0; 0; 0; 1] ++ replicate 32 9 ++ replicate 32 0.

Lemma data_limbo_safe_add_stores_nothing_witness :
  let dbs := @mk_dbs gmap_db ∅ ∅ {[ [] := one_hash_level ]} ∅ ∅ in
  ∃ l, @data_limbo_safe_add gmap_db sample_malloc sample_blocks sample_limbo dbs
      one_tx_block 0 = Done (@with_limbo gmap_db dbs l) ∧
    l = ({[ [] := one_hash_level ]} : gmap (list Z) (list Z)).
Proof.
  refine (@data_limbo_safe_add_stores_nothing gmap_db gmap_db_laws sample_malloc
    sample_blocks sample_limbo (@mk_dbs gmap_db ∅ ∅ {[ [] := one_hash_level ]} ∅ ∅)
    one_tx_block 0 one_hash_level (digest (take 83 one_tx_block)) 1 _).
  split; [vm_compute; reflexivity|reflexivity| |cbn; lia|reflexivity
         |vm_compute; discriminate|vm_compute; reflexivity|cbn; lia].
  eexists. vm_compute. reflexivity.
Defined.

(** Levels of four hashes: the level of the block holds its hash only, and
    removing it reads outside the buffer. *)
Definition four_slots : @LimboNames gmap_db := {|
  LIMBO_MAX_LEVEL_SIZE := 4;
  bytes_to_uint buf p := bs ← memread buf p 4; Done (be_val bs);
  array_get a buf i := memread buf (Arrays.slot a i) (arr_usize a);
  block_get_prev_hash block p hash := Done hash;
  data_txs_del dbs h := dbs;
  db_set := bdb_put;
  is_valid_chain dbs h e := Done 0;
  data_build_block_list dbs h n buf := Done buf;
  at_address x := []
|}.

Definition block_hash_level : list Z := [0; 0; 0; 1] ++ digest (take 83 one_tx_block).

Lemma data_limbo_del_undefined_witness :
  @data_limbo_del gmap_db sample_malloc sample_blocks four_slots
    (@mk_dbs gmap_db ∅ ∅ {[ [] := block_hash_level ]} ∅ ∅) one_tx_block 0 = Undef.
Proof.
  refine (@data_limbo_del_undefined gmap_db gmap_db_laws sample_malloc
    sample_blocks four_slots (@mk_dbs gmap_db ∅ ∅ {[ [] := block_hash_level ]} ∅ ∅)
    one_tx_block 0 block_hash_level (digest (take 83 one_tx_block)) 1 _ _).
  - split; [vm_compute; reflexivity|reflexivity| |cbn; lia|reflexivity
           |vm_compute; discriminate|vm_compute; reflexivity|cbn; lia].
    eexists. vm_compute. reflexivity.
  - vm_compute. discriminate.
Defined.

(** an allocator that leaves other bytes in [curr_block] than elsewhere *)
Definition other_malloc : Malloc.
Proof.
  refine {| uninit name n :=
    replicate (Z.to_nat n) (if String.eqb name "curr_block" then 1 else 0xa5) |}.
  intros name n Hn. rewrite length_replicate. lia.
Defined.

Lemma data_blocks_revert_never_returns_witness :
  @data_blocks_revert gmap_db host_be sample_names other_malloc sample_blocks
      sample_limbo (replicate 32 1) 0 tx_hash (replicate 32 2) 10 0
      (@mk_dbs gmap_db {[ [] := [] ]} ∅ ∅ ∅ ∅) None (replicate 32 3)
      (replicate 32 4) ≠ Done (None, sample_dbs, None).
Proof.
  apply (@data_blocks_revert_never_returns gmap_db gmap_db_laws host_be sample_names
    other_malloc sample_blocks sample_limbo (replicate 32 1) 0 tx_hash
    (replicate 32 2) ltac:(reflexivity) 10 0
    (@mk_dbs gmap_db {[ [] := [] ]} ∅ ∅ ∅ ∅) None (replicate 32 3) (replicate 32 4)
    0x01010101 0xa5a5a5a5);
    [reflexivity|vm_compute; reflexivity|vm_compute; reflexivity|lia].
Defined.

(** Two hashes in the level at height 3, the second one valid; the switch ends
    early, for there are no blocks. *)
Definition two_hash_level : list Z := [0; 0; 0; 2] ++ replicate 32 9 ++ replicate 32 1.

Lemma data_limbo_scan_spec_witness :
  ∃ s, @data_limbo_scan gmap_db host_be sample_names sample_malloc sample_blocks
      sample_limbo (replicate 32 1) 0 tx_hash (replicate 32 2) (λ _, 1) 10 0 0
      (Some [(3, two_hash_level); (0, one_hash_level)]) sample_dbs None = Done s ∧
    @scanned gmap_db host_be sample_names sample_malloc sample_blocks sample_limbo
      (replicate 32 1) 0 tx_hash (replicate 32 2) 10 0 sample_dbs None
      (λ h, nth 0 h 0 =? 1) [replicate 32 9; replicate 32 1] s.
Proof.
  apply (@data_limbo_scan_spec gmap_db host_be sample_names sample_malloc sample_blocks
    sample_limbo (replicate 32 1) 0 tx_hash (replicate 32 2) (λ _, 1) 10 0 0 sample_dbs
    None (λ h, nth 0 h 0 =? 1) [(3, two_hash_level); (0, one_hash_level)]
    [(3, [replicate 32 9; replicate 32 1]); (0, [replicate 32 9])] 0).
  - reflexivity.
  - repeat constructor; intros [|[|i]] h Hi; cbn in Hi; simplify_eq; reflexivity.
  - split; [by intros|]. split; [|by eexists].
    intros h _. eexists. reflexivity.
Defined.
