(* ===== verification/Reach.v ===== *)
(** * src/data.c: what the databases of a running node hold

    The operations that change the databases as steps, from empty databases.
    No sequence of them ever stores a key or a record: [new_dbt] leaves the
    size at 0, so at most the empty record under the empty key is there, and
    nothing can be read back. *)
From stdpp Require Import relations.
From S2P Require Import Prelude Shared Util Crypto Unresolved Transactions Merkle Blocks Arrays Store Mempool Limbo.

Section Reach.
Context `{BerkeleyDBLaws, Host, TxNames, Malloc, BlockNames, !LimboNames}.

Inductive db_step : Dbs → Dbs → Prop :=
| step_txs_add dbs tx_hash block_hash :
    db_step dbs (data_txs_add dbs tx_hash block_hash)
| step_blocks_add dest_addr hash dbs block dbs' hash' :
    data_blocks_add dest_addr hash dbs block = Done (dbs', hash') → db_step dbs dbs'
| step_limbo_add dbs block p dbs' :
    data_limbo_safe_add dbs block p = Done dbs' → db_step dbs dbs'
| step_limbo_del dbs block p dbs' :
    data_limbo_del dbs block p = Done dbs' → db_step dbs dbs'
| step_chain_set dbs hash dbs' :
    data_chain_safe_set dbs hash = Done dbs' → db_step dbs dbs'
| step_revert mp_hash mp_size tx_object tx_block_hash fuel highest0 dbs pool common new
    ret dbs' pool' :
    data_blocks_revert mp_hash mp_size tx_object tx_block_hash fuel highest0 dbs pool
      common new = Done (ret, dbs', pool') → db_step dbs dbs'.

(** databases just created *)
Definition fresh (dbs : Dbs) : Prop :=
  records (blocks dbs) = ∅ ∧ records (txs dbs) = ∅ ∧ records (chain dbs) = ∅.

Definition reachable (dbs : Dbs) : Prop := ∃ dbs0, fresh dbs0 ∧ rtc db_step dbs0 dbs.

(** ** The invariant *)

(** [data_txs_del] stores nothing, and [db_set] is a put: what their names
    and the comment in [data_chain_safe_set] say of them. *)
Context (txs_del_blocks : ∀ dbs h, blocks (data_txs_del dbs h) = blocks dbs)
  (txs_del_chain : ∀ dbs h, chain (data_txs_del dbs h) = chain dbs)
  (txs_del_txs : ∀ dbs h, records (txs (data_txs_del dbs h)) ⊆ records (txs dbs))
  (db_set_put : ∀ db k v, db_set db k v = db_put db k v).

Definition only_empty (db : DB) : Prop := records db ⊆ {[ [] := [] ]}.

Definition nothing_stored (dbs : Dbs) : Prop :=
  only_empty (blocks dbs) ∧ only_empty (txs dbs) ∧ only_empty (chain dbs).

Lemma fresh_nothing_stored dbs : fresh dbs → nothing_stored dbs.
Proof.
  intros (E1 & E2 & E3). unfold nothing_stored, only_empty. rewrite E1, E2, E3.
  split; [|split]; apply map_empty_subseteq.
Qed.

Lemma db_put_only_empty db k v ksize vsize ret db' :
  only_empty db → db_put db (new_dbt k ksize) (new_dbt v vsize) = (ret, db') →
  only_empty db'.
Proof.
  unfold only_empty. intros Hdb E. rewrite (db_put_records _ _ _ _ _ _ _ E).
  destruct (ret =? 0); [|done]. change {[ [] := [] ]} with (<[ [] := [] ]> ∅ : gmap (list Z) (list Z)).
  rewrite <- (insert_insert_eq ∅ [] [] []) at 1. by apply insert_mono.
Qed.

Lemma data_txs_add_nothing_stored dbs h bh :
  nothing_stored dbs → nothing_stored (data_txs_add dbs h bh).
Proof.
  intros (Hb & Ht & Hc). unfold data_txs_add.
  destruct (db_put _ _ _) as [ret l] eqn:E.
  split; [done|]. split; [|done]. by eapply db_put_only_empty in E.
Qed.

Lemma data_txs_del_nothing_stored dbs h :
  nothing_stored dbs → nothing_stored (data_txs_del dbs h).
Proof.
  intros (Hb & Ht & Hc). unfold nothing_stored.
  rewrite txs_del_blocks, txs_del_chain. split; [done|]. split; [|done].
  unfold only_empty in *. by etrans; [apply txs_del_txs|].
Qed.

Lemma data_blocks_add_nothing_stored dest_addr hash dbs block dbs' hash' :
  nothing_stored dbs → data_blocks_add dest_addr hash dbs block = Done (dbs', hash') →
  nothing_stored dbs'.
Proof.
  intros Hs Hadd. unfold data_blocks_add in Hadd.
  apply bind_Done_inv in Hadd as (hash1 & _ & Hadd).
  apply bind_Done_inv in Hadd as (n & _ & Hadd).
  apply bind_Done_inv in Hadd as ([[dbs1 th] cursor] & Hloop & Hadd).
  eapply (for_range_keeps (λ '(d, _, _), nothing_stored d)) in Hloop; [|done|].
  - apply bind_Done_inv in Hadd as (size & _ & Hadd).
    destruct (db_put _ _ _) as [ret l] eqn:E. injection Hadd as <- <-.
    destruct Hloop as (Hb & Ht & Hc). split; [|done].
    by eapply db_put_only_empty in E.
  - intros i [[d t] c] [[d' t'] c'] Hd.
    intros (t1 & _ & (m & _ & [= <- _ _])%bind_Done_inv)%bind_Done_inv.
    by apply data_txs_add_nothing_stored.
Qed.

Lemma data_limbo_safe_add_nothing_stored dbs block p dbs' :
  nothing_stored dbs → data_limbo_safe_add dbs block p = Done dbs' → nothing_stored dbs'.
Proof.
  unfold data_limbo_safe_add.
  intros Hs ([[[hash key] dat] arr] & _ & ([buf v] & _ & Hp)%bind_Done_inv)%bind_Done_inv.
  destruct (db_put _ _ _) as [ret l]. by injection Hp as <-.
Qed.

Lemma data_limbo_del_nothing_stored dbs block p dbs' :
  nothing_stored dbs → data_limbo_del dbs block p = Done dbs' → nothing_stored dbs'.
Proof.
  unfold data_limbo_del.
  intros Hs ([[[hash key] dat] arr] & _ & (buf & _ & Hp)%bind_Done_inv)%bind_Done_inv.
  destruct (db_put _ _ _) as [ret l]. by injection Hp as <-.
Qed.

Lemma data_chain_safe_set_nothing_stored dbs hash dbs' :
  nothing_stored dbs → data_chain_safe_set dbs hash = Done dbs' → nothing_stored dbs'.
Proof.
  unfold data_chain_safe_set. intros Hs.
  destruct (data_blocks_get_header _ _ _) as [ret blk].
  destruct (negb _); [by intros [= <-]|].
  intros (h & _ & Hp)%bind_Done_inv. rewrite db_set_put in Hp.
  destruct (db_put _ _ _) as [ret' l] eqn:E. injection Hp as <-.
  destruct Hs as (Hb & Ht & Hc). split; [done|]. split; [done|].
  by eapply db_put_only_empty in E.
Qed.

(** ** The switch of chains *)

Section Revert.
Context (mp_hash : list Z) (mp_size : Z) (tx_object : M_tx → list Z)
  (tx_block_hash : list Z).

Let inv (r : revert) : Prop := nothing_stored (rv_dbs r).

Lemma revert_old_block_inv i r o :
  inv r → revert_old_block mp_hash mp_size i r = Done o →
  match o with inl r' => inv r' | inr (_, r') => inv r' end.
Proof.
  intros Hr. unfold revert_old_block. destruct (data_chain_get _ _ _) as [r0 hash].
  destruct (data_blocks_get _ _ _) as [ret block].
  destruct (negb _); [by intros [= <-]|].
  intros (n & _ & ([r1 c1] & Hl & (dbs & Ha & [= <-])%bind_Done_inv)%bind_Done_inv)%bind_Done_inv.
  eapply (for_range_keeps (λ '(r, _), inv r)) in Hl; [|done|].
  - by apply data_limbo_safe_add_nothing_stored in Ha.
  - intros k [r2 c2] [r3 c3] Hr2. unfold revert_old_tx.
    intros (th & _ & (pool & _ & (m & _ & [= <- _])%bind_Done_inv)%bind_Done_inv)%bind_Done_inv.
    by apply data_txs_del_nothing_stored.
Qed.

Lemma revert_new_block_inv common r o :
  inv r → revert_new_block tx_object tx_block_hash common r = Done o →
  match o with inl r' | inr r' => inv r' end.
Proof.
  intros Hr. unfold revert_new_block. destruct (data_blocks_get _ _ _) as [ret block].
  intros (h & _ & Hrun)%bind_Done_inv. destruct (_ =? _); [by injection Hrun as <-|].
  apply bind_Done_inv in Hrun as (n & _ & ([r1 c1] & Hl & Hrun)%bind_Done_inv).
  eapply (for_range_keeps (λ '(r, _), inv r)) in Hl; [|done|].
  - apply bind_Done_inv in Hrun as (d1 & Hd1 & (d2 & Hd2 & (hs & _ & [= <-])%bind_Done_inv)%bind_Done_inv).
    by eapply data_chain_safe_set_nothing_stored, Hd2;
      eapply data_limbo_del_nothing_stored, Hd1.
  - intros k [r2 c2] [r3 c3] Hr2. unfold revert_new_tx.
    intros (th & _ & (pool & _ & (m & _ & [= <- _])%bind_Done_inv)%bind_Done_inv)%bind_Done_inv.
    by apply data_txs_add_nothing_stored.
Qed.

Lemma revert_new_inv fuel common r r' :
  inv r → revert_new tx_object tx_block_hash fuel common r = Done r' → inv r'.
Proof.
  revert r. induction fuel as [|fuel IH]; intros r Hr; cbn [revert_new]; [done|].
  intros (o & Ho & Hrun)%bind_Done_inv. apply revert_new_block_inv in Ho; [|done].
  destruct o as [r1|r1]; [by eapply IH|by injection Hrun as <-].
Qed.

Lemma data_blocks_revert_nothing_stored fuel highest0 dbs pool common new ret dbs' pool' :
  nothing_stored dbs →
  data_blocks_revert mp_hash mp_size tx_object tx_block_hash fuel highest0 dbs pool
    common new = Done (ret, dbs', pool') →
  nothing_stored dbs'.
Proof.
  intros Hs. unfold data_blocks_revert. intros (ih & _ & Hrun)%bind_Done_inv.
  destruct (data_blocks_get_header _ _ _) as [rc cb].
  destruct (negb _); [by injection Hrun as <- <- <-|].
  apply bind_Done_inv in Hrun as (ch & _ & (o & Ho & Hrun)%bind_Done_inv).
  apply (for_range_ret_part inv (λ '(_, r), inv r)) in Ho; [|done|].
  2:{ intros k r o' Hr Hb. apply revert_old_block_inv in Hb; [|done].
      by destruct o' as [|[]]. }
  destruct o as [r|[rc' r]]; [|by injection Hrun as <- <- <-].
  apply bind_Done_inv in Hrun as (src & _ & (hash & _ & (r' & Hn & [= <- <- <-])%bind_Done_inv)%bind_Done_inv).
  by apply revert_new_inv in Hn.
Qed.

End Revert.

(** ** Every reachable state *)

Lemma db_step_nothing_stored dbs dbs' :
  db_step dbs dbs' → nothing_stored dbs → nothing_stored dbs'.
Proof.
  intros [] Hs; eauto using data_txs_add_nothing_stored, data_blocks_add_nothing_stored,
    data_limbo_safe_add_nothing_stored, data_limbo_del_nothing_stored,
    data_chain_safe_set_nothing_stored, data_blocks_revert_nothing_stored.
Qed.

Lemma reachable_inv dbs : reachable dbs → nothing_stored dbs.
Proof.
  intros (dbs0 & Hf%fresh_nothing_stored & Hr). induction Hr as [|d1 d2 d3 Hs _ IH]; [done|].
  by eapply IH, db_step_nothing_stored.
Qed.

(** A get from such a database leaves its memory alone. *)
Lemma db_get_only_empty db k ksize dat :
  only_empty db → dbt_usermem dat → 0 ≤ dbt_ulen dat →
  dbt_data (db_get db (new_dbt k ksize) dat).2 = dbt_data dat.
Proof.
  intros Hdb Hu Hul. destruct (records db !! []) as [v|] eqn:E.
  - pose proof (lookup_weaken _ _ _ _ E Hdb) as Ev.
    rewrite lookup_singleton_eq in Ev. injection Ev as <-.
    by destruct (db_get_empty db k ksize dat Hu Hul E) as (d & -> & Hd).
  - destruct (bdb_get_missing db (new_dbt k ksize) dat Hu E) as (ret & d & _ & Eg & <-).
    unfold db_get. by rewrite Eg.
Qed.

(** C5: In every state the operations of data.c reach from new databases, the
    databases of blocks, transactions and the chain hold at most the empty
    record under the empty key; so no get ever stores anything in its buffer,
    and whether a block or transaction exists does not depend on its hash. *)
Theorem reachable_reads_nothing dbs :
  reachable dbs →
  nothing_stored dbs ∧
  ∀ h h' n dest,
    (data_blocks_get dbs h dest).2 = dest ∧
    (data_chain_get dbs n dest).2 = dest ∧
    data_blocks_exists dbs h = data_blocks_exists dbs h' ∧
    data_txs_exists dbs h = data_txs_exists dbs h'.
Proof.
  intros Hr%reachable_inv. split; [done|]. destruct Hr as (Hb & Ht & Hc).
  intros h h' n dest. split; [|split; [|split]].
  - unfold data_blocks_get.
    pose proof (db_get_only_empty (blocks dbs) h SIZE_SHA256 (new_dbt dest MAX_BLOCK_SIZE)
      Hb (new_dbt_usermem _ _) ltac:(done)) as E.
    by destruct (db_get _ _ _) as [ret d].
  - unfold data_chain_get.
    pose proof (db_get_only_empty (chain dbs) (uint_bytes n) 4 (new_dbt dest SIZE_SHA256)
      Hc (new_dbt_usermem _ _) ltac:(done)) as E.
    by destruct (db_get _ _ _) as [ret d].
  - unfold data_blocks_exists. by rewrite (db_exists_any _ h h' _ SIZE_SHA256).
  - unfold data_txs_exists. by rewrite (db_exists_any _ h h' _ SIZE_SHA256).
Qed.

End Reach.

(** ** Instances *)

(** one block added to empty databases *)
Lemma reachable_reads_nothing_witness :
  ∃ dbs hash, @data_blocks_add gmap_db sample_names sample_malloc sample_blocks 0x7f00b1
      (replicate 32 0) sample_dbs one_tx_block = Done (dbs, hash) ∧
    ∀ h dest, (@data_blocks_get gmap_db dbs h dest).2 = dest.
Proof.
  eexists _, _. split; [vm_compute; reflexivity|]. intros h dest.
  refine (proj1 (proj2 (@reachable_reads_nothing gmap_db gmap_db_laws host_be
    sample_names sample_malloc sample_blocks sample_limbo _ _ _ _ _ _) h h 0 dest));
    try reflexivity.
  exists sample_dbs. split; [split; [|split]; reflexivity|].
  eapply rtc_once, (step_blocks_add 0x7f00b1 (replicate 32 0) _ one_tx_block).
  vm_compute. reflexivity.
Defined.
