(* ===== verification/Build.v ===== *)
(** * src/build.c: lists of hashes for messages

    [build_block_list] walks the chain from a block upwards,
    [build_missing_blocks_list] and [build_missing_tx_list] keep the hashes of
    a list that the databases do not know, [build_mempool_list] copies the
    mempool.  A destination is a buffer and an offset. *)
From S2P Require Import Prelude Shared Util Crypto Unresolved Transactions Merkle Blocks Store Mempool.

Section Build.
Context `{BerkeleyDB, Host, TxNames, Malloc, BlockNames}.

(** The result is the destination, [&dest[p]], and the count returned.  Nothing
    is stored in [dest]: the [memcpy] goes from [hash_buffer] to [hash_buffer].
    [highest0] is the unset variable of
    [data_chain_get_height].  The loop counter is an [int] compared with an
    unsigned bound, heights are taken below [2^31]. *)
Definition build_block_list (highest0 : Z) (dbs : Dbs) (startblock : list Z)
    (req_blocks : Z) (dest : list Z) (p : Z) : outcome (list Z * Z) :=
  let block_buffer := uninit "block_buffer" SIZE_BLOCK_HEADER in
  let hash_buffer := uninit "hash_buffer" SIZE_SHA256 in
  let '(ret, block_buffer) := data_blocks_get_header dbs startblock block_buffer in
  if negb (ret =? 0) then Done (dest, 0)
  else
    h ← btoui block_buffer POS_BLOCK_HEIGHT;
    let index := w32 (h + 1) in
    top ← data_chain_get_height highest0 dbs;
    let max := w32 (top + 1) in
    let req_max := w32 (index + req_blocks) in
    let max := if 255 <? w32 (max - index) then w32 (index + 255) else max in
    let max := if req_max <? max then req_max else max in
    r ← for_range_ret index max (λ i '(hash_buffer, count),
      let '(ret, hash_buffer) := data_chain_get dbs i hash_buffer in
      if negb (ret =? 0) then Done (inr count)
      else
        src ← memread hash_buffer 0 SIZE_SHA256;
        hash_buffer ← memwrite hash_buffer (count * SIZE_SHA256) src;
        Done (inl (hash_buffer, count + 1))) (hash_buffer, 0);
    match r with inr count | inl (_, count) => Done (dest, w8 count) end.

(** The bytes copied are those at the pointers of the pool. The function ends
    without a [return]. *)
Definition build_mempool_list (tx_object : M_tx → list Z) (mp : Mempool)
    (dest : list Z) (p : Z) : outcome (list Z) :=
  for_range 0 (mp_count mp) (λ i dest,
    s ← rd (mp_txs mp) i;
    tx ← deref s;
    src ← memread (tx_object tx) 0 SIZE_SHA256;
    memwrite dest (p + i * SIZE_SHA256) src) dest.

(** The body shared by the two functions below; [exists_ h] is the answer of
    the database.  The list of the source is [&ids[q]], the destination [&dest[p]]. *)
Definition missing_list (exists_ : list Z → Z) (ids : list Z) (q count : Z)
    (dest : list Z) (p : Z) : outcome (list Z * Z) :=
  r ← for_range_ret 0 count (λ i '(dest, missing),
    '(dest, missing) ← (if exists_ (drop (Z.to_nat (q + i * SIZE_SHA256)) ids) =? 0
      then
        src ← memread ids (q + i * SIZE_SHA256) SIZE_SHA256;
        dest ← memwrite dest (p + SIZE_SHA256 * missing) src;
        Done (dest, missing + 1)
      else Done (dest, missing));
    if missing =? 255 then Done (inr (dest, missing))
    else Done (inl (dest, missing))) (dest, 0);
  match r with inl (dest, n) | inr (dest, n) => Done (dest, w8 n) end.

Definition build_missing_blocks_list (dbs : Dbs) :=
  missing_list (data_blocks_exists dbs).

Definition build_missing_tx_list (dbs : Dbs) :=
  missing_list (data_txs_exists dbs).

End Build.

(** ** The lists of unknown hashes *)

(** the hashes of [hs] that a database does not know *)
Definition unknown (exists_ : list Z → Z) (hs : list (list Z)) : list (list Z) :=
  filter (λ h, exists_ h = 0) hs.

Lemma length_concat_hashes (hs : list (list Z)) :
  Forall (λ h, length h = 32%nat) hs → length (concat hs) = (32 * length hs)%nat.
Proof. induction 1 as [|h hs Hh Hhs IH]; [done|]. cbn. len. lia. Qed.

Lemma concat_lookup_hash (hs : list (list Z)) i h :
  Forall (λ h, length h = 32%nat) hs → hs !! i = Some h →
  take 32 (drop (32 * i) (concat hs)) = h.
Proof.
  intros Hhs Hh. rewrite (concat_split _ _ _ Hh).
  assert (Lt : length (concat (take i hs)) = (32 * i)%nat).
  { rewrite length_concat_hashes by (by apply Forall_take). len.
    pose proof (lookup_lt_Some _ _ _ Hh). lia. }
  rewrite drop_app_ge, Lt, Nat.sub_diag, drop_0 by lia.
  pose proof (Forall_lookup_1 _ _ _ _ Hhs Hh) as Lh. cbn beta in Lh.
  rewrite take_app_le by lia. by apply take_ge; lia.
Qed.

(** Only the 32 bytes of the hash count for the database. *)
Definition hash_prefix (exists_ : list Z → Z) : Prop :=
  ∀ h rest, length h = 32%nat → exists_ (h ++ rest) = exists_ h.

(** One round of the loop on a list whose first hashes are done: [out] are
    the unknown ones among them. *)
Lemma missing_step (e : bool) ids off h dest p (out : list (list Z)) :
  Forall (λ h, length h = 32%nat) out → length h = 32%nat → 0 ≤ p →
  memread ids off SIZE_SHA256 = Done h →
  p + 32 * Z.of_nat (length out) + (if e then 32 else 0)
    ≤ Z.of_nat (length dest) →
  (if e
   then src ← memread ids off SIZE_SHA256;
        d ← memwrite (patch dest (Z.to_nat p) (concat out))
              (p + SIZE_SHA256 * Z.of_nat (length out)) src;
        Done (d, Z.of_nat (length out) + 1)
   else Done (patch dest (Z.to_nat p) (concat out), Z.of_nat (length out))) =
  let out' := out ++ (if e then [h] else []) in
  Done (patch dest (Z.to_nat p) (concat out'), Z.of_nat (length out')).
Proof.
  intros Hout Lh Hp Hsrc Hd. pose proof (length_concat_hashes out Hout) as Lo.
  destruct e; cbn zeta.
  - rewrite Hsrc, bind_Done. unfold SIZE_SHA256.
    rewrite memwrite_patch by lia. rewrite bind_Done, concat_app. cbn [concat].
    rewrite app_nil_r. do 2 f_equal. len. lia.
  - by rewrite app_nil_r.
Qed.

Lemma unknown_take_S exists_ hs k h :
  hs !! k = Some h →
  unknown exists_ (take (S k) hs) =
    unknown exists_ (take k hs) ++ (if exists_ h =? 0 then [h] else []).
Proof.
  intros Hh. unfold unknown. rewrite (take_S_r _ _ _ Hh), filter_app.
  f_equal. rewrite filter_cons, filter_nil.
  destruct (Z.eqb_spec (exists_ h) 0); by case_decide.
Qed.

Lemma length_unknown_take exists_ hs k : (length (unknown exists_ (take k hs)) ≤ k)%nat.
Proof. unfold unknown. etrans; [apply length_filter|]. len. lia. Qed.

Lemma unknown_take_hashes exists_ hs k :
  Forall (λ h, length h = 32%nat) hs →
  Forall (λ h, length h = 32%nat) (unknown exists_ (take k hs)).
Proof.
  intros Hhs. apply Forall_forall. intros h [_ Hh]%list_elem_of_filter.
  exact (proj1 (Forall_forall _ _) (Forall_take _ _ _ Hhs) h Hh).
Qed.

(** the hash a round reads, and what the lookup finds for it *)
Lemma missing_source exists_ (ids : list Z) q hs i h :
  hash_prefix exists_ → Forall (λ h, length h = 32%nat) hs →
  memread ids q (Z.of_nat (length (concat hs))) = Done (concat hs) →
  0 ≤ i → hs !! Z.to_nat i = Some h →
  memread ids (q + i * SIZE_SHA256) SIZE_SHA256 = Done h ∧
  exists_ (drop (Z.to_nat (q + i * SIZE_SHA256)) ids) = exists_ h.
Proof.
  intros Hpre Hhs Hm Hi Hh.
  pose proof (lookup_lt_Some _ _ _ Hh) as Hlt.
  pose proof (length_concat_hashes hs Hhs) as Lc.
  assert (Hsrc : memread ids (q + i * SIZE_SHA256) SIZE_SHA256 = Done h).
  { unfold SIZE_SHA256. rewrite (memread_sub _ _ _ _ _ _ Hm) by lia. f_equal.
    rewrite <- (concat_lookup_hash hs (Z.to_nat i) h Hhs Hh).
    do 2 f_equal. lia. }
  split; [done|]. pose proof (memread_inv _ _ _ _ Hsrc) as (_ & _ & _ & E).
  rewrite <- (take_drop 32 (drop _ ids)).
  change (Z.to_nat SIZE_SHA256) with 32%nat in E. rewrite <- E.
  by apply Hpre, (Forall_lookup_1 _ _ _ _ Hhs Hh).
Qed.

Lemma missing_list_run exists_ (ids : list Z) q hs dest p :
  hash_prefix exists_ → Forall (λ h, length h = 32%nat) hs →
  (length hs ≤ 255)%nat → 0 ≤ p →
  memread ids q (Z.of_nat (length (concat hs))) = Done (concat hs) →
  p + Z.of_nat (length (concat hs)) ≤ Z.of_nat (length dest) →
  missing_list exists_ ids q (Z.of_nat (length hs)) dest p =
    Done (patch dest (Z.to_nat p) (concat (unknown exists_ hs)),
          Z.of_nat (length (unknown exists_ hs))).
Proof.
  intros Hpre Hhs Hlen Hp Hm Hd. unfold missing_list.
  pose proof (length_concat_hashes hs Hhs) as Lc.
  set (out k := unknown exists_ (take k hs)).
  pose proof (length_unknown_take exists_ hs) as Hle.
  match goal with |- context [for_range_ret 0 ?hi ?body ?s0] =>
    destruct (for_range_ret_inv (λ i '(d, n),
      d = patch dest (Z.to_nat p) (concat (out (Z.to_nat i))) ∧
      n = Z.of_nat (length (out (Z.to_nat i))))
      (λ v, v = (patch dest (Z.to_nat p) (concat (out (length hs))),
                 Z.of_nat (length (out (length hs))))) 0 hi body s0)
      as (r & -> & Hr) end.
  - lia.
  - split; [|done]. change (concat _) with (@nil Z). by rewrite patch_nil.
  - intros i [d n] Hi [-> ->].
    destruct (lookup_lt_is_Some_2 hs (Z.to_nat i)) as [h Hh]; [lia|].
    destruct (missing_source exists_ ids q hs i h) as [Hsrc ->]; [done..|lia|done|].
    pose proof (unknown_take_S exists_ hs _ h Hh) as HoutS.
    pose proof (Forall_lookup_1 _ _ _ _ Hhs Hh) as Lh. cbn beta in Lh.
    replace (Z.to_nat (i + 1)) with (S (Z.to_nat i)) by lia.
    pose proof (Hle (Z.to_nat i)). pose proof (Hle (S (Z.to_nat i))) as HleS.
    rewrite (missing_step _ _ _ h) by
      (done || (by apply unknown_take_hashes)
       || (unfold out; destruct (exists_ h =? 0); lia)).
    fold (out (Z.to_nat i)) in HoutS. fold (out (S (Z.to_nat i))) in HoutS, HleS.
    rewrite bind_Done, <- HoutS. cbn zeta.
    destruct (Z.eqb_spec (Z.of_nat (length (out (S (Z.to_nat i))))) 255) as [E|E].
    + eexists. split; [done|]. cbn beta iota.
      assert (S (Z.to_nat i) = length hs) as -> by lia. done.
    + eexists. split; [done|]. done.
  - assert (Hfin : out (length hs) = unknown exists_ hs)
      by (unfold out; by rewrite take_ge).
    assert (r = inl (patch dest (Z.to_nat p) (concat (unknown exists_ hs)),
                     Z.of_nat (length (unknown exists_ hs))) ∨
            r = inr (patch dest (Z.to_nat p) (concat (unknown exists_ hs)),
                     Z.of_nat (length (unknown exists_ hs)))) as [-> | ->].
    { destruct r as [[d n]|[d n]]; [left|right]; cbn beta iota in Hr.
      - destruct Hr as [-> ->]. by rewrite Nat2Z.id, Hfin.
      - by rewrite Hr, Hfin. }
    all: cbn [mbind outcome_bind]; rewrite w8_id; [done|].
    all: rewrite <- Hfin; specialize (Hle (length hs)); fold (out (length hs)) in Hle; lia.
Qed.


Section Correctness.
Context `{BerkeleyDBLaws, Host, TxNames, Malloc, BlockNames}.

Lemma unknown_const exists_ c hs :
  (∀ h, exists_ h = c) → unknown exists_ hs = if c =? 0 then hs else [].
Proof.
  intros Hc. unfold unknown. induction hs as [|h hs IH].
  - by destruct (c =? 0).
  - rewrite filter_cons, IH, Hc.
    destruct (Z.eqb_spec c 0); by case_decide.
Qed.

(** A database that answers the same for every hash. *)
Lemma missing_list_const exists_ c (ids : list Z) q hs dest p :
  (∀ h, exists_ h = c) → Forall (λ h, length h = 32%nat) hs →
  (length hs ≤ 255)%nat → 0 ≤ p →
  memread ids q (Z.of_nat (length (concat hs))) = Done (concat hs) →
  p + Z.of_nat (length (concat hs)) ≤ Z.of_nat (length dest) →
  missing_list exists_ ids q (Z.of_nat (length hs)) dest p =
    if c =? 0 then Done (patch dest (Z.to_nat p) (concat hs),
                         Z.of_nat (length hs))
    else Done (dest, 0).
Proof.
  intros Hc Hhs Hlen Hp Hm Hd.
  rewrite missing_list_run
    by (done || (intros h rest _; by rewrite !Hc)).
  rewrite (unknown_const _ _ _ Hc). destruct (c =? 0); [done|].
  cbn. by rewrite patch_nil.
Qed.

(** With the databases of Store.v, which answer the same for every hash, the
    lists hold all hashes or none. *)
Theorem build_missing_lists_all_or_nothing dbs (ids : list Z) q hs dest p :
  Forall (λ h, length h = 32%nat) hs → (length hs ≤ 255)%nat → 0 ≤ p →
  memread ids q (Z.of_nat (length (concat hs))) = Done (concat hs) →
  p + Z.of_nat (length (concat hs)) ≤ Z.of_nat (length dest) →
  let all := Done (patch dest (Z.to_nat p) (concat hs), Z.of_nat (length hs)) in
  build_missing_blocks_list dbs ids q (Z.of_nat (length hs)) dest p =
    (if data_blocks_exists dbs [] =? 0 then all else Done (dest, 0)) ∧
  build_missing_tx_list dbs ids q (Z.of_nat (length hs)) dest p =
    (if data_txs_exists dbs [] =? 0 then all else Done (dest, 0)).
Proof.
  intros Hhs Hlen Hp Hm Hd all.
  unfold build_missing_blocks_list, build_missing_tx_list. split;
    apply missing_list_const; try done; intros h.
  - unfold data_blocks_exists. by rewrite (db_exists_any _ h [] _ SIZE_SHA256).
  - unfold data_txs_exists. by rewrite (db_exists_any _ h [] _ SIZE_SHA256).
Qed.

(** the number of blocks [build_block_list] tries to list *)
Definition listed (h top req_blocks : Z) : Z :=
  if top <? h then Z.min 255 req_blocks
  else Z.min (top - h) (Z.min 255 req_blocks).

Lemma clamp_spec h top req_blocks :
  0 ≤ h < 2 ^ 31 → 0 ≤ top < 2 ^ 31 → 0 ≤ req_blocks < 256 →
  let index := w32 (h + 1) in
  let max := w32 (top + 1) in
  let req_max := w32 (index + req_blocks) in
  let max := if 255 <? w32 (max - index) then w32 (index + 255) else max in
  index = h + 1 ∧
  (if req_max <? max then req_max else max) = h + 1 + listed h top req_blocks.
Proof.
  intros Hh Ht Hr. cbn zeta.
  rewrite (w32_id (h + 1)), (w32_id (top + 1)) by lia. split; [done|].
  rewrite (w32_id (h + 1 + req_blocks)), (w32_id (h + 1 + 255)) by lia.
  unfold listed. destruct (Z.ltb_spec top h).
  - assert (w32 (top + 1 - (h + 1)) = top - h + 2 ^ 32) as ->
      by (unfold w32; symmetry; apply (Z.mod_unique _ _ (-1)); lia).
    rewrite (proj2 (Z.ltb_lt 255 _)) by lia.
    destruct (Z.ltb_spec (h + 1 + req_blocks) (h + 1 + 255)); lia.
  - rewrite w32_id by lia.
    destruct (Z.ltb_spec 255 (top + 1 - (h + 1)));
      [destruct (Z.ltb_spec (h + 1 + req_blocks) (h + 1 + 255))
      |destruct (Z.ltb_spec (h + 1 + req_blocks) (top + 1))]; lia.
Qed.

(** C37: With the header, the height and the chain readable and heights below
    2^31, build_block_list returns 0 or 1 when there is nothing or one block
    to list, with dest as it was, and writes outside hash_buffer, which is
    undefined, when there are more: the hashes never go to dest. *)
Theorem build_block_list_spec highest0 dbs startblock req_blocks dest p hdr h top :
  data_blocks_get_header dbs startblock
    (uninit "block_buffer" SIZE_BLOCK_HEADER) = (0, hdr) →
  btoui hdr POS_BLOCK_HEIGHT = Done h → 0 ≤ h < 2 ^ 31 →
  data_chain_get_height highest0 dbs = Done top → 0 ≤ top < 2 ^ 31 →
  0 ≤ req_blocks < 256 →
  (∀ i buf, length buf = 32%nat → ∃ buf',
     data_chain_get dbs i buf = (0, buf') ∧ length buf' = 32%nat) →
  build_block_list highest0 dbs startblock req_blocks dest p =
    let n := listed h top req_blocks in
    if n =? 0 then Done (dest, 0) else if n =? 1 then Done (dest, 1) else Undef.
Proof.
  intros Hhdr Hh Hhr Htop Htr Hreq Hget. unfold build_block_list.
  rewrite Hhdr. cbn [negb Z.eqb]. rewrite Hh, bind_Done, Htop, bind_Done.
  destruct (clamp_spec h top req_blocks Hhr Htr Hreq) as [Ei Em].
  cbn zeta in *. rewrite Em, Ei.
  set (n := listed h top req_blocks).
  assert (0 ≤ n ≤ 255) as Hn.
  { unfold n, listed. destruct (Z.ltb_spec top h); lia. }
  pose proof (length_uninit "hash_buffer" SIZE_SHA256 ltac:(done)) as Lu.
  destruct (Hget (h + 1) (uninit "hash_buffer" SIZE_SHA256)) as (b1 & E1 & L1);
    [unfold SIZE_SHA256 in *; lia|].
  assert (Hstep : memread b1 0 SIZE_SHA256 = Done b1)
    by (apply memread_all; unfold SIZE_SHA256; lia).
  destruct (Z.eqb_spec n 0) as [->|Hn0].
  { unfold for_range_ret. by rewrite Z.add_0_r, Z.sub_diag. }
  destruct (Z.eqb_spec n 1) as [->|Hn1].
  { unfold for_range_ret. replace (h + 1 + 1 - (h + 1)) with 1 by lia.
    change (Z.to_nat 1) with 1%nat. cbn [for_ret].
    rewrite E1. cbn [negb Z.eqb]. rewrite Hstep, bind_Done.
    rewrite memwrite_Done by (unfold SIZE_SHA256; lia). done. }
  match goal with |- (for_range_ret ?lo ?hi ?body ?s0 ≫= _) = _ =>
    enough (for_range_ret lo hi body s0 = Undef) as -> by done;
    apply (for_range_ret_undef (λ i '(b, count),
      length b = 32%nat ∧ count = i - (h + 1)) _ (h + 2)) end.
  - lia.
  - unfold SIZE_SHA256 in *. lia.
  - intros i [b count] Hi [Lb ->].
    replace i with (h + 1) in * by lia.
    destruct (Hget (h + 1) b Lb) as (b' & -> & Lb'). cbn [negb Z.eqb].
    rewrite memread_all by (unfold SIZE_SHA256; lia). rewrite bind_Done.
    rewrite memwrite_Done by (unfold SIZE_SHA256; lia). rewrite bind_Done.
    eexists. split; [done|]. cbn beta iota. split; [|lia].
    unfold SIZE_SHA256. len. lia.
  - intros [b count] [Lb ->].
    destruct (Hget (h + 2) b Lb) as (b' & -> & Lb'). cbn [negb Z.eqb].
    rewrite memread_all by (unfold SIZE_SHA256; lia). rewrite bind_Done.
    by rewrite memwrite_oob by (unfold SIZE_SHA256; lia).
Qed.

End Correctness.

(** ** Instances *)

Definition sample_hashes : list (list Z) := [replicate 32 1; replicate 32 2].

(** a database that knows one hash *)
Definition knows_two (h : list Z) : Z :=
  if decide (take 32 h = replicate 32 2) then 1 else 0.

Example unknown_sample : unknown knows_two sample_hashes = [replicate 32 1].
Proof. vm_compute. reflexivity. Qed.


Lemma build_missing_lists_all_or_nothing_witness :
  let hs := [replicate 32 1; replicate 32 2] in
  let all := Done (patch (replicate 64 0) 0 (concat hs), 2) in
  @build_missing_blocks_list gmap_db sample_dbs (concat hs) 0 2 (replicate 64 0) 0
    = all ∧
  @build_missing_tx_list gmap_db sample_dbs (concat hs) 0 2 (replicate 64 0) 0
    = all.
Proof.
  apply (@build_missing_lists_all_or_nothing gmap_db gmap_db_laws sample_dbs
    (concat [replicate 32 1; replicate 32 2]) 0
    [replicate 32 1; replicate 32 2] (replicate 64 0) 0);
    [by repeat constructor|cbn; lia|lia|reflexivity|vm_compute; discriminate].
Defined.

Definition zero_malloc : Malloc.
Proof.
  refine {| uninit _ n := replicate (Z.to_nat n) 0 |}.
  intros _ n Hn. rewrite length_replicate. lia.
Defined.

Lemma build_block_list_spec_witness :
  let dbs := @mk_dbs gmap_db {[ [] := [] ]} {[ [] := replicate 10 0 ]} ∅ ∅ ∅ in
  let list_blocks req := @build_block_list gmap_db host_be zero_malloc sample_blocks 5 dbs
    (replicate 32 1) req (replicate 66 7) 2 in
  list_blocks 1 = Done (replicate 66 7, 1) ∧ list_blocks 2 = Undef.
Proof.
  intros dbs list_blocks.
  assert (Hget : ∀ i buf, length buf = 32%nat → ∃ buf',
    @data_chain_get gmap_db host_be dbs i buf = (0, buf') ∧ length buf' = 32%nat).
  { intros i buf Hl. exists (patch buf 0 (replicate 10 0)).
    split; [reflexivity|]. rewrite length_patch; [done|]. cbn [length replicate]. lia. }
  split.
  - apply (@build_block_list_spec gmap_db host_be zero_malloc sample_blocks 5 dbs
      (replicate 32 1) 1 (replicate 66 7) 2 (replicate 83 0) 0 5);
      [reflexivity|reflexivity|lia|vm_compute; reflexivity|lia|lia|exact Hget].
  - apply (@build_block_list_spec gmap_db host_be zero_malloc sample_blocks 5 dbs
      (replicate 32 1) 2 (replicate 66 7) 2 (replicate 83 0) 0 5);
      [reflexivity|reflexivity|lia|vm_compute; reflexivity|lia|lia|exact Hget].
Defined.
