(* ===== verification/Network.v ===== *)
(** * src/network.c: messages between peers

    [sendto_peer] frames and sends a message; [handle_message] is one round of
    the loop of [handle_connection], with one definition per content type;
    [handle_connection] is the thread.  The handlers of received blocks and
    transactions are arguments; they are defined in Receive.v.
    What the loop works on is a [conn]: the databases, the mempool, the
    peers, the response buffer, and the byte strings sent so far. *)
From S2P Require Import Prelude Shared Util Crypto Unresolved Transactions Merkle Blocks Store Mempool Build.

Record Peer := mk_peer {
  port : Z;
  addr_len : Z;
  addr : list Z
}.

Record conn `{BerkeleyDB} := mk_conn {
  c_dbs : Dbs;
  c_pool : Mempool;
  c_peers : list Peer;
  c_resp : list Z;
  c_sent : list (list Z)
}.

(** the return value of [sendto] for a byte string *)
Class Sockets := { sendto : list Z → Z }.

Section Messages.
Context `{BerkeleyDB, Host, TxNames, Malloc, BlockNames, Sockets}.

Definition with_resp (c : conn) (resp : list Z) : conn :=
  mk_conn _ (c_dbs c) (c_pool c) (c_peers c) resp (c_sent c).

(** The message is copied behind the first byte of the frame, and as many
    bytes as the message has, and one, are sent.  The [f] after the condition
    is dropped. *)
Definition sendto_peer (c : conn) (CTYPE : Z) (msg : list Z) (msg_length : Z)
    : outcome conn :=
  let raw_msg := uninit "raw_msg" (w32 (msg_length + 3)) in
  raw_msg ← wr raw_msg 0 (w8 (Z.land (Z.shiftl __VERSION 8) 255));
  raw_msg ← wr raw_msg 1 (Z.land __VERSION 255);
  raw_msg ← wr raw_msg 2 (w8 CTYPE);
  raw_msg ← (if 0 <? msg_length then
               src ← memread msg 0 msg_length; memwrite raw_msg 1 src
             else Done raw_msg);
  bytes ← memread raw_msg 0 (w32 (msg_length + 1));
  if sendto bytes <? 0 then Fatal
  else Done (mk_conn _ (c_dbs c) (c_pool c) (c_peers c) (c_resp c)
               (c_sent c ++ [bytes])).

(** stores of the response buffer *)
Definition resp_wr (c : conn) (i x : Z) : outcome conn :=
  resp ← wr (c_resp c) i x; Done (with_resp c resp).

(** ** Content types *)

Section Handlers.
(** what the functions below find in variables that are never set, and the
    address [block_compute_size] looks at *)
Context (highest0 count0 index0 dest_addr : Z) (tx_object : M_tx → list Z).

Definition on_getblocks (c : conn) (msg : list Z) : outcome conn :=
  req ← rd msg CTYPE_GETBLOCKS_POS_BLOCK_COUNT;
  '(resp, count) ← build_block_list highest0 (c_dbs c)
    (drop (Z.to_nat CTYPE_GETBLOCKS_POS_START_BLOCK) msg) req (c_resp c) CTYPE_INV_POS_IDS;
  c ← resp_wr (with_resp c resp) CTYPE_INV_POS_DATATYPE DTYPE_BLOCK;
  c ← resp_wr c CTYPE_INV_POS_IDS_COUNT (w8 count);
  sendto_peer c CTYPE_INV (c_resp c) (w32 (2 + count * SIZE_SHA256)).

(** [count0] is what the call of [build_mempool_list] is worth. *)
Definition on_mempool (c : conn) (msg : list Z) : outcome conn :=
  resp ← build_mempool_list tx_object (c_pool c) (c_resp c) CTYPE_INV_POS_IDS;
  let count := count0 in
  c ← resp_wr (with_resp c resp) CTYPE_INV_POS_DATATYPE DTYPE_TX;
  c ← resp_wr c CTYPE_INV_POS_IDS_COUNT (w8 count);
  sendto_peer c CTYPE_INV (c_resp c) (w32 (2 + count * SIZE_SHA256)).

Definition inv_reply (build : Dbs → list Z → Z → Z → list Z → Z →
      outcome (list Z * Z)) (dtype : Z) (c : conn) (msg : list Z)
    : outcome conn :=
  n ← rd msg CTYPE_INV_POS_IDS_COUNT;
  '(resp, count) ← build (c_dbs c) msg CTYPE_INV_POS_IDS n (c_resp c)
    CTYPE_GETDATA_POS_IDS;
  c ← resp_wr (with_resp c resp) CTYPE_GETDATA_POS_DATATYPE dtype;
  c ← resp_wr c CTYPE_GETDATA_POS_IDS_COUNT (w8 count);
  sendto_peer c CTYPE_GETDATA (c_resp c) (w32 (2 + count * SIZE_SHA256)).

Definition on_inv (c : conn) (msg : list Z) : outcome conn :=
  dtype ← rd msg CTYPE_INV_POS_DATATYPE;
  if dtype =? DTYPE_BLOCK then
    inv_reply build_missing_blocks_list DTYPE_BLOCK c msg
  else if dtype =? DTYPE_TX then
    inv_reply build_missing_tx_list DTYPE_TX c msg
  else Done c.

(** the body of the loop over the requested blocks *)
Definition serve_block (msg : list Z) (i : Z) (c : conn) : outcome conn :=
  let hash := drop (Z.to_nat i) msg in
  if data_blocks_exists (c_dbs c) hash =? 0 then Done c
  else
    let '(_, block) := data_blocks_get (c_dbs c) hash
      (drop (Z.to_nat CTYPE_BLOCK_POS_BLOCK) (c_resp c)) in
    let resp := take (Z.to_nat CTYPE_BLOCK_POS_BLOCK) (c_resp c) ++ block in
    size ← block_compute_size dest_addr resp CTYPE_BLOCK_POS_BLOCK;
    resp ← uitob size resp CTYPE_BLOCK_POS_SIZE;
    sendto_peer (with_resp c resp) CTYPE_BLOCK resp (w32 (4 + size)).

Definition on_getdata_block (c : conn) (msg : list Z) : outcome conn :=
  count ← rd msg CTYPE_GETDATA_POS_IDS_COUNT;
  let max := w8 (count * SIZE_SHA256) in
  for_step CTYPE_GETDATA_POS_IDS max SIZE_SHA256 (serve_block msg) c.

(** the body of the loop over the requested transactions: the offset [i] of
    the hash is also the index into the mempool *)
Definition serve_tx (msg : list Z) (i : Z) (c : conn) : outcome conn :=
  e ← data_mempool_exists (c_pool c) (drop (Z.to_nat i) msg);
  if e =? 0 then Done c
  else
    s ← data_mempool_get index0 (c_pool c) i;
    tx ← deref s;
    let size := tx_size tx in
    src ← memread (tx_data tx) 0 size;
    resp ← memwrite (c_resp c) CTYPE_TX_POS_TX src;
    resp ← uitob size resp CTYPE_TX_POS_SIZE;
    sendto_peer (with_resp c resp) CTYPE_TX resp (w32 (4 + size)).

Definition on_getdata_tx (c : conn) (msg : list Z) : outcome conn :=
  count ← rd msg CTYPE_GETDATA_POS_IDS_COUNT;
  for_step CTYPE_GETDATA_POS_IDS count SIZE_SHA256 (serve_tx msg) c.

Definition serve_peer (i : Z) (c : conn) : outcome conn :=
  p ← rd (c_peers c) i;
  let len := addr_len p in
  resp ← ustob (w16 (port p)) (c_resp c) CTYPE_PEER_POS_PORT;
  resp ← ustob (w16 len) resp CTYPE_PEER_POS_ADDR_LEN;
  src ← memread (addr p) 0 len;
  resp ← memwrite resp CTYPE_PEER_POS_ADDR src;
  sendto_peer (with_resp c resp) CTYPE_PEER resp (w32 (4 + len)).

Definition on_getdata_node (c : conn) : outcome conn :=
  let count := w8 (Z.of_nat (length (c_peers c))) in
  for_range 0 count serve_peer c.

Definition on_getdata (c : conn) (msg : list Z) : outcome conn :=
  dtype ← rd msg CTYPE_GETDATA_POS_DATATYPE;
  if dtype =? DTYPE_BLOCK then on_getdata_block c msg
  else if dtype =? DTYPE_TX then on_getdata_tx c msg
  else if dtype =? DTYPE_NODE then on_getdata_node c
  else Done c.

(** ** The loop of handle_connection *)

Context (on_block on_tx : conn → list Z → outcome conn).

Definition on_bad_version (c : conn) : outcome conn :=
  c ← resp_wr c CTYPE_REJECT_POS_ERRORTYPE ERR_BAD_VERSION;
  resp ← memset (c_resp c) CTYPE_REJECT_POS_INFO_SIZE 0 4;
  sendto_peer (with_resp c resp) CTYPE_REJECT resp 5.

(** The cases that answer nothing or end the program.  [print], which is
    defined nowhere, is read as [printf]. *)
Definition on_reject (c : conn) (msg : list Z) : outcome conn :=
  _ ← rd msg CTYPE_REJECT_POS_ERRORTYPE; Done c.
Definition on_peer : outcome conn := Fatal.
Definition on_alert : outcome conn := Fatal.
Definition on_ping (c : conn) : outcome conn := sendto_peer c CTYPE_PONG [] 0.
Definition on_pong (c : conn) : outcome conn := Done c.

(** The result says whether the loop goes on. *)
Definition handle_message (c : conn) (msg : list Z) : outcome (bool * conn) :=
  version ← btous msg POS_MSG_VERSION;
  if negb (ntohs version =? __VERSION) then
    c ← on_bad_version c; Done (false, c)
  else
    ctype ← rd msg POS_MSG_CTYPE;
    c ← (if ctype =? CTYPE_REJECT then
           on_reject c msg
         else if ctype =? CTYPE_GETBLOCKS then on_getblocks c msg
         else if ctype =? CTYPE_MEMPOOL then on_mempool c msg
         else if ctype =? CTYPE_INV then on_inv c msg
         else if ctype =? CTYPE_GETDATA then on_getdata c msg
         else if ctype =? CTYPE_BLOCK then on_block c msg
         else if ctype =? CTYPE_TX then on_tx c msg
         else if ctype =? CTYPE_PEER then on_peer
         else if ctype =? CTYPE_ALERT then on_alert
         else if ctype =? CTYPE_PING then on_ping c
         else if ctype =? CTYPE_PONG then on_pong c
         else Done c);
    Done (true, c).

(** [recvs] are the byte strings received, an empty one or the end of the
    list stopping the loop; each overwrites the front of [msg]. *)
Fixpoint handle_messages (recvs : list (list Z)) (c : conn) (msg : list Z)
    : outcome conn :=
  match recvs with
  | [] | [] :: _ => Done c
  | bytes :: recvs =>
      msg ← memwrite msg 0 bytes;
      '(go_on, c) ← handle_message c msg;
      if (go_on : bool) then handle_messages recvs c msg else Done c
  end.

(** [msg_null] and [resp_null]: the allocations failed.  The test of [resp]
    ends in a semicolon, its [fatal] stands alone. *)
Definition handle_connection (msg_null resp_null : bool)
    (recvs : list (list Z)) (c : conn) : outcome conn :=
  let msg := uninit "msg" MAX_MSG_SIZE in
  _ ← (if msg_null then Fatal else Done ());
  _ ← (if resp_null then Done () else Done ());
  _ ← (Fatal : outcome ());
  handle_messages recvs c msg.

End Handlers.
End Messages.

(** ** Where a received block goes (the middle of the CTYPE_BLOCK case) *)

Inductive route := Limbo_request | Limbo | Chain | Dropped.

(** [same_prev]: the comparison of [prev_hash] with the hash of the last block
    of the chain, made in one case only *)
Definition block_route (height curr_height : Z) (same_prev : outcome bool)
    : outcome route :=
  if (height <=? curr_height)
     || ((2 <? height) && (curr_height <=? w32 (height - 2)))
  then Done Limbo_request
  else if w32 (height - 1) =? curr_height
  then same ← same_prev; Done (if (same : bool) then Chain else Limbo)
  else Done Dropped.

(** The rule of the README ("Receiving a <block>") for the block received: at
    most as high, or two or more higher, or one higher on another block, it is
    saved to limbo; one higher on the last block it is added to the chain when
    it is valid, and otherwise the peer that sent it is dropped. *)
Inductive readme_action := Save_to_limbo | Add_to_chain | Drop_peer.

Definition readme_rule (height curr_height : Z) (same_prev valid : bool) : readme_action :=
  if (height <=? curr_height) || (curr_height + 2 <=? height) then Save_to_limbo
  else if negb same_prev then Save_to_limbo
  else if valid then Add_to_chain else Drop_peer.

(** what the code does with the block *)
Definition route_action (r : route) : option readme_action :=
  match r with
  | Limbo_request | Limbo => Some Save_to_limbo
  | Chain => Some Add_to_chain
  | Dropped => None
  end.

(** C31: For all 32-bit heights, the place the code gives a received block
    (limbo, chain or none, the request for a block apart) is the one of the
    README except in two cases: a block of height 2 on a chain of height 0,
    which the code drops and the README saves to limbo, and an invalid block
    one higher than the chain on its last block, which the code routes to the
    chain and for which the README drops the peer: the routing does not look
    at validity. *)
Theorem block_route_readme height curr_height same_prev valid :
  0 ≤ height < 2 ^ 32 → 0 ≤ curr_height < 2 ^ 32 →
  ∃ r, block_route height curr_height (Done same_prev) = Done r ∧
    (route_action r = Some (readme_rule height curr_height same_prev valid) ↔
     ¬ (height = 2 ∧ curr_height = 0) ∧
     ¬ (height = curr_height + 1 ∧ same_prev = true ∧ valid = false)) ∧
    (height = 2 ∧ curr_height = 0 → r = Dropped) ∧
    (height = curr_height + 1 ∧ same_prev = true → r = Chain).
Proof.
  intros Hh Hc. unfold block_route, readme_rule.
  destruct (Z.leb_spec height curr_height) as [Hle|Hgt]; cbn [orb].
  { exists Limbo_request. split; [done|]. split; [|lia]. split; [lia|done]. }
  rewrite (w32_id (height - 1)) by lia.
  destruct (Z.ltb_spec 2 height) as [H2|H2]; cbn [andb].
  - rewrite w32_id by lia.
    destruct (Z.leb_spec curr_height (height - 2));
      destruct (Z.leb_spec (curr_height + 2) height); try lia.
    { exists Limbo_request. split; [done|]. split; [|lia]. split; [lia|done]. }
    rewrite (proj2 (Z.eqb_eq _ _)) by lia. eexists. split; [reflexivity|].
    destruct same_prev, valid; cbn; naive_solver lia.
  - destruct (Z.leb_spec (curr_height + 2) height).
    + assert (height = 2 ∧ curr_height = 0) as [-> ->] by lia.
      exists Dropped. split; [done|]. split; [|split; [done|lia]].
      cbn. split; [done|tauto].
    + rewrite (proj2 (Z.eqb_eq _ _)) by lia. eexists. split; [reflexivity|].
      destruct same_prev, valid; cbn; naive_solver lia.
Qed.

Section Correctness.
Context `{BerkeleyDBLaws, Host, TxNames, Malloc, BlockNames, Sockets}.

(** the connection after the byte string [bs] was sent *)
Definition sent (c : conn) (bs : list Z) : conn :=
  mk_conn _ (c_dbs c) (c_pool c) (c_peers c) (c_resp c) (c_sent c ++ [bs]).

Lemma sendto_peer_run c t msg n :
  0 ≤ n ≤ Z.of_nat (length msg) → n + 3 < 2 ^ 32 →
  sendto_peer c t msg n =
    let bs := 0 :: take (Z.to_nat n) msg in
    if sendto bs <? 0 then Fatal else Done (sent c bs).
Proof.
  intros Hn H32. unfold sendto_peer.
  rewrite (w32_id (n + 3)), (w32_id (n + 1)) by lia.
  pose proof (length_uninit "raw_msg" (n + 3) ltac:(lia)) as Lu.
  set (raw := uninit "raw_msg" (n + 3)) in *.
  change (w8 (Z.land (Z.shiftl __VERSION 8) 255)) with 0.
  rewrite wr_Done by lia. rewrite bind_Done.
  rewrite wr_Done by (len; lia). rewrite bind_Done.
  rewrite wr_Done by (len; lia). rewrite bind_Done.
  destruct raw as [|r0 [|r1 [|r2 raw]]]; cbn [length] in Lu; [lia..|].
  change (<[Z.to_nat 2 := _]> _) with (0 :: Z.land __VERSION 255 :: w8 t :: raw).
  destruct (Z.ltb_spec 0 n) as [Hpos|Hz].
  - rewrite (memread_Done msg) by lia. rewrite Z2Nat.inj_0, drop_0, bind_Done.
    rewrite memwrite_Done by (cbn; len; lia). rewrite bind_Done.
    rewrite memread_Done by (len; cbn; len; lia). rewrite bind_Done.
    rewrite Z2Nat.inj_0, drop_0.
    replace (Z.to_nat (n + 1)) with (S (Z.to_nat n)) by lia.
    change (Z.to_nat 1) with 1%nat. unfold patch. cbn [take app].
    rewrite take_app_le, take_ge by (len; lia). done.
  - replace n with 0 by lia. rewrite bind_Done.
    rewrite memread_Done by (cbn; lia). rewrite bind_Done. done.
Qed.

(** C20: sendto_peer sends the byte 0 followed by the message, whatever the
    content type: the low byte of the version and the content type are
    overwritten or not sent; it is fatal when the socket refuses. *)
Theorem sendto_peer_frame c t msg n :
  0 ≤ n ≤ Z.of_nat (length msg) → n + 3 < 2 ^ 32 →
  sendto_peer c t msg n =
    let bs := 0 :: take (Z.to_nat n) msg in
    if sendto bs <? 0 then Fatal else Done (sent c bs).
Proof. apply sendto_peer_run. Qed.

(** The version of a message is its first two bytes, most significant first,
    on every host: the reader converts twice. *)
Lemma msg_version msg b0 b1 :
  memread msg POS_MSG_VERSION 2 = Done [b0; b1] → is_byte b0 → is_byte b1 →
  (v ← btous msg POS_MSG_VERSION; Done (ntohs v)) = Done (256 * b0 + b1).
Proof.
  intros Hm H0b H1b.
  rewrite (btous_spec _ _ _ Hm)
    by (do 2 (constructor; [done|]); constructor).
  rewrite bind_Done. f_equal. unfold ntohs, bswap16, is_byte in *.
  destruct little_endian; [|cbn; lia]. cbn [le_val be_bytes app].
  rewrite Z.mul_0_r, Z.add_0_r.
  replace ((b0 + 256 * b1) / 256 mod 256) with b1; [|].
  - replace ((b0 + 256 * b1) mod 256) with b0; [lia|].
    apply (Z.mod_unique _ _ b1); lia.
  - replace ((b0 + 256 * b1) / 256) with b1; [|apply (Z.div_unique _ _ _ b0); lia].
    symmetry. apply Z.mod_small. lia.
Qed.

Section Handling.
Context (highest0 count0 index0 dest_addr : Z) (tx_object : M_tx → list Z).
Context (on_block on_tx : conn → list Z → outcome conn).

(** C32: On every host a message whose first two bytes are not the version,
    most significant first, is answered with exactly the bytes 0,
    ERR_BAD_VERSION, 0, 0, 0, 0 and ends the loop, when the response buffer
    has the five bytes and the socket accepts, and ends the program when it
    refuses. The README gives this reject two bytes: the code, and an info
    size of one byte. *)
Theorem handle_message_bad_version c msg b0 b1 :
  memread msg POS_MSG_VERSION 2 = Done [b0; b1] → is_byte b0 → is_byte b1 →
  256 * b0 + b1 ≠ __VERSION → (5 ≤ length (c_resp c))%nat →
  handle_message highest0 count0 index0 dest_addr tx_object on_block on_tx c msg =
    (if sendto [0; ERR_BAD_VERSION; 0; 0; 0; 0] <? 0 then Fatal
     else Done (false, sent (with_resp c
            (ERR_BAD_VERSION :: replicate 4 0 ++ drop 5 (c_resp c)))
            [0; ERR_BAD_VERSION; 0; 0; 0; 0])).
Proof.
  intros Hm H0b H1b Hne Hl. unfold handle_message.
  pose proof (msg_version _ _ _ Hm H0b H1b) as Hv.
  destruct (btous msg POS_MSG_VERSION) as [v| | |]; [|done..].
  rewrite bind_Done in *. injection Hv as ->.
  rewrite (proj2 (Z.eqb_neq _ _) Hne). cbn [negb].
  unfold on_bad_version, resp_wr.
  destruct (c_resp c) as [|r0 [|r1 [|r2 [|r3 [|r4 resp]]]]] eqn:Er;
    cbn [length] in Hl; [lia..|].
  unfold CTYPE_REJECT_POS_ERRORTYPE, CTYPE_REJECT_POS_INFO_SIZE, memset.
  rewrite wr_Done by (cbn [length]; lia). rewrite !bind_Done.
  cbn [c_resp with_resp]. change (Z.to_nat 0) with 0%nat.
  change (Z.to_nat 4) with 4%nat.
  rewrite memwrite_Done by (cbn [length replicate insert list_insert]; lia).
  rewrite bind_Done. change (Z.to_nat 1) with 1%nat.
  change (patch _ 1 _) with (ERR_BAD_VERSION :: replicate 4 0 ++ resp).
  rewrite sendto_peer_run by (cbn [length replicate app]; lia).
  change (drop 5 (r0 :: _)) with resp. cbn zeta.
  change (0 :: take (Z.to_nat 5) _) with [0; ERR_BAD_VERSION; 0; 0; 0; 0].
  destruct (sendto _ <? 0); [done|]. by rewrite bind_Done.
Qed.

(** The result of a round that goes on. *)
Definition going_on (m : outcome conn) : outcome (bool * conn) :=
  c ← m; Done (true, c).

(** The cases of a message with the version of the program and the content
    type [t]. *)
Lemma handle_message_run c t rest :
  let msg := 0 :: 1 :: t :: rest in
  handle_message highest0 count0 index0 dest_addr tx_object on_block on_tx c msg =
    if t =? CTYPE_REJECT then Done (true, c)
    else if t =? CTYPE_GETBLOCKS then going_on (on_getblocks highest0 c msg)
    else if t =? CTYPE_MEMPOOL then going_on (on_mempool count0 tx_object c msg)
    else if t =? CTYPE_INV then going_on (on_inv c msg)
    else if t =? CTYPE_GETDATA then going_on (on_getdata index0 dest_addr c msg)
    else if t =? CTYPE_BLOCK then going_on (on_block c msg)
    else if t =? CTYPE_TX then going_on (on_tx c msg)
    else if (t =? CTYPE_PEER) || (t =? CTYPE_ALERT) then Fatal
    else if t =? CTYPE_PING then going_on (sendto_peer c CTYPE_PONG [] 0)
    else Done (true, c).
Proof.
  intros msg. unfold handle_message.
  pose proof (msg_version msg 0 1 ltac:(unfold msg, POS_MSG_VERSION; by rewrite memread_Done by (cbn [length]; lia))
    ltac:(decided) ltac:(decided)) as Hv.
  destruct (btous msg POS_MSG_VERSION) as [v| | |]; [|done..].
  rewrite bind_Done in *. injection Hv as ->.
  change (negb (256 * 0 + 1 =? __VERSION)) with false. cbn iota.
  change (rd msg POS_MSG_CTYPE) with (Done t : outcome Z).
  unfold on_reject. change (rd msg CTYPE_REJECT_POS_ERRORTYPE) with (Done 0 : outcome Z).
  rewrite !bind_Done. unfold going_on.
  repeat match goal with |- context [if ?b then _ else _] => destruct b; try done end.
Qed.

(** C19: The fields of a message overlap its header: in a message with the
    version of the program the data type read is always DTYPE_BLOCK and the
    count 1, so an inventory is one of a single block and a request serves one
    block, whose hash starts with the content type; a peer or alert message
    ends the program. *)
Theorem handle_message_overlap c t rest :
  let msg := 0 :: 1 :: t :: rest in
  let handle := handle_message highest0 count0 index0 dest_addr tx_object on_block on_tx in
  (t = CTYPE_INV →
     handle c msg = going_on (
       '(resp, count) ← build_missing_blocks_list (c_dbs c) msg 2 1 (c_resp c)
          CTYPE_GETDATA_POS_IDS;
       c ← resp_wr (with_resp c resp) CTYPE_GETDATA_POS_DATATYPE DTYPE_BLOCK;
       c ← resp_wr c CTYPE_GETDATA_POS_IDS_COUNT (w8 count);
       sendto_peer c CTYPE_GETDATA (c_resp c) (w32 (2 + count * SIZE_SHA256)))) ∧
  (t = CTYPE_GETDATA →
     handle c msg = going_on (serve_block dest_addr msg 2 c)) ∧
  (t = CTYPE_PEER ∨ t = CTYPE_ALERT → handle c msg = Fatal).
Proof.
  cbn zeta. rewrite handle_message_run. split; [|split].
  - intros ->. done.
  - intros ->. unfold CTYPE_GETDATA. cbn [Z.eqb].
    change (on_getdata index0 dest_addr c (0 :: 1 :: 4 :: rest)) with
      (s ← serve_block dest_addr (0 :: 1 :: 4 :: rest) 2 c; Done s).
    destruct (serve_block _ _ _ c); done.
  - by intros [-> | ->].
Qed.

(** The thread ends the program before it receives anything. *)
Theorem handle_connection_fatal msg_null resp_null recvs c :
  handle_connection highest0 count0 index0 dest_addr tx_object on_block on_tx
    msg_null resp_null recvs c = Fatal.
Proof. unfold handle_connection. by destruct msg_null, resp_null. Qed.

(** A request for count blocks looks at the first count mod 8 hashes
    only: the bound of the loop is kept in a byte; a request for 8 blocks is
    ignored. *)
Theorem on_getdata_block_rounds c msg count :
  rd msg CTYPE_GETDATA_POS_IDS_COUNT = Done count → is_byte count →
  on_getdata_block dest_addr c msg =
    for_range 0 (count mod 8)
      (λ k, serve_block dest_addr msg (CTYPE_GETDATA_POS_IDS + k * SIZE_SHA256)) c.
Proof.
  intros Hr Hb. unfold on_getdata_block, for_step, is_byte in *.
  rewrite Hr, bind_Done. f_equal. unfold SIZE_SHA256, CTYPE_GETDATA_POS_IDS.
  assert (E : w8 (count * 32) = 32 * (count mod 8)).
  { unfold w8. change (2 ^ 8) with (8 * 32).
    rewrite Z.mul_mod_distr_r by lia. lia. }
  rewrite E. pose proof (Z.mod_pos_bound count 8 ltac:(lia)).
  symmetry. apply (Z.div_unique _ _ _ 29); lia.
Qed.

(** A request for [count] transactions looks at [(count + 29) / 32] hashes. *)
Theorem on_getdata_tx_rounds c msg count :
  rd msg CTYPE_GETDATA_POS_IDS_COUNT = Done count → is_byte count →
  on_getdata_tx index0 c msg =
    for_range 0 ((count + 29) / 32)
      (λ k, serve_tx index0 msg (CTYPE_GETDATA_POS_IDS + k * SIZE_SHA256)) c.
Proof.
  intros Hr Hb. unfold on_getdata_tx, for_step. rewrite Hr, bind_Done.
  f_equal. unfold SIZE_SHA256, CTYPE_GETDATA_POS_IDS. f_equal. lia.
Qed.

End Handling.
End Correctness.

(** ** Instances *)

Definition sample_sockets : Sockets := {| sendto bs := Z.of_nat (length bs) |}.

Definition sample_conn : @conn gmap_db :=
  @mk_conn gmap_db sample_dbs mempool_init [] (replicate 8 7) [].

(** a block the README would drop with its peer, and one the code drops *)
Lemma block_route_readme_witness :
  (∃ r, block_route 6 5 (Done true) = Done r ∧ r = Chain ∧
     route_action r ≠ Some (readme_rule 6 5 true false)) ∧
  (∃ r, block_route 2 0 (Done true) = Done r ∧ r = Dropped).
Proof.
  split.
  - destruct (block_route_readme 6 5 true false) as (r & Hr & Heq & _ & Hchain); [lia|lia|].
    exists r. split; [exact Hr|]. split; [by apply Hchain|]. intros E.
    apply Heq in E as [_ E]. by apply E.
  - destruct (block_route_readme 2 0 true true) as (r & Hr & _ & Hdrop & _); [lia|lia|].
    exists r. split; [exact Hr|]. by apply Hdrop.
Defined.

Lemma sendto_peer_frame_witness :
  @sendto_peer gmap_db sample_malloc sample_sockets sample_conn CTYPE_INV
    [4; 5; 6] 2 = Done (sent sample_conn [0; 4; 5]).
Proof.
  apply (@sendto_peer_frame gmap_db sample_malloc sample_sockets sample_conn
    CTYPE_INV [4; 5; 6] 2); [cbn; lia|lia].
Defined.

Definition no_handler (c : @conn gmap_db) (msg : list Z)
    : outcome (@conn gmap_db) := Undef.

Lemma handle_message_bad_version_witness :
  @handle_message gmap_db host_le sample_names sample_malloc sample_blocks
    sample_sockets 0 0 0 0 tx_hash no_handler no_handler sample_conn [0; 2; 9] =
    Done (false, sent (with_resp sample_conn [1; 0; 0; 0; 0; 7; 7; 7])
      [0; ERR_BAD_VERSION; 0; 0; 0; 0]).
Proof.
  apply (@handle_message_bad_version gmap_db host_le sample_names sample_malloc
    sample_blocks sample_sockets 0 0 0 0 tx_hash no_handler no_handler
    sample_conn [0; 2; 9] 0 2); [reflexivity|decided|decided|discriminate|].
  cbn; lia.
Defined.

Lemma handle_message_overlap_witness :
  @handle_message gmap_db host_le sample_names sample_malloc sample_blocks
    sample_sockets 0 0 0 0 tx_hash no_handler no_handler sample_conn
    (0 :: 1 :: CTYPE_ALERT :: [5]) = Fatal.
Proof.
  exact (proj2 (proj2 (@handle_message_overlap gmap_db host_le sample_names
    sample_malloc sample_blocks sample_sockets 0 0 0 0 tx_hash no_handler no_handler
    sample_conn CTYPE_ALERT [5])) (or_intror eq_refl)).
Defined.

Lemma on_getdata_block_rounds_witness :
  @on_getdata_block gmap_db sample_names sample_malloc sample_sockets 0
    sample_conn [0; 8] =
    for_range 0 (8 mod 8)
      (λ k, @serve_block gmap_db sample_names sample_malloc sample_sockets 0
        [0; 8] (CTYPE_GETDATA_POS_IDS + k * SIZE_SHA256)) sample_conn.
Proof.
  apply (@on_getdata_block_rounds gmap_db sample_names sample_malloc
    sample_sockets 0 sample_conn [0; 8] 8); [reflexivity|decided].
Defined.

Lemma on_getdata_tx_rounds_witness :
  @on_getdata_tx gmap_db sample_malloc sample_sockets 0 sample_conn [1; 3] =
    for_range 0 ((3 + 29) / 32)
      (λ k, @serve_tx gmap_db sample_malloc sample_sockets 0
        [1; 3] (CTYPE_GETDATA_POS_IDS + k * SIZE_SHA256)) sample_conn.
Proof.
  apply (@on_getdata_tx_rounds gmap_db sample_malloc
    sample_sockets 0 sample_conn [1; 3] 3); [reflexivity|decided].
Defined.
