(* ===== verification/Receive.v ===== *)
(** * src/network.c: received blocks and transactions

    The cases CTYPE_BLOCK and CTYPE_TX of [handle_connection], and the loop
    with them in place.  A received block is stored, put on the chain or into
    limbo by its height, and limbo is scanned; a received transaction is
    copied and added to the mempool.  The mutexes, which order the threads, are
    left out here: Threads.v has that of the mempool. *)
From S2P Require Import Prelude Shared Util Crypto Unresolved Transactions Merkle Blocks Arrays Store Mempool Limbo Build Network.

(** used in network.c and defined nowhere; [msgall] stands for [msgall_inv] and
    [msgall_getdata], announced under "Message-all functions" *)
Class ReceiveNames `{BerkeleyDB} := {
  MAX_MEMPOOL_SIZE : Z;
  CTYPE_TX_POS_BODY : Z;
  data_limbo_add : Dbs → list Z → outcome Dbs;
  msgall : list announce → conn → outcome conn
}.

Section Receive.
Context `{BerkeleyDB, Host, TxNames, Malloc, BlockNames, !LimboNames, Sockets,
  !ReceiveNames}.

(** what the functions called find in variables that are never set or
    declared, the address of the block in the message, the value of
    [valid_block], whose body is empty, and what the cursor yields on limbo *)
Context (highest0 highest1 highest2 count0 index0 dest_addr block_addr : Z)
  (mp_hash : list Z) (mp_size prev_hash : Z) (add_hash tx_block_hash : list Z)
  (tx_object : M_tx → list Z) (trace valid_block : list Z → Z) (fuel : nat)
  (cursor : Dbs → option (list (Z * list Z))).

Definition with_dbs (c : conn) (dbs : Dbs) (pool : Mempool) : conn :=
  mk_conn _ dbs pool (c_peers c) (c_resp c) (c_sent c).

(** The answer to a block that goes to limbo: a request for the hash of the
    block itself. *)
Definition request_block (c : conn) (block : list Z) : outcome conn :=
  hash ← block_compute_hash block 0 (drop (Z.to_nat CTYPE_INV_POS_IDS) (c_resp c));
  let resp := take (Z.to_nat CTYPE_INV_POS_IDS) (c_resp c) ++ hash in
  c ← resp_wr (with_resp c resp) CTYPE_GETDATA_POS_DATATYPE DTYPE_BLOCK;
  c ← resp_wr c CTYPE_GETDATA_POS_IDS_COUNT 1;
  sendto_peer c CTYPE_GETDATA (c_resp c) (2 + SIZE_SHA256).

(** [prev_hash] is not declared: an argument. [data_chain_safe_set] is given
    the block where it takes a hash. *)
Definition place_block (c : conn) (block : list Z) (height curr_height : Z)
    (curr_hash : list Z) : outcome conn :=
  r ← block_route height curr_height
    (x ← memcmp block prev_hash curr_hash 0 SIZE_SHA256; Done (x =? 0));
  match r with
  | Limbo_request =>
      dbs ← data_limbo_add (c_dbs c) block;
      request_block (with_dbs c dbs (c_pool c)) block
  | Chain =>
      dbs ← data_chain_safe_set (c_dbs c) block;
      Done (with_dbs c dbs (c_pool c))
  | Limbo =>
      dbs ← data_limbo_add (c_dbs c) block;
      Done (with_dbs c dbs (c_pool c))
  | Dropped => Done c
  end.

Definition on_block (c : conn) (msg : list Z) : outcome conn :=
  _ ← btoui msg CTYPE_BLOCK_POS_SIZE;
  let block := drop (Z.to_nat CTYPE_BLOCK_POS_BLOCK) msg in
  height ← btoui block POS_BLOCK_HEIGHT;
  curr_height ← data_chain_get_height highest0 (c_dbs c);
  let '(_, curr_hash) := data_chain_get (c_dbs c) curr_height
    (uninit "curr_hash" SIZE_SHA256) in
  dbs ← (if valid_block block =? 0 then Done (c_dbs c)
         else
           '(dbs, _) ← data_blocks_add block_addr add_hash (c_dbs c) block;
           Done dbs);
  c ← place_block (with_dbs c dbs (c_pool c)) block height curr_height curr_hash;
  s ← data_limbo_scan mp_hash mp_size tx_object tx_block_hash trace fuel highest1
    highest2 (cursor (c_dbs c)) (c_dbs c) (Some (c_pool c));
  msgall (sc_sent s) (with_dbs c (sc_dbs s) (default (c_pool c) (sc_pool s))).

(** [peer-network->mempool] is read as the mempool of the databases, and the
    transaction handed to [data_mempool_add] as its data. *)
Definition on_tx (c : conn) (msg : list Z) : outcome conn :=
  if mp_count (c_pool c) <? MAX_MEMPOOL_SIZE then
    in_count ← btous msg (CTYPE_TX_POS_BODY + POS_TX_IN_COUNT);
    out_count ← btous msg (CTYPE_TX_POS_BODY + POS_TX_OUT_COUNT);
    lock_time ← btoui msg (CTYPE_TX_POS_BODY + POS_TX_LOCK_TIME);
    let body := CTYPE_TX_POS_BODY + POS_TX_BODY in
    tx ← m_tx_gen in_count out_count lock_time
      (drop (Z.to_nat body) msg)
      (drop (Z.to_nat (body + in_count * SIZE_TX_INPUT)) msg);
    pool ← data_mempool_add mp_hash mp_size (c_pool c) (tx_data tx) 0;
    Done (with_dbs c (c_dbs c) pool)
  else Done c.

(** [handle_connection] with all its cases *)
Definition receive (c : conn) (msg : list Z) : outcome (bool * conn) :=
  handle_message highest0 count0 index0 dest_addr tx_object on_block on_tx c msg.

(** ** What they do *)

(** The frame of a request is the byte 0, [DTYPE_BLOCK], the count 1 and the
    hash of the block received. *)
Lemma request_block_run c block h rest :
  block_compute_hash block 0 (drop 2 (c_resp c)) = Done (h ++ rest) →
  length h = 32%nat → (2 ≤ length (c_resp c))%nat →
  request_block c block =
    let bs := 0 :: DTYPE_BLOCK :: 1 :: h in
    if sendto bs <? 0 then Fatal
    else Done (sent (with_resp c (DTYPE_BLOCK :: 1 :: h ++ rest)) bs).
Proof.
  intros Hh Hl Hr. unfold request_block, resp_wr.
  change (Z.to_nat CTYPE_INV_POS_IDS) with 2%nat. rewrite Hh, bind_Done.
  destruct (c_resp c) as [|r0 [|r1 resp]]; cbn [length] in Hr; [lia..|].
  cbn [take]. rewrite take_0. cbn [app c_resp with_resp].
  unfold CTYPE_GETDATA_POS_DATATYPE, CTYPE_GETDATA_POS_IDS_COUNT.
  rewrite wr_Done by (cbn [length]; lia). rewrite !bind_Done. cbn [c_resp with_resp].
  rewrite wr_Done by (len; cbn [length]; lia). rewrite !bind_Done.
  rewrite sendto_peer_run by
    (cbn [c_resp with_resp]; unfold SIZE_SHA256; len; cbn [length]; len; lia).
  cbn [c_resp with_resp].
  change (<[Z.to_nat 1:=1]> (<[Z.to_nat 0:=DTYPE_BLOCK]> (r0 :: r1 :: h ++ rest)))
    with (DTYPE_BLOCK :: 1 :: h ++ rest).
  replace (take (Z.to_nat (2 + SIZE_SHA256)) (DTYPE_BLOCK :: 1 :: h ++ rest))
    with (DTYPE_BLOCK :: 1 :: h);
    [done|].
  change (Z.to_nat (2 + SIZE_SHA256)) with (S (S 32)). rewrite <- Hl.
  cbn [take]. by rewrite take_app_length.
Qed.

(** C29: A received block that is not higher than the chain, or at least two
    higher and of a height above 2, goes to limbo and, when adding it returns,
    its hash has 32 bytes and the response buffer has at least the two bytes
    before it, is answered with a request for one block: the block just
    received, not the one missing before it. (A block of height 2 on a chain
    of height 0 is dropped instead.) The send is fatal when the socket
    refuses. *)
Theorem place_block_requests_itself c block height curr_height curr_hash dbs h rest :
  0 ≤ height < 2 ^ 32 → 0 ≤ curr_height < 2 ^ 32 →
  height ≤ curr_height ∨ curr_height + 2 ≤ height ∧ 2 < height →
  data_limbo_add (c_dbs c) block = Done dbs →
  block_compute_hash block 0 (drop 2 (c_resp c)) = Done (h ++ rest) →
  length h = 32%nat → (2 ≤ length (c_resp c))%nat →
  place_block c block height curr_height curr_hash =
    let bs := 0 :: DTYPE_BLOCK :: 1 :: h in
    if sendto bs <? 0 then Fatal
    else Done (sent (with_resp (with_dbs c dbs (c_pool c))
                       (DTYPE_BLOCK :: 1 :: h ++ rest)) bs).
Proof.
  intros Hh Hc Hroute Hadd Hhash Hl Hr. unfold place_block, block_route.
  replace ((height <=? curr_height) ||
    (2 <? height) && (curr_height <=? w32 (height - 2))) with true.
  - rewrite bind_Done, Hadd, bind_Done. by apply request_block_run.
  - symmetry. apply orb_true_iff. rewrite andb_true_iff, Z.ltb_lt, !Z.leb_le.
    destruct Hroute as [|[? ?]]; [by left|right]. rewrite w32_id; lia.
Qed.

(** C26: While the mempool has room, a received transaction whose counts of
    inputs and outputs exceed MAX_TX_SIZE ends the program, whatever follows
    the counts: any peer can stop a node with one message. *)
Theorem on_tx_large_fatal c msg in_count out_count lock_time :
  mp_count (c_pool c) < MAX_MEMPOOL_SIZE →
  btous msg (CTYPE_TX_POS_BODY + POS_TX_IN_COUNT) = Done in_count →
  btous msg (CTYPE_TX_POS_BODY + POS_TX_OUT_COUNT) = Done out_count →
  btoui msg (CTYPE_TX_POS_BODY + POS_TX_LOCK_TIME) = Done lock_time →
  0 ≤ in_count < 2 ^ 16 → 0 ≤ out_count < 2 ^ 16 →
  MAX_TX_SIZE < SIZE_TX_HEADER + SIZE_TX_INPUT * in_count + SIZE_TX_OUTPUT * out_count →
  on_tx c msg = Fatal.
Proof.
  unfold SIZE_TX_HEADER, SIZE_TX_INPUT, SIZE_TX_OUTPUT, MAX_TX_SIZE.
  intros Hc Hi Ho Hl Ri Ro Hbig. unfold on_tx.
  rewrite (proj2 (Z.ltb_lt _ _) Hc), Hi, bind_Done, Ho, bind_Done, Hl, bind_Done.
  unfold m_tx_gen, SIZE_TX_HEADER, SIZE_TX_INPUT, SIZE_TX_OUTPUT, MAX_TX_SIZE.
  rewrite (w32_id (290 * _)), (w32_id (36 * _)), (w32_id (10 + _)), w32_id by lia.
  by rewrite (proj2 (Z.ltb_lt _ _)) by lia.
Qed.

End Receive.

(** ** Instances *)

Definition sample_receive : @ReceiveNames gmap_db := {|
  MAX_MEMPOOL_SIZE := 100;
  CTYPE_TX_POS_BODY := CTYPE_TX_POS_TX;
  data_limbo_add dbs block := Done dbs;
  msgall _ c := Done c
|}.

Lemma place_block_requests_itself_witness :
  let c := @mk_conn gmap_db sample_dbs mempool_init [] (replicate 40 7) [] in
  let h := digest (take 83 one_tx_block) in
  @place_block gmap_db host_be sample_malloc sample_blocks sample_limbo sample_sockets
    sample_receive 10 c one_tx_block 3 9 [] =
  Done (sent (with_resp c (DTYPE_BLOCK :: 1 :: h ++ replicate 6 7))
    (0 :: DTYPE_BLOCK :: 1 :: h)).
Proof.
  cbn zeta.
  refine (@place_block_requests_itself gmap_db host_be sample_malloc sample_blocks
    sample_limbo sample_sockets sample_receive 10
    (@mk_conn gmap_db sample_dbs mempool_init [] (replicate 40 7) []) one_tx_block
    3 9 [] sample_dbs (digest (take 83 one_tx_block)) (replicate 6 7)
    ltac:(lia) ltac:(lia) ltac:(lia) eq_refl _ eq_refl _).
  - vm_compute. reflexivity.
  - cbn. lia.
Defined.

(** a transaction that claims 65535 inputs *)
Lemma on_tx_large_fatal_witness :
  @on_tx gmap_db host_be sample_names sample_malloc sample_receive (replicate 32 1) 0
    sample_conn ([0; 1; 6; 0; 0; 0; 255; 255] ++ replicate 10 0) = Fatal.
Proof.
  apply (@on_tx_large_fatal gmap_db host_be sample_names sample_malloc sample_receive
    (replicate 32 1) 0 sample_conn ([0; 1; 6; 0; 0; 0; 255; 255] ++ replicate 10 0)
    65535 0 0); first [reflexivity|lia|vm_compute; reflexivity].
Defined.
