(* ===== verification/Machine.v ===== *)
(** * Threads, one mutex, and operations in steps

    What threads share is read and written one access at a time, and between
    two accesses of one thread another may run.  Here a function is the
    sequence of its accesses ([code]); the class [Operations] gives those of a
    component, which of them hold the mutex, and what each does when nothing
    interrupts it.  The machine [step] interleaves the accesses of any number
    of threads and lets one at a time hold the mutex.  If all operations hold
    it, every run is one of whole operations in the order they took it, with
    the same answers ([explains]). *)
From S2P Require Import Prelude.
From stdpp Require Import relations list.

(** ** Functions as sequences of accesses *)

#[warnings="-register-all"]
Inductive code (S A : Type) :=
| Ret (a : A)
| Access (f : S → outcome (S * code S A)).
Arguments Ret {S A} a.
Arguments Access {S A} f.

#[export] Instance code_bind S : MBind (code S) := λ A B k,
  fix bind c :=
    match c with
    | Ret a => k a
    | Access f => Access (λ s,
        match f s with
        | Done (s', c) => Done (s', bind c)
        | Fatal => Fatal
        | Undef => Undef
        | Hang => Hang
        end)
    end.

Section Code.
Context {S : Type}.

(** an access that reads, one that writes, and a step on local data *)
Definition get {A} (f : S → outcome A) : code S A :=
  Access (λ s, a ← f s; Done (s, Ret a)).
Definition put (f : S → outcome S) : code S () :=
  Access (λ s, s' ← f s; Done (s', Ret ())).
Definition local {A} (o : outcome A) : code S A :=
  Access (λ s, a ← o; Done (s, Ret a)).

(** the function run without interruption *)
Fixpoint alone {A} (c : code S A) (s : S) : outcome (A * S) :=
  match c with
  | Ret a => Done (a, s)
  | Access f =>
      match f s with
      | Done (s', c) => alone c s'
      | Fatal => Fatal
      | Undef => Undef
      | Hang => Hang
      end
  end.

(** [n] rounds on local data *)
Fixpoint for_code {A} (n : nat) (i : Z) (body : Z → A → code S A) (a : A) : code S A :=
  match n with
  | O => Ret a
  | Datatypes.S n => a ← body i a; for_code n (i + 1) body a
  end.

End Code.

Section CodeLemmas.
Context {S : Type}.

(** induction on a function: after each access the rest is smaller *)
Lemma code_induction {A} (P : code S A → Prop) :
  (∀ a, P (Ret a)) →
  (∀ f, (∀ s s' c, f s = Done (s', c) → P c) → P (Access f)) →
  ∀ c, P c.
Proof.
  intros HR HA. fix IH 1. intros [a|f]; [apply HR|]. apply HA. intros s s' c.
  destruct (f s) as [[s1 c1]| | |]; [|discriminate 1..]. intros [= _ <-]. apply IH.
Qed.

Lemma alone_bind {A B} (c : code S A) (k : A → code S B) s :
  alone (c ≫= k) s = '(a, s') ← alone c s; alone (k a) s'.
Proof.
  revert s. induction c as [a|f IH] using code_induction; intros s; [done|].
  cbn. destruct (f s) as [[s' c]| | |] eqn:E; [|done..]. by eapply IH.
Qed.

Lemma alone_get {A B} (f : S → outcome A) (k : A → code S B) s :
  alone (get f ≫= k) s = a ← f s; alone (k a) s.
Proof. cbn. by destruct (f s). Qed.

Lemma alone_put {B} (f : S → outcome S) (k : () → code S B) s :
  alone (put f ≫= k) s = s' ← f s; alone (k ()) s'.
Proof. cbn. by destruct (f s). Qed.

Lemma alone_local {A B} (o : outcome A) (k : A → code S B) s :
  alone (local o ≫= k) s = a ← o; alone (k a) s.
Proof. cbn. by destruct o. Qed.

Lemma alone_if {A} (b : bool) (c1 c2 : code S A) s :
  alone (if b then c1 else c2) s = if b then alone c1 s else alone c2 s.
Proof. by destruct b. Qed.

(** rounds that only read the shared state *)
Lemma for_code_alone {A} (f : Z → A → outcome A) (body : Z → A → code S A) s n i (a : A) :
  (∀ i a, alone (body i a) s = a' ← f i a; Done (a', s)) →
  alone (for_code n i body a) s = a' ← for_n n i f a; Done (a', s).
Proof.
  intros Hb. revert i a. induction n as [|n IH]; intros i a; [done|].
  cbn [for_code for_n]. rewrite alone_bind, Hb. destruct (f i a) as [a'| | |]; [|done..].
  by rewrite !bind_Done, IH.
Qed.
End CodeLemmas.

(** ** The machine

    A thread has at most one operation under way and a list of those to come.
    An operation that is [locked] starts by taking the mutex, which must be
    free, and gives it back at its end; the others start at any time.  The
    shared state is an [outcome]: after an access that fails nothing runs. *)
Class Operations (S Op R : Type) := {
  body : Op → code S R;
  locked : Op → bool;
  spec : Op → S → outcome (R * S);
  body_spec : ∀ o s, alone (body o) s = spec o s
}.

Record thread (S Op R : Type) := mk_thread {
  now : option (code S R);
  todo : list Op
}.
Arguments mk_thread {S Op R} now todo.
Arguments now {S Op R} t.
Arguments todo {S Op R} t.

(** [answers]: what the operations that are finished returned, and to whom *)
Record world (S Op R : Type) := mk_world {
  shared : outcome S;
  answers : list (nat * R);
  owner : option nat;
  threads : list (thread S Op R)
}.
Arguments mk_world {S Op R} shared answers owner threads.
Arguments shared {S Op R} w.
Arguments answers {S Op R} w.
Arguments owner {S Op R} w.
Arguments threads {S Op R} w.

Section Machine.
Context {S Op R : Type} `{!Operations S Op R}.
#[local] Abbreviation world := (world S Op R).

Definition start (s : S) (uses : list (list Op)) : world :=
  mk_world (Done s) [] None (mk_thread None <$> uses).

Inductive step : world → world → Prop :=
| step_lock s rs i ths o os :
    ths !! i = Some (mk_thread None (o :: os)) → locked o = true →
    step (mk_world (Done s) rs None ths)
      (mk_world (Done s) rs (Some i) (<[i := mk_thread (Some (body o)) os]> ths))
| step_enter s rs w i ths o os :
    ths !! i = Some (mk_thread None (o :: os)) → locked o = false →
    step (mk_world (Done s) rs w ths)
      (mk_world (Done s) rs w (<[i := mk_thread (Some (body o)) os]> ths))
| step_access s rs w i ths f os s' c :
    ths !! i = Some (mk_thread (Some (Access f)) os) → f s = Done (s', c) →
    step (mk_world (Done s) rs w ths)
      (mk_world (Done s') rs w (<[i := mk_thread (Some c) os]> ths))
| step_fail s rs w i ths f os :
    ths !! i = Some (mk_thread (Some (Access f)) os) → (∀ x, f s ≠ Done x) →
    step (mk_world (Done s) rs w ths) (mk_world (x ← f s; Done x.1) rs w ths)
| step_leave s rs w i ths r os :
    ths !! i = Some (mk_thread (Some (Ret r)) os) →
    step (mk_world (Done s) rs w ths)
      (mk_world (Done s) (rs ++ [(i, r)]) (if decide (w = Some i) then None else w)
        (<[i := mk_thread None os]> ths)).

(** whole operations one after the other, and their answers *)
Fixpoint in_turn (history : list (nat * Op)) (s : S) : outcome (list (nat * R) * S) :=
  match history with
  | [] => Done ([], s)
  | (i, o) :: history =>
      '(r, s) ← spec o s; '(rs, s) ← in_turn history s; Done ((i, r) :: rs, s)
  end.

(** the operations of thread [i] in a history *)
Definition of_thread (i : nat) (history : list (nat * Op)) : list Op :=
  (filter (λ p, p.1 = i) history).*2.

(** the answers and the state once the thread that holds the mutex is done *)
Definition settled (w : world) : outcome (list (nat * R) * S) :=
  s ← shared w;
  match owner w with
  | None => Done (answers w, s)
  | Some i =>
      match threads w !! i with
      | Some (mk_thread (Some c) _) =>
          '(r, s) ← alone c s; Done (answers w ++ [(i, r)], s)
      | _ => Done (answers w, s)
      end
  end.

Lemma in_turn_snoc history i o s :
  in_turn (history ++ [(i, o)]) s =
    '(rs, s) ← in_turn history s; '(r, s) ← spec o s; Done (rs ++ [(i, r)], s).
Proof.
  revert s. induction history as [|[j o'] history IH]; intros s; cbn [app in_turn].
  { rewrite bind_Done. by destruct (spec o s) as [[r s1]| | |]. }
  destruct (spec o' s) as [[r1 s1]| | |]; [|done..]. rewrite !bind_Done, IH.
  destruct (in_turn history s1) as [[rs s2]| | |]; [|done..]. rewrite !bind_Done.
  by destruct (spec o s2) as [[r3 s3]| | |].
Qed.

Lemma of_thread_snoc i history j o :
  of_thread i (history ++ [(j, o)]) =
    of_thread i history ++ (if decide (j = i) then [o] else []).
Proof.
  unfold of_thread. rewrite filter_app, fmap_app. f_equal.
  rewrite filter_cons, filter_nil. cbn. by case_decide.
Qed.

(** *** All operations locked: the order of the mutex *)

(** What a history explains: the operations each thread has begun, which
    thread is inside one, and the state. *)
Record explains (s0 : S) (uses : list (list Op)) (history : list (nat * Op))
    (w : world) : Prop := {
  ex_length : length (threads w) = length uses;
  ex_threads : Forall (λ p, (p.1 < length uses)%nat) history;
  ex_todo : ∀ i th, threads w !! i = Some th →
    uses !! i = Some (of_thread i history ++ todo th);
  ex_now : ∀ i th, threads w !! i = Some th → (now th ≠ None ↔ owner w = Some i);
  ex_owner : ∀ i, owner w = Some i → is_Some (threads w !! i);
  ex_state : in_turn history s0 = settled w
}.

Lemma explains_start s0 uses : explains s0 uses [] (start s0 uses).
Proof.
  split; cbn; try done; [by rewrite length_fmap| |].
  - intros i th. rewrite list_lookup_fmap. by destruct (uses !! i); intros [= <-].
  - intros i th. rewrite list_lookup_fmap.
    by destruct (uses !! i); intros [= <-].
Qed.

(** A step of thread [i] that leaves the operations begun as they are. *)
Lemma explains_update s0 uses h s rs w ths i th c s' rs' w' :
  explains s0 uses h (mk_world s rs w ths) → ths !! i = Some th →
  (w = Some i ∨ w = None) → (c ≠ None ↔ w' = Some i) → (w' = Some i ∨ w' = None) →
  settled (mk_world s' rs' w' (<[i := mk_thread c (todo th)]> ths)) =
    settled (mk_world s rs w ths) →
  explains s0 uses h (mk_world s' rs' w' (<[i := mk_thread c (todo th)]> ths)).
Proof.
  intros [Hl Hb Ht Hn Ho Hs] Hi Hw Hc Hw' E. cbn [threads owner] in *.
  assert (Hother : ∀ j th', j ≠ i → ths !! j = Some th' → now th' = None).
  { intros j th' Hj Hth. destruct (now th') eqn:En; [|done].
    assert (Hne : now th' ≠ None) by congruence. apply (Hn _ _ Hth) in Hne.
    destruct Hw; congruence. }
  split; cbn [threads owner]; [by len|done| | | |].
  - intros j th' [(<- & <- & _)|(Hj & Hth)]%list_lookup_insert_Some; [|by apply Ht].
    cbn. by apply Ht.
  - intros j th' [(<- & <- & _)|(Hj & Hth)]%list_lookup_insert_Some; [done|].
    rewrite (Hother j th') by done. split; [done|]. destruct Hw'; congruence.
  - intros j ->. destruct Hw' as [[= ->]|]; [|done].
    rewrite list_lookup_insert_eq by (by eapply lookup_lt_Some). by eexists.
  - by rewrite E.
Qed.

Context (uses : list (list Op)).
Context (Hlocked : ∀ os o, os ∈ uses → o ∈ os → locked o = true).

Lemma explains_locked s0 h w i th o os :
  explains s0 uses h w → threads w !! i = Some th → todo th = o :: os →
  locked o = true.
Proof.
  intros He Hi Ht. apply (Hlocked (of_thread i h ++ todo th)).
  - by eapply list_elem_of_lookup_2, (ex_todo _ _ _ _ He).
  - rewrite Ht, elem_of_app. right. by left.
Qed.

(** Taking the mutex adds the operation to the history. *)
Lemma explains_lock s0 h s rs ths i o os :
  explains s0 uses h (mk_world (Done s) rs None ths) →
  ths !! i = Some (mk_thread None (o :: os)) →
  explains s0 uses (h ++ [(i, o)])
    (mk_world (Done s) rs (Some i) (<[i := mk_thread (Some (body o)) os]> ths)).
Proof.
  intros [Hl Hb Ht Hn Ho Hs] Hi. cbn [threads owner] in *.
  pose proof (lookup_lt_Some _ _ _ Hi) as Hlt.
  split; cbn [threads owner]; [by len| | | | |].
  - apply Forall_snoc; [done|]. cbn. by rewrite <- Hl.
  - intros j th' [(<- & <- & _)|(Hj & Hth)]%list_lookup_insert_Some;
      rewrite of_thread_snoc.
    + rewrite decide_True, <- app_assoc by done. exact (Ht _ _ Hi).
    + rewrite decide_False, app_nil_r by done. by apply Ht.
  - intros j th' [(<- & <- & _)|(Hj & Hth)]%list_lookup_insert_Some; [done|].
    specialize (Hn _ _ Hth). split; [|congruence]. intros E%Hn. done.
  - intros j [= <-]. rewrite list_lookup_insert_eq by done. by eexists.
  - rewrite in_turn_snoc, Hs. unfold settled. cbn [owner shared threads answers].
    by rewrite !bind_Done, list_lookup_insert_eq, body_spec by done.
Qed.

Lemma explains_step s0 h w w' :
  explains s0 uses h w → step w w' → ∃ h', explains s0 uses h' w'.
Proof.
  intros He Hstep.
  assert (Hin : ∀ s rs ow i ths c os, explains s0 uses h (mk_world s rs ow ths) →
    ths !! i = Some (mk_thread (Some c) os) → ow = Some i).
  { intros s rs ow i ths c os He' Hi. by apply (ex_now _ _ _ _ He' _ _ Hi). }
  destruct Hstep as [s rs i ths o os Hi Ho|s rs ow i ths o os Hi Ho
    |s rs ow i ths f os s' c Hi E|s rs ow i ths f os Hi Hf|s rs ow i ths r os Hi].
  - eexists. by apply explains_lock.
  - pose proof (explains_locked _ _ _ _ _ _ _ He Hi eq_refl). congruence.
  - exists h. pose proof (Hin _ _ _ _ _ _ _ He Hi) as ->.
    apply (explains_update _ _ _ _ _ _ _ _ _ _ _ _ _ He Hi); [by left|done|by left|].
    unfold settled. cbn [owner shared threads answers].
    rewrite list_lookup_insert_eq by (by eapply lookup_lt_Some).
    rewrite Hi, !bind_Done. cbn [alone]. by rewrite E.
  - exists h. pose proof (Hin _ _ _ _ _ _ _ He Hi) as ->.
    replace ths with (<[i := mk_thread (Some (Access f)) os]> ths)
      by (by apply list_insert_id).
    apply (explains_update _ _ _ _ _ _ _ _ _ _ _ _ _ He Hi); [by left|done|by left|].
    unfold settled. cbn [owner shared threads answers].
    rewrite list_lookup_insert_eq by (by eapply lookup_lt_Some).
    rewrite Hi, !bind_Done. cbn [alone].
    destruct (f s) as [x| | |]; [by destruct (Hf x)|done..].
  - exists h. pose proof (Hin _ _ _ _ _ _ _ He Hi) as ->. rewrite decide_True by done.
    apply (explains_update _ _ _ _ _ _ _ _ _ _ _ _ _ He Hi); [by left|done|by right|].
    unfold settled. cbn [owner shared threads answers]. by rewrite !bind_Done, Hi.
Qed.

Lemma explains_reachable s0 w :
  rtc step (start s0 uses) w → ∃ h, explains s0 uses h w.
Proof.
  intros Hr. assert (Hex : ∃ h, explains s0 uses h (start s0 uses))
    by (exists []; apply explains_start).
  revert Hex. induction Hr as [w|w w1 w2 Hs _ IH]; [done|].
  intros [h He]. apply IH. by eapply explains_step.
Qed.

(** Some thread can go on until all are finished, or an access failed. *)
Lemma explains_progress s0 h w s :
  explains s0 uses h w → shared w = Done s →
  Forall (λ th, th = mk_thread None []) (threads w) ∨ ∃ w', step w w'.
Proof.
  intros He Es. destruct w as [? rs [i|] ths]; cbn in Es; subst; cbn [threads].
  - right. destruct (ex_owner _ _ _ _ He i eq_refl) as [[n os] Hi]. cbn [threads] in Hi.
    pose proof (proj2 (ex_now _ _ _ _ He _ _ Hi) eq_refl) as Hn.
    destruct n as [[r|f]|]; [eexists; by eapply step_leave| |done].
    destruct (f s) as [[s' c]| | |] eqn:Ef;
      [eexists; by eapply step_access
      |eexists; eapply step_fail; [done|by rewrite Ef]..].
  - assert (Hidle : ∀ i n os, ths !! i = Some (mk_thread n os) → n = None).
    { intros i [c|] os Hi; [|done]. destruct (ex_now _ _ _ _ He _ _ Hi) as [Hn _].
      by assert (None = Some i) by by apply Hn. }
    destruct (decide (Forall (λ th, todo th = []) ths)) as [Hall|Hsome].
    + left. apply Forall_lookup. intros i [n os] Hi.
      pose proof (Forall_lookup_1 _ _ _ _ Hall Hi) as Ht. cbn in Ht. subst.
      by rewrite (Hidle _ _ _ Hi).
    + right. apply not_Forall_Exists, Exists_exists in Hsome as ([n os] & Hin & Hne);
        [|apply _]. apply list_elem_of_lookup in Hin as [i Hi].
      destruct os as [|o os]; [by destruct Hne|].
      rewrite (Hidle _ _ _ Hi) in Hi. eexists. eapply step_lock; [done|].
      by eapply explains_locked.
Qed.

End Machine.

Section Parts.
Context {S Op R : Type} `{!Operations S Op R}.

(** A part of a function runs in the rest of it: a context, whose first access
    is that of the part. *)
Definition context {A} (K : code S A → code S R) : Prop :=
  ∀ f s s' c, f s = Done (s', c) → ∃ g, K (Access f) = Access g ∧ g s = Done (s', K c).

Lemma context_bind {A} (k : A → code S R) : context (λ c, c ≫= k).
Proof. intros f s s' c E. eexists. split; [done|]. cbn. by rewrite E. Qed.

Lemma context_in {A B} (K : code S B → code S R) (k : A → code S B) :
  context K → context (λ c, K (c ≫= k)).
Proof. intros HK f s s' c E. apply HK. cbn. by rewrite E. Qed.

(** A thread goes on to the end of the part it is in. *)
Lemma context_steps {A} (K : code S A → code S R) c s a s' rs w i ths os :
  context K → alone c s = Done (a, s') →
  ths !! i = Some (mk_thread (Some (K c)) os) →
  rtc step (mk_world (Done s) rs w ths)
    (mk_world (Done s') rs w (<[i := mk_thread (Some (K (Ret a))) os]> ths)).
Proof.
  intros HK. revert s ths. induction c as [b|f IH] using code_induction; intros s ths Ha Hi.
  - injection Ha as <- <-. by rewrite list_insert_id.
  - cbn [alone] in Ha. destruct (f s) as [[s1 c1]| | |] eqn:Ef; [|done..].
    pose proof (lookup_lt_Some _ _ _ Hi) as Hlt. destruct (HK _ _ _ _ Ef) as (g & Eg & Hg).
    rewrite Eg in Hi. eapply rtc_l; [by eapply step_access|].
    etrans; [apply (IH _ _ _ Ef _ _ Ha); by apply list_lookup_insert_eq|].
    by rewrite list_insert_insert_eq.
Qed.

(** ** Parts that change nothing

    A thread in [c] comes to [c'], wherever the two are a part. *)
Definition reaches (s : S) {A} (c c' : code S A) : Prop :=
  ∀ K rs w i ths os, context K → ths !! i = Some (mk_thread (Some (K c)) os) →
    rtc step (mk_world (Done s) rs w ths)
      (mk_world (Done s) rs w (<[i := mk_thread (Some (K c')) os]> ths)).

Lemma reaches_refl s {A} (c : code S A) : reaches s c c.
Proof. intros K rs w i ths os _ Hi. by rewrite list_insert_id. Qed.

Lemma reaches_bind s {A B} (c : code S A) (k : A → code S B) a c' :
  alone c s = Done (a, s) → reaches s (k a) c' → reaches s (c ≫= k) c'.
Proof.
  intros Ha Hk K rs w i ths os HK Hi.
  pose proof (lookup_lt_Some _ _ _ Hi) as Hlt.
  etrans; [apply (context_steps (λ c, K (c ≫= k)) _ _ _ _ _ _ _ _ _ (context_in K k HK) Ha Hi)|].
  change (K (Ret a ≫= k)) with (K (k a)).
  rewrite <- (list_insert_insert_eq ths i (mk_thread (Some (K c')) os)
    (mk_thread (Some (K (k a))) os)).
  apply Hk; [done|]. by apply list_lookup_insert_eq.
Qed.

Lemma reaches_local s {A B} (o : outcome A) (k : A → code S B) a c' :
  o = Done a → reaches s (k a) c' → reaches s (local o ≫= k) c'.
Proof. intros ->. by apply reaches_bind. Qed.

(** The last thing an operation does is an access and its answer. *)
Lemma leaves {A} (c : code S A) r s a s' rs w i ths os :
  alone c s = Done (a, s') →
  ths !! i = Some (mk_thread (Some (_ ← c; Ret r)) os) →
  rtc step (mk_world (Done s) rs w ths)
    (mk_world (Done s') (rs ++ [(i, r)]) (if decide (w = Some i) then None else w)
      (<[i := mk_thread None os]> ths)).
Proof.
  intros Ha Hi. pose proof (lookup_lt_Some _ _ _ Hi) as Hlt.
  etrans; [by eapply (context_steps (λ c, c ≫= λ _, Ret r)); [apply context_bind|done..]|].
  rewrite <- (list_insert_insert_eq ths i (mk_thread None os) (mk_thread (Some (Ret r)) os)).
  apply rtc_once, step_leave. by apply list_lookup_insert_eq.
Qed.
End Parts.
