(* ===== verification/Threads.v ===== *)
(** * Threads and the mutex of the mempool: src/network.c, src/data.c

    The functions of src/data.c and src/build.c on the mempool as sequences of
    their accesses to it, and the cases of [handle_connection] that use them:
    CTYPE_TX, CTYPE_MEMPOOL and the request for transactions hold the mutex of
    the mempool, the additions and deletions of [data_blocks_revert] do not.
    Without interruption they are the definitions of Mempool.v, Build.v,
    Network.v and Receive.v, which makes them [Operations] of Machine.v. *)
From S2P Require Import Prelude Shared Util Crypto Unresolved Transactions Merkle Blocks Store Mempool Limbo Build Network Receive Machine.

(** ** The functions of the mempool *)

Section Pool.
Context `{TxNames, Malloc}.

Definition count_code : code Mempool Z := get (λ mp, Done (mp_count mp)).

(** the loop of [data_mempool_exists], with [n] rounds left *)
Fixpoint exists_loop (hash : list Z) (n : nat) (i : Z) : code Mempool Z :=
  match n with
  | O => Ret 0
  | Datatypes.S n =>
      s ← get (λ mp, rd (mp_txs mp) i);
      tx ← local (deref s);
      c ← local (memcmp (tx_hash tx) 0 hash 0 SIZE_SHA256);
      if c =? 0 then Ret 1 else exists_loop hash n (i + 1)
  end.

Definition exists_code (hash : list Z) : code Mempool Z :=
  count ← count_code; exists_loop hash (Z.to_nat count) 0.

(** [dbs->mempool->txs[dbs->mempool->count] = tx;]
    [dbs->mempool->count++;] *)
Definition store_code (tx : M_tx) : code Mempool () :=
  i ← count_code;
  _ ← put (λ mp, txs ← wr (mp_txs mp) i (Tx tx); Done (mk_mempool txs (mp_count mp)));
  count ← count_code;
  put (λ mp, Done (mk_mempool (mp_txs mp) (w32 (count + 1)))).

Definition add_code (hash : list Z) (size : Z) (data : list Z) (p : Z) : code Mempool () :=
  e ← exists_code hash;
  if negb (e =? 0) then Ret ()
  else
    n ← local (tx_compute_size data p);
    let bytes := uninit "tx.data" n in
    h ← local (tx_compute_hash bytes 0 (uninit "tx.hash" SIZE_SHA256));
    store_code (mk_tx h bytes n size).

(** [uint size = count], then the loop; [count--] reads the count again *)
Definition take_code (size i : Z) : code Mempool slot :=
  retval ← get (λ mp, rd (mp_txs mp) i);
  count ← count_code;
  let count := w32 (count - 1) in
  _ ← put (λ mp, Done (mk_mempool (mp_txs mp) count));
  _ ← (if 0 <? count then
         last ← get (λ mp, rd (mp_txs mp) size);
         put (λ mp, txs ← wr (mp_txs mp) i last; Done (mk_mempool txs (mp_count mp)))
       else Ret ());
  _ ← put (λ mp, txs ← wr (mp_txs mp) size Null; Done (mk_mempool txs (mp_count mp)));
  Ret retval.

Fixpoint del_loop (tx_object : M_tx → list Z) (hash : list Z) (size : Z) (n : nat)
    (i : Z) : code Mempool slot :=
  match n with
  | O => Ret Null
  | Datatypes.S n =>
      s ← get (λ mp, rd (mp_txs mp) i);
      tx ← local (deref s);
      c ← local (memcmp hash 0 (tx_object tx) 0 SIZE_SHA256);
      if c =? 0 then take_code size i else del_loop tx_object hash size n (i + 1)
  end.

Definition del_code (tx_object : M_tx → list Z) (hash : list Z) : code Mempool slot :=
  size ← count_code; del_loop tx_object hash size (Z.to_nat size) 0.

Definition get_code (i index : Z) : code Mempool slot :=
  count ← count_code;
  if count <=? index then Ret Null else get (λ mp, rd (mp_txs mp) i).

(** [build_mempool_list] *)
Definition list_code (tx_object : M_tx → list Z) (dest : list Z) (p : Z)
    : code Mempool (list Z) :=
  max ← count_code;
  for_code (Z.to_nat max) 0 (λ i dest,
    s ← get (λ mp, rd (mp_txs mp) i);
    tx ← local (deref s);
    src ← local (memread (tx_object tx) 0 SIZE_SHA256);
    local (memwrite dest (p + i * SIZE_SHA256) src)) dest.

Lemma exists_loop_alone hash n i mp :
  alone (exists_loop hash n i) mp =
    r ← for_ret n i (λ i _,
      s ← rd (mp_txs mp) i;
      tx ← deref s;
      c ← memcmp (tx_hash tx) 0 hash 0 SIZE_SHA256;
      if c =? 0 then Done (inr 1) else Done (inl ())) ();
    match r with inr v => Done (v, mp) | inl _ => Done (0, mp) end.
Proof.
  revert i. induction n as [|n IH]; intros i; [done|]. cbn [exists_loop for_ret].
  rewrite alone_get. destruct (rd (mp_txs mp) i) as [s| | |]; try done.
  rewrite !bind_Done, alone_local. destruct (deref s) as [tx| | |]; try done.
  rewrite !bind_Done, alone_local. destruct (memcmp _ _ _ _ _) as [c| | |]; try done.
  rewrite !bind_Done. destruct (c =? 0); [done|]. by rewrite IH.
Qed.

Lemma exists_code_alone hash mp :
  alone (exists_code hash) mp = e ← data_mempool_exists mp hash; Done (e, mp).
Proof.
  unfold exists_code, count_code, data_mempool_exists, for_range_ret.
  rewrite alone_get, bind_Done, exists_loop_alone, Z.sub_0_r.
  destruct (for_ret _ _ _ _) as [[[]|v]| | |]; done.
Qed.

Lemma store_code_alone tx mp :
  alone (store_code tx) mp =
    txs ← wr (mp_txs mp) (mp_count mp) (Tx tx);
    Done ((), mk_mempool txs (w32 (mp_count mp + 1))).
Proof.
  unfold store_code, count_code. rewrite alone_get, bind_Done, alone_put.
  by destruct (wr _ _ _).
Qed.

(** Without interruption [add_code] is [data_mempool_add]. *)
Lemma add_code_alone hash size data p mp :
  alone (add_code hash size data p) mp =
    mp' ← data_mempool_add hash size mp data p; Done ((), mp').
Proof.
  unfold add_code, data_mempool_add. rewrite alone_bind, exists_code_alone.
  destruct (data_mempool_exists mp hash) as [e| | |]; try done.
  rewrite !bind_Done. destruct (negb (e =? 0)); [done|].
  rewrite alone_local. destruct (tx_compute_size data p) as [n| | |]; try done.
  rewrite !bind_Done, alone_local. cbn zeta.
  destruct (tx_compute_hash _ _ _) as [h| | |]; try done.
  rewrite !bind_Done, store_code_alone. by destruct (wr _ _ _).
Qed.

Lemma take_code_alone mp i :
  alone (take_code (mp_count mp) i) mp =
    retval ← rd (mp_txs mp) i;
    let count := w32 (mp_count mp - 1) in
    txs ← (if 0 <? count then
             last ← rd (mp_txs mp) (mp_count mp); wr (mp_txs mp) i last
           else Done (mp_txs mp));
    txs ← wr txs (mp_count mp) Null;
    Done (retval, mk_mempool txs count).
Proof.
  unfold take_code, count_code. rewrite alone_get.
  destruct (rd (mp_txs mp) i) as [s| | |]; [|done..]. rewrite !bind_Done, alone_get, bind_Done.
  cbn zeta. rewrite alone_put, bind_Done, alone_bind, alone_if.
  destruct (0 <? w32 (mp_count mp - 1)).
  - rewrite alone_get. cbn [mp_txs]. destruct (rd _ (mp_count mp)) as [u| | |]; [|done..].
    rewrite !bind_Done. cbn [alone put mp_txs mp_count].
    destruct (wr (mp_txs mp) i u) as [txs| | |]; [|done..].
    rewrite !bind_Done. cbn [alone]. rewrite !bind_Done, alone_put. cbn [mp_txs mp_count].
    by destruct (wr txs (mp_count mp) Null).
  - cbn [alone]. rewrite !bind_Done, alone_put. cbn [mp_txs mp_count].
    by destruct (wr _ (mp_count mp) Null).
Qed.

Lemma del_code_alone tx_object hash mp :
  alone (del_code tx_object hash) mp = data_mempool_del tx_object mp hash.
Proof.
  unfold del_code, count_code, data_mempool_del, for_range_ret.
  rewrite alone_get, bind_Done, Z.sub_0_r.
  match goal with |- _ = for_ret _ _ ?b mp ≫= ?k =>
    enough (Hn : ∀ n i, alone (del_loop tx_object hash (mp_count mp) n i) mp =
      for_ret n i b mp ≫= k) by apply Hn end.
  induction n as [|n IH]; intros i; [done|]. cbn [del_loop for_ret].
  rewrite alone_get. destruct (rd (mp_txs mp) i) as [s| | |] eqn:E; [|done..].
  rewrite !bind_Done, alone_local. destruct (deref s) as [tx| | |]; [|done..].
  rewrite !bind_Done, alone_local. destruct (memcmp _ _ _ _ _) as [c| | |]; [|done..].
  rewrite !bind_Done. destruct (c =? 0); [|by rewrite IH].
  rewrite take_code_alone, E, !bind_Done. cbn zeta.
  destruct (if 0 <? _ then _ else _) as [txs| | |]; [|done..].
  rewrite !bind_Done. by destruct (wr txs (mp_count mp) Null).
Qed.

Lemma get_code_alone i index mp :
  alone (get_code i index) mp = s ← data_mempool_get i mp index; Done (s, mp).
Proof.
  unfold get_code, count_code, data_mempool_get. rewrite alone_get, bind_Done.
  destruct (mp_count mp <=? index); [done|]. cbn. by destruct (rd _ _).
Qed.

Lemma list_code_alone tx_object dest p mp :
  alone (list_code tx_object dest p) mp =
    dest ← build_mempool_list tx_object mp dest p; Done (dest, mp).
Proof.
  unfold list_code, count_code, build_mempool_list, for_range.
  rewrite alone_get, bind_Done, Z.sub_0_r. apply for_code_alone. intros i d.
  rewrite alone_get. destruct (rd (mp_txs mp) i) as [s| | |]; [|done..].
  rewrite !bind_Done, alone_local. destruct (deref s) as [tx| | |]; [|done..].
  rewrite !bind_Done, alone_local. destruct (memread _ _ _) as [src| | |]; [|done..].
  rewrite !bind_Done. cbn. by destruct (memwrite _ _ _).
Qed.
End Pool.

(** ** The operations of the threads *)

Section Uses.
Context `{BerkeleyDB, Host, TxNames, Malloc, BlockNames, !LimboNames, Sockets,
  !ReceiveNames}.
Context (mp_hash : list Z) (mp_size index0 : Z) (tx_object : M_tx → list Z).

(** the case CTYPE_TX, between the lock and the unlock *)
Definition on_tx_code (msg : list Z) : code Mempool () :=
  count ← count_code;
  if count <? MAX_MEMPOOL_SIZE then
    in_count ← local (btous msg (CTYPE_TX_POS_BODY + POS_TX_IN_COUNT));
    out_count ← local (btous msg (CTYPE_TX_POS_BODY + POS_TX_OUT_COUNT));
    lock_time ← local (btoui msg (CTYPE_TX_POS_BODY + POS_TX_LOCK_TIME));
    let body := CTYPE_TX_POS_BODY + POS_TX_BODY in
    tx ← local (m_tx_gen in_count out_count lock_time
      (drop (Z.to_nat body) msg)
      (drop (Z.to_nat (body + in_count * SIZE_TX_INPUT)) msg));
    add_code mp_hash mp_size (tx_data tx) 0
  else Ret ().

(** The request for transactions, between the lock and the unlock.  [c] is the
    connection of the thread; its mempool is the shared one, and the field of
    [c] is not looked at. *)
Definition serve_code (msg : list Z) (i : Z) (c : conn) : code Mempool conn :=
  e ← exists_code (drop (Z.to_nat i) msg);
  if e =? 0 then Ret c
  else
    s ← get_code index0 i;
    tx ← local (deref s);
    let size := tx_size tx in
    src ← local (memread (tx_data tx) 0 size);
    resp ← local (memwrite (c_resp c) CTYPE_TX_POS_TX src);
    resp ← local (uitob size resp CTYPE_TX_POS_SIZE);
    local (sendto_peer (with_resp c resp) CTYPE_TX resp (w32 (4 + size))).

Definition getdata_code (c : conn) (msg : list Z) : code Mempool conn :=
  count ← local (rd msg CTYPE_GETDATA_POS_IDS_COUNT);
  let rounds := (count - CTYPE_GETDATA_POS_IDS + SIZE_SHA256 - 1) / SIZE_SHA256 in
  for_code (Z.to_nat rounds) 0
    (λ k, serve_code msg (CTYPE_GETDATA_POS_IDS + k * SIZE_SHA256)) c.

(** What a thread does to the mempool: it received a transaction, was asked for
    the mempool or for transactions, or takes a block off the chain or puts
    one on, whose transactions go back to the mempool or leave it. *)
Inductive pool_use :=
| Received_tx (c : conn) (msg : list Z)
| Mempool_asked (resp : list Z)
| Tx_asked (c : conn) (msg : list Z)
| Reverted_tx (curr_block : list Z) (cursor : Z)
| Confirmed_tx (tx_hash : list Z).

Inductive pool_answer :=
| No_answer
| Hashes (resp : list Z)
| Replied (c : conn)
| Removed (s : slot).

Definition use_code (u : pool_use) : code Mempool pool_answer :=
  match u with
  | Received_tx _ msg => _ ← on_tx_code msg; Ret No_answer
  | Mempool_asked resp =>
      resp ← list_code tx_object resp CTYPE_INV_POS_IDS; Ret (Hashes resp)
  | Tx_asked c msg => c ← getdata_code c msg; Ret (Replied c)
  | Reverted_tx curr_block cursor =>
      _ ← add_code mp_hash mp_size curr_block cursor; Ret No_answer
  | Confirmed_tx tx_hash => s ← del_code tx_object tx_hash; Ret (Removed s)
  end.

(** whether the caller holds the mutex of the mempool *)
Definition use_locked (u : pool_use) : bool :=
  match u with
  | Received_tx _ _ | Mempool_asked _ | Tx_asked _ _ => true
  | Reverted_tx _ _ | Confirmed_tx _ => false
  end.

(** *** The same without interruption *)

Definition with_pool (c : conn) (mp : Mempool) : conn := with_dbs c (c_dbs c) mp.

Definition use_spec (u : pool_use) (mp : Mempool) : outcome (pool_answer * Mempool) :=
  match u with
  | Received_tx c msg =>
      c ← on_tx mp_hash mp_size (with_pool c mp) msg; Done (No_answer, c_pool c)
  | Mempool_asked resp =>
      resp ← build_mempool_list tx_object mp resp CTYPE_INV_POS_IDS;
      Done (Hashes resp, mp)
  | Tx_asked c msg =>
      c' ← on_getdata_tx index0 (with_pool c mp) msg;
      Done (Replied (with_pool c' (c_pool c)), mp)
  | Reverted_tx curr_block cursor =>
      mp ← data_mempool_add mp_hash mp_size mp curr_block cursor; Done (No_answer, mp)
  | Confirmed_tx tx_hash =>
      '(s, mp) ← data_mempool_del tx_object mp tx_hash; Done (Removed s, mp)
  end.

Lemma on_tx_code_alone c mp msg :
  alone (on_tx_code msg) mp =
    c ← on_tx mp_hash mp_size (with_pool c mp) msg; Done ((), c_pool c).
Proof.
  unfold on_tx_code, on_tx, count_code. rewrite alone_get, bind_Done. cbn [c_pool with_pool with_dbs].
  destruct (mp_count mp <? MAX_MEMPOOL_SIZE); [|done].
  cbn zeta. rewrite alone_local.
  destruct (btous _ (_ + POS_TX_IN_COUNT)) as [i| | |]; try done.
  rewrite !bind_Done, alone_local.
  destruct (btous _ (_ + POS_TX_OUT_COUNT)) as [o| | |]; try done.
  rewrite !bind_Done, alone_local. destruct (btoui _ _) as [t| | |]; try done.
  rewrite !bind_Done, alone_local. destruct (m_tx_gen _ _ _ _ _) as [tx| | |]; try done.
  rewrite !bind_Done, add_code_alone. by destruct (data_mempool_add _ _ _ _ _).
Qed.

Lemma sendto_peer_pool c mp t msg n :
  sendto_peer (with_pool c mp) t msg n =
    c' ← sendto_peer c t msg n; Done (with_pool c' mp).
Proof.
  unfold sendto_peer. do 3 (destruct (wr _ _ _) as [?| | |]; [|done..]; rewrite !bind_Done).
  destruct (if 0 <? n then _ else _) as [r| | |]; [|done..]. rewrite !bind_Done.
  destruct (memread r _ _) as [bs| | |]; [|done..]. rewrite !bind_Done.
  by destruct (sendto bs <? 0).
Qed.

(** a round of the request for transactions, on a connection without mempool *)
Definition serve_with (mp : Mempool) (msg : list Z) (i : Z) (c : conn) : outcome conn :=
  c' ← serve_tx index0 msg i (with_pool c mp); Done (with_pool c' (c_pool c)).

Lemma sendto_peer_keeps_pool c t msg n c' :
  sendto_peer c t msg n = Done c' → with_pool c' (c_pool c) = c'.
Proof.
  unfold sendto_peer. intros (r0 & _ & Hr)%bind_Done_inv.
  do 4 (apply bind_Done_inv in Hr as (? & _ & Hr)).
  destruct (sendto _ <? 0); [done|]. by injection Hr as <-.
Qed.

Lemma serve_tx_pool c mp msg i :
  serve_tx index0 msg i (with_pool c mp) =
    c' ← serve_with mp msg i c; Done (with_pool c' mp).
Proof.
  unfold serve_with, serve_tx. change (c_pool (with_pool c mp)) with mp.
  destruct (data_mempool_exists _ _) as [e| | |]; [|done..]. rewrite !bind_Done.
  destruct (e =? 0); [done|].
  destruct (data_mempool_get _ _ _) as [s| | |]; [|done..]. rewrite !bind_Done.
  destruct (deref s) as [tx| | |]; [|done..]. rewrite !bind_Done.
  destruct (memread _ _ _) as [src| | |]; [|done..]. rewrite !bind_Done.
  destruct (memwrite _ _ _) as [r1| | |]; [|done..]. rewrite !bind_Done.
  destruct (uitob _ _ _) as [r2| | |]; [|done..]. rewrite !bind_Done.
  change (with_resp (with_pool c mp) r2) with (with_pool (with_resp c r2) mp).
  rewrite sendto_peer_pool. by destruct (sendto_peer _ _ _ _).
Qed.

Lemma serve_code_alone msg i c mp :
  alone (serve_code msg i c) mp = c' ← serve_with mp msg i c; Done (c', mp).
Proof.
  unfold serve_code, serve_with, serve_tx. rewrite alone_bind, exists_code_alone.
  change (c_pool (with_pool c mp)) with mp. change (c_resp (with_pool c mp)) with (c_resp c).
  destruct (data_mempool_exists _ _) as [e| | |]; [|done..]. rewrite !bind_Done.
  destruct (e =? 0); [by destruct c|].
  rewrite alone_bind, get_code_alone.
  destruct (data_mempool_get _ _ _) as [s| | |]; [|done..]. rewrite !bind_Done, alone_local.
  destruct (deref s) as [tx| | |]; [|done..]. rewrite !bind_Done. cbn zeta. rewrite alone_local.
  destruct (memread _ _ _) as [src| | |]; [|done..]. rewrite !bind_Done, alone_local.
  destruct (memwrite _ _ _) as [r1| | |]; [|done..]. rewrite !bind_Done, alone_local.
  destruct (uitob _ _ _) as [r2| | |]; [|done..]. rewrite !bind_Done.
  change (with_resp (with_pool c mp) r2) with (with_pool (with_resp c r2) mp).
  rewrite sendto_peer_pool. cbn [alone local].
  destruct (sendto_peer (with_resp c r2) CTYPE_TX r2 (w32 (4 + tx_size tx))) as [c'| | |] eqn:E;
    [|done..].
  rewrite !bind_Done. cbn [alone]. by rewrite <- (sendto_peer_keeps_pool _ _ _ _ _ E) at 1.
Qed.

Lemma getdata_code_alone c msg mp :
  alone (getdata_code c msg) mp =
    c' ← on_getdata_tx index0 (with_pool c mp) msg; Done (with_pool c' (c_pool c), mp).
Proof.
  unfold getdata_code, on_getdata_tx, for_step, for_range. rewrite alone_local.
  destruct (rd msg _) as [count| | |]; [|done..]. rewrite !bind_Done, Z.sub_0_r. cbn zeta.
  rewrite (for_code_alone (λ k, serve_with mp msg (CTYPE_GETDATA_POS_IDS + k * SIZE_SHA256)))
    by (intros; apply serve_code_alone).
  generalize (Z.to_nat ((count - CTYPE_GETDATA_POS_IDS + SIZE_SHA256 - 1) / SIZE_SHA256)).
  set (f k := serve_with mp msg _). set (g k := serve_tx index0 msg _).
  assert (Hg : ∀ k c0, g k (with_pool c0 mp) = c' ← f k c0; Done (with_pool c' mp))
    by (intros; apply serve_tx_pool).
  intros n. enough (Hn : ∀ i c0, c_pool c0 = c_pool c →
    (c' ← for_n n i f c0; Done (c', mp)) =
    c' ← for_n n i g (with_pool c0 mp); Done (with_pool c' (c_pool c), mp)) by by apply Hn.
  induction n as [|n IH]; intros i c0 Hc.
  { cbn [for_n]. rewrite !bind_Done, <- Hc. by destruct c0. }
  cbn [for_n]. rewrite Hg.
  destruct (f i c0) as [c1| | |] eqn:E; [|done..]. rewrite !bind_Done. apply IH.
  unfold f, serve_with in E. apply bind_Done_inv in E as (c2 & _ & [= <-]). done.
Qed.

Lemma use_code_spec u mp : alone (use_code u) mp = use_spec u mp.
Proof.
  destruct u as [c msg|resp|c msg|b cur|h]; cbn [use_code use_spec]; rewrite alone_bind.
  - rewrite (on_tx_code_alone c). by destruct (on_tx _ _ _ _).
  - rewrite list_code_alone. by destruct (build_mempool_list _ _ _ _).
  - rewrite getdata_code_alone. by destruct (on_getdata_tx _ _ _).
  - rewrite add_code_alone. by destruct (data_mempool_add _ _ _ _ _).
  - rewrite del_code_alone. by destruct (data_mempool_del _ _ _) as [[]| | |].
Qed.

#[export] Instance pool_operations : Operations Mempool pool_use pool_answer := {|
  body := use_code;
  locked := use_locked;
  spec := use_spec;
  body_spec := use_code_spec
|}.

(** C14: The mempool is linearizable under its mutex: however the accesses of
    threads that receive transactions, are asked for the mempool and for
    transactions are interleaved, there is one order of the operations begun,
    each thread's in its own order, such that the pool and every answer, once
    the holder of the mutex is done, are those of on_tx, build_mempool_list
    and on_getdata_tx one after the other; and until an access fails or all
    threads are finished some thread can go on. *)
Theorem mempool_threads_serial mp uses w :
  (∀ us u, us ∈ uses → u ∈ us → use_locked u = true) →
  rtc step (start mp uses) w →
  (∃ history : list (nat * pool_use),
    Forall (λ p, (p.1 < length uses)%nat) history ∧
    (∀ i th, threads w !! i = Some th →
       uses !! i = Some (of_thread i history ++ todo th)) ∧
    settled w = in_turn history mp) ∧
  (∀ mp', shared w = Done mp' →
     Forall (λ th, th = mk_thread None []) (threads w) ∨ ∃ w', step w w').
Proof.
  intros Hl Hr. destruct (@explains_reachable _ _ _ pool_operations uses Hl mp w Hr) as [h He]. split.
  - exists h. split; [apply He|]. split; [apply He|]. symmetry. apply He.
  - intros mp'. by eapply explains_progress.
Qed.

(** *** An addition without the mutex *)

(** what [store_code t] does to the pool *)
Definition stored (mp : Mempool) (t : M_tx) : Mempool :=
  mk_mempool (<[Z.to_nat (mp_count mp) := Tx t]> (mp_txs mp)) (w32 (mp_count mp + 1)).

Lemma add_reaches mp ts hash size data p mp' :
  hash_keeps_length → holds mp ts → length hash = 32%nat → known ts hash = false →
  data_mempool_add hash size mp data p = Done mp' →
  ∃ t, length (tx_hash t) = 32%nat ∧ mp' = stored mp t ∧
    reaches mp (add_code hash size data p) (store_code t).
Proof.
  intros Hk Hh Hl Hun. unfold data_mempool_add.
  rewrite (data_mempool_exists_run _ _ _ Hh Hl), Hun, bind_Done. cbn [negb Z.eqb].
  intros (n & En & (h & Eh & (txs & Etxs & [= <-])%bind_Done_inv)%bind_Done_inv)%bind_Done_inv.
  exists (mk_tx h (uninit "tx.data" n) n size).
  unfold wr in Etxs. destruct (_ && _); [injection Etxs as <-|done].
  split; [|split; [done|]].
  - pose proof (length_uninit "tx.hash" SIZE_SHA256 ltac:(done)) as Lu.
    pose proof (Hk _ _ _ _ Eh). unfold SIZE_SHA256 in *. cbn. lia.
  - eapply reaches_bind; [by rewrite exists_code_alone, (data_mempool_exists_run _ _ _ Hh Hl), Hun|].
    cbn [negb Z.eqb]. do 2 (eapply reaches_local; [done|]). apply reaches_refl.
Qed.

Lemma on_tx_reaches c ts msg c' :
  hash_keeps_length → holds (c_pool c) ts → length mp_hash = 32%nat →
  known ts mp_hash = false → mp_count (c_pool c) < MAX_MEMPOOL_SIZE →
  on_tx mp_hash mp_size c msg = Done c' →
  ∃ t, length (tx_hash t) = 32%nat ∧ c_pool c' = stored (c_pool c) t ∧
    reaches (c_pool c) (on_tx_code msg) (store_code t).
Proof.
  intros Hk Hh Hl Hun Hroom. unfold on_tx, on_tx_code.
  rewrite (proj2 (Z.ltb_lt _ _) Hroom). cbn zeta.
  intros (i & Ei & (o & Eo & (l & El & (tx & Et & (pool & Ea &
    [= <-])%bind_Done_inv)%bind_Done_inv)%bind_Done_inv)%bind_Done_inv)%bind_Done_inv.
  destruct (add_reaches _ _ _ _ _ _ _ Hk Hh Hl Hun Ea) as (t & Ht & -> & Hr).
  exists t. split; [done|]. split; [done|].
  eapply reaches_bind; [done|]. cbn beta. rewrite (proj2 (Z.ltb_lt _ _) Hroom).
  do 4 (eapply reaches_local; [done|]). exact Hr.
Qed.

(** what is left of [store_code t] when the count [n] has been read *)
Definition store_at (n : Z) (t : M_tx) : code Mempool () :=
  _ ← put (λ mp, txs ← wr (mp_txs mp) n (Tx t); Done (mk_mempool txs (mp_count mp)));
  count ← count_code;
  put (λ mp, Done (mk_mempool (mp_txs mp) (w32 (count + 1)))).

Lemma store_reaches mp t : reaches mp (store_code t) (store_at (mp_count mp) t).
Proof. eapply reaches_bind; [done|]. apply reaches_refl. Qed.

Lemma store_at_alone mp n t :
  0 ≤ n < Z.of_nat (length (mp_txs mp)) →
  alone (store_at n t) mp =
    Done ((), mk_mempool (<[Z.to_nat n := Tx t]> (mp_txs mp)) (w32 (mp_count mp + 1))).
Proof. intros Hn. unfold store_at. rewrite alone_put. by rewrite wr_Done. Qed.

(** the rest of an operation that answers nothing *)
Definition answered (c : code Mempool ()) : code Mempool pool_answer :=
  _ ← c; Ret No_answer.

Lemma answered_context : context answered.
Proof. apply (context_bind (λ _, Ret No_answer)). Qed.

(** Two stores at the same count: the thread with the mutex stops after it has
    read the count, the other comes to its end, then the first goes on. *)
Definition raced (mp : Mempool) (t : M_tx) : Mempool :=
  mk_mempool (<[Z.to_nat (mp_count mp) := Tx t]> (mp_txs mp)) (w32 (mp_count mp + 2)).

Lemma store_race mp t t' us us' :
  0 ≤ mp_count mp < Z.of_nat (length (mp_txs mp)) → mp_count mp + 2 < 2 ^ 32 →
  rtc step
    (mk_world (Done mp) [] (Some 0%nat)
       [mk_thread (Some (_ ← store_code t; Ret No_answer)) us;
        mk_thread (Some (_ ← store_code t'; Ret No_answer)) us'])
    (mk_world (Done (raced mp t)) [(1%nat, No_answer); (0%nat, No_answer)] None
       [mk_thread None us; mk_thread None us']).
Proof.
  intros Hc Hb.
  etrans; [by eapply (store_reaches mp t answered _ _ 0%nat _ _ answered_context)|].
  etrans; [by eapply (store_reaches mp t' answered _ _ 1%nat _ _ answered_context)|].
  etrans; [by eapply (leaves _ _ _ _ _ _ _ 1%nat); [by apply store_at_alone|]|].
  etrans; [eapply (leaves (store_at (mp_count mp) t) _ _ _ _ _ _ 0%nat);
    [apply store_at_alone; cbn [mp_txs]; by len|done]|].
  cbn. rewrite !decide_True, list_insert_insert_eq by done.
  rewrite (w32_id (mp_count mp + 1)) by lia.
  rewrite <- Z.add_assoc. unfold raced. by cbn.
Qed.

(** C15: data_blocks_revert adds to the mempool without its mutex: an addition
    of a received transaction and one of a block just taken off the chain,
    each fine alone, can end with a pool that counts both and holds only the
    received one, so that looking up any hash it does not hold reads the
    pointer behind, which is not one. *)
Theorem mempool_race c ts msg curr_block cursor c1 mp2 :
  hash_keeps_length → holds (c_pool c) ts → length mp_hash = 32%nat →
  known ts mp_hash = false → mp_count (c_pool c) < MAX_MEMPOOL_SIZE →
  Z.of_nat (length ts) + 2 ≤ TX_COUNT_SOFT_LIMIT →
  on_tx mp_hash mp_size c msg = Done c1 →
  data_mempool_add mp_hash mp_size (c_pool c) curr_block cursor = Done mp2 →
  ∃ t t' mp answers,
    c_pool c1 = stored (c_pool c) t ∧ holds (c_pool c1) (ts ++ [t]) ∧
    mp2 = stored (c_pool c) t' ∧ holds mp2 (ts ++ [t']) ∧
    rtc step (start (c_pool c) [[Received_tx c msg]; [Reverted_tx curr_block cursor]])
      (mk_world (Done mp) answers None [mk_thread None []; mk_thread None []]) ∧
    mp_count mp = Z.of_nat (length ts) + 2 ∧
    mp_txs mp = mp_txs (c_pool c1) ∧
    (∀ h, length h = 32%nat → known (ts ++ [t]) h = false →
       data_mempool_exists mp h = Undef).
Proof.
  intros Hk Hh Hl Hun Hroom Hfit E1 E2. unfold TX_COUNT_SOFT_LIMIT in Hfit.
  pose proof (holds_count _ _ Hh) as Hc. pose proof (holds_length _ _ Hh) as Hlen.
  destruct (on_tx_reaches _ _ _ _ Hk Hh Hl Hun Hroom E1) as (t & Ht & Ep & Hr1).
  destruct (add_reaches _ _ _ _ _ _ _ Hk Hh Hl Hun E2) as (t' & Ht' & -> & Hr2).
  assert (Hst : ∀ u, length (tx_hash u) = 32%nat → holds (stored (c_pool c) u) (ts ++ [u])).
  { intros u Hu. unfold stored. rewrite Hc, Nat2Z.id, <- Hc.
    apply holds_snoc; [done|unfold TX_COUNT_SOFT_LIMIT; lia|done]. }
  exists t, t', (raced (c_pool c) t), [(1%nat, No_answer); (0%nat, No_answer)]. rewrite Ep.
  split; [done|]. split; [by apply Hst|]. split; [done|]. split; [by apply Hst|].
  split; [|split; [|split; [done|]]].
  - unfold start. cbn [fmap list_fmap].
    eapply rtc_l; [by eapply (step_lock _ _ 0%nat)|]. cbn [list_insert insert body].
    etrans; [by eapply (Hr1 answered _ _ 0%nat _ _ answered_context)|]. cbn [list_insert insert].
    eapply rtc_l; [by eapply (step_enter _ _ _ 1%nat)|]. cbn [list_insert insert body].
    etrans; [by eapply (Hr2 answered _ _ 1%nat _ _ answered_context)|]. cbn [list_insert insert].
    apply store_race; lia.
  - cbn. rewrite Hc, w32_id by lia. done.
  - intros h Hlh Hkn. pose proof (Hst t Ht) as [_ _ _ Htx Hb Hhs].
    assert (Hlt : (length (ts ++ [t]) < 500)%nat) by (rewrite length_app; cbn; lia).
    destruct (lookup_lt_is_Some_2 (mp_txs (raced (c_pool c) t)) (length (ts ++ [t])))
      as [s Hs]; [unfold raced; cbn [mp_txs]; len; lia|].
    apply (exists_at_hole _ (ts ++ [t]) s h); try done.
    + apply (Hb (length (ts ++ [t]))); [done| |done]. rewrite length_app. cbn. lia.
    + unfold raced. cbn [mp_count]. rewrite Hc, w32_id, length_app by lia. cbn. lia.
Qed.
End Uses.

(** ** Instances *)

(** a received transaction without inputs and outputs *)
Definition sample_msg : list Z := replicate 64 0.

Definition thread_names : TxNames := hash_all_with (@tx_gen sample_names).

Definition sample_pool_conn : @conn gmap_db :=
  @mk_conn gmap_db sample_dbs mempool_init [] [] [].

Definition stored_tx : M_tx := mk_tx (digest (replicate 10 0xa5)) (replicate 10 0xa5) 10 0.

Definition sample_operations : Operations Mempool (@pool_use gmap_db) (@pool_answer gmap_db) :=
  @pool_operations gmap_db host_be thread_names sample_malloc sample_sockets
    sample_receive (replicate 32 9) 0 0 padded_hash.

(** One connection is asked for the mempool, the other received a transaction
    and has the mutex. *)
Definition sample_uses : list (list (@pool_use gmap_db)) :=
  [[@Mempool_asked gmap_db (replicate 40 7)]; [@Received_tx gmap_db sample_pool_conn sample_msg]].

Definition sample_world : world Mempool (@pool_use gmap_db) (@pool_answer gmap_db) :=
  mk_world (Done mempool_init) [] (Some 1%nat)
    [mk_thread None [@Mempool_asked gmap_db (replicate 40 7)];
     mk_thread (Some (@body _ _ _ sample_operations
       (@Received_tx gmap_db sample_pool_conn sample_msg))) []].

Lemma mempool_threads_serial_witness :
  ∃ history : list (nat * @pool_use gmap_db),
    Forall (λ p, (p.1 < 2)%nat) history ∧
    @in_turn _ _ _ sample_operations history mempool_init =
      Done ([(1%nat, @No_answer gmap_db)],
            mk_mempool (Tx stored_tx :: replicate 499 Unset) 1).
Proof.
  destruct (@mempool_threads_serial gmap_db host_be thread_names sample_malloc sample_sockets
    sample_receive (replicate 32 9) 0 0 padded_hash mempool_init sample_uses sample_world)
    as [(history & Hb & _ & Hs) _].
  - intros us u Hus Hu. unfold sample_uses in Hus.
    repeat (apply elem_of_cons in Hus as [->|Hus]); [| |by apply not_elem_of_nil in Hus].
    all: apply list_elem_of_singleton in Hu as ->; reflexivity.
  - apply rtc_once. unfold start, sample_uses.
    exact (@step_lock _ _ _ sample_operations mempool_init [] 1%nat
      [mk_thread None [@Mempool_asked gmap_db (replicate 40 7)];
       mk_thread None [@Received_tx gmap_db sample_pool_conn sample_msg]]
      (@Received_tx gmap_db sample_pool_conn sample_msg) [] eq_refl eq_refl).
  - exists history. split; [exact Hb|].
    etransitivity; [symmetry; exact Hs|]. vm_compute. reflexivity.
Defined.

(** The new transaction is the one of the message, what is lost that of the
    block; the slot behind it is unset. *)
Lemma mempool_race_witness :
  ∃ t' mp answers,
    @rtc (world Mempool (@pool_use gmap_db) (@pool_answer gmap_db))
      (@step _ _ _ sample_operations)
      (start mempool_init [[@Received_tx gmap_db sample_pool_conn sample_msg];
                           [@Reverted_tx gmap_db (sample_tx 7) 0]])
      (mk_world (Done mp) answers None [mk_thread None []; mk_thread None []]) ∧
    holds (mk_mempool (Tx stored_tx :: replicate 499 Unset) 1) [t'] ∧ mp_count mp = 2 ∧
    data_mempool_exists mp (replicate 32 1) = Undef.
Proof.
  destruct (@mempool_race gmap_db host_be thread_names sample_malloc sample_sockets
    sample_receive (replicate 32 9) 0 0 padded_hash sample_pool_conn [] sample_msg
    (sample_tx 7) 0
    (@mk_conn gmap_db sample_dbs (mk_mempool (Tx stored_tx :: replicate 499 Unset) 1) [] [] [])
    (mk_mempool (Tx stored_tx :: replicate 499 Unset) 1)
    (hash_all_keeps_length _) mempool_init_holds eq_refl eq_refl)
    as (t & t' & mp & answers & _ & H1 & _ & H2 & Hr & Hc & _ & Hu).
  - reflexivity.
  - unfold TX_COUNT_SOFT_LIMIT. cbn. lia.
  - vm_compute. reflexivity.
  - vm_compute. reflexivity.
  - pose proof (holds_txs _ _ H1 0%nat t eq_refl) as Ht. injection Ht as <-.
    exists t', mp, answers. split; [exact Hr|]. split; [exact H2|]. split; [exact Hc|].
    apply Hu; [reflexivity|]. vm_compute. reflexivity.
Defined.
