(* ===== verification/Listen.v ===== *)
(** * src/network.c: the listener and outgoing connections

    [server_listener] and [start_client_conn] against the results of the
    socket calls.  Both start a thread of [handle_connection] and pass it the
    address of their variable [peer], not the [Peer] it points to; neither
    the connection nor the port of an outgoing connection is stored. *)
From S2P Require Import Prelude Shared Util.

(** what a call of [accept] yields: its return value and the address *)
Record accepted := mk_accepted {
  acc_connfd : Z;
  acc_port : Z;
  acc_addr : Z
}.

(** the fields of a [Peer] the listener stores *)
Record listener_peer := mk_listener_peer {
  lp_port : Z;
  lp_addr : Z;
  lp_connfd : Z
}.

(** the argument of a thread: the address of a local variable, or that of the
    [n]-th [Peer] *)
Inductive thread_arg := Local_variable | Peer_number (n : nat).

Record listener := mk_listener {
  ln_ready : Z;
  ln_peers : list listener_peer;
  ln_threads : list thread_arg
}.

Section Listen.

(** One round of [while (1)]. The address is that of the undeclared [sin_addr],
    the argument [sin_addr]. *)
Definition accept_one (sin_addr : Z) (l : listener) (a : accepted) : outcome listener :=
  if acc_connfd a <? 0 then Fatal
  else
    Done (mk_listener (ln_ready l)
            (ln_peers l ++ [mk_listener_peer (w32 (acc_port a)) sin_addr (acc_connfd a)])
            (ln_threads l ++ [Local_variable])).

(** The loop, as long as there are connections to accept. *)
Fixpoint accept_all (sin_addr : Z) (l : listener) (accepts : list accepted)
    : outcome listener :=
  match accepts with
  | [] => Done l
  | a :: accepts => l ← accept_one sin_addr l a; accept_all sin_addr l accepts
  end.

(** [sockfd], [bound] and [listening] are what [socket], [bind] and [listen]
    return, [server_ready] the field of the network before. *)
Definition server_listener (sockfd bound listening sin_addr server_ready : Z)
    (accepts : list accepted) : outcome listener :=
  if sockfd <? 0 then Fatal
  else if bound <? 0 then Fatal
  else if listening <? 0 then Fatal
  else accept_all sin_addr (mk_listener 1 [] []) accepts.

(** The value returned, with the arguments of the threads started. *)
Definition start_client_conn (connfd connected : Z) : outcome (Z * list thread_arg) :=
  if connfd <? 0 then Fatal
  else if connected <? 0 then Done (-1, [])
  else Done (connfd, [Local_variable]).

(** ** What they do *)

(** the listener after the connections [accepts] *)
Definition listening_with (sin_addr : Z) (accepts : list accepted) : listener :=
  mk_listener 1
    ((λ a, mk_listener_peer (w32 (acc_port a)) sin_addr (acc_connfd a)) <$> accepts)
    (replicate (length accepts) Local_variable).

Lemma accept_one_run sin_addr before a :
  0 ≤ acc_connfd a →
  accept_one sin_addr (listening_with sin_addr before) a =
    Done (listening_with sin_addr (before ++ [a])).
Proof.
  intros Ha. unfold accept_one, listening_with.
  rewrite (proj2 (Z.ltb_ge _ _) Ha). cbn [ln_ready ln_peers ln_threads].
  rewrite fmap_app, length_app. cbn [length fmap list_fmap].
  by rewrite replicate_add.
Qed.

Lemma accept_all_run sin_addr before accepts :
  accept_all sin_addr (listening_with sin_addr before) accepts =
    if decide (Forall (λ a, 0 ≤ acc_connfd a) accepts)
    then Done (listening_with sin_addr (before ++ accepts)) else Fatal.
Proof.
  revert before. induction accepts as [|a accepts IH]; intros before; cbn [accept_all].
  { rewrite decide_True by constructor. by rewrite app_nil_r. }
  destruct (decide (0 ≤ acc_connfd a)) as [Ha|Ha].
  - rewrite accept_one_run, bind_Done, IH, <- app_assoc by done. cbn [app].
    destruct (decide (Forall _ accepts)) as [Hf|Hf];
      [rewrite decide_True by by constructor|rewrite decide_False by by intros [? ?]%Forall_cons_1];
      done.
  - rewrite decide_False by by intros [? ?]%Forall_cons_1.
    unfold accept_one. by rewrite (proj2 (Z.ltb_lt _ _)) by lia.
Qed.

(** The listener is ready once the socket listens; any failure, of a single
    [accept] too, ends the program, and every thread is given the address of
    the local variable. *)
Theorem server_listener_spec sockfd bound listening sin_addr ready accepts :
  server_listener sockfd bound listening sin_addr ready accepts =
    if decide (0 ≤ sockfd ∧ 0 ≤ bound ∧ 0 ≤ listening ∧
               Forall (λ a, 0 ≤ acc_connfd a) accepts)
    then Done (listening_with sin_addr accepts) else Fatal.
Proof.
  unfold server_listener.
  destruct (Z.ltb_spec sockfd 0); [by rewrite decide_False by lia|].
  destruct (Z.ltb_spec bound 0); [by rewrite decide_False by lia|].
  destruct (Z.ltb_spec listening 0); [by rewrite decide_False by lia|].
  change (mk_listener 1 [] []) with (listening_with sin_addr []).
  rewrite accept_all_run. do 2 case_decide; try done; tauto.
Qed.

End Listen.
