(* ===== verification/Join.v ===== *)
(** * src/network.c: join_network and the mutex of the peers

    The function runs while other threads may take [peers_mutex], so it is a
    transition system: a program counter for the function, the holder of the
    mutex, and the fields of [Network] it reads.  The mutex is a default one:
    it is not recursive.  [peers[0]->connfd] and the initial [peers_count] are
    never set, so the test of the one after an attempt to connect
    ([connected]) may go either way and the other is any number. *)
From stdpp Require Import relations.
From S2P Require Import Prelude Shared Util.

Inductive thread := Main | Other.

(** the points of [join_network] between its steps *)
Inductive point :=
| Lock1       (** before the lock of the first loop *)
| Test1       (** the test of [peers_count] and the attempt to connect *)
| Unlock1
| Send        (** after the [break]: the request for nodes *)
| Create      (** [pthread_create] of the listener *)
| Lock2       (** before the lock of the second loop *)
| Test2       (** the test of [server_ready], [sleep] *)
| Unlock2
| Return.

Record state := mk_state {
  pc : point;
  holder : option thread;
  peers_count : Z;
  server_started : bool;
  server_ready : Z
}.

(** a stub of data.c: no initial node is ever found *)
Definition data_nodes_get_initial : Z := 1.

Inductive step : state → state → Prop :=
| step_lock1 n b r :
    step (mk_state Lock1 None n b r) (mk_state Test1 (Some Main) n b r)
| step_break m n b r :
    0 < n → step (mk_state Test1 m n b r) (mk_state Send m n b r)
| step_connect m n b r (connected : bool) :
    ¬ 0 < n →
    step (mk_state Test1 m n b r)
      (mk_state Unlock1 m (if connected then w32 (n + 1) else n) b r)
| step_unlock1 n b r :
    step (mk_state Unlock1 (Some Main) n b r) (mk_state Lock1 None n b r)
| step_send m n b r : step (mk_state Send m n b r) (mk_state Create m n b r)
| step_create m n b r :
    step (mk_state Create m n b r) (mk_state Lock2 m n true r)
| step_lock2 n b r :
    step (mk_state Lock2 None n b r) (mk_state Test2 (Some Main) n b r)
| step_sleep m n b r : step (mk_state Test2 m n b r) (mk_state Unlock2 m n b r)
| step_unlock2 n b r :
    step (mk_state Unlock2 (Some Main) n b r) (mk_state Lock2 None n b r)
(** the other threads: the listener and the connections *)
| step_other_lock p n b r :
    step (mk_state p None n b r) (mk_state p (Some Other) n b r)
| step_other_unlock p n b r :
    step (mk_state p (Some Other) n b r) (mk_state p None n b r)
| step_ready p m n r :
    step (mk_state p m n true r) (mk_state p m n true 1).

(** [malloc] leaves any [peers_count]; [server_ready] is set to 0. *)
Definition initial (s : state) : Prop :=
  ∃ n, s = mk_state Lock1 None n false 0.

Definition reachable (s : state) : Prop := ∃ s0, initial s0 ∧ rtc step s0 s.

(** After the [break] the function holds the mutex and never goes past the
    lock of the second loop. *)
Definition join_inv (s : state) : Prop :=
  match pc s with
  | Lock1 => True
  | Test1 | Unlock1 => holder s = Some Main
  | Send | Create | Lock2 => holder s = Some Main ∧ 0 < peers_count s
  | Test2 | Unlock2 | Return => False
  end.

Lemma join_inv_step s s' : join_inv s → step s s' → join_inv s'.
Proof.
  unfold join_inv. intros HI Hs. destruct Hs; cbn in *; try done;
    try (destruct p; naive_solver).
  all: by destruct HI.
Qed.

Lemma join_inv_reachable s : reachable s → join_inv s.
Proof.
  intros (s0 & [n ->] & Hr).
  assert (HI : join_inv (mk_state Lock1 None n false 0)) by done.
  induction Hr as [|s1 s2 s3 Hs Hr IH]; [done|].
  apply IH. by apply (join_inv_step s1).
Qed.

(** In no interleaving with the other threads does join_network return or
    even test server_ready. *)
Theorem join_network_never_returns s :
  reachable s → pc s ≠ Return ∧ pc s ≠ Test2 ∧ pc s ≠ Unlock2.
Proof.
  intros HI%join_inv_reachable. unfold join_inv in HI.
  by destruct (pc s).
Qed.

(** C12: Once join_network is at the lock of its second loop it stays there,
    holding peers_mutex itself: the break of the first loop skips the unlock,
    so no other thread ever gets the mutex again. *)
Theorem join_network_deadlock s s' :
  reachable s → pc s = Lock2 → rtc step s s' →
  pc s' = Lock2 ∧ holder s' = Some Main.
Proof.
  intros HI%join_inv_reachable Hpc Hr.
  assert (Hh : holder s = Some Main)
    by (unfold join_inv in HI; rewrite Hpc in HI; tauto).
  clear HI. induction Hr as [|s1 s2 s3 Hs Hr IH]; [done|].
  apply IH; destruct Hs; cbn in *; try done; congruence.
Qed.

(** ** Instances *)

Lemma run_to_lock2 :
  rtc step (mk_state Lock1 None 1 false 0)
    (mk_state Lock2 (Some Main) 1 true 0).
Proof.
  eapply rtc_l; [apply step_lock1|]. eapply rtc_l; [by apply step_break|].
  eapply rtc_l; [apply step_send|]. apply rtc_once, step_create.
Qed.

Lemma join_network_never_returns_witness :
  Lock2 ≠ Return ∧ Lock2 ≠ Test2 ∧ Lock2 ≠ Unlock2.
Proof.
  apply (join_network_never_returns (mk_state Lock2 (Some Main) 1 true 0)).
  exists (mk_state Lock1 None 1 false 0). split; [by exists 1|].
  exact run_to_lock2.
Defined.

Lemma join_network_deadlock_witness :
  pc (mk_state Lock2 (Some Main) 1 true 1) = Lock2 ∧
  holder (mk_state Lock2 (Some Main) 1 true 1) = Some Main.
Proof.
  apply (join_network_deadlock (mk_state Lock2 (Some Main) 1 true 0)).
  - exists (mk_state Lock1 None 1 false 0). split; [by exists 1|].
    exact run_to_lock2.
  - reflexivity.
  - apply rtc_once, step_ready.
Defined.
