(* ===== verification/Retarget.v ===== *)
(** * src/blockchain.c: compute_next_target

    The target of the next block: 0 by the testnet rule, a new one every
    [RECALC_TARGET_INTERVAL] blocks, else the target of the last block.  The
    conversions between targets and numbers are declared in blocks.h and
    defined nowhere; they are the class [TargetNames]. *)
From S2P Require Import Prelude Shared Util Bignum Crypto Unresolved Transactions Merkle Blocks Store.

Class TargetNames := {
  block_get_uint : list Z → Z → outcome Z;
  target_to_etarget : Z → list Z → outcome (list Z);
  etarget_to_target : list Z → outcome Z;
  uint_to_bytes : Z → list Z → outcome (list Z)
}.

Section Retarget.
Context `{BerkeleyDB, Host, TxNames, Malloc, BlockNames, TargetNames}.

(** the bounds on the time the last interval took *)
Definition clamp_diff (diff : Z) : Z :=
  if SECONDS_IN_8_WEEKS <? diff then SECONDS_IN_8_WEEKS
  else if diff <? SECONDS_IN_HALF_WEEK then SECONDS_IN_HALF_WEEK
  else diff.

(** The case of a new target. [buffer1] and [buffer2] have
    [SIZE_SHA256 + sizeof(diff)] bytes. *)
Definition recalc_target (dbs : Dbs) (block_time block_height block_target : Z)
    : outcome Z :=
  let '(_, recalc_block_hash) := data_chain_get dbs
    (w32 (block_height - RECALC_TARGET_INTERVAL))
    (uninit "recalc_block_hash" SIZE_SHA256) in
  let '(_, recalc_block) := data_blocks_get_header dbs recalc_block_hash
    (uninit "recalc_block" SIZE_BLOCK_HEADER) in
  recalc_block_time ← block_get_uint recalc_block POS_BLOCK_TIME;
  let diff := clamp_diff (w32 (block_time - recalc_block_time)) in
  etarget ← target_to_etarget block_target (uninit "etarget" SIZE_SHA256);
  big_diff ← uint_to_bytes diff (uninit "big_diff" SIZE_SHA256);
  divisor ← uint_to_bytes 2 (uninit "divisor" 4);
  let buffer1 := uninit "buffer1" (SIZE_SHA256 + 4) in
  let buffer2 := uninit "buffer2" (SIZE_SHA256 + 4) in
  buffer1 ← big_mult etarget SIZE_SHA256 big_diff SIZE_SHA256 buffer1;
  buffer2 ← big_div buffer1 divisor buffer2;
  buffer1 ← memset buffer1 0 255 SIZE_SHA256;
  c ← big_compare buffer2 buffer1 SIZE_SHA256;
  if 0 <? c then etarget_to_target buffer1 else etarget_to_target buffer2.

(** What follows the read of the header [block]. [time] is what [time(NULL)]
    returns. *)
Definition next_target (time : Z) (dbs : Dbs) (block : list Z) : outcome Z :=
  block_time ← btoui block POS_BLOCK_TIME;
  block_height ← btoui block POS_BLOCK_HEIGHT;
  block_target ← btoui block POS_BLOCK_TARGET;
  let curr_time := get_curr_time time in
  if (curr_time <? TESTNET_EPOCH)
     && (SECONDS_IN_20_MINUTES <=? w32 (curr_time - block_time))
  then Done 0
  else if (0 <? block_height) && (block_height mod RECALC_TARGET_INTERVAL =? 0)
  then recalc_target dbs block_time block_height block_target
  else Done block_target.

(** The return code of the read is ignored. *)
Definition compute_next_target (time : Z) (dbs : Dbs) (block_hash : list Z)
    : outcome Z :=
  let '(_, block) := data_blocks_get_header dbs block_hash
    (uninit "block" SIZE_BLOCK_HEADER) in
  next_target time dbs block.

(** The functions of [TargetNames] return, and keep the sizes of their
    destinations. *)
Definition target_names_total : Prop :=
  (∀ block p, ∃ x, block_get_uint block p = Done x) ∧
  (∀ t e, ∃ e', target_to_etarget t e = Done e' ∧ length e' = length e) ∧
  (∀ x d, ∃ d', uint_to_bytes x d = Done d' ∧ length d' = length d).

(** The product is written to 64 bytes of a 36-byte buffer. *)
Lemma recalc_target_undef dbs t h tgt :
  target_names_total → recalc_target dbs t h tgt = Undef.
Proof.
  intros (Hg & He & Hu). unfold recalc_target.
  destruct (data_chain_get _ _ _) as [r1 rh].
  destruct (data_blocks_get_header _ _ _) as [r2 rb].
  destruct (Hg rb POS_BLOCK_TIME) as (rt & ->). rewrite bind_Done.
  destruct (He tgt (uninit "etarget" SIZE_SHA256)) as (e & -> & _).
  rewrite bind_Done. set (diff := clamp_diff _).
  destruct (Hu diff (uninit "big_diff" SIZE_SHA256)) as (d & -> & _).
  rewrite bind_Done.
  destruct (Hu 2 (uninit "divisor" 4)) as (v & -> & _). rewrite bind_Done.
  pose proof (length_uninit "buffer1" (SIZE_SHA256 + 4) ltac:(done)) as Lb.
  unfold big_mult, memset, SIZE_SHA256 in *. rewrite memwrite_oob; [done|].
  rewrite Lb. rewrite length_replicate. vm_compute. reflexivity.
Qed.


(** The words of a header, read on a big-endian host. *)
Lemma read_word (bs pre word post : list Z) p :
  little_endian = false → bs = pre ++ word ++ post → p = Z.of_nat (length pre) →
  length word = 4%nat → Forall is_byte word → btoui bs p = Done (be_val word).
Proof.
  intros Hle -> -> L B. rewrite (btoui_spec _ _ word); [by rewrite Hle| |done].
  rewrite memread_Done; [|lia|lia|len; lia].
  rewrite Nat2Z.id, drop_app_length. f_equal. rewrite take_app_length'; [done|]. lia.
Qed.

Section header.
Context (time height target nonce tx_count : Z) (prev_hash root rest : list Z).
Context (Hle : little_endian = false).
Context (Hp : length prev_hash = 32%nat) (Hr : length root = 32%nat).
Let hdr := header_bytes time height prev_hash root target nonce tx_count ++ rest.

Lemma read_time : 0 ≤ time < 2 ^ 32 → btoui hdr POS_BLOCK_TIME = Done time.
Proof.
  intros Ht. unfold hdr, header_bytes. rewrite <- !app_assoc.
  erewrite (read_word _ (be_bytes 2 _) (be_bytes 4 _)); [|done|done|..].
  - by rewrite be_val_be_bytes, Z.mod_small.
  - len. done.
  - len. done.
  - apply be_bytes_are_bytes.
Qed.

Lemma read_height : 0 ≤ height < 2 ^ 32 → btoui hdr POS_BLOCK_HEIGHT = Done height.
Proof.
  intros Ht. unfold hdr, header_bytes. rewrite <- !app_assoc.
  rewrite (app_assoc (be_bytes 2 _)).
  erewrite (read_word _ (be_bytes 2 _ ++ be_bytes 4 _) (be_bytes 4 height));
    [|done|done|..].
  - by rewrite be_val_be_bytes, Z.mod_small.
  - len. done.
  - len. done.
  - apply be_bytes_are_bytes.
Qed.

Lemma read_target_word :
  is_byte target → 0 ≤ nonce < 2 ^ 32 →
  btoui hdr POS_BLOCK_TARGET = Done (target * 2 ^ 24 + nonce / 256).
Proof.
  intros Ht Hn. unfold is_byte in Ht.
  set (n3 := nonce / 256 / 256 / 256 mod 256). set (n2 := nonce / 256 / 256 mod 256).
  set (n1 := nonce / 256 mod 256).
  rewrite (read_word hdr (be_bytes 2 __VERSION__ ++ be_bytes 4 time ++
    be_bytes 4 height ++ prev_hash ++ root) [target; n3; n2; n1]
    (nonce mod 256 :: be_bytes 4 tx_count ++ rest));
    [|done| |unfold POS_BLOCK_TARGET; len; lia|done
    |repeat constructor; try lia; apply Z.mod_pos_bound; lia].
  - f_equal. unfold be_val, n1, n2, n3. cbn [fold_left].
    Z.to_euclidean_division_equations. lia.
  - unfold hdr, header_bytes. rewrite <- !app_assoc. do 5 f_equal.
Qed.
End header.

(** On a big-endian host, past the testnet epoch and between two
    recalculations, what compute_next_target returns for a header is its
    one-byte target times 2^24 plus the three upper bytes of its nonce, not
    the target. *)
Theorem block_target_word now dbs time height prev_hash root target nonce tx_count
    rest :
  little_endian = false → length prev_hash = 32%nat → length root = 32%nat →
  0 ≤ time < 2 ^ 32 → 0 ≤ height < 2 ^ 32 → is_byte target → 0 ≤ nonce < 2 ^ 32 →
  TESTNET_EPOCH ≤ w32 now → height mod RECALC_TARGET_INTERVAL ≠ 0 →
  next_target now dbs
    (header_bytes time height prev_hash root target nonce tx_count ++ rest)
  = Done (target * 2 ^ 24 + nonce / 256).
Proof.
  intros Hle Hp Hr Ht Hh Htg Hn Hnow Hm. unfold next_target.
  rewrite read_time, bind_Done, read_height, bind_Done, read_target_word by done.
  rewrite bind_Done. unfold get_curr_time.
  destruct (Z.ltb_spec (w32 now) TESTNET_EPOCH); [lia|].
  destruct (Z.eqb_spec (height mod RECALC_TARGET_INTERVAL) 0); [lia|].
  by rewrite andb_false_r.
Qed.

End Retarget.

(** ** Instances *)

Definition sample_targets : TargetNames := {|
  block_get_uint block p := Done (be_val (take 4 (drop (Z.to_nat p) block)));
  target_to_etarget t e := Done e;
  etarget_to_target e := Done 0;
  uint_to_bytes x d := Done d
|}.


Lemma block_target_word_witness :
  @next_target gmap_db host_be sample_malloc sample_targets 1600000000 sample_dbs
    (@header_bytes sample_names 1 2 (replicate 32 3) (replicate 32 4)
       9 0x01020304 0 ++ []) = Done (9 * 2 ^ 24 + 0x01020304 / 256).
Proof.
  apply (@block_target_word gmap_db host_be sample_names sample_malloc sample_targets
    1600000000 sample_dbs 1 2 (replicate 32 3) (replicate 32 4) 9 0x01020304 0 []);
    [reflexivity|reflexivity|reflexivity|lia|lia|decided|lia|decided|decided].
Defined.
