(* ===== verification/Mine.v ===== *)
(** * src/mine/mine.c: mining

    [mine] hashes the header of the work block and increments its nonce until
    the hash meets the target or the time is over.  The successive results of
    [time(NULL)] are a function [clock]; [is_valid_blockhash] is defined
    nowhere.  [main_args] is the part of [main] that reads the miner's
    address. *)
From S2P Require Import Prelude Shared Util Printing Crypto Unresolved Transactions Merkle Blocks.

Section Mine.
Context `{Host}.
Context (is_valid_blockhash : list Z → Z → outcome Z) (clock : nat → Z).

(** the hash of the header: [sha256_init], [sha256_update], [sha256_final] *)
Definition hash_header (ctx : SHA256_CTX) (workblock hash : list Z)
    : outcome (SHA256_CTX * list Z) :=
  ctx ← sha256_init ctx;
  ctx ← sha256_update ctx workblock 0 SIZE_BLOCK_HEADER;
  sha256_final ctx hash.

(** [tick] counts the calls of [get_curr_time]; [fuel] bounds the rounds.
    The result is the work block and, when [succeed] was called, the hash. *)
Fixpoint mine_loop (fuel : nat) (tick : nat) (time_end target : Z)
    (ctx : SHA256_CTX) (hash workblock : list Z)
    : outcome (list Z * option (list Z)) :=
  if get_curr_time (clock tick) <? time_end then
    match fuel with
    | O => Hang
    | S fuel =>
        '(ctx, hash) ← hash_header ctx workblock hash;
        h0 ← rd hash 0;
        valid ← (if h0 =? 0 then is_valid_blockhash hash target else Done 0);
        if negb (valid =? 0) then Done (workblock, Some hash)
        else
          workblock ← block_inc_nonce workblock;
          mine_loop fuel (S tick) time_end target ctx hash workblock
    end
  else Done (workblock, None).

Definition mine (fuel : nat) (ctx0 : SHA256_CTX) (hash0 workblock : list Z)
    (target mtime : Z) : outcome (list Z * option (list Z)) :=
  let time_end := w32 (get_curr_time (clock 0) + mtime) in
  mine_loop fuel 1 time_end target ctx0 hash0 workblock.

(** ** What mine tries *)

(** the work block with the nonce after [i] increments of [x], and the hash
    of its header *)
Definition candidate (block : list Z) (x : Z) (i : nat) : list Z :=
  with_nonce block (Nat.iter i inc_field x).
Definition candidate_hash (block : list Z) (x : Z) (i : nat) : list Z :=
  digest (take 83 (candidate block x i)).

(** the test of [mine] on a hash *)
Definition meets (target : Z) (hash : list Z) : outcome bool :=
  match hash with
  | 0 :: _ => v ← is_valid_blockhash hash target; Done (negb (v =? 0))
  | _ => Done false
  end.

Lemma hash_header_run ctx workblock hash :
  length (ctx_data ctx) = 64%nat → length (ctx_state ctx) = 8%nat →
  (83 ≤ length workblock)%nat → Forall is_byte workblock →
  length hash = 32%nat →
  ∃ ctx', hash_header ctx workblock hash = Done (ctx', digest (take 83 workblock)) ∧
    length (ctx_data ctx') = 64%nat ∧ length (ctx_state ctx') = 8%nat.
Proof.
  intros H1 H2 Hl Hb Hh.
  destruct (sha256_one ctx workblock 0 SIZE_BLOCK_HEADER (take 83 workblock) hash)
    as (c0 & c1 & c2 & E0 & E1 & E2 & L1 & L2); try done.
  - unfold SIZE_BLOCK_HEADER. rewrite memread_Done by lia. done.
  - by apply Forall_take.
  - exists c2. unfold hash_header. rewrite E0, bind_Done, E1, bind_Done, E2. done.
Qed.

Lemma candidate_ok block x i :
  SIZE_BLOCK_HEADER ≤ Z.of_nat (length block) → Forall is_byte block →
  length (candidate block x i) = length block ∧
  Forall is_byte (candidate block x i).
Proof.
  unfold SIZE_BLOCK_HEADER, candidate, with_nonce. intros Hl Hb. split.
  - unfold POS_BLOCK_NONCE. len. lia.
  - apply Forall_patch; [done|apply be_bytes_are_bytes].
Qed.

Lemma iter_range x i : 0 ≤ x < 2 ^ 32 → 0 ≤ Nat.iter i inc_field x < 2 ^ 32.
Proof. intros Hx. destruct i; [done|]. rewrite Nat.iter_succ. apply w32_range. Qed.

(** A round that does not meet the target. *)
Lemma mine_loop_step fuel tick time_end target ctx hash block x i :
  SIZE_BLOCK_HEADER ≤ Z.of_nat (length block) → Forall is_byte block →
  0 ≤ x < 2 ^ 32 → length (ctx_data ctx) = 64%nat →
  length (ctx_state ctx) = 8%nat → length hash = 32%nat →
  get_curr_time (clock tick) < time_end →
  ∃ ctx', length (ctx_data ctx') = 64%nat ∧ length (ctx_state ctx') = 8%nat ∧
  mine_loop (S fuel) tick time_end target ctx hash (candidate block x i) =
    (ok ← meets target (candidate_hash block x i);
     if (ok : bool) then Done (candidate block x i, Some (candidate_hash block x i))
     else mine_loop fuel (S tick) time_end target ctx'
            (candidate_hash block x i) (candidate block x (S i))).
Proof.
  intros Hl Hb Hx C1 C2 Hh Ht.
  destruct (candidate_ok block x i Hl Hb) as [Lc Bc].
  destruct (hash_header_run ctx (candidate block x i) hash C1 C2)
    as (ctx' & E & L1 & L2); [unfold SIZE_BLOCK_HEADER in Hl; lia|done|done|].
  exists ctx'. split; [done|]. split; [done|].
  cbn [mine_loop]. rewrite (proj2 (Z.ltb_lt _ _) Ht), E, bind_Done.
  change (digest (take 83 (candidate block x i))) with (candidate_hash block x i).
  assert (Lh : length (candidate_hash block x i) = 32%nat) by apply length_digest.
  destruct (candidate_hash block x i) as [|h0 hs] eqn:Eh; [done|].
  change (rd (h0 :: hs) 0) with (Done h0). rewrite bind_Done.
  assert (Hinc : block_inc_nonce (candidate block x i) =
    Done (candidate block x (S i))).
  { unfold candidate. rewrite block_inc_nonce_run by (done || by apply iter_range).
    by rewrite Nat.iter_succ. }
  unfold meets. destruct (Z.eqb_spec h0 0) as [->|Hn0].
  - destruct (is_valid_blockhash (0 :: hs) target) as [v| | |]; [|done..].
    rewrite !bind_Done. destruct (negb (v =? 0)); [done|].
    by rewrite Hinc, bind_Done.
  - destruct h0; [done|..]; rewrite !bind_Done; cbn [negb Z.eqb];
      by rewrite Hinc, bind_Done.
Qed.

(** What the search that starts at candidate [i] ends with, at candidate
    [i + j]: the first accepted candidate, or the end of the time. *)
Record searched (target time_end : Z) (tick : nat) (block : list Z) (x : Z)
    (i j : nat) (found : option (list Z)) : Prop := {
  searched_before : ∀ l, (l < j)%nat →
    meets target (candidate_hash block x (i + l)) = Done false;
  searched_found : match found with
    | Some h => h = candidate_hash block x (i + j) ∧ meets target h = Done true
    | None => time_end ≤ get_curr_time (clock (tick + j))
    end
}.

Lemma searched_0 target time_end tick block x i found :
  match found with
  | Some h => h = candidate_hash block x i ∧ meets target h = Done true
  | None => time_end ≤ get_curr_time (clock tick)
  end → searched target time_end tick block x i 0 found.
Proof. intros H'. split; [lia|]. by rewrite !Nat.add_0_r. Qed.

Lemma searched_S target time_end tick block x i j found :
  meets target (candidate_hash block x i) = Done false →
  searched target time_end (S tick) block x (S i) j found →
  searched target time_end tick block x i (S j) found.
Proof.
  intros Hi [Hb Hf]. split.
  - intros [|l] Hl; [by rewrite Nat.add_0_r|]. rewrite <- Nat.add_succ_comm.
    apply Hb. lia.
  - by rewrite <- !Nat.add_succ_comm.
Qed.

(** With a test of hashes that returns, a clock that passes the end time at
    its [n]-th read bounds the rounds. *)
Lemma mine_loop_terminates n : ∀ fuel tick time_end target ctx hash block x i,
  (∀ h t, ∃ v, is_valid_blockhash h t = Done v) →
  SIZE_BLOCK_HEADER ≤ Z.of_nat (length block) → Forall is_byte block →
  0 ≤ x < 2 ^ 32 → length (ctx_data ctx) = 64%nat →
  length (ctx_state ctx) = 8%nat → length hash = 32%nat →
  (n < fuel)%nat → time_end ≤ get_curr_time (clock (tick + n)) →
  ∃ j found, (j ≤ n)%nat ∧
    mine_loop fuel tick time_end target ctx hash (candidate block x i) =
      Done (candidate block x (i + j), found) ∧
    searched target time_end tick block x i j found.
Proof.
  induction n as [|n IH]; intros fuel tick time_end target ctx hash block x i
    Hv Hl Hb Hx C1 C2 Hh Hf Hend; destruct fuel as [|fuel]; try lia.
  - exists 0%nat, None. rewrite !Nat.add_0_r in *. cbn [mine_loop].
    rewrite (proj2 (Z.ltb_ge _ _) Hend). by split; [|split; [|apply searched_0]].
  - destruct (Z.lt_ge_cases (get_curr_time (clock tick)) time_end) as [Ht|Ht].
    2:{ exists 0%nat, None. rewrite Nat.add_0_r. cbn [mine_loop].
        rewrite (proj2 (Z.ltb_ge _ _) Ht).
        by split; [lia|split; [|apply searched_0]]. }
    destruct (mine_loop_step fuel tick time_end target ctx hash block x i)
      as (ctx' & L1 & L2 & ->); try done.
    assert (∃ ok, meets target (candidate_hash block x i) = Done ok) as [ok Hok].
    { unfold meets. destruct (candidate_hash block x i) as [|[] hs]; try by eexists.
      destruct (Hv (0 :: hs) target) as [v ->]. by eexists. }
    rewrite Hok, bind_Done. destruct ok.
    { exists 0%nat, (Some (candidate_hash block x i)). rewrite Nat.add_0_r.
      by split; [lia|split; [|apply searched_0]]. }
    destruct (IH fuel (S tick) time_end target ctx' (candidate_hash block x i) block x (S i))
      as (j & found & Hj & -> & Hs); try done; [apply length_digest|lia| |].
    { by rewrite Nat.add_succ_comm. }
    exists (S j), found. rewrite <- Nat.add_succ_comm.
    by split; [lia|split; [|apply searched_S]].
Qed.

(** C7: When the test of hashes returns and the clock passes the end time at
    its n-th read in the loop, mine returns with any fuel above n. It tried
    the work block with its nonce incremented 0, 1, 2, ... times and ends at
    the first candidate whose hash is accepted, with that hash, or without one
    when the time is over; every candidate before was rejected. *)
Theorem mine_terminates ctx0 hash0 block x target mtime n fuel :
  let time_end := w32 (w32 (clock 0) + mtime) in
  (∀ h t, ∃ v, is_valid_blockhash h t = Done v) →
  SIZE_BLOCK_HEADER ≤ Z.of_nat (length block) → Forall is_byte block →
  0 ≤ x < 2 ^ 32 → length (ctx_data ctx0) = 64%nat →
  length (ctx_state ctx0) = 8%nat → length hash0 = 32%nat →
  time_end ≤ w32 (clock (S n)) → (n < fuel)%nat →
  ∃ j found, (j ≤ n)%nat ∧
    mine fuel ctx0 hash0 (with_nonce block x) target mtime =
      Done (candidate block x j, found) ∧
    searched target time_end 1 block x 0 j found.
Proof.
  intros time_end Hv Hl Hb Hx C1 C2 Hh Hend Hf.
  exact (mine_loop_terminates n fuel 1 time_end target ctx0 hash0
    block x 0 Hv Hl Hb Hx C1 C2 Hh Hf Hend).
Qed.

End Mine.

(** ** The arguments of main *)

(** [argv] after the call and [miner_addr], a local of [SIZE_SHA256] bytes:
    [hexstr_to_bytes(argv[1], miner_addr, SIZE_SHA256)] decodes the second
    argument into the first. *)
Definition main_args (miner_addr : list Z) (argv : list (list Z))
    : outcome (list (list Z) * list Z) :=
  if Z.of_nat (length argv) =? 1 then Fatal
  else
    arg ← rd argv 1;
    n ← strlen arg;
    if negb (n =? 128) then Fatal
    else
      arg ← hexstr_to_bytes arg miner_addr SIZE_SHA256;
      argv ← wr argv 1 arg;
      Done (argv, miner_addr).

(** Decoding a text of 128 characters into a buffer of 32 bytes with the two
    arguments swapped reads behind the buffer. *)
Lemma hexstr_to_bytes_swapped arg miner_addr :
  length miner_addr = 32%nat → strlen arg = Done 128 →
  hexstr_to_bytes arg miner_addr SIZE_SHA256 = Undef.
Proof.
  intros Hm Hn%strlen_length. unfold hexstr_to_bytes, SIZE_SHA256.
  apply (for_range_undef (λ _ arg', length arg' = length arg) 0 16); [lia|done| |].
  - intros i arg' Hi La.
    destruct (rd_lt miner_addr (2 * i)) as (c0 & _ & ->); [lia|].
    destruct (rd_lt miner_addr (2 * i + 1)) as (c1 & _ & ->); [lia|].
    rewrite !bind_Done, wr_Done by lia. eexists. split; [done|]. by len.
  - intros arg' _. by rewrite (rd_oob miner_addr (2 * 16)) by lia.
Qed.

(** No argument gets past the reading of the miner address. *)
Theorem main_args_fails miner_addr argv :
  length miner_addr = 32%nat → (1 ≤ length argv)%nat →
  (∀ arg, argv !! 1%nat = Some arg → ∃ n, strlen arg = Done n) →
  main_args miner_addr argv = Fatal ∨ main_args miner_addr argv = Undef.
Proof.
  intros Hm Hargc Hstr. unfold main_args.
  destruct (Z.eqb_spec (Z.of_nat (length argv)) 1); [by left|].
  destruct (rd_lt argv 1) as (arg & Harg & ->); [lia|]. rewrite bind_Done.
  destruct (Hstr arg Harg) as (len & Hn). rewrite Hn, bind_Done.
  destruct (Z.eqb_spec len 128) as [->|]; [|by left]. cbn [negb]. right.
  by rewrite hexstr_to_bytes_swapped.
Qed.

(** ** Instances *)

(** a clock that stands still for two reads and then jumps *)
Definition sample_clock (i : nat) : Z := match i with 3%nat => 1000 | _ => 5 end.

(** two candidates are tried, none is accepted, and the time is over *)
Lemma mine_terminates_witness :
  ∃ j found, (j ≤ 2)%nat ∧
    @mine host_be (λ _ _, Done 0) sample_clock 5 ctx_junk (replicate 32 0)
      (with_nonce sample_block 7) 0 100 = Done (@candidate host_be sample_block 7 j, found) ∧
    @searched host_be (λ _ _, Done 0) sample_clock 0 105 1 sample_block 7 0 j found.
Proof.
  apply (@mine_terminates host_be (λ _ _, Done 0) sample_clock ctx_junk
    (replicate 32 0) sample_block 7 0 100 2 5);
    [by eexists|vm_compute; discriminate|decided|lia|reflexivity|reflexivity|reflexivity
    |vm_compute; discriminate|lia].
Defined.

Lemma main_args_fails_witness :
  main_args (replicate 32 0) [[109; 0]; replicate 128 48 ++ [0]] = Fatal ∨
  main_args (replicate 32 0) [[109; 0]; replicate 128 48 ++ [0]] = Undef.
Proof.
  apply (main_args_fails (replicate 32 0) [[109; 0]; replicate 128 48 ++ [0]]);
    [reflexivity|cbn; lia|].
  intros arg [= <-]. exists 128. reflexivity.
Defined.
