(* ===== verification/Miner.v ===== *)
(** * src/mine/mine.c: the rest of main

    After the arguments (Mine.v) and [join_network] (Join.v): the setup, the
    assembly of a work block with its coinbase transaction, and the rounds
    that refresh it with transactions of the mempool and mine.  Other threads
    change the databases and the mempool between two reads, so every part
    takes them as arguments, and the loops of main are a transition system,
    [main_step], with any databases and mempool at each step. *)
From S2P Require Import Prelude Shared Util Bignum Crypto Unresolved Transactions Merkle Blocks Store Mempool Retarget Mine.

(** used in main and defined nowhere; [block_set_header] is called with a
    stray [void] before it *)
Class MinerNames := {
  block_set_header : Z → Z → Z → list Z → Z → list Z → outcome (list Z);
  SHA256 : Z;
  SIZE_TX_OUT : Z
}.

Section Miner.
Context `{BerkeleyDB, Host, TxNames, Malloc, BlockNames, TargetNames, MinerNames}.
Context (is_valid_blockhash : list Z → Z → outcome Z).

(** the number [data_chain_get_height] finds in [highest], the index
    [data_mempool_get] finds in [i], the address of the work block, and the
    bytes at the address of the pointer [coinbase_output] *)
Context (highest0 index0 block_addr : Z) (pointer_bytes : list Z).

(** The databases before and after the ten seconds in which the peers answer.
    The second return code is not kept: [ret] is tested again. *)
Definition main_setup (dbs dbs' : Dbs) : outcome (Z * list Z) :=
  let latest_block_hash := uninit "latest_block_hash" SHA256 in
  height ← data_chain_get_height highest0 dbs;
  let '(ret, latest_block_hash) := data_chain_get dbs height latest_block_hash in
  if negb (ret =? 0) then Fatal
  else
    height ← data_chain_get_height highest0 dbs';
    let '(_, latest_block_hash) := data_chain_get dbs' height latest_block_hash in
    if negb (ret =? 0) then Fatal else Done (height, latest_block_hash).

(** [coinbase_output] is filled, but [m_tx_gen] is given [&coinbase_output];
    the transaction it returns is read as a pointer to it. *)
Definition coinbase (miner_addr : list Z) : outcome M_tx :=
  coinbase_output ← r_tx_out_gen miner_addr MINING_REWARD
    (uninit "coinbase_output" SIZE_TX_OUT) 0;
  m_tx_gen 0 1 0 [] pointer_bytes.

(** The first part of the outer loop; [time] is what [time(NULL)] returns. *)
Definition new_workblock (time : Z) (dbs : Dbs) (miner_addr latest_block_hash
    workblock : list Z) : outcome (Z * Z * list Z * list Z) :=
  height ← data_chain_get_height highest0 dbs;
  let '(ret, latest_block_hash) := data_chain_get dbs height latest_block_hash in
  if negb (ret =? 0) then Fatal
  else
    target ← compute_next_target time dbs latest_block_hash;
    workblock ← block_set_header __VERSION (get_curr_time time) (w32 (height + 1))
      latest_block_hash target workblock;
    coinbase_tx ← coinbase miner_addr;
    workblock ← block_add_tx block_addr workblock coinbase_tx;
    Done (target, height, latest_block_hash, workblock).

(** The transactions the pool has and the work block has not, by their
    numbers; the coinbase transaction does not count. *)
Definition add_pool_txs (pool : Mempool) (workblock : list Z) : outcome (list Z) :=
  tx_count ← btoui workblock POS_BLOCK_TX_COUNT;
  let diff := s32 (data_mempool_get_size pool - (tx_count - 1)) in
  for_range 0 diff (λ i workblock,
    s ← data_mempool_get index0 pool i;
    tx ← deref s;
    block_add_tx block_addr workblock tx) workblock.

(** One round of the inner loop: the buffer of the comparison, and the work
    block, or [None] when it is stale. *)
Definition mine_round (fuel : nat) (clock : nat → Z) (ctx0 : SHA256_CTX)
    (hash0 : list Z) (dbs : Dbs) (pool : Mempool) (target : Z)
    (latest_block_hash cmp_buffer workblock : list Z)
    : outcome (list Z * option (list Z * option (list Z))) :=
  height ← data_chain_get_height highest0 dbs;
  let '(_, cmp_buffer) := data_chain_get dbs height cmp_buffer in
  c ← memcmp cmp_buffer 0 latest_block_hash 0 SIZE_SHA256;
  if negb (c =? 0) then Done (cmp_buffer, None)
  else
    workblock ← add_pool_txs pool workblock;
    workblock ← uitob (get_curr_time (clock 0%nat)) workblock POS_BLOCK_TIME;
    '(workblock, found) ← mine is_valid_blockhash (λ i, clock (S i)) fuel ctx0 hash0
      workblock (w8 target) 10000;
    Done (cmp_buffer, Some (workblock, found)).

(** The two loops of main and the variables they share.  [current] is the
    target of the work block, [None] before a new one is started. *)
Record mining := mk_mining {
  current : option Z;
  latest_block_height : Z;
  latest_block_hash : list Z;
  workblock : list Z;
  cmp_buffer : list Z
}.

Inductive main_step (miner_addr : list Z) : mining → mining → Prop :=
| step_new time dbs target height height' hash hash' wb wb' cmp :
    new_workblock time dbs miner_addr hash wb = Done (target, height', hash', wb') →
    main_step miner_addr (mk_mining None height hash wb cmp)
      (mk_mining (Some target) height' hash' wb' cmp)
| step_stale fuel clock ctx0 hash0 dbs pool target height hash wb cmp cmp' :
    mine_round fuel clock ctx0 hash0 dbs pool target hash cmp wb = Done (cmp', None) →
    main_step miner_addr (mk_mining (Some target) height hash wb cmp)
      (mk_mining None height hash wb cmp')
| step_round fuel clock ctx0 hash0 dbs pool target height hash wb wb' cmp cmp' found :
    mine_round fuel clock ctx0 hash0 dbs pool target hash cmp wb =
      Done (cmp', Some (wb', found)) →
    main_step miner_addr (mk_mining (Some target) height hash wb cmp)
      (mk_mining (Some target) height hash wb' cmp').

(** before the loops: [workblock] and the buffer of the comparison are
    allocated, the height and the hash are those of the setup *)
Definition loop_start (m : mining) : Prop :=
  ∃ dbs dbs' h hash, main_setup dbs dbs' = Done (h, hash) ∧
    m = mk_mining None h hash (uninit "workblock" MAX_BLOCK_SIZE)
          (uninit "latest_block_hash_cmp_buffer" SIZE_SHA256).

Definition mining_reachable (miner_addr : list Z) (m : mining) : Prop :=
  ∃ m0, loop_start m0 ∧ rtc (main_step miner_addr) m0 m.

(** ** What they do *)

(** The output of the coinbase transaction is what lies at the address of the
    pointer, whatever the miner address. *)
Theorem coinbase_pays_pointer miner o :
  let data := tx_bytes 0 1 0 [] pointer_bytes in
  r_tx_out_gen miner MINING_REWARD (uninit "coinbase_output" SIZE_TX_OUT) 0 = Done o →
  Z.of_nat (length pointer_bytes) = SIZE_TX_OUTPUT →
  (∀ dest, Z.of_nat (length dest) = SIZE_TX_HEADER + SIZE_TX_OUTPUT →
     tx_gen 0 1 0 [] pointer_bytes dest =
     r_tx_gen 0 SIZE_TX_OUTPUT 0 1 0 [] pointer_bytes dest 0) →
  (∀ hash, length hash = 32%nat → tx_compute_hash data 0 hash = Done (digest data)) →
  coinbase miner =
    Done (mk_tx (digest data) data (SIZE_TX_HEADER + SIZE_TX_OUTPUT)
            (SIZE_TX_HEADER + SIZE_TX_OUTPUT)).
Proof.
  intros data Ho Hp Hgen Hhash. unfold coinbase. rewrite Ho, bind_Done.
  by rewrite (m_tx_gen_run 0 1 0 [] pointer_bytes) by (done || lia).
Qed.

(** After the wait a failed read is not noticed: the hash is the one read
    before. *)
Theorem main_setup_spec dbs dbs' h h' ret hash ret' hash' :
  data_chain_get_height highest0 dbs = Done h →
  data_chain_get dbs h (uninit "latest_block_hash" SHA256) = (ret, hash) →
  data_chain_get_height highest0 dbs' = Done h' →
  data_chain_get dbs' h' hash = (ret', hash') →
  main_setup dbs dbs' = if ret =? 0 then Done (h', hash') else Fatal.
Proof.
  intros Hh Hg Hh' Hg'. unfold main_setup. rewrite Hh, bind_Done, Hg.
  destruct (ret =? 0); [|done]. cbn [negb]. by rewrite Hh', bind_Done, Hg'.
Qed.

(** A work block with a transaction for each of the pool's, and the coinbase
    transaction, is left alone. *)
Lemma add_pool_txs_none pool workblock n :
  btoui workblock POS_BLOCK_TX_COUNT = Done n →
  mp_count pool < n → 0 ≤ mp_count pool → n < 2 ^ 31 →
  add_pool_txs pool workblock = Done workblock.
Proof.
  intros Hn Hlt Hp Hmax. unfold add_pool_txs, data_mempool_get_size.
  rewrite Hn, bind_Done, s32_id by lia. unfold for_range.
  by replace (Z.to_nat (mp_count pool - (n - 1) - 0)) with 0%nat by lia.
Qed.

(** ** The header of the work block

    The height, the previous hash, the Merkle root and the target: the fields
    of the header between the time and the nonce. *)
Definition fixed_fields (block : list Z) : list Z := take 69 (drop 6 block).

Definition same_fields (b b' : list Z) : Prop :=
  length b' = length b ∧ fixed_fields b' = fixed_fields b.

#[local] Instance same_fields_preorder : PreOrder same_fields.
Proof. split; [by split|]. intros a b c [L1 F1] [L2 F2]. by split; etrans. Qed.

Lemma memwrite_same_fields b p src b' :
  p + Z.of_nat (length src) ≤ 6 ∨ 75 ≤ p → memwrite b p src = Done b' → same_fields b b'.
Proof.
  intros Hp (Hp0 & Hfit & ->)%memwrite_inv.
  split; [apply length_patch; lia|]. apply patch_read_other; lia.
Qed.

Lemma uitob_same_fields a b p b' :
  p = POS_BLOCK_TIME ∨ 75 ≤ p → uitob a b p = Done b' → same_fields b b'.
Proof.
  unfold POS_BLOCK_TIME. intros Hp Hu.
  assert (p + 4 ≤ Z.of_nat (length b)).
  { revert Hu. unfold uitob.
    intros (d1 & <-%wr_length & (d2 & <-%wr_length & (d3 & <-%wr_length &
      Hw)%bind_Done_inv)%bind_Done_inv)%bind_Done_inv.
    revert Hw. unfold wr. destruct (_ && _) eqn:E; [|done]. lia. }
  rewrite uitob_memwrite in Hu by lia. eapply memwrite_same_fields, Hu. cbn. lia.
Qed.

Context (Hsizes : ∀ b p n, tx_compute_size b p = Done n → 0 ≤ n ≤ MAX_TX_SIZE).

Lemma block_compute_size_ge addr b p size :
  block_compute_size addr b p = Done size → SIZE_BLOCK_HEADER ≤ size.
Proof.
  unfold block_compute_size, SIZE_BLOCK_HEADER.
  set (n := w8 (addr + POS_BLOCK_TX_COUNT)). pose proof (w8_range (addr + POS_BLOCK_TX_COUNT)).
  intros Hr. apply (for_range_keeps_at (λ k c, 83 ≤ c ≤ 83 + k * MAX_TX_SIZE)) in Hr;
    [lia|lia|unfold MAX_TX_SIZE; lia|].
  intros k c c' Hk Hc (m & Hm%Hsizes & [= <-])%bind_Done_inv.
  fold n in H. unfold MAX_TX_SIZE in *. rewrite w32_id by lia. lia.
Qed.

Lemma block_add_tx_same_fields addr b tx b' :
  block_add_tx addr b tx = Done b' → same_fields b b'.
Proof.
  unfold block_add_tx. intros (size & Hs%block_compute_size_ge & Hr)%bind_Done_inv.
  destruct (_ <=? _); [done|]. unfold SIZE_BLOCK_HEADER in Hs.
  apply bind_Done_inv in Hr as (src & _ & (b1 & Hw & (n & _ & Hu)%bind_Done_inv)%bind_Done_inv).
  apply memwrite_same_fields in Hw; [|lia].
  apply uitob_same_fields in Hu; [by etrans|by right].
Qed.

Lemma add_pool_txs_same_fields pool b b' :
  add_pool_txs pool b = Done b' → same_fields b b'.
Proof.
  unfold add_pool_txs. intros (n & _ & Hr)%bind_Done_inv.
  refine (for_range_keeps (same_fields b) _ _ _ _ _ _ _ Hr); [done|].
  intros k b1 b2 Hb (s & _ & (tx & _ & Hadd)%bind_Done_inv)%bind_Done_inv.
  etrans; [exact Hb|by eapply block_add_tx_same_fields].
Qed.

Lemma mine_loop_same_fields clock fuel : ∀ tick time_end target ctx hash b b' found,
  mine_loop is_valid_blockhash clock fuel tick time_end target ctx hash b =
    Done (b', found) → same_fields b b'.
Proof.
  induction fuel as [|fuel IH]; intros tick time_end target ctx hash b b' found;
    cbn [mine_loop]; (destruct (_ <? _); [|by intros [= <- _]]); [done|].
  intros ([c h] & _ & (h0 & _ & (v & _ & Hr)%bind_Done_inv)%bind_Done_inv)%bind_Done_inv.
  destruct (negb _); [by injection Hr as <- _|].
  apply bind_Done_inv in Hr as (b1 & (n & _ & Hu)%bind_Done_inv & Hr).
  apply uitob_same_fields in Hu; [|by right]. etrans; [exact Hu|by eapply IH].
Qed.

Lemma mine_round_same_fields fuel clock ctx0 hash0 dbs pool target hash cmp b cmp' b' found :
  mine_round fuel clock ctx0 hash0 dbs pool target hash cmp b = Done (cmp', Some (b', found)) →
  same_fields b b'.
Proof.
  unfold mine_round. intros (height & _ & Hr)%bind_Done_inv.
  destruct (data_chain_get dbs height cmp) as [ret cmp1].
  apply bind_Done_inv in Hr as (c & _ & Hr). destruct (negb _); [done|].
  apply bind_Done_inv in Hr as (b1 & Ha%add_pool_txs_same_fields & (b2 & Hu & Hr)%bind_Done_inv).
  apply bind_Done_inv in Hr as ([b3 f] & Hm%mine_loop_same_fields & [= _ <- _]).
  apply uitob_same_fields in Hu; [|by left]. by etrans; [|etrans].
Qed.

(** *** The header of every block mined *)

(** [block_set_header] is read as the function blocks.c has, [SHA256] as the
    size of a hash *)
Context (Hheader : ∀ version time height prev_hash target block,
  block_set_header version time height prev_hash target block =
    block_add_header time height prev_hash (w8 target) block 0).
Context (Hsha : SHA256 = SIZE_SHA256) {laws : BerkeleyDBLaws}.

Record mining_inv (m : mining) : Prop := {
  inv_hash : length (latest_block_hash m) = 32%nat;
  inv_cmp : length (cmp_buffer m) = 32%nat;
  inv_block : Z.of_nat (length (workblock m)) = MAX_BLOCK_SIZE;
  inv_fields : ∀ target, current m = Some target →
    fixed_fields (workblock m) =
      be_bytes 4 (w32 (latest_block_height m + 1)) ++ latest_block_hash m ++
      replicate 32 0 ++ [w8 target]
}.

Lemma chain_get_32 dbs height dest ret dest' :
  data_chain_get dbs height dest = (ret, dest') → length dest = 32%nat →
  length dest' = 32%nat.
Proof.
  intros E Hd. pose proof (data_chain_get_length dbs height dest) as L.
  rewrite E in L. cbn in L. rewrite L; [done|]. unfold SIZE_SHA256. lia.
Qed.

Lemma header_fields time height hash target b b' :
  length hash = 32%nat → Z.of_nat (length b) = MAX_BLOCK_SIZE →
  block_add_header time height hash target b 0 = Done b' →
  length b' = length b ∧
  fixed_fields b' = be_bytes 4 height ++ hash ++ replicate 32 0 ++ [target].
Proof.
  unfold MAX_BLOCK_SIZE. intros Hh Hb.
  rewrite block_add_header_run by (unfold SIZE_BLOCK_HEADER; lia).
  set (hdr := header_bytes _ _ _ _ _ _ _). intros [= <-].
  assert (length hdr = 83%nat) as Lh by (unfold hdr, header_bytes; len; lia).
  split; [apply length_patch; lia|]. unfold fixed_fields. rewrite patch_0.
  rewrite drop_app_le, take_app_le by (rewrite ?length_drop; lia).
  unfold hdr, header_bytes.
  rewrite (app_assoc (be_bytes 2 _)), drop_app_length' by (len; lia).
  rewrite (app_assoc (replicate _ _)), (app_assoc hash), (app_assoc (be_bytes 4 _)),
    take_app_length' by (len; lia).
  done.
Qed.

Lemma loop_start_inv m : loop_start m → mining_inv m.
Proof.
  intros (dbs & dbs' & h & hash & Hs & ->). revert Hs. unfold main_setup.
  pose proof (length_uninit "latest_block_hash" SHA256) as L0. rewrite Hsha in *.
  intros (h1 & _ & Hr)%bind_Done_inv.
  destruct (data_chain_get dbs h1 _) as [ret hash1] eqn:E1.
  destruct (negb _); [done|]. apply bind_Done_inv in Hr as (h2 & _ & Hr).
  destruct (data_chain_get dbs' h2 hash1) as [ret2 hash2] eqn:E2. injection Hr as _ <-.
  unfold SIZE_SHA256 in *.
  split; cbn; [|pose proof (length_uninit "latest_block_hash_cmp_buffer" 32); lia
    |by apply length_uninit|done].
  eapply chain_get_32, chain_get_32; [exact E2|exact E1|lia].
Qed.

Lemma new_workblock_inv miner_addr time dbs hash b target height hash' b' :
  new_workblock time dbs miner_addr hash b = Done (target, height, hash', b') →
  length hash = 32%nat → Z.of_nat (length b) = MAX_BLOCK_SIZE →
  length hash' = 32%nat ∧ Z.of_nat (length b') = MAX_BLOCK_SIZE ∧
  fixed_fields b' =
    be_bytes 4 (w32 (height + 1)) ++ hash' ++ replicate 32 0 ++ [w8 target].
Proof.
  unfold new_workblock. intros (h & _ & Hr)%bind_Done_inv Hl Hb.
  destruct (data_chain_get dbs h hash) as [ret hash1] eqn:E.
  apply chain_get_32 in E; [|done]. destruct (negb _); [done|].
  apply bind_Done_inv in Hr as (t & _ & (b1 & Hh & Hr)%bind_Done_inv).
  apply bind_Done_inv in Hr as (tx & _ & (b2 & [L F]%block_add_tx_same_fields &
    [= <- <- <- <-])%bind_Done_inv).
  rewrite Hheader in Hh. apply header_fields in Hh as [L1 F1]; [|done|done].
  split; [done|]. split; [lia|]. by rewrite F, F1.
Qed.

#[local] Tactic Notation "mining_fields" :=
  cbn [current latest_block_height latest_block_hash workblock cmp_buffer].
#[local] Tactic Notation "mining_fields" "in" "*" :=
  cbn [current latest_block_height latest_block_hash workblock cmp_buffer] in *.

Lemma main_step_inv miner_addr m m' :
  main_step miner_addr m m' → mining_inv m → mining_inv m'.
Proof.
  assert (Hcmp : ∀ fuel clock ctx0 hash0 dbs pool target hash wb cmp cmp' o,
    mine_round fuel clock ctx0 hash0 dbs pool target hash cmp wb = Done (cmp', o) →
    length cmp = 32%nat → length cmp' = 32%nat).
  { intros fuel clock ctx0 hash0 dbs pool target hash wb cmp cmp' o.
    unfold mine_round. intros (h & _ & Hr)%bind_Done_inv Hc.
    destruct (data_chain_get dbs h cmp) as [ret cmp1] eqn:E.
    apply chain_get_32 in E; [|done].
    apply bind_Done_inv in Hr as (c & _ & Hr). destruct (negb _); [by injection Hr as <-|].
    by apply bind_Done_inv in Hr as (b1 & _ & (b2 & _ & ([b3 f] & _ & [= <- _])%bind_Done_inv)%bind_Done_inv). }
  intros [time dbs target height height' hash hash' wb wb' cmp Hn
    |fuel clock ctx0 hash0 dbs pool target height hash wb cmp cmp' Hr
    |fuel clock ctx0 hash0 dbs pool target height hash wb wb' cmp cmp' found Hr]
    [Ih Ic Ib If]; mining_fields in *.
  - destruct (new_workblock_inv _ _ _ _ _ _ _ _ _ Hn Ih Ib) as (L & B & F).
    split; mining_fields; try done. by intros ? [= <-].
  - split; mining_fields; try done. by eapply Hcmp.
  - destruct (mine_round_same_fields _ _ _ _ _ _ _ _ _ _ _ _ _ Hr) as [L F].
    split; mining_fields; [done|by eapply Hcmp|lia|].
    intros t Ht. rewrite F. by apply If.
Qed.

(** C8: In every run of the loops of main, whatever the other threads do to
    the databases and the mempool, the header of the block being mined holds
    the height after main's latest_block_height, main's latest_block_hash as
    the previous hash, 32 zero bytes as the Merkle root and the low byte of
    its target, whatever transactions were added: nothing calls
    block_update_root. For the names the sources do not define it assumes that
    block_set_header is block_add_header, SHA256 is SIZE_SHA256, and
    tx_compute_size gives sizes of at most MAX_TX_SIZE; the databases obey the
    laws of Berkeley DB. *)
Theorem mined_root_zero miner_addr m target :
  mining_reachable miner_addr m → current m = Some target →
  fixed_fields (workblock m) =
    be_bytes 4 (w32 (latest_block_height m + 1)) ++ latest_block_hash m ++
    replicate 32 0 ++ [w8 target].
Proof.
  intros (m0 & Hs%loop_start_inv & Hr). apply inv_fields. revert Hs.
  induction Hr as [|m1 m2 m3 H12 _ IH]; [done|]. intros Hi. by eapply IH, main_step_inv.
Qed.

End Miner.

(** ** Instances *)

Definition sample_miner : MinerNames := {|
  block_set_header version time height prev_hash target block := Done block;
  SHA256 := 32;
  SIZE_TX_OUT := SIZE_TX_OUTPUT
|}.

Lemma coinbase_pays_pointer_witness :
  let data := @tx_bytes sample_names 0 1 0 [] (replicate 36 9) in
  @coinbase sample_names sample_malloc sample_miner (replicate 36 9) (replicate 32 5) =
    Done (mk_tx (digest data) data 46 46).
Proof.
  apply (@coinbase_pays_pointer sample_names sample_malloc sample_miner (replicate 36 9)
    (replicate 32 5) (replicate 32 5 ++ [0; 0; 0; 100]));
    [vm_compute; reflexivity|reflexivity|reflexivity|].
  intros hash Hl. unfold sample_names, sample_names_with, tx_compute_hash.
  do 32 (destruct hash as [|? hash]; [discriminate Hl|]).
  destruct hash; [|discriminate Hl]. vm_compute. reflexivity.
Defined.

(** the second read fails, and the hash of the first is kept *)
Lemma main_setup_spec_witness :
  @main_setup gmap_db host_be sample_malloc sample_blocks sample_miner 3
    (@mk_dbs gmap_db ∅ {[ [] := replicate 32 6 ]} ∅ ∅ ∅) sample_dbs =
  Done (3, replicate 32 6).
Proof.
  apply (@main_setup_spec gmap_db host_be sample_malloc sample_blocks sample_miner 3
    (@mk_dbs gmap_db ∅ {[ [] := replicate 32 6 ]} ∅ ∅ ∅) sample_dbs
    0x06060606 3 0 (replicate 32 6) (-30988) (replicate 32 6)); reflexivity.
Defined.

(** the names of Transactions.v, with sizes that are sizes of transactions *)
Definition bounded_names : TxNames := {|
  __VERSION__ := @__VERSION__ sample_names;
  POS_TX_IN_REF := @POS_TX_IN_REF sample_names;
  SIZE_TX_IN_REF := @SIZE_TX_IN_REF sample_names;
  POS_TX_IN_INDEX := @POS_TX_IN_INDEX sample_names;
  POS_TX_IN_PUBKEY := @POS_TX_IN_PUBKEY sample_names;
  SIZE_TX_IN_PUBKEY := @SIZE_TX_IN_PUBKEY sample_names;
  POS_TX_IN_SIG := @POS_TX_IN_SIG sample_names;
  SIZE_TX_IN_SIG := @SIZE_TX_IN_SIG sample_names;
  POS_TX_OUT_ADDR := @POS_TX_OUT_ADDR sample_names;
  SIZE_TX_OUT_ADDR := @SIZE_TX_OUT_ADDR sample_names;
  POS_BLOCK_BODY := @POS_BLOCK_BODY sample_names;
  tx_get_size := sample_size;
  tx_compute_size b p :=
    n ← sample_size b p;
    if decide (0 ≤ n ≤ MAX_TX_SIZE) then Done n else Fatal;
  tx_compute_hash := @tx_compute_hash sample_names;
  tx_gen := @tx_gen sample_names
|}.

Lemma bounded_names_sizes b p n :
  @tx_compute_size bounded_names b p = Done n → 0 ≤ n ≤ MAX_TX_SIZE.
Proof.
  cbn. intros (m & _ & E)%bind_Done_inv. case_decide; [|done]. by injection E as <-.
Qed.

Definition header_miner : MinerNames := {|
  block_set_header version time height prev_hash target block :=
    @block_add_header bounded_names time height prev_hash (w8 target) block 0;
  SHA256 := 32;
  SIZE_TX_OUT := SIZE_TX_OUTPUT
|}.

(** a chain whose every record is the hash of sixes *)
Definition one_hash_dbs : @Dbs gmap_db :=
  @mk_dbs gmap_db ∅ {[ [] := replicate 32 6 ]} ∅ ∅ ∅.

Lemma sample_coinbase :
  ∃ tx, @coinbase bounded_names sample_malloc header_miner (replicate 36 9)
      (replicate 32 5) = Done tx ∧ length (tx_data tx) = 46%nat ∧ tx_size tx = 46.
Proof.
  eexists. split; [|split].
  - apply (@coinbase_pays_pointer bounded_names sample_malloc header_miner (replicate 36 9)
      (replicate 32 5) (replicate 32 5 ++ [0; 0; 0; 100]));
      [vm_compute; reflexivity|reflexivity|reflexivity|].
    intros hash Hl. unfold bounded_names, sample_names, sample_names_with, tx_compute_hash.
    do 32 (destruct hash as [|? hash]; [discriminate Hl|]).
    destruct hash; [|discriminate Hl]. vm_compute. reflexivity.
  - vm_compute. reflexivity.
  - reflexivity.
Qed.

(** The address of the work block is one whose count of transactions reads 0. *)
Lemma sample_new_workblock b :
  Forall is_byte b → Z.of_nat (length b) = MAX_BLOCK_SIZE →
  ∃ b', @new_workblock gmap_db host_be bounded_names sample_malloc sample_blocks
    sample_targets header_miner 3 0x7f00b1 (replicate 36 9) 1500000000 one_hash_dbs
    (replicate 32 5) (replicate 32 6) b =
    Done (0xa5a5a5a5, 0x06060606, replicate 32 6, b').
Proof.
  unfold MAX_BLOCK_SIZE. intros Bb Lb. unfold new_workblock.
  assert (E1 : @data_chain_get_height gmap_db sample_blocks 3 one_hash_dbs =
    Done 0x06060606) by reflexivity.
  assert (E2 : @data_chain_get gmap_db host_be one_hash_dbs 0x06060606 (replicate 32 6) =
    (0, replicate 32 6)) by reflexivity.
  assert (E3 : @compute_next_target gmap_db host_be sample_malloc sample_targets
    1500000000 one_hash_dbs (replicate 32 6) = Done 0xa5a5a5a5)
    by (vm_compute; reflexivity).
  rewrite E1, bind_Done, E2. cbn [negb Z.eqb]. rewrite E3.
  rewrite bind_Done. cbn [block_set_header header_miner].
  rewrite (@block_add_header_run bounded_names)
    by (reflexivity || (unfold SIZE_BLOCK_HEADER; lia)).
  rewrite bind_Done. set (hdr := header_bytes _ _ _ _ _ _ _).
  assert (length hdr = 83%nat) as Lh by reflexivity.
  destruct sample_coinbase as (tx & -> & Ld & Ls). rewrite bind_Done.
  rewrite (@block_add_tx_run host_be bounded_names 0x7f00b1 _ tx 83).
  - rewrite Ls. eexists. reflexivity.
  - reflexivity.
  - done.
  - lia.
  - lia.
  - lia.
  - unfold MAX_BLOCK_SIZE. rewrite length_patch by lia. lia.
  - apply Forall_patch; [done|]. decided.
Qed.

Lemma mined_root_zero_witness :
  ∃ m, @mining_reachable gmap_db host_be bounded_names sample_malloc sample_blocks
      sample_targets header_miner (λ _ _, Done 1) 3 0 0x7f00b1 (replicate 36 9)
      (replicate 32 5) m ∧
    current m = Some 0xa5a5a5a5 ∧
    fixed_fields (workblock m) =
      [6; 6; 6; 7] ++ replicate 32 6 ++ replicate 32 0 ++ [0xa5].
Proof.
  destruct (sample_new_workblock (@uninit sample_malloc "workblock" MAX_BLOCK_SIZE))
    as [b' Hb'].
  { cbn. by apply Forall_replicate. }
  { by apply length_uninit. }
  eexists (mk_mining (Some 0xa5a5a5a5) 0x06060606 (replicate 32 6) b' _).
  assert (Hr : @mining_reachable gmap_db host_be bounded_names sample_malloc sample_blocks
    sample_targets header_miner (λ _ _, Done 1) 3 0 0x7f00b1 (replicate 36 9)
    (replicate 32 5) (mk_mining (Some 0xa5a5a5a5) 0x06060606 (replicate 32 6) b'
      (@uninit sample_malloc "latest_block_hash_cmp_buffer" SIZE_SHA256))).
  { eexists. split.
    - exists one_hash_dbs, one_hash_dbs, 0x06060606, (replicate 32 6). by split.
    - apply rtc_once. eapply step_new. exact Hb'. }
  split; [exact Hr|]. split; [reflexivity|].
  exact (@mined_root_zero gmap_db host_be bounded_names sample_malloc sample_blocks
    sample_targets header_miner (λ _ _, Done 1) 3 0 0x7f00b1 (replicate 36 9)
    bounded_names_sizes ltac:(reflexivity) ltac:(reflexivity) gmap_db_laws
    (replicate 32 5) _ _ Hr eq_refl).
Defined.
