(* ===== verification/Program.v ===== *)
(** * src/mine/mine.c: the program from its start

    [main_start] is the beginning of main with its output, [main_run] its
    phases: the arguments, [join_network] (Join.v) and the loops (Miner.v).
    [succeed] prints the hash of a block that was found. *)
From Stdlib Require Import String.
From S2P Require Import Prelude Shared Util Printing Join Bignum Crypto Unresolved Transactions Merkle Blocks Store Mempool Retarget Mine Miner.

Open Scope Z_scope.

(** ** Output *)

Definition succeed (hash : list Z) : io () :=
  _ ← printf (chars "Valid block found!" ++ nl) [];
  _ ← print_hex hash (Z.to_nat SIZE_SHA256);
  printf (nl ++ nl) [].

(** up to the call of [join_network] *)
Definition main_start (miner_addr : list Z) (argv : list (list Z))
    : io (list (list Z) * list Z) :=
  _ ← print_greeting;
  if Z.of_nat (length argv) =? 1 then
    argv0 ← quiet (rd argv 0);
    fatal (chars "Usage: %s <miner address>" ++ nl) [Mem argv0]
  else
    arg ← quiet (rd argv 1);
    n ← quiet (strlen arg);
    if negb (n =? 128) then
      fatal (chars "Miner address must be 128 hexadecimal digits" ++ nl) []
    else
      arg ← quiet (hexstr_to_bytes arg miner_addr SIZE_SHA256);
      argv ← quiet (wr argv 1 arg);
      _ ← printf (chars "Opening databases...") [];
      _ ← printf (chars "Establishing self on network..." ++ nl) [];
      mret (argv, miner_addr).

Definition greeting : list Z :=
  chars "##############" ++ nl ++ chars "## freecoin ##" ++ nl ++
  chars "##############" ++ nl ++ chars "Version 1 " ++ nl.

Lemma print_greeting_run : print_greeting = mk_io greeting (Done ()).
Proof. reflexivity. Qed.

(** what [fatal] prints around its message *)
Definition fatal_text (t : list Z) : list Z := chars "Fatal: " ++ t ++ nl.

Lemma fatal_run {A} string args t :
  format string args = Done t → fatal string args = mk_io (A := A) (fatal_text t) Fatal.
Proof.
  intros Ht. unfold fatal, fatal_text. rewrite (printf_Done _ _ _ Ht).
  apply io_eq; [|done]. cbn [printed ended mbind io_bind]. by rewrite ?app_nil_r.
Qed.

Definition usage (name : list Z) : list Z :=
  chars "Usage: " ++ name ++ chars " <miner address>" ++ nl.
Definition bad_address : list Z :=
  chars "Miner address must be 128 hexadecimal digits" ++ nl.

Lemma format_usage name rest :
  no_zero name →
  format (chars "Usage: %s <miner address>" ++ nl) [Mem (name ++ 0 :: rest)] =
    Done (usage name).
Proof.
  intros Hn. unfold usage.
  replace (chars "Usage: %s <miner address>" ++ nl)
    with (chars "Usage: " ++ chars "%s" ++ chars " <miner address>" ++ nl) by reflexivity.
  rewrite format_literal_app, format_s, c_string_text, bind_Done, format_literal
    by (done || decided). done.
Qed.

(** The start of main prints the greeting; without an argument it ends with
    the usage, with one that is not 128 characters long with its complaint, and
    with one of 128 characters it is undefined: hexstr_to_bytes gets its first
    two arguments swapped. *)
Theorem main_start_spec miner_addr name rest args :
  length miner_addr = 32%nat → no_zero name →
  (∀ arg, head args = Some arg → ∃ n, strlen arg = Done n) →
  main_start miner_addr ((name ++ 0 :: rest) :: args) =
    match head args with
    | None => mk_io (greeting ++ fatal_text (usage name)) Fatal
    | Some arg =>
        if decide (strlen arg = Done 128) then mk_io greeting Undef
        else mk_io (greeting ++ fatal_text bad_address) Fatal
    end.
Proof.
  intros Hm Hn Hargs. unfold main_start. rewrite print_greeting_run.
  destruct args as [|arg args]; cbn [head] in *; rewrite mk_io_bind.
  - change (Z.of_nat (length [name ++ 0 :: rest]) =? 1) with true. cbv iota.
    change (rd [name ++ 0 :: rest] 0) with (Done (name ++ 0 :: rest)).
    by rewrite quiet_bind, (fatal_run _ _ (usage name)) by by apply format_usage.
  - destruct (Hargs arg eq_refl) as [n Hs].
    rewrite (proj2 (Z.eqb_neq _ 1)) by (cbn; lia).
    change (rd ((name ++ 0 :: rest) :: arg :: args) 1) with (Done arg).
    rewrite quiet_bind, Hs, quiet_bind.
    destruct (Z.eqb_spec n 128) as [->|Hne]; cbn [negb].
    + rewrite decide_True, hexstr_to_bytes_swapped, quiet_Undef_bind by done.
      cbn [printed ended]. by rewrite app_nil_r.
    + rewrite decide_False by congruence.
      by rewrite (fatal_run _ _ bad_address).
Qed.

(** Forgetting the output, the start of main is the reading of its arguments. *)
Lemma main_start_outcome miner_addr argv :
  (∀ arg, arg ∈ argv → ∃ n, strlen arg = Done n) →
  ended (main_start miner_addr argv) = main_args miner_addr argv.
Proof.
  intros Hargs. unfold main_start, main_args. rewrite print_greeting_run.
  rewrite ended_bind. cbn [ended]. rewrite bind_Done.
  destruct (Z.eqb_spec (Z.of_nat (length argv)) 1) as [H1|H1].
  - destruct argv as [|arg0 [|? ?]]; [done| |cbn in H1; lia].
    destruct (Hargs arg0) as (n & (t & rest & -> & Ht & _)%strlen_inv);
      [by apply list_elem_of_here|].
    change (rd [t ++ 0 :: rest] 0) with (Done (t ++ 0 :: rest)).
    by rewrite quiet_bind, (fatal_run _ _ (usage t)) by by apply format_usage.
  - destruct (rd argv 1) as [arg| | |]; try done. rewrite quiet_bind, bind_Done.
    destruct (strlen arg) as [n| | |]; try done. rewrite quiet_bind, bind_Done.
    destruct (negb (n =? 128)); [by rewrite (fatal_run _ _ bad_address)|].
    destruct (hexstr_to_bytes _ _ _); try done. rewrite quiet_bind, bind_Done.
    by destruct (wr argv 1 _).
Qed.

(** ** The phases of main *)

Section Phases.
Context `{BerkeleyDB, Host, TxNames, Malloc, BlockNames, TargetNames, MinerNames}.
Context (is_valid_blockhash : list Z → Z → outcome Z).
Context (highest0 index0 block_addr : Z) (pointer_bytes : list Z).

(** [Exited]: after the exit of [fatal], with the output; [Undefined]: after
    undefined behaviour, of which nothing is said. *)
Inductive phase :=
| Starting (argv : list (list Z))
| Joining (miner_addr : list Z) (s : Join.state)
| Mining (miner_addr : list Z) (m : mining)
| Exited (output : list Z)
| Undefined.

(** what the start of main leads to *)
Definition after_start (argv : list (list Z)) (p : phase) : Prop :=
  let start := main_start (uninit "miner_addr" SIZE_SHA256) argv in
  match ended start with
  | Done (_, miner_addr) => ∃ s, Join.initial s ∧ p = Joining miner_addr s
  | Fatal => p = Exited (printed start)
  | Undef => p = Undefined
  | Hang => False
  end.

Inductive main_run : phase → phase → Prop :=
| run_start argv p : after_start argv p → main_run (Starting argv) p
| run_join miner_addr s s' :
    Join.step s s' → main_run (Joining miner_addr s) (Joining miner_addr s')
| run_joined miner_addr s m :
    pc s = Return → loop_start highest0 m →
    main_run (Joining miner_addr s) (Mining miner_addr m)
| run_mine miner_addr m m' :
    main_step is_valid_blockhash highest0 index0 block_addr pointer_bytes miner_addr m m' →
    main_run (Mining miner_addr m) (Mining miner_addr m').

(** the phase after the arguments: [fatal] at once unless the first one is 128
    characters long, and then undefined behaviour *)
Definition start_ends (name : list Z) (args : list (list Z)) : phase :=
  match head args with
  | None => Exited (greeting ++ fatal_text (usage name))
  | Some arg =>
      if decide (strlen arg = Done 128) then Undefined
      else Exited (greeting ++ fatal_text bad_address)
  end.

Lemma after_start_ends name rest args p :
  no_zero name → (∀ arg, head args = Some arg → ∃ n, strlen arg = Done n) →
  after_start ((name ++ 0 :: rest) :: args) p ↔ p = start_ends name args.
Proof.
  intros Hn Hargs. unfold after_start, start_ends.
  assert (length (uninit "miner_addr" SIZE_SHA256) = 32%nat) as Lm
    by (pose proof (length_uninit "miner_addr" SIZE_SHA256); unfold SIZE_SHA256 in *; lia).
  rewrite (main_start_spec _ name rest args Lm Hn Hargs).
  destruct (head args) as [arg|]; [|done]. by case_decide.
Qed.

Lemma main_run_joining miner_addr s p :
  Join.reachable s → rtc main_run (Joining miner_addr s) p →
  ∃ s', p = Joining miner_addr s' ∧ rtc Join.step s s'.
Proof.
  intros Hs Hr. remember (Joining miner_addr s) as p0 eqn:E. revert s Hs E.
  induction Hr as [|p1 p2 p3 H12 _ IH]; intros s Hs ->; [by exists s|].
  inversion H12 as [|? ? s' Hstep|? ? m Hpc|]; subst.
  - destruct (IH s') as (s2 & -> & Hr2); [|done|].
    { destruct Hs as (s0 & H0 & Hr0). exists s0. split; [done|]. by eapply rtc_r. }
    exists s2. split; [done|]. by eapply rtc_l.
  - by apply join_network_never_returns in Hs as [Hs _].
Qed.

(** C17: The program never mines. With a program name and arguments that are C
    strings, main's start leads to exactly one phase, which is final: the exit
    with the usage when there is no argument, the exit with the complaint when
    the first one is not 128 characters long, and undefined behaviour when it
    is. Were they accepted, a run from the call of join_network, with any
    interleaving of the other threads, stays in join_network and never comes
    to the loops that mine. *)
Theorem program_never_mines name rest args miner_addr s p :
  no_zero name → (∀ arg, head args = Some arg → ∃ n, strlen arg = Done n) →
  Join.initial s →
  (rtc main_run (Starting ((name ++ 0 :: rest) :: args)) p ↔
     p = Starting ((name ++ 0 :: rest) :: args) ∨ p = start_ends name args) ∧
  (rtc main_run (Joining miner_addr s) p →
     ∃ s', p = Joining miner_addr s' ∧ rtc Join.step s s' ∧ pc s' ≠ Return).
Proof.
  intros Hn Hargs Hs. split; [split|].
  - intros Hr. inversion Hr as [|? p1 ? Hstart Hr1]; subst; [by left|right].
    inversion Hstart as [? ? E| | |]; subst. apply after_start_ends in E as ->; [|done..].
    inversion Hr1 as [|? p2 ? Hmore _]; subst; [done|]. exfalso. revert Hmore.
    unfold start_ends. destruct (head args) as [arg|]; [case_decide|]; by inversion 1.
  - intros [->| ->]; [done|]. by apply rtc_once, run_start, after_start_ends.
  - intros (s' & -> & Hs')%main_run_joining; [|by exists s].
    exists s'. split; [done|]. split; [done|].
    apply join_network_never_returns. by exists s.
Qed.

End Phases.

(** What succeed prints of the hash reads back as the hash, whatever follows it
    in memory. *)
Theorem succeed_prints_hash hash rest bytearr :
  length hash = 32%nat → Forall is_byte (hash ++ rest) → (32 ≤ length bytearr)%nat →
  ∃ digits, succeed (hash ++ rest) =
      mk_io (chars "Valid block found!" ++ nl ++ digits ++ nl ++ nl) (Done ()) ∧
    hexstr_to_bytes bytearr digits SIZE_SHA256 = Done (patch bytearr 0 hash).
Proof.
  intros Hl Hb Hl'. exists (hex_text false hash). split.
  - unfold succeed. change (Z.to_nat SIZE_SHA256) with 32%nat.
    rewrite print_hex_run by (done || (rewrite length_app; lia)).
    by rewrite take_app_length' by done.
  - change SIZE_SHA256 with (Z.of_nat 32). rewrite <- Hl, <- (app_nil_r (hex_text _ _)).
    apply Forall_app in Hb as [Hb _]. apply hexstr_to_bytes_hex_text_run; [done|lia].
Qed.

(** ** Instances *)

Definition sample_argv0 : list Z := chars "freecoin-mine" ++ [0].

Lemma main_start_spec_witness :
  main_start (replicate 32 0xa5) [sample_argv0; chars "1234" ++ [0]] =
    mk_io (greeting ++ fatal_text bad_address) Fatal.
Proof.
  apply (main_start_spec (replicate 32 0xa5) (chars "freecoin-mine") []
    [chars "1234" ++ [0]]); [reflexivity|decided|].
  intros arg [= <-]. exists 4. reflexivity.
Defined.

Lemma succeed_prints_hash_witness :
  ∃ digits, succeed (replicate 32 0x2a ++ [7]) =
      mk_io (chars "Valid block found!" ++ nl ++ digits ++ nl ++ nl) (Done ()) ∧
    hexstr_to_bytes (replicate 33 0) digits SIZE_SHA256 =
      Done (patch (replicate 33 0) 0 (replicate 32 0x2a)).
Proof.
  apply (succeed_prints_hash (replicate 32 0x2a) [7] (replicate 33 0));
    [reflexivity|decided|apply Nat.leb_le; reflexivity].
Defined.

(** an argument of 128 digits, and a run whose arguments were accepted, with
    one peer *)
Definition long_arg : list Z := replicate 128 48 ++ [0].
Definition stuck : Join.state := Join.mk_state Lock2 (Some Main) 1 true 0.

(** without an argument, with one of four characters, with one of 128, and from
    join_network on *)
Lemma program_never_mines_witness :
  let run := rtc (@main_run gmap_db host_be bounded_names sample_malloc sample_blocks
    sample_targets header_miner (λ _ _, Done 1) 3 0 0x7f00b1 (replicate 36 9)) in
  run (Starting [sample_argv0])
    (Exited (greeting ++ fatal_text (usage (chars "freecoin-mine")))) ∧
  run (Starting [sample_argv0; chars "1234" ++ [0]])
    (Exited (greeting ++ fatal_text bad_address)) ∧
  run (Starting [sample_argv0; long_arg]) Undefined ∧
  ∃ s', Joining (replicate 32 1) stuck = Joining (replicate 32 1) s' ∧
    rtc Join.step (Join.mk_state Lock1 None 1 false 0) s' ∧ pc s' ≠ Return.
Proof.
  intros run.
  pose proof (@program_never_mines gmap_db host_be bounded_names sample_malloc sample_blocks
    sample_targets header_miner (λ _ _, Done 1) 3 0 0x7f00b1 (replicate 36 9)
    (chars "freecoin-mine") []) as H.
  assert (Hname : no_zero (chars "freecoin-mine")) by decided.
  assert (Hinit : Join.initial (Join.mk_state Lock1 None 1 false 0)) by by exists 1.
  split; [|split; [|split]].
  - apply (H [] (replicate 32 1) (Join.mk_state Lock1 None 1 false 0) _ Hname); [done|exact Hinit|by right].
  - apply (H [chars "1234" ++ [0]] (replicate 32 1) (Join.mk_state Lock1 None 1 false 0) _ Hname); [|exact Hinit|by right].
    intros arg [= <-]. exists 4. reflexivity.
  - apply (H [long_arg] (replicate 32 1) (Join.mk_state Lock1 None 1 false 0) _ Hname); [|exact Hinit|by right].
    intros arg [= <-]. exists 128. reflexivity.
  - apply (H [] (replicate 32 1) (Join.mk_state Lock1 None 1 false 0) _ Hname); [done|exact Hinit|].
    eapply rtc_l; [apply run_join, step_lock1|].
    eapply rtc_l; [apply run_join, step_break; reflexivity|].
    eapply rtc_l; [apply run_join, step_send|]. apply rtc_once, run_join, step_create.
Defined.
