(* ===== verification/Node.v ===== *)
(** * src/network.c: the threads of a node

    [join_network] in the main thread (Join.v), the listener it creates and
    the threads of the connections that [start_client_conn] and the listener
    start (Listen.v), each of which runs [handle_connection] (Network.v), as
    one transition system with what the process sends.  [exit] in any of them
    ends them all. *)
From stdpp Require Import relations.
From S2P Require Import Prelude Shared Util Crypto Unresolved Transactions Merkle Blocks Store Mempool Limbo Build Network Listen Join.

(** the end of [handle_connection]: [peer] is its argument *)
Definition hang_up (peer : thread_arg) : outcome () :=
  match peer with Local_variable => Undef | Peer_number _ => Done () end.

Section Node.
Context `{BerkeleyDB, Host, TxNames, Malloc, BlockNames, Sockets}.
Context (highest0 count0 index0 dest_addr : Z) (tx_object : M_tx → list Z)
  (on_block on_tx : conn → list Z → outcome conn).

(** The whole thread of a connection: its buffers, the loop, and its end. *)
Definition connection_thread (peer : thread_arg) (msg_null resp_null : bool)
    (recvs : list (list Z)) (c : conn) : outcome conn :=
  let c := with_resp c (uninit "resp" MAX_MSG_SIZE) in
  c ← handle_connection highest0 count0 index0 dest_addr tx_object on_block on_tx
    msg_null resp_null recvs c;
  _ ← hang_up peer;
  Done c.

(** [nd_connfd]: the field [connfd] of [peers[0]], which [join_network] tests
    and nothing stores to; [nd_conn]: the databases and the mempool, and what
    was sent *)
Record process := mk_process {
  nd_join : Join.state;
  nd_connfd : Z;
  nd_listener : option listener;
  nd_threads : list thread_arg;
  nd_conn : conn
}.

(** after [exit] only what was sent is left *)
Inductive node :=
| Running (p : process)
| Ended (sent : list (list Z)).

Definition with_join (p : process) (s : Join.state) : process :=
  mk_process s (nd_connfd p) (nd_listener p) (nd_threads p) (nd_conn p).

(** [fatal] prints and exits *)
Definition ended (p : process) : node := Ended (c_sent (nd_conn p)).

(** The steps of [join_network] that neither connect nor send are those of
    Join.v in which its program counter moves. *)
Definition local_move (s s' : Join.state) : Prop :=
  Join.step s s' ∧ pc s' ≠ pc s ∧ pc s ≠ Send ∧ (pc s = Test1 → pc s' = Send).

Inductive node_step : node → node → Prop :=
| node_local p s' :
    local_move (nd_join p) s' → node_step (Running p) (Running (with_join p s'))
| node_connect m n b r fd l ths c connfd connected ret started :
    ¬ 0 < n → start_client_conn connfd connected = Done (ret, started) →
    node_step (Running (mk_process (mk_state Test1 m n b r) fd l ths c))
      (Running (mk_process
        (mk_state Unlock1 m (if 0 <? fd then w32 (n + 1) else n) b r) fd l
        (ths ++ started) c))
| node_connect_fatal p connfd connected :
    pc (nd_join p) = Test1 → ¬ 0 < peers_count (nd_join p) →
    start_client_conn connfd connected = Fatal → node_step (Running p) (ended p)
| node_send m n b r fd l ths c c' :
    sendto_peer c CTYPE_GETDATA [DTYPE_NODE] 1 = Done c' →
    node_step (Running (mk_process (mk_state Send m n b r) fd l ths c))
      (Running (mk_process (mk_state Create m n b r) fd l ths c'))
| node_send_fatal p :
    pc (nd_join p) = Send → sendto_peer (nd_conn p) CTYPE_GETDATA [DTYPE_NODE] 1 = Fatal →
    node_step (Running p) (ended p)
| node_listen q m n r fd ths c sockfd bound listening sin_addr l :
    server_listener sockfd bound listening sin_addr r [] = Done l →
    node_step (Running (mk_process (mk_state q m n true r) fd None ths c))
      (Running (mk_process (mk_state q m n true (ln_ready l)) fd (Some l) ths c))
| node_listen_fatal p sockfd bound listening sin_addr :
    server_started (nd_join p) = true → nd_listener p = None →
    server_listener sockfd bound listening sin_addr (server_ready (nd_join p)) [] = Fatal →
    node_step (Running p) (ended p)
| node_accept s fd l l' ths c sin_addr a :
    accept_one sin_addr l a = Done l' →
    node_step (Running (mk_process s fd (Some l) ths c))
      (Running (mk_process s fd (Some l')
        (ths ++ drop (length (ln_threads l)) (ln_threads l')) c))
| node_accept_fatal p l sin_addr a :
    nd_listener p = Some l → accept_one sin_addr l a = Fatal → node_step (Running p) (ended p)
| node_thread s fd l ths c i peer msg_null resp_null recvs c' :
    ths !! i = Some peer →
    connection_thread peer msg_null resp_null recvs c = Done c' →
    node_step (Running (mk_process s fd l ths c))
      (Running (mk_process s fd l (delete i ths) c'))
| node_thread_fatal p i peer msg_null resp_null recvs :
    nd_threads p !! i = Some peer →
    connection_thread peer msg_null resp_null recvs (nd_conn p) = Fatal →
    node_step (Running p) (ended p).

(** *** The main thread runs as in Join.v *)

Definition joining (nd : node) : option Join.state :=
  match nd with Running p => Some (nd_join p) | Ended _ => None end.

Lemma node_step_join p p' :
  node_step (Running p) (Running p') → rtc Join.step (nd_join p) (nd_join p').
Proof.
  inversion_clear 1 as [? ? [Hs _]|m n b r cf l ths c fd cn ret st Hn| |m n b r cf l ths c c' E|
    |q m n r cf ths c sf bo li sa l E| | | | |]; cbn [nd_join with_join]; try done.
  - by apply rtc_once.
  - apply rtc_once. by apply step_connect.
  - apply rtc_once. apply step_send.
  - apply rtc_once.
    assert (ln_ready l = 1) as ->.
    { revert E. unfold server_listener. repeat case_match; try done. by intros [= <-]. }
    apply step_ready.
Qed.

(** *** What the node does *)

(** whether [join_network] has asked its first peer for nodes *)
Definition requested (s : Join.state) : bool :=
  match pc s with Lock1 | Test1 | Unlock1 | Send => false | _ => true end.

Lemma local_move_requested s s' : local_move s s' → requested s' = requested s.
Proof.
  intros (Hs & Hpc & Hsend & Hbreak). unfold requested.
  by destruct Hs; cbn in *.
Qed.

Lemma connection_thread_fatal peer msg_null resp_null recvs c :
  connection_thread peer msg_null resp_null recvs c = Fatal.
Proof. unfold connection_thread. by rewrite handle_connection_fatal. Qed.

(** the request of [join_network] as it is sent *)
Definition request : list Z := [0; DTYPE_NODE].

Lemma send_request c :
  sendto_peer c CTYPE_GETDATA [DTYPE_NODE] 1 =
    if sendto request <? 0 then Fatal else Done (sent c request).
Proof. rewrite sendto_peer_run; [done|cbn; lia|lia]. Qed.

(** [n0] is [peers_count] at the start, [fd0] the [connfd] of [peers[0]]:
    when neither is positive the first loop of [join_network] has no end. *)
Definition node_inv (n0 fd0 : Z) (c0 : conn) (nd : node) : Prop :=
  match nd with
  | Running p =>
      Join.reachable (nd_join p) ∧ nd_connfd p = fd0 ∧
      (fd0 ≤ 0 → n0 ≤ 0 → peers_count (nd_join p) ≤ 0 ∧ requested (nd_join p) = false) ∧
      nd_conn p = if requested (nd_join p) then sent c0 request else c0
  | Ended bss => bss = c_sent c0 ∨ 0 < Z.max n0 fd0 ∧ bss = c_sent c0 ++ [request]
  end.

Lemma node_inv_ended n0 fd0 c0 p :
  node_inv n0 fd0 c0 (Running p) → node_inv n0 fd0 c0 (ended p).
Proof.
  intros (_ & _ & Hreq & Hc). cbn. rewrite Hc.
  destruct (requested (nd_join p)); [right|by left]. split; [|done].
  destruct (Z.ltb_spec 0 (Z.max n0 fd0)); [done|].
  by destruct (Hreq ltac:(lia) ltac:(lia)).
Qed.

(** The first loop ends only with a positive [peers_count]. *)
Lemma local_move_counted s s' :
  local_move s s' → peers_count s ≤ 0 → requested s = false →
  peers_count s' ≤ 0 ∧ requested s' = false.
Proof.
  intros Hl Hn Hq. rewrite (local_move_requested _ _ Hl). split; [|done].
  destruct Hl as (Hs & Hpc & _ & Hbreak). destruct Hs; cbn in *; try done.
  by specialize (Hbreak eq_refl).
Qed.

Lemma node_inv_step n0 fd0 c0 nd nd' :
  node_inv n0 fd0 c0 nd → node_step nd nd' → node_inv n0 fd0 c0 nd'.
Proof.
  intros Hinv Hstep.
  destruct nd as [p|]; [|by inversion Hstep].
  destruct nd' as [p'|bss].
  - destruct Hinv as ((s0 & H0 & Hr) & Hfd & Hq & Hc). split.
    { exists s0. split; [done|]. etrans; [exact Hr|]. by apply node_step_join. }
    assert (Hj : Join.join_inv (nd_join p)) by by apply join_inv_reachable; exists s0.
    revert Hc Hq Hfd Hj. inversion_clear Hstep as [? s' Hl|m n b r cf l ths c fd cn ret st Hn E| |
      m n b r cf l ths c c' E| |q m n r cf ths c sf bo li sa l E| |s cf l l' ths c sa a E| |
      s cf l ths c i peer mn rn recvs c' Hi E|];
      cbn [nd_join nd_connfd nd_conn with_join peers_count]; intros Hc Hq Hfd Hj.
    + rewrite (local_move_requested _ _ Hl). split; [done|]. split; [|done].
      intros Hfd0 Hn0. destruct (Hq Hfd0 Hn0) as [Hn Hreq].
      destruct (local_move_counted _ _ Hl Hn Hreq) as [? _]. done.
    + subst cf. split; [done|]. split; [|exact Hc].
      intros Hfd0 Hn0. rewrite (proj2 (Z.ltb_ge _ _) Hfd0). split; [lia|done].
    + rewrite send_request in E. destruct (sendto request <? 0); [done|].
      injection E as <-. cbn in *. subst. split; [done|]. split; [|done].
      intros Hfd0 Hn0. destruct (Hq Hfd0 Hn0) as [Hn _]. exfalso. destruct Hj. cbn in *. lia.
    + by split.
    + by split.
    + by rewrite connection_thread_fatal in E.
  - inversion Hstep; subst; by apply node_inv_ended.
Qed.

Lemma node_inv_run c0 s0 fd0 nd :
  Join.initial s0 → rtc node_step (Running (mk_process s0 fd0 None [] c0)) nd →
  node_inv (peers_count s0) fd0 c0 nd.
Proof.
  intros H0 Hr.
  assert (Hi : node_inv (peers_count s0) fd0 c0 (Running (mk_process s0 fd0 None [] c0))).
  { split; [by exists s0|]. by destruct H0 as [n ->]. }
  induction Hr as [|nd1 nd2 nd3 Hs _ IH]; [done|]. by eapply IH, node_inv_step.
Qed.

(** C16: In every run of a node, with join_network in the main thread, the
    listener and any number of connections, all that is ever sent is one
    request of two bytes, and that only when the unset peers_count or the
    connfd of the first peer, which no connection stores, was positive from
    the start; the databases and the mempool stay as they were and
    join_network does not return; every thread of a connection can end the
    program at once, whatever it would receive. *)
Theorem node_serves_nobody c0 s0 fd0 nd :
  Join.initial s0 → rtc node_step (Running (mk_process s0 fd0 None [] c0)) nd →
  match nd with
  | Running p =>
      pc (nd_join p) ≠ Return ∧
      (nd_conn p = c0 ∨
       (0 < peers_count s0 ∨ 0 < fd0) ∧ nd_conn p = sent c0 request) ∧
      (∀ i peer msg_null resp_null recvs, nd_threads p !! i = Some peer →
         node_step nd (ended p) ∧
         connection_thread peer msg_null resp_null recvs (nd_conn p) = Fatal)
  | Ended bss =>
      bss = c_sent c0 ∨
      (0 < peers_count s0 ∨ 0 < fd0) ∧ bss = c_sent c0 ++ [request]
  end.
Proof.
  intros H0 Hr%(node_inv_run _ _ _ _ H0). destruct nd as [p|bss].
  - destruct Hr as (Hj & _ & Hq & Hc). split; [by apply join_network_never_returns|]. split.
    + rewrite Hc. destruct (requested (nd_join p)); [right|by left]. split; [|done].
      destruct (Z.ltb_spec 0 (Z.max (peers_count s0) fd0)); [lia|].
      by destruct (Hq ltac:(lia) ltac:(lia)).
    + intros i peer mn rn recvs Hi. split; [|apply connection_thread_fatal].
      by eapply (node_thread_fatal p i peer mn rn recvs), connection_thread_fatal.
  - destruct Hr as [->|[Hpos ->]]; [by left|right]. split; [lia|done].
Qed.
End Node.

(** ** Instances *)

(** the node has connected to a peer and asked it for nodes *)
Definition sample_process : @process gmap_db :=
  @mk_process gmap_db (mk_state Lock2 (Some Main) 1 true 0) 7 None [Local_variable]
    (sent sample_conn [0; DTYPE_NODE]).

(** the run of a node whose [peers[0]] was left a positive [connfd], and the
    thread of its connection *)
Lemma node_serves_nobody_witness :
  let step := @node_step gmap_db host_be sample_names sample_malloc sample_blocks
    sample_sockets 0 0 0 0 tx_hash no_handler no_handler in
  rtc step (Running (@mk_process gmap_db (mk_state Lock1 None 0 false 0) 7 None []
    sample_conn)) (Running sample_process) ∧
  pc (nd_join sample_process) ≠ Return ∧
  step (Running sample_process) (ended sample_process) ∧
  @connection_thread gmap_db host_be sample_names sample_malloc sample_blocks
    sample_sockets 0 0 0 0 tx_hash no_handler no_handler Local_variable false false
    [[0; 1; CTYPE_PING]] (nd_conn sample_process) = Fatal.
Proof.
  intros step.
  assert (Hr : rtc step (Running (@mk_process gmap_db (mk_state Lock1 None 0 false 0) 7 None []
    sample_conn)) (Running sample_process)).
  { eapply rtc_l; [apply node_local; split; [apply step_lock1|by split]|].
    eapply rtc_l; [by eapply (@node_connect gmap_db) with (connfd := 5) (connected := 0)|].
    eapply rtc_l; [apply node_local; split; [apply step_unlock1|by split]|].
    eapply rtc_l; [apply node_local; split; [apply step_lock1|by split]|].
    eapply rtc_l; [apply node_local; split; [by apply step_break|by split]|].
    eapply rtc_l; [apply node_send; reflexivity|].
    apply rtc_once, node_local. split; [apply step_create|by split]. }
  destruct (@node_serves_nobody gmap_db host_be sample_names sample_malloc sample_blocks
    sample_sockets 0 0 0 0 tx_hash no_handler no_handler sample_conn _ 7 _
    (ex_intro _ 0 eq_refl) Hr) as (Hpc & _ & Hth).
  split; [exact Hr|]. split; [exact Hpc|].
  exact (Hth 0%nat Local_variable false false [[0; 1; CTYPE_PING]] eq_refl).
Defined.
