(* ===== verification/Echo.v ===== *)
(** * misc/net-testing/old: the echo server and its client

    The two programs the network code started from.  The server sends back
    what it received as a C string, the client prints what it receives as
    one; neither ends the text it receives with a zero.  Each program is
    modelled on its own, against the results of its calls.  The bytes
    written to a socket are results, the text on the terminal is the output
    of [io]; [perror] writes elsewhere and is left out. *)
From Stdlib Require Import String Sorted.
From S2P Require Import Prelude Shared Util Printing Unresolved.

Open Scope Z_scope.

(** What [recv] returns: a positive number and as many bytes, 0 or -1. *)
Inductive received :=
| Data (bytes : list Z)
| Closed
| Failed.

Definition puts (s : list Z) : io () := t ← quiet (c_string s); mk_io (t ++ nl) (Done ()).

Section Programs.
Context `{Malloc}.

(** ** server.c *)

(** One round of the loop of [connection_handler]: the buffer afterwards and
    what is written back. *)
Definition echo (bytes client_message : list Z) : io (list Z * list Z) :=
  client_message ← quiet (memwrite client_message 0 bytes);
  _ ← printf (chars "send %s" ++ nl) [Mem client_message];
  n ← quiet (strlen client_message);
  out ← quiet (memread client_message 0 n);
  mret (client_message, out).

(** [recvs] are the results of the calls of [recv]; the thread waits for ever
    when there are no more. The messages written back are returned. *)
Fixpoint connection_handler (recvs : list received) (client_message : list Z)
    : io (list (list Z)) :=
  match recvs with
  | [] => quiet Hang
  | Data bytes :: recvs =>
      '(client_message, out) ← echo bytes client_message;
      outs ← connection_handler recvs client_message;
      mret (out :: outs)
  | Closed :: _ => _ ← puts (chars "Client disconnected" ++ [0]); mret []
  | Failed :: _ => mret []
  end.

(** The loop of main around [accept]: [new_sock] has one byte, and an [int] is
    stored in it. A thread is a value of [create] below 0 if it could not be
    made; it is joined at once, so the handler runs here. *)
Fixpoint accept_loop (accepts : list (Z * Z * list received)) : io Z :=
  match accepts with
  | [] => quiet Hang
  | (client_sock, create, recvs) :: accepts =>
      if client_sock =? 0 then mret (if client_sock <? 0 then 1 else 0)
      else
        _ ← puts (chars "Connection accepted" ++ [0]);
        _ ← quiet (memwrite (uninit "new_sock" 1) 0 (be_bytes 4 client_sock));
        if create <? 0 then mret 1
        else
          _ ← connection_handler recvs (uninit "client_message" 2000);
          _ ← puts (chars "Handler assigned" ++ [0]);
          accept_loop accepts
  end.

Definition server_main (socket_desc bound : Z) (accepts : list (Z * Z * list received))
    : io Z :=
  _ ← (if socket_desc =? -1 then printf (chars "Could not create socket") [] else mret ());
  _ ← puts (chars "Socket created" ++ [0]);
  if bound <? 0 then mret 1
  else
    _ ← puts (chars "bind done" ++ [0]);
    _ ← puts (chars "Waiting for incoming connections..." ++ [0]);
    accept_loop accepts.

(** ** client.c *)

(** [message[0] = printf(...)]: the number of characters printed. [word] is
    what [scanf] reads; the message is returned with what is sent. *)
Definition client_send (word message : list Z) : io (list Z * list Z) :=
  _ ← printf (chars "Enter message : ") [];
  message ← quiet (wr message 0 16);
  message ← quiet (memwrite message 0 (word ++ [0]));
  n ← quiet (strlen message);
  out ← quiet (memread message 0 (n + 1));
  mret (message, out).

Definition client_receive (bytes server_reply : list Z) : io (list Z) :=
  server_reply ← quiet (memwrite server_reply 0 bytes);
  _ ← puts (chars "Server reply :" ++ [0]);
  _ ← puts server_reply;
  mret server_reply.

(** [talk] is what happens between the client and the server in one round:
    whether [send] succeeds, and the result of [recv]. *)
Fixpoint client_loop (words : list (list Z)) (talk : list (bool * received))
    (message server_reply : list Z) : io Z :=
  match words, talk with
  | word :: words, (sent, recv) :: talk =>
      '(message, out) ← client_send word message;
      if negb sent then _ ← puts (chars "Send failed" ++ [0]); mret 1
      else
        match recv with
        | Failed => _ ← puts (chars "recv failed" ++ [0]); mret 0
        | Closed =>
            server_reply ← client_receive [] server_reply;
            client_loop words talk message server_reply
        | Data bytes =>
            server_reply ← client_receive bytes server_reply;
            client_loop words talk message server_reply
        end
  | _, _ => quiet Hang
  end.

Definition client_main (sock connected : Z) (words : list (list Z))
    (talk : list (bool * received)) : io Z :=
  _ ← (if sock =? -1 then printf (chars "Could not create socket") [] else mret ());
  _ ← puts (chars "Socket created" ++ [0]);
  if connected <? 0 then mret 1
  else
    _ ← puts (chars "Connected" ++ nl ++ [0]);
    client_loop words talk (uninit "message" 1000) (uninit "server_reply" 2000).

End Programs.

(** ** The server *)

Lemma memread_text t rest :
  memread (t ++ 0 :: rest) 0 (Z.of_nat (length t)) = Done t.
Proof.
  rewrite memread_Done by (rewrite ?length_app; lia).
  by rewrite Z2Nat.inj_0, drop_0, Nat2Z.id, take_app_length.
Qed.

(** What comes back is what was received, up to its first zero; without one
    it goes on with what the buffer held behind it. *)
Lemma echo_run bytes buf t rest :
  (length bytes ≤ length buf)%nat → no_zero t → patch buf 0 bytes = t ++ 0 :: rest →
  echo bytes buf = mk_io (chars "send " ++ t ++ nl) (Done (patch buf 0 bytes, t)).
Proof.
  intros Hl Ht Hp. unfold echo. rewrite memwrite_Done by lia.
  rewrite quiet_bind. change (Z.to_nat 0) with 0%nat. rewrite Hp.
  rewrite (printf_Done _ _ (chars "send " ++ t ++ nl)).
  - rewrite strlen_text by done. rewrite mk_io_bind, quiet_bind, memread_text, quiet_bind.
    cbn [printed ended mret io_ret]. by rewrite app_nil_r.
  - replace (chars "send %s" ++ nl) with (chars "send " ++ chars "%s" ++ nl) by reflexivity.
    by rewrite format_literal_app, format_s, c_string_text by (done || decided).
Qed.

Lemma echo_line word buf :
  no_zero word → (length word < length buf)%nat →
  ∃ buf', echo (word ++ [0]) buf = mk_io (chars "send " ++ word ++ nl) (Done (buf', word)) ∧
    length buf' = length buf.
Proof.
  intros Hw Hl. eexists. split.
  - apply (echo_run _ _ _ (drop (length word + 1) buf)); [len; cbn; lia|done|].
    rewrite patch_0. len. cbn [length]. by rewrite <- app_assoc.
  - apply length_patch. len. cbn. lia.
Qed.

(** A message without a zero, shorter than the text in the buffer, comes back
    with the end of that text. *)
Lemma echo_leaks bytes t rest :
  no_zero bytes → no_zero t → (length bytes ≤ length t)%nat →
  ∃ buf', echo bytes (t ++ 0 :: rest) =
    mk_io (chars "send " ++ (bytes ++ drop (length bytes) t) ++ nl)
      (Done (buf', bytes ++ drop (length bytes) t)).
Proof.
  intros Hb Ht Hl. eexists. apply (echo_run _ _ _ rest).
  - rewrite length_app. lia.
  - apply Forall_app. split; [done|by apply Forall_drop].
  - by rewrite patch_0, drop_app_le, app_assoc by done.
Qed.

(** ** The client *)

(** [t] with its beginning replaced by [w] *)
Definition overlay (w t : list Z) : list Z := w ++ drop (length w) t.

(** what the client prints for these replies, [t] being the text of the buffer
    before *)
Fixpoint shown (replies : list (list Z)) (t : list Z) : list Z :=
  match replies with
  | [] => []
  | w :: replies =>
      chars "Enter message : " ++ chars "Server reply :" ++ nl ++
      overlay w t ++ nl ++ shown replies (overlay w t)
  end.

Definition word_ok (w : list Z) : Prop := no_zero w ∧ (length w < 1000)%nat.

(** the bytes of a reply: none when the connection is closed *)
Definition reply_bytes (r : received) : list Z :=
  match r with Data bytes => bytes | _ => [] end.

(** a message that was sent, and a reply without a zero that leaves one byte of
    the buffer, or the end of the connection *)
Definition talk_ok (sr : bool * received) : Prop :=
  sr.1 = true ∧ sr.2 ≠ Failed ∧ no_zero (reply_bytes sr.2) ∧
  (length (reply_bytes sr.2) < 2000)%nat.

Lemma client_send_run word message :
  word_ok word → length message = 1000%nat →
  ∃ message', client_send word message =
      mk_io (chars "Enter message : ") (Done (message', word ++ [0])) ∧
    length message' = 1000%nat.
Proof.
  intros [Hw Hl] Hm. unfold client_send.
  rewrite (printf_Done _ _ (chars "Enter message : ")) by done.
  rewrite wr_Done by lia. rewrite mk_io_bind, quiet_bind.
  rewrite memwrite_Done by (len; cbn; lia). rewrite quiet_bind.
  change (Z.to_nat 0) with 0%nat. set (m1 := patch _ 0 _).
  assert (E : m1 = word ++ 0 :: drop (length word + 1) (<[0%nat := 16]> message)).
  { unfold m1. rewrite patch_0. len. cbn [length]. by rewrite <- app_assoc. }
  assert (T : take (Z.to_nat (Z.of_nat (length word) + 1)) m1 = word ++ [0]).
  { rewrite E. change (word ++ 0 :: ?l) with (word ++ [0] ++ l). rewrite app_assoc.
    replace (Z.to_nat (Z.of_nat (length word) + 1)) with (length (word ++ [0]))
      by (len; cbn; lia). apply take_app_length. }
  assert (Lm : length m1 = 1000%nat)
    by (unfold m1; rewrite length_patch; [by len|]; len; cbn; lia).
  assert (strlen m1 = Done (Z.of_nat (length word))) as ->
    by (rewrite E; by apply strlen_text).
  rewrite quiet_bind.
  rewrite (memread_Done m1 0 (Z.of_nat (length word) + 1)) by lia.
  rewrite quiet_bind. exists m1. split; [|done].
  change (Z.to_nat 0) with 0%nat. rewrite drop_0, T.
  cbn [printed ended mret io_ret]. by rewrite app_nil_r.
Qed.

Lemma client_receive_run w t rest :
  no_zero w → no_zero t → (length w < length (t ++ 0%Z :: rest))%nat →
  Forall (λ c, c = 0) rest →
  ∃ rest', client_receive w (t ++ 0 :: rest) =
      mk_io (chars "Server reply :" ++ nl ++ overlay w t ++ nl)
        (Done (overlay w t ++ 0 :: rest')) ∧
    Forall (λ c, c = 0) rest' ∧
    length (overlay w t ++ 0 :: rest') = length (t ++ 0 :: rest).
Proof.
  intros Hw Ht Hl Hr. unfold client_receive. rewrite memwrite_Done by lia.
  change (Z.to_nat 0) with 0%nat. rewrite quiet_bind, patch_0.
  assert (∃ rest', w ++ drop (length w) (t ++ 0 :: rest) = overlay w t ++ 0 :: rest' ∧
    Forall (λ c, c = 0) rest') as (rest' & E & Hr').
  { unfold overlay. destruct (decide (length w ≤ length t)%nat) as [Hle|Hgt].
    - exists rest. by rewrite drop_app_le, app_assoc by done.
    - rewrite drop_app_ge, (drop_ge t), app_nil_r by lia.
      rewrite length_app in Hl. cbn [length] in Hl.
      pose proof (Forall_drop (λ c, c = 0) (length w - length t) (0 :: rest)) as Hz.
      destruct (drop (length w - length t) (0 :: rest)) as [|z rest'] eqn:Ed.
      { apply (f_equal length) in Ed. rewrite length_drop in Ed. cbn [length] in Ed. lia. }
      assert (Hz' : Forall (λ c, c = 0) (z :: rest')) by (apply Hz; by constructor).
      inversion Hz' as [|? ? -> Hz'']; subst. by exists rest'. }
  rewrite E. exists rest'. split; [|split; [done|]].
  - unfold puts. rewrite (c_string_text (chars "Server reply :") []) by decided.
    rewrite (c_string_text (overlay w t) rest')
      by (apply Forall_app; split; [done|by apply Forall_drop]).
    rewrite !quiet_bind, !mk_io_bind. cbn [printed ended mret io_ret].
    by rewrite app_nil_r, <- app_assoc.
  - rewrite <- E. len. rewrite length_app in *. cbn [length] in *. lia.
Qed.

(** One round of the client: it does not tell a closed connection from an
    empty reply. *)
Lemma client_loop_round word words sr talk message server_reply :
  sr.1 = true → sr.2 ≠ Failed →
  client_loop (word :: words) (sr :: talk) message server_reply =
    ('(message, out) ← client_send word message;
     server_reply ← client_receive (reply_bytes sr.2) server_reply;
     client_loop words talk message server_reply).
Proof.
  destruct sr as [b r]. cbn [fst snd client_loop]. intros -> Hr. unfold mbind.
  by destruct r.
Qed.

(** C18: In rounds in which each word has fewer than 1000 characters, each
    send succeeds and each recv yields a reply of fewer than 2000 bytes
    without a zero or the end of the connection, the loop of the client, with
    a 2000-byte buffer whose bytes behind its text are zeros, prints each
    reply followed by the end of the text shown before wherever that was
    longer, and goes on waiting for a word: recv does not end the reply with a
    zero, and the end of the connection is shown as the last reply again. *)
Theorem client_shows words : ∀ talk message t rest,
  Forall word_ok words → Forall talk_ok talk → length words = length talk →
  length message = 1000%nat → no_zero t → Forall (λ c, c = 0) rest →
  length (t ++ 0%Z :: rest) = 2000%nat →
  client_loop words talk message (t ++ 0 :: rest) =
    mk_io (shown (reply_bytes ∘ snd <$> talk) t) Hang.
Proof.
  induction words as [|w words IH]; intros [|sr talk] message t rest Hw Hs Hn Hm Ht Hr Hl;
    try done.
  apply Forall_cons in Hw as [Hw Hws].
  apply Forall_cons in Hs as [(Hsent & Hf & Hz & Hlen) Hs].
  rewrite client_loop_round by done.
  destruct (client_send_run w message) as (message' & -> & Lm); [done|done|].
  rewrite mk_io_bind.
  destruct (client_receive_run (reply_bytes sr.2) t rest) as (rest' & -> & Hr' & Lr);
    [done|done|lia|done|].
  rewrite mk_io_bind. cbn [printed ended fmap list_fmap shown compose].
  rewrite (IH talk message' (overlay _ t) rest'); try (done || lia || by injection Hn).
  - by rewrite <- !app_assoc.
  - apply Forall_app. split; [done|by apply Forall_drop].
Qed.

(** Words that do not get shorter are shown as they were typed. *)
Lemma shown_typed words : ∀ t,
  (∀ w, head words = Some w → (length t ≤ length w)%nat) →
  Sorted (λ v w, (length v ≤ length w)%nat) words →
  shown words t = mjoin ((λ w, chars "Enter message : " ++ chars "Server reply :" ++ nl ++
    w ++ nl) <$> words).
Proof.
  induction words as [|w words IH]; intros t Ht Hs; [done|].
  apply Sorted_inv in Hs as [Hs Hw]. specialize (Ht w eq_refl).
  assert (overlay w t = w) as E by (unfold overlay; by rewrite drop_ge, app_nil_r by lia).
  cbn [shown fmap list_fmap mjoin list_join]. rewrite E, (IH w).
  - by rewrite <- !app_assoc.
  - intros v Hv. destruct words as [|v' words]; [done|]. injection Hv as ->.
    by inversion Hw.
  - done.
Qed.

(** ** The server never serves

    [new_sock] has room for one byte of the [int] stored in it, so the first
    connection is undefined; the loop ends only when [accept] returns 0, and
    the test for a negative number behind it never holds. *)
Theorem server_main_spec `{Malloc} socket_desc bound accepts :
  ended (server_main socket_desc bound accepts) =
    if bound <? 0 then Done 1
    else match accepts with
         | [] => Hang
         | (client_sock, _, _) :: _ => if client_sock =? 0 then Done 0 else Undef
         end.
Proof.
  unfold server_main, puts. rewrite !(c_string_text (chars _) []) by decided.
  rewrite !quiet_bind.
  assert (∀ (b : bool) m, ended ((if b then printf (chars "Could not create socket") []
    else mret ()) ≫= m) = ended (m ())) as -> by (by intros []; intros; rewrite ended_bind).
  rewrite mk_io_bind. cbn [ended]. destruct (bound <? 0); [done|].
  rewrite !mk_io_bind. cbn [ended].
  destruct accepts as [|[[c create] recvs] accepts]; [done|]. cbn [accept_loop].
  destruct (Z.eqb_spec c 0) as [->|Hc]; [done|].
  unfold puts. rewrite (c_string_text (chars "Connection accepted") []) by decided.
  rewrite quiet_bind, mk_io_bind. cbn [ended].
  rewrite memwrite_oob; [done|]. rewrite length_uninit by lia. rewrite length_be_bytes. lia.
Qed.

(** ** Instances *)

(** the second reply is shown with the end of the first, "hi" as "hillo", and so
    is the end of the connection *)
Lemma client_shows_witness :
  client_loop [chars "hello"; chars "hi"; chars "bye"]
    [(true, Data (chars "hello")); (true, Data (chars "hi")); (true, Closed)]
    (replicate 1000 0) (chars "" ++ 0 :: replicate 1999 0) =
  mk_io (shown [chars "hello"; chars "hi"; []] []) Hang.
Proof.
  apply (client_shows [chars "hello"; chars "hi"; chars "bye"]
    [(true, Data (chars "hello")); (true, Data (chars "hi")); (true, Closed)]
    (replicate 1000 0) (chars "") (replicate 1999 0)).
  - repeat constructor; try discriminate; apply Nat.ltb_lt; reflexivity.
  - repeat constructor; try discriminate; apply Nat.ltb_lt; reflexivity.
  - reflexivity.
  - reflexivity.
  - constructor.
  - by apply Forall_replicate.
  - reflexivity.
Defined.

Example shown_hillo :
  shown [chars "hello"; chars "hi"] [] =
    chars "Enter message : Server reply :" ++ nl ++ chars "hello" ++ nl ++
    chars "Enter message : Server reply :" ++ nl ++ chars "hillo" ++ nl.
Proof. reflexivity. Qed.
