(* ===== verification/Sketches.v ===== *)
(** * misc/net-testing and src/testing: small helpers and test programs

    inet.c and peers.c of old/ hold four functions that nothing calls;
    temp-net-send-example.c sends the lines of a terminal to a peer;
    testing.c prints a block of unset memory, and has a test that nothing
    calls.  The results of the calls of the socket library are arguments. *)
From Stdlib Require Import String.
From S2P Require Import Prelude Shared Util Printing Unresolved Echo.

Open Scope Z_scope.

(** used in testing.c and defined nowhere: the names of an earlier version *)
Class TestNames := {
  TX_HEADER_SIZE : Z;
  TX_IN_SIZE : Z;
  TX_OUT_SIZE : Z;
  SHA256_SIZE : Z;
  RSA1024_SIZE : Z;
  gen_tx_input : list Z → list Z → list Z → outcome (list Z);
  gen_tx_output : list Z → Z → list Z → outcome (list Z);
  gen_tx : Z → Z → Z → Z → list (list Z) → list (list Z) → list Z → outcome (list Z);
  gen_merkle_root : list (list Z) → Z → list Z → outcome (list Z)
}.

(** what a function that may call [exit] does *)
Inductive exits (A : Type) :=
| Returns (a : A)
| Exits (status : Z).
Arguments Returns {A} a.
Arguments Exits {A} status.

(** ** old/inet.c *)

Section Inet.
Context `{Host}.

Record sockaddr_in := mk_sockaddr {
  sin_family : Z;
  sin_port : Z;
  sin_addr : Z
}.

(** [AF_INET] and [PF_INET] are 2, [INADDR_ANY] is 0, on every system. *)
Definition AF_INET : Z := 2.
Definition INADDR_ANY : Z := 0.
Definition EXIT_FAILURE : Z := 1.

(** [sock] is what [socket] returns, [bind] what binding to an address does. *)
Definition make_socket (sock : Z) (bind : sockaddr_in → Z) (port : Z) : exits Z :=
  if sock <? 0 then Exits EXIT_FAILURE
  else
    let name := mk_sockaddr AF_INET (ntohs port) (ntohl INADDR_ANY) in
    if bind name <? 0 then Exits EXIT_FAILURE else Returns sock.

(** [hostinfo] is the address [gethostbyname] finds, [None] for [NULL]. The
    message goes to [stderr]. *)
Definition init_sockaddr (name : sockaddr_in) (hostinfo : option Z) (port : Z)
    : exits sockaddr_in :=
  match hostinfo with
  | None => Exits EXIT_FAILURE
  | Some addr => Returns (mk_sockaddr AF_INET (ntohs port) addr)
  end.

End Inet.

Section Helpers.
Context `{Malloc}.

(** ** old/peers.c *)

Definition MAXMSG : Z := 512.
Definition MESSAGE : list Z := chars "Yow!!! Are we having fun yet?!?".

Definition read_from_client (read : received) : io (exits Z) :=
  match read with
  | Failed => _ ← printf (chars "read") []; mret (Exits 0)
  | Closed => mret (Returns (-1))
  | Data bytes =>
      buffer ← quiet (memwrite (uninit "buffer" MAXMSG) 0 bytes);
      _ ← printf (chars "Server: got message: `%s'" ++ nl) [Mem buffer];
      mret (Returns 0)
  end.

(** the bytes given to [write], and what becomes of its result *)
Definition write_to_server (nbytes : Z) : outcome (list Z * exits ()) :=
  n ← strlen (MESSAGE ++ [0]);
  out ← memread (MESSAGE ++ [0]) 0 (n + 1);
  Done (out, if nbytes <? 0 then Exits 0 else Returns ()).

(** ** temp-net-send-example.c *)

(** [strcmp(a, b) == 0] *)
Definition streq (a b : list Z) : outcome bool :=
  s ← c_string a; t ← c_string b; Done (bool_decide (s = t)).

(** A line as [fgets] returns it, the result of [sendto] and [errno]. The loop
    up to the end of the input: what was sent, and whether the peer was
    closed. *)
Fixpoint send_lines (lines : list (list Z * Z * Z)) (sendline : list Z) (closed : bool)
    : io (list (list Z) * bool) :=
  match lines with
  | [] => mret ([], closed)
  | (line, ret, errno) :: lines =>
      sendline ← quiet (memwrite sendline 0 (line ++ [0]));
      close ← quiet (streq sendline (chars "debug_close" ++ [0]));
      n ← quiet (strlen sendline);
      out ← quiet (memread sendline 0 n);
      if ret <? 0 then
        fatal (chars "Send to peer failed. ERRNO %d" ++ nl) [Int errno]
      else
        '(outs, closed) ← send_lines lines sendline (closed || close);
        mret (out :: outs, closed)
  end.

Definition example_main (lines : list (list Z * Z * Z)) : io (list (list Z) * bool) :=
  send_lines lines (uninit "sendline" 1000) false.

(** ** testing.c *)

Definition midstate_test : io () :=
  let block := uninit "block" 256 in
  _ ← print_hex block 256;
  _ ← printf (nl ++ nl ++ nl ++ nl) [];
  print_hex block 256.

(** [hexstr_to_bytes] as [transaction_test] calls it: a number where the text
    should be, which is no address of an object. *)
Definition hexstr_to_bytes_number (bytearr : list Z) (string bytes : Z) : outcome (list Z) :=
  for_range 0 bytes (λ byte_pos bytearr,
    c ← (Undef : outcome Z);
    wr bytearr byte_pos (w8 c)) bytearr.

Section Test.
Context `{TestNames}.

(** Pointers that are passed as numbers are values of [address]. *)
Context (address : string → Z).

(** [tx = memcpy(tx, from, size)] *)
Definition copy_tx (name : string) (from : list Z) (size : Z) : outcome (list Z) :=
  bytes ← memread from 0 size; memwrite (uninit name size) 0 bytes.

Definition transaction_test : io () :=
  let in_count := 1 in
  let out_count := 1 in
  let time := 1435969063 in
  let in0 := uninit "ins[0]" TX_IN_SIZE in
  let out0 := uninit "outs[0]" TX_OUT_SIZE in
  let ref_tx := uninit "ref_tx" SHA256_SIZE in
  _ ← quiet (hexstr_to_bytes_number (replicate 64 97 ++ [0]) SHA256_SIZE (address "ref_tx"));
  let sig := uninit "sig" RSA1024_SIZE in
  _ ← quiet (hexstr_to_bytes_number (replicate 256 97 ++ [0]) RSA1024_SIZE (address "sig"));
  in0 ← quiet (gen_tx_input ref_tx sig in0);
  let out_address := uninit "out_address" RSA1024_SIZE in
  _ ← quiet (hexstr_to_bytes_number (replicate 256 98 ++ [0]) RSA1024_SIZE
    (address "out_address"));
  out0 ← quiet (gen_tx_output out_address 1 out0);
  let size := TX_HEADER_SIZE + TX_IN_SIZE + TX_OUT_SIZE in
  tx0 ← quiet (gen_tx __VERSION in_count out_count time [in0] [out0] (uninit "tx0" size));
  let hash := uninit "hash" SHA256_SIZE in
  tx1 ← quiet (copy_tx "tx1" tx0 size);
  tx2 ← quiet (copy_tx "tx2" tx1 size);
  tx3 ← quiet (copy_tx "tx3" tx2 size);
  tx4 ← quiet (copy_tx "tx4" tx3 size);
  tx5 ← quiet (copy_tx "tx5" tx4 size);
  hash ← quiet (gen_merkle_root [tx0; tx1; tx2; tx3; tx4; tx5] 6 hash);
  _ ← printf (chars "Transaction:            ") [];
  _ ← print_hex tx0 (Z.to_nat size);
  _ ← printf nl [];
  _ ← printf (chars "Merkle root: ") [];
  print_hex hash (Z.to_nat SHA256_SIZE).

(** It ends in the first conversion, before anything is printed. *)
Lemma transaction_test_run : 0 < address "ref_tx" → transaction_test = mk_io [] Undef.
Proof.
  intros Ha. unfold transaction_test, hexstr_to_bytes_number, for_range.
  destruct (Z.to_nat (address "ref_tx" - 0)) as [|n] eqn:E; [lia|].
  cbn [for_n]. reflexivity.
Qed.
End Test.

Definition testing_main : io Z := _ ← midstate_test; mret 0.

(** ** What they do *)

(** A line of the terminal ends with its newline, which [fgets] keeps: the
    command that closes the peer is never recognised. *)
Definition line_ok (l : list Z * Z * Z) : Prop :=
  ∃ text, l.1.1 = text ++ nl ∧ no_zero text ∧ (length text < 999)%nat ∧ 0 ≤ l.1.2.

Lemma memwrite_line line buf :
  (length line < length buf)%nat →
  ∃ rest, memwrite buf 0 (line ++ [0]) = Done (line ++ 0 :: rest) ∧
    length (line ++ 0%Z :: rest) = length buf.
Proof.
  intros Hl. rewrite memwrite_Done by (len; cbn; lia).
  exists (drop (length line + 1) buf). change (Z.to_nat 0) with 0%nat.
  rewrite patch_0. len. cbn [length]. rewrite <- app_assoc. split; [done|].
  len. cbn [length]. len. lia.
Qed.

Lemma send_lines_run lines : ∀ sendline closed,
  Forall line_ok lines → length sendline = 1000%nat →
  send_lines lines sendline closed =
    mk_io [] (Done ((λ l, l.1.1) <$> lines, closed)).
Proof.
  induction lines as [|[[line ret] errno] lines IH]; intros sendline closed Hl Hs; [done|].
  apply Forall_cons in Hl as [(text & E & Ht & Hlen & Hret) Hls]. cbn in E, Hret. subst line.
  cbn [send_lines].
  assert (no_zero (text ++ nl)) as Hz
    by (apply Forall_app; split; [done|by repeat constructor]).
  destruct (memwrite_line (text ++ nl) sendline) as (rest & -> & Lr).
  { rewrite length_app. change (length nl) with 1%nat. lia. }
  rewrite quiet_bind. unfold streq.
  rewrite !c_string_text, bind_Done by (done || decided). rewrite bind_Done, quiet_bind.
  rewrite bool_decide_eq_false_2.
  2: { intros [=E]%(f_equal last). revert E. unfold nl. rewrite last_snoc. done. }
  rewrite strlen_text, quiet_bind, memread_text, quiet_bind by done.
  rewrite (proj2 (Z.ltb_ge _ _)) by lia.
  rewrite (IH _ (closed || false)) by (done || lia). by rewrite orb_false_r.
Qed.

Lemma midstate_test_run :
  Forall is_byte (uninit "block" 256) →
  testing_main = mk_io (hex_text false (uninit "block" 256) ++ nl ++ nl ++ nl ++ nl ++
    hex_text false (uninit "block" 256)) (Done 0).
Proof.
  intros Hb. pose proof (length_uninit "block" 256) as L. unfold testing_main, midstate_test.
  rewrite print_hex_run by (done || lia). rewrite take_ge by lia.
  apply io_eq; [|done]. cbn [printed ended mbind io_bind]. by rewrite !app_nil_r.
Qed.

End Helpers.
